(* ===== verification/_CoqProject ===== *)
-Q . S2P
Prelude.v
GoStrings.v
Sha256.v
Json.v
GoFloat.v
Provider.v
ToolResult.v
Assembly.v
TurnState.v
WorkItem.v
Command.v
Invariants.v
Effects.v
Validity.v
TurnSpec.v
Sampling.v
Reducer.v
Frames.v
Kernel.v
Runs.v
Scenario.v
TurnSafety.v
TurnDecisions.v
Sharing.v
DomainFacts.v
Coordinator.v
Dispatcher.v
Issued.v
Routing.v
Calls.v
Restart.v
Durability.v
EnvelopeStore.v
StoreLaws.v
Episode.v
TurnDurability.v
Paths.v
PathPattern.v
Netpolicy.v
SecurityModel.v
Controls.v
Commands.v
Guardian.v
Grants.v
Approvals.v
ApprovalSafety.v
Policy.v
Constitution.v
PolicyFacts.v
PolicySafety.v
TextDiff.v
TextDiffLaws.v
DiffPatch.v
RateLimit.v
RateLimitLaws.v
EventHub.v
EventMemory.v
EventHubLaws.v
ExecAuthority.v
Operation.v
Profile.v
ProfileLaws.v
Artifact.v
Lease.v
LeaseLaws.v
Compile.v
CompiledAuthority.v
AuthorityLaws.v
Prepared.v
PreparedLaws.v
