(* ===== verification/Prelude.v ===== *)
(** * The turn runtime, the security policy and shared services of QCode

    QCode runs a coding agent. A user's request is a _turn_: the agent samples a model,
    executes the tool calls the model proposes, asks for approvals, decides whether the
    work is complete, and commits or rolls back what it changed. The decisions of a turn
    are taken by a deterministic kernel, [internal/runtime/agent/turnkernel]; live
    providers, tools and stores only report results to it as commands. This development
    models the kernel, the coordinator that makes its decisions durable, the registry of
    the effects it requests and the store of its terminal envelope, and proves what
    they promise to each other. Whether a tool call may run, and whether a human must
    be asked first, is decided by the security policy, [internal/security]: it assesses
    the call from the resources it resolves to, consults rules from several authorities and a
    cache of approvals, and answers allow, ask, deny or hold. The second part of the
    development models that decision, and what follows an allow: the call is compiled to an
    authority -- a ceiling of permissions, the sandbox controls it requires and the operation it
    is about to perform -- and brokers consume a lease of that authority before they act. The third models services that the rest of the
    program leans on: the line diffs shown and stored for every edit, the admission of
    requests to a provider, and the hub that numbers the events of a runtime and streams
    them to its clients.

    ** Files

    The language: [Prelude] (fallible computations, lists, records, tactics, hints),
    [GoStrings] (strings, strconv, slices), [Sha256], [Json] and [GoFloat]
    ([encoding/json] as far as digests, payloads and raw tool results depend on it).

    The kernel, in the order of the calls:
    - [Provider], [ToolResult], [Assembly]: the data the kernel shares with the provider
      and tool layers, the validity of a response assembly and of its extensions.
    - [TurnState], [WorkItem], [Command]: the state of a turn, its commands, events and
      effects ([state.go], [work_item.go], [observation_set.go], [command.go]).
    - [Invariants]: [Validate] of [invariants.go], check by check. [Validity] proves
      that it decides the predicate [Valid].
    - [Effects], [Sampling], [Reducer]: [Reducer.Apply] with all 36 command handlers
      ([reducer_*.go]). A handler is a function of the transition built so far and the
      state the command met; [Apply] validates before and after.
    - [TurnSpec]: the abstract machines a turn implements: the phase graph, the effect
      ledger, the tool-call ledger, the journal, the sample ledger.
    - [Frames], [Kernel]: every handler simulates each machine ([Apply_sim]); [Runs]
      lifts the simulation to runs; [Scenario] has two concrete turns.
    - [TurnSafety], [TurnDecisions]: the theorems about the kernel.

    The durable runtime:
    - [Sharing]: the observation set the reducer shares with its caller, and states up
      to it, an equivalence the proofs rewrite with.
    - [DomainFacts]: facts, digests, replay ([coordinator.go]), and the interface of a
      fact store: class [DomainFactStore] with the laws [DomainFactStoreLaws].
    - [Coordinator]: [TurnCoordinator] against the interfaces of the store and of the
      dispatcher ([EffectDispatcher], [EffectDispatcherLaws]). A call is a program
      [World -> outcome * World]: it ends with a value or an error, blocks on a lock its
      goroutine holds, or runs out of fuel.
    - [Dispatcher]: the synchronous dispatcher and the durable registry
      ([effect_dispatcher.go]), with its mutex as a flag.
    - [EnvelopeStore]: measurement, terminal envelope and the in-memory reference store
      ([terminal_envelope.go], [measurement.go]).
    - [Issued], [Routing], [Calls], [Restart], [Durability], [StoreLaws]: the proofs;
      [Episode] has the concrete worlds of the witnesses; [TurnDurability] the theorems.

    The security policy:
    - [Paths]: [path/filepath] and [path.Match]; [PathPattern]: path rules and protected
      locations ([policy/pathpattern.go], [pathpolicy]); [Netpolicy]: what a network
      address reaches ([netpolicy]).
    - [SecurityModel]: effects, resources and the decision table of [Assess];
      [Controls]: sandbox controls ([security/model]).
    - [Commands]: shell commands as rules see them ([policy/command.go]); [Guardian]:
      the review of a call by a model ([guardian]).
    - [Grants], [Approvals]: the typed grant of a call, requests and the approval
      cache ([policy/grant.go], [approval.go]); [ApprovalSafety] the theorems.
    - [Policy]: rules, the runtime and [Decide], layer by layer ([policy.go],
      [decide.go], [planning.go], [granular.go], [sources.go]); [Constitution]: documents
      compiled to rules ([constitution.go], [permissions.go]).
    - [PolicyFacts]: the strongest rule of a source, the layers, the stages from the
      posture on; [PolicySafety] the theorems.

    Execution authority:
    - [ExecAuthority]: the authority a sandbox is handed and its checks
      ([security/sandbox/authority.go]).
    - [Operation]: operations, their resources and digests ([authority/operation.go],
      [managed_process.go], [managed_file.go]); [Artifact]: artifact manifests ([artifact.go]).
    - [Profile]: permission profiles and their amendments ([profile.go], [amendment.go]);
      [ProfileLaws] what amending can grant.
    - [Lease]: the lease authority, process handles, and the calls that may reach it in any
      order ([lease.go], [start.go], [settle.go], [process_handle.go]); [LeaseLaws] the theorems.
    - [Compile]: from a decision to a ceiling ([profile.go], [sandbox/policy.go]);
      [CompiledAuthority]: the authority with its operation, late evidence and amended
      ceilings ([compile.go], [operation.go]); [AuthorityLaws] the theorems.
    - [Prepared]: what a process asks of a sandbox backend under an authority, what a backend
      bound to a policy answers, and the checks before a process is started
      ([platform/process/process.go], [sandbox/policy.go], [backend.go], [denial.go]);
      [PreparedLaws] the theorems.

    Shared services:
    - [TextDiff]: line diffs and unified patches ([common/textdiff]); [TextDiffLaws]: the
      diff is a shortest edit script; [DiffPatch]: a reader of unified patches,
      written from the format, and what it makes of the printed ones.
    - [RateLimit]: the controller that admits, reserves and paces requests
      ([adapter/provider/ratelimit]) and the calls that may reach it in any order;
      [RateLimitLaws] the theorems.
    - [EventHub]: the hub ([runtime/app/eventhub]), cut where it releases its locks, with
      the step relation that interleaves the pieces, over the interface of a store
      ([EventStore], [EventStoreLaws]); [EventMemory]: the in-memory store
      ([runtime/app/store.go]) and its instance; [EventHubLaws] the theorems.

    ** What is proved

    Of the kernel: every accepted command follows the phase graph; the terminal
    transaction publishes exactly what it prepared; a completed turn has nothing open, and its
    outcome is fixed by its policy and changes; effects and tool calls are settled exactly once and
    never forgotten; cancellation closes admission; observed changes are only
    appended; which completion declarations are accepted; which commands the command
    matrix admits, and where it and the reducer part; where a command can only fail. Of the durable runtime: the stored facts are the history of the accepted
    commands under any interleaving of submissions, failures, crashes and restarts; a
    restart resumes the committed state and routes its pending effects once; the registry follows the
    kernel, its calls come back and retain the first result; the terminal commit is
    final and atomic under injected faults; the outbox is published once.

    Of the security policy: an allow is authorised by every layer; repository rules and
    constitutions only tighten; the constitution holds against everything else; a demanded
    approval is asked afresh; what is allowed without a human is bounded. Of its parts:
    path rules cover whole subtrees and the tree test is exact; an address classified
    public delivers outside every special-purpose block; satisfaction of sandbox controls is an
    order; the approval cache stays within its limit and keeps the newest, a one-time
    approval is spent by one call, and a refused approval is remembered all the same.

    Of execution authority: compiling needs the authorised call that was decided; the ceiling holds
    what the assessed resources declare, no more and no less; evidence and amendments keep the
    authority that of its call; a chain of amendments grants exactly what was requested, writes only in
    the workspace and outside the denied roots, up to spaces that are trimmed too late. A
    sandbox is asked for exactly the network a ceiling was compiled with, and a command is started
    only when the backend reports what its authority requires. Leases follow their life
    cycle under any calls, and a record keeps the lease it was issued with; a process is launched only
    under a lease of its very operation and once; a handle works until it is completed, and
    pins its lease while it does; a brokered execution settles its lease.

    Of the shared services: the diff is minimal within the bound of its table, and the
    printed patch turns the one text into the other byte by byte; a route admits at most its
    limit in any window, the announced wait is exact, and a route a provider declared
    exhausted stays closed to larger requests until a response says otherwise; a replay
    is fenced; a subscriber gets every event once and in order, whatever interleaves.

    ** Bounds and fuel

    Go's unsigned 64-bit counters are [Z] with [u64]; theorems about identities assume
    that the effect sequence does not wrap ([2^64] effects), because the code
    would then reuse an identity. [SubmitWithCommit] takes fuel for the
    submissions a dispatcher makes while it is called: the durable registry makes none, so
    fuel 1 is enough ([calls_come_back]); the synchronous dispatcher submits the result
    of each effect, so it needs as much fuel as its executors keep the turn busy. The kernel has no
    fuel: its loops are over lists and maps. The analysis of a shell command
    recurses into the scripts it finds; its fuel is the length of the command, which is enough
    when the parser yields no more text than it reads ([analyze_terminates]). The loops of
    [TextDiff] that are not structural (cutting text into lines, walking the table, closing and
    grouping hunks) take the length of their input as fuel, and the theorems hold for it, so
    it is enough. The tokens of the lease authority are arguments; theorems about who holds a lease
    assume that they are distinct and that callers present only what they were given ([legal]). A
    publish tries four times, as the code does. The numbers of events and
    subscribers are not wrapped, nor is the number of context lines of a diff (Go's [2*contextLines]
    wraps near [2^63]; the callers pass 3); token sums and durations of the rate limits are, as in Go.

    ** What is not modelled

    Time is a parameter of the commands. [json.Marshal] of whole states, facts, measurements and
    envelopes is a parameter ([Encodings]), since its text keeps time zones and nil
    slices that the model does not. The goroutines of the engine: calls
    on a coordinator are modelled one after the other, as its mutex orders them. The policy
    takes the parser of shell commands, the one of URLs, the Unicode case tables and the
    digest of a review candidate as parameters (classes [BashSyntax], [UrlSyntax], [Unicode],
    [CandidateDigest]), and the order in which a map is visited as an argument. Compiling an authority
    takes the disk as a parameter ([Disk]: symbolic links, file contents, the working directory), and
    [NilRules], which rule lists are nil slices. Preparing a process takes its environment, the search
    for its executable and the text of a proxy's URL as parameters ([ProcessHost]), and the backend
    as a function. Reading and
    writing constitution and permissions files and fencing a process start by a revision are not
    modelled, nor is what a sandbox backend makes of an authority on the operating system. Floating point
    arithmetic on rates and the dates in provider headers are parameters of [RateLimit] (class
    [Readings]), and so is the clock; making and validating an event are arguments of
    [EventHub], which leaves out the SQL event store. Of the other parts of the program (tools,
    sandbox profiles, brokers, orchestration, host, persistence over SQL, web interface) nothing is modelled
    but the data the kernel stores; the kernel reaches them through commands and the
    interfaces above. *)
From stdpp Require Export base option list gmap strings pretty sorting relations.
From Stdlib Require Export ZArith Lia Ascii.
From Stdlib Require String.
Export Stdlib.Strings.String(string(..)).

#[export] Set Warnings "-clear-no-such-hyp,-notation-for-abbreviation".

Open Scope string_scope.
Open Scope list_scope.
Open Scope Z_scope.
Open Scope stdpp_scope.

(** * Fallible computations *)

(** [res E A] is a Go call returning [(A, error)]: [Ok a] is a nil error. *)
Inductive res (E A : Type) : Type :=
  | Ok (a : A)
  | Err (e : E).
Arguments Ok {E A} a.
Arguments Err {E A} e.

Definition res_bind {E A B} (f : A → res E B) (m : res E A) : res E B :=
  match m with
  | Ok a => f a
  | Err e => Err e
  end.

#[export] Instance res_ret E : MRet (res E) := λ A, Ok.
#[export] Instance res_mbind E : MBind (res E) := λ A B, res_bind.

(** [if !b { return e }]. *)
Definition require {E} (b : bool) (e : E) : res E unit :=
  if b then Ok tt else Err e.

(** [if b { return e }]. *)
Definition refuse {E} (b : bool) (e : E) : res E unit :=
  if b then Err e else Ok tt.

Definition is_ok {E A} (m : res E A) : bool :=
  match m with Ok _ => true | Err _ => false end.

(** The loop [for _, x := range l { a, err = f(a, x); if err != nil { return err } }]. *)
Fixpoint foldM {E A B} (f : A → B → res E A) (l : list B) (a : A) : res E A :=
  match l with
  | [] => Ok a
  | x :: l => a' ← f a x; foldM f l a'
  end.

(** The loop [for _, x := range l { if err := f(x); err != nil { return err } }]. *)
Definition iterM {E A} (f : A → res E unit) (l : list A) : res E unit :=
  foldM (λ _ x, f x) l tt.

Lemma bind_Ok {E A B} (m : res E A) (f : A → res E B) b :
  (m ≫= f) = Ok b ↔ ∃ a, m = Ok a ∧ f a = Ok b.
Proof. destruct m; cbn; naive_solver. Qed.

Lemma is_ok_Ok {E A} (m : res E A) : is_ok m = true → ∃ a, m = Ok a.
Proof. destruct m; [eauto|done]. Qed.

Lemma Ok_inj {E A} (x y : A) : (Ok x : res E A) = Ok y → x = y.
Proof. by injection 1. Qed.

Lemma require_Ok {E} (b : bool) (e : E) u : require b e = Ok u ↔ b = true.
Proof. destruct b, u; cbn; naive_solver. Qed.

Lemma refuse_Ok {E} (b : bool) (e : E) u : refuse b e = Ok u ↔ b = false.
Proof. destruct b, u; cbn; naive_solver. Qed.

Lemma foldM_app {E A B} (f : A → B → res E A) l1 l2 a :
  foldM f (l1 ++ l2) a = (foldM f l1 a ≫= foldM f l2).
Proof.
  revert a. induction l1 as [|x l1 IH]; intros a; cbn; [done|].
  destruct (f a x); cbn; auto.
Qed.

(** Invariants of a checked loop. *)
Lemma foldM_ind {E A B} (P : A → Prop) (f : A → B → res E A) l a a' :
  P a → (∀ b x b', x ∈ l → P b → f b x = Ok b' → P b') →
  foldM f l a = Ok a' → P a'.
Proof.
  revert a. induction l as [|x l IH]; cbn; intros a Ha Hstep Hf; [naive_solver|].
  apply bind_Ok in Hf as (b & Hb & Hf).
  eapply IH; [| |exact Hf].
  - eapply Hstep; [left|..]; eauto.
  - intros b' y b'' Hy. apply Hstep. by right.
Qed.

Lemma iterM_Ok {E A} (f : A → res E unit) l u :
  iterM f l = Ok u ↔ Forall (λ x, f x = Ok tt) l.
Proof.
  unfold iterM. destruct u. induction l as [|x l IH]; cbn; [naive_solver|].
  rewrite bind_Ok, Forall_cons, <- IH. split; [intros ([] & ? & ?)|]; naive_solver.
Qed.

(** Checks as conjunctions: [autorewrite with check]. *)
Lemma then_Ok {E B} (m : res E unit) (k : res E B) b : (m;; k) = Ok b ↔ m = Ok tt ∧ k = Ok b.
Proof. destruct m as [[]|]; cbn; naive_solver. Qed.
Lemma run_Ok {E A B} (m : res E A) (k : res E B) b :
  (m;; k) = Ok b ↔ (∃ a, m = Ok a) ∧ k = Ok b.
Proof. destruct m; cbn; naive_solver. Qed.
Lemma ret_Ok {E} : (Ok tt : res E unit) = Ok tt ↔ True.
Proof. done. Qed.
Lemma err_Ok {E A} (e : E) (a : A) : Err e = Ok a ↔ False.
Proof. done. Qed.
Lemma if_Ok {E A} (b : bool) (m n : res E A) a :
  (if b then m else n) = Ok a ↔ (b = true → m = Ok a) ∧ (b = false → n = Ok a).
Proof. destruct b; naive_solver. Qed.
Lemma opt_Ok {E A B} (o : option A) (f : A → res E B) m b :
  match o with Some a => f a | None => m end = Ok b
  ↔ (∀ a, o = Some a → f a = Ok b) ∧ (o = None → m = Ok b).
Proof. destruct o; naive_solver. Qed.
Lemma forall_Some {A} (x : A) (P : A → Prop) : (∀ a, Some x = Some a → P a) ↔ P x.
Proof. naive_solver. Qed.
Lemma forall_None {A} (P : A → Prop) : (∀ a, None = Some a → P a) ↔ True.
Proof. naive_solver. Qed.
Lemma neq_or (x y : Z) (P : Prop) : x ≠ y ∨ P ↔ (x = y → P).
Proof. destruct (decide (x = y)); naive_solver. Qed.
Lemma bool_eq_iff (b c : bool) : b = c ↔ (b = true ↔ c = true).
Proof. destruct b, c; naive_solver. Qed.

Create HintDb check discriminated.
#[export] Hint Rewrite @then_Ok @require_Ok @refuse_Ok @ret_Ok @err_Ok @forall_Some @forall_None
  andb_true_iff orb_false_iff andb_false_iff orb_true_iff negb_true_iff negb_false_iff
  @bool_decide_eq_true @bool_decide_eq_false Z.eqb_eq Z.eqb_neq Z.leb_le Z.leb_gt
  Z.ltb_lt Z.ltb_ge String.eqb_eq String.eqb_neq : check.

(** A loop that refuses a repeated key. *)
Lemma foldM_seen {E A K} (f : list K → A → res E (list K)) (key : A → K) (P : A → Prop) :
  (∀ seen x r, f seen x = Ok r ↔ P x ∧ key x ∉ seen ∧ r = key x :: seen) →
  ∀ l seen, (∃ r, foldM f l seen = Ok r)
            ↔ Forall P l ∧ NoDup (key <$> l) ∧ (∀ k, k ∈ key <$> l → k ∉ seen).
Proof.
  intros Hf l. induction l as [|x l IH]; intros seen; cbn.
  - split; [|by eauto]. intros _. split_and!; [by constructor..|].
    intros k Hk. by apply not_elem_of_nil in Hk.
  - rewrite Forall_cons, NoDup_cons. split.
    + intros (r & (seen' & (? & ? & ->)%Hf & Hr)%bind_Ok).
      destruct (IH (key x :: seen)) as [IH1 _]. destruct IH1 as (? & ? & Hout); [by eauto|].
      split_and!; try done.
      * intros Hin. apply (Hout _ Hin). by left.
      * intros k [->|Hk]%elem_of_cons Hseen; [done|]. apply (Hout _ Hk). by right.
    + intros ([HP Hl] & [Hnot Hnd] & Hout).
      destruct (proj2 (IH (key x :: seen))) as [r Hr].
      * split_and!; [done..|]. intros k Hk [->|Hin]%elem_of_cons; [done|].
        apply (Hout k); [by right|done].
      * exists r. apply bind_Ok. exists (key x :: seen). split; [|done]. apply Hf.
        split_and!; [done| |done]. apply Hout. by left.
Qed.

(** Inversion of a successful computation, one construct at a time. *)
Ltac inv_ok1 :=
  match goal with
  | H : Err _ = Ok _ |- _ => discriminate H
  | H : Ok _ = Err _ |- _ => discriminate H
  | H : Ok ?x = Ok ?y |- _ =>
      first [is_var y; injection H as <- | is_var x; injection H as -> | apply Ok_inj in H]
  | H : mret _ = Ok _ |- _ => unfold mret, res_ret in H
  | H : (_ ≫= _) = Ok _ |- _ =>
      let x := fresh "x" in let Hx := fresh "Hx" in
      apply bind_Ok in H as (x & Hx & H)
  | H : require _ _ = Ok _ |- _ => apply require_Ok in H
  | H : refuse _ _ = Ok _ |- _ => apply refuse_Ok in H
  end.
Ltac inv_ok := repeat (inv_ok1; cbn beta iota in *).

(** As [inv_ok], splitting the conditionals and matches met on the way. *)
Ltac case_ok1 :=
  match goal with
  | H : (match ?x with _ => _ end) = Ok _ |- _ => destruct x eqn:?
  end.
Ltac inv_case := repeat (first [inv_ok1 | case_ok1]; cbn beta iota in *).

(** Boolean guards as propositions. *)
Ltac bool_prop :=
  repeat match goal with
  | H : (_ && _) = true |- _ => apply andb_true_iff in H as [? ?]
  | H : (_ || _) = false |- _ => apply orb_false_iff in H as [? ?]
  | H : negb _ = true |- _ => apply negb_true_iff in H
  | H : negb _ = false |- _ => apply negb_false_iff in H
  | H : bool_decide _ = true |- _ => apply bool_decide_eq_true in H
  | H : bool_decide _ = false |- _ => apply bool_decide_eq_false in H
  | H : (_ =? _)%Z = true |- _ => apply Z.eqb_eq in H
  | H : (_ =? _)%Z = false |- _ => apply Z.eqb_neq in H
  | H : (_ <? _)%Z = true |- _ => apply Z.ltb_lt in H
  | H : (_ <? _)%Z = false |- _ => apply Z.ltb_ge in H
  | H : (_ <=? _)%Z = true |- _ => apply Z.leb_le in H
  | H : (_ <=? _)%Z = false |- _ => apply Z.leb_gt in H
  | H : (_ =? _)%string = true |- _ => apply String.eqb_eq in H
  | H : (_ =? _)%string = false |- _ => apply String.eqb_neq in H
  | H : ¬ is_Some _ |- _ => apply eq_None_not_Some in H
  | H : ¬ _ ≠ _ |- _ => apply dec_stable in H
  end.

(** * Errors *)

(** Arguments of a formatted error. *)
Inductive arg := ArgS (s : string) | ArgZ (z : Z).

(** [errors.New(msg)], [fmt.Errorf(format, args...)] and
    [fmt.Errorf("...: %w", args..., inner)]. *)
Inductive error :=
  | ErrText (msg : string)
  | ErrFmt (format : string) (args : list arg)
  | ErrWrap (format : string) (args : list arg) (inner : error).

(** * Machine integers *)

(** Go's [uint32] and [uint64] are [Z] values in range; arithmetic on them
    wraps, which [u32] and [u64] write out. *)
Definition u32 (z : Z) : Z := z mod 2 ^ 32.
Definition u64 (z : Z) : Z := z mod 2 ^ 64.
Definition is_u32 (z : Z) : Prop := 0 ≤ z < 2 ^ 32.
Definition is_u64 (z : Z) : Prop := 0 ≤ z < 2 ^ 64.

Lemma u32_small z : is_u32 z → u32 z = z.
Proof. apply Z.mod_small. Qed.
Lemma u64_small z : is_u64 z → u64 z = z.
Proof. apply Z.mod_small. Qed.
Lemma u32_range z : is_u32 (u32 z).
Proof. apply Z.mod_pos_bound. lia. Qed.
Lemma u64_range z : is_u64 (u64 z).
Proof. apply Z.mod_pos_bound. lia. Qed.

Definition max_int64 : Z := 2 ^ 63 - 1.

(** * Records *)

(** [field_setter eta proj] is the function replacing field [proj] of a record
    whose eta expansion is [eta]; every [set_x] of the development is made so. *)
Ltac field_setter eta proj :=
  let go v r :=
    let b := eval cbv beta delta [eta] in (eta r) in
    match b with
    | context C [proj r] => let b' := context C [v] in exact b'
    end in
  match goal with |- ?V → ?R → _ => exact (λ (v : V) (r : R), ltac:(go v r)) end.

(** Field updates read as a pipeline: [s |> set_a x |> set_b y]. *)
Notation "x |> f" := (f x) (at level 61, left associativity, only parsing) : stdpp_scope.

(** Consecutive integers ascend. *)
Lemma seqZ_lt_sorted m n : StronglySorted Z.lt (seqZ m (Z.of_nat n)).
Proof.
  revert m. induction n as [|n IH]; intros m; [constructor|].
  rewrite seqZ_cons by lia. replace (Z.pred (Z.of_nat (S n))) with (Z.of_nat n) by lia.
  apply StronglySorted_cons. split; [|apply IH].
  apply Forall_forall. intros x Hx. apply elem_of_seqZ in Hx. lia.
Qed.
