(* ===== verification/GoStrings.v ===== *)
(** The parts of Go's [strings], [strconv], [slices] and [fmt] that the
    modelled code uses, on byte strings ([Stdlib] [string] = Go [string]). *)
From S2P Require Import Prelude.

(** ** Bytes *)

Definition code (a : ascii) : Z := Z.of_N (N_of_ascii a).
Definition chr (z : Z) : ascii := ascii_of_N (Z.to_N (z mod 256)).
Definition bytes (s : string) : list Z := code <$> String.list_ascii_of_string s.
Definition of_bytes (l : list Z) : string := String.string_of_list_ascii (chr <$> l).

(** Equality tests print as Go's [==]. *)
Notation "s == t" := (String.eqb s t) (at level 70, only parsing) : stdpp_scope.
Notation "s != t" := (negb (String.eqb s t)) (at level 70, only parsing) : stdpp_scope.

(** ** strings.TrimSpace *)

(** [unicode.IsSpace] on the one-, two- and three-byte UTF-8 encodings:
    ASCII white space; U+0085 and U+00A0; U+1680, U+2000-200A, U+2028, U+2029,
    U+202F, U+205F and U+3000. *)
Definition space1 (a : ascii) : bool :=
  let a := code a in ((9 <=? a) && (a <=? 13)) || (a =? 32).
Definition space2 (a b : ascii) : bool :=
  let a := code a in let b := code b in
  (a =? 0xC2) && ((b =? 0x85) || (b =? 0xA0)).
Definition space3 (a b c : ascii) : bool :=
  let a := code a in let b := code b in let c := code c in
  ((a =? 0xE1) && (b =? 0x9A) && (c =? 0x80)) ||
  ((a =? 0xE2) && (b =? 0x80) &&
     (((0x80 <=? c) && (c <=? 0x8A)) || (c =? 0xA8) || (c =? 0xA9) || (c =? 0xAF))) ||
  ((a =? 0xE2) && (b =? 0x81) && (c =? 0x9F)) ||
  ((a =? 0xE3) && (b =? 0x80) && (c =? 0x80)).

Fixpoint trim_left (s : string) : string :=
  match s with
  | String a s1 =>
      if space1 a then trim_left s1 else
      match s1 with
      | String b s2 =>
          if space2 a b then trim_left s2 else
          match s2 with
          | String c s3 => if space3 a b c then trim_left s3 else s
          | EmptyString => s
          end
      | EmptyString => s
      end
  | EmptyString => s
  end.

(** [trim_left] on a reversed string, the encodings read backwards. *)
Fixpoint trim_left_rev (s : string) : string :=
  match s with
  | String a s1 =>
      if space1 a then trim_left_rev s1 else
      match s1 with
      | String b s2 =>
          if space2 b a then trim_left_rev s2 else
          match s2 with
          | String c s3 => if space3 c b a then trim_left_rev s3 else s
          | EmptyString => s
          end
      | EmptyString => s
      end
  | EmptyString => s
  end.

Definition string_rev (s : string) : string :=
  String.string_of_list_ascii (rev (String.list_ascii_of_string s)).

Definition trim_space (s : string) : string :=
  string_rev (trim_left_rev (string_rev (trim_left s))).

(** [strings.TrimSpace(s) == ""]. *)
Definition blank (s : string) : bool := trim_space s == "".

Definition has_prefix (s pre : string) : bool := String.prefix pre s.

(** [strings.Join]. *)
Definition join (sep : string) (l : list string) : string := String.concat sep l.

(** ** strconv and fmt *)

Definition itoa (z : Z) : string := pretty z.

(** [fmt.Sprintf("%t", b)]. *)
Definition fmt_bool (b : bool) : string := if b then "true" else "false".

Definition hex_digit (z : Z) : ascii :=
  match String.get (Z.to_nat z) "0123456789abcdef" with
  | Some a => a
  | None => "0"%char
  end.

(** The [n] low hexadecimal digits of [z], most significant first:
    [%0nx] for a value below [16^n]. *)
Fixpoint hex_pad (n : nat) (z : Z) : string :=
  match n with
  | O => ""
  | S n => String (hex_digit (Z.shiftr z (4 * Z.of_nat n) mod 16)) (hex_pad n z)
  end.

(** [hex.EncodeToString]. *)
Definition hex_encode (l : list Z) : string :=
  fold_right (λ b s, hex_pad 2 b +:+ s) "" l.

(** ** Sorting strings *)

(** [slices.Sort] on strings (bytewise order). *)
Definition sort_strings (l : list string) : list string := merge_sort String.le l.

(** [slices.Compact]: drops an element equal to its predecessor. *)
Fixpoint compact (l : list string) : list string :=
  match l with
  | x :: ((y :: _) as l') => if x == y then compact l' else x :: compact l'
  | _ => l
  end.

Definition strings_equal (l k : list string) : bool := bool_decide (l = k).

(** Membership tests [slices.Contains]. *)
Definition contains (l : list string) (x : string) : bool := bool_decide (x ∈ l).

(** ** Facts *)

Lemma sort_strings_Permutation l : sort_strings l ≡ₚ l.
Proof. apply merge_sort_Permutation. Qed.

Lemma sort_strings_sorted l : StronglySorted String.le (sort_strings l).
Proof. apply StronglySorted_merge_sort; apply _. Qed.

Lemma elem_of_sort_strings x l : x ∈ sort_strings l ↔ x ∈ l.
Proof. by rewrite sort_strings_Permutation. Qed.

Lemma NoDup_sort_strings l : NoDup l → NoDup (sort_strings l).
Proof. by rewrite sort_strings_Permutation. Qed.

(** Sorting is canonical: permuted inputs sort to the same list. *)
Lemma sort_strings_perm l k : l ≡ₚ k → sort_strings l = sort_strings k.
Proof.
  intros Hp. apply (StronglySorted_unique String.le); [apply sort_strings_sorted..|].
  by rewrite !sort_strings_Permutation.
Qed.

Lemma eqb_refl s : (s == s) = true.
Proof. apply String.eqb_refl. Qed.

Lemma string_app_inj_l (s t u : string) : s +:+ t = s +:+ u → t = u.
Proof. apply (inj (String.append s)). Qed.

(** Hexadecimal padding is injective below [16^n]. *)
Lemma hex_digit_inj a b :
  0 ≤ a < 16 → 0 ≤ b < 16 → hex_digit a = hex_digit b → a = b.
Proof.
  intros Ha Hb.
  assert (Hall : Forall (λ x, Forall (λ y, hex_digit x = hex_digit y → x = y)
            (seqZ 0 16)) (seqZ 0 16)).
  { apply (bool_decide_unpack _). vm_compute. done. }
  assert (a ∈ seqZ 0 16 ∧ b ∈ seqZ 0 16) as [Hina Hinb]
    by (rewrite !elem_of_seqZ; lia).
  rewrite Forall_forall in Hall. apply Hall in Hina.
  rewrite Forall_forall in Hina. auto.
Qed.

Lemma hex_pad_inj n a b :
  0 ≤ a < 16 ^ Z.of_nat n → 0 ≤ b < 16 ^ Z.of_nat n →
  hex_pad n a = hex_pad n b → a = b.
Proof.
  assert (Hgen : ∀ n a b, hex_pad n a = hex_pad n b →
            a mod 16 ^ Z.of_nat n = b mod 16 ^ Z.of_nat n).
  { clear. induction n as [|n IH]; intros a b; cbn [hex_pad].
    - intros _. by rewrite !Z.mod_1_r.
    - intros [= Hd Hr]. apply IH in Hr.
      apply hex_digit_inj in Hd; [|apply Z.mod_pos_bound; lia..].
      rewrite !Z.shiftr_div_pow2 in Hd by lia.
      replace (2 ^ (4 * Z.of_nat n)) with (16 ^ Z.of_nat n) in Hd
        by (rewrite Z.pow_mul_r by lia; done).
      pose proof (Z.pow_pos_nonneg 16 (Z.of_nat n)).
      rewrite Nat2Z.inj_succ, Z.pow_succ_r, (Z.mul_comm 16) by lia.
      rewrite !Z.rem_mul_r by lia. by rewrite Hd, Hr. }
  intros Ha Hb Heq. apply Hgen in Heq. by rewrite !Z.mod_small in Heq by lia.
Qed.

(** ** Trimming *)

(** A string that begins with no space. *)
Definition starts_clean (sp2 : ascii → ascii → bool) (sp3 : ascii → ascii → ascii → bool)
    (l : list ascii) : Prop :=
  match l with
  | [] => True
  | a :: l => space1 a = false ∧
    match l with
    | [] => True
    | b :: l => sp2 a b = false ∧ match l with [] => True | c :: _ => sp3 a b c = false end
    end
  end.

Lemma trim_left_clean s : starts_clean space2 space3 (String.list_ascii_of_string (trim_left s)).
Proof.
  enough (H : ∀ n s, (String.length s ≤ n)%nat → starts_clean space2 space3 (String.list_ascii_of_string (trim_left s))) by eauto.
  clear s. induction n as [|n IH]; intros [|a s1] Hn; try (cbn in Hn; lia); [done..|].
  cbn [trim_left]. cbn [String.length] in Hn. destruct (space1 a) eqn:E1; [apply IH; lia|].
  destruct s1 as [|b s2]; [done|]. cbn [String.length] in Hn. destruct (space2 a b) eqn:E2; [apply IH; lia|].
  destruct s2 as [|c s3]; [done|]. cbn [String.length] in Hn. destruct (space3 a b c) eqn:E3; [apply IH; lia|].
  done.
Qed.

Lemma trim_left_id s : starts_clean space2 space3 (String.list_ascii_of_string s) → trim_left s = s.
Proof.
  destruct s as [|a [|b [|c s]]]; cbn; [done|..]; intros; destruct_and?; repeat match goal with H : _ = false |- _ => rewrite H end; done.
Qed.

Lemma trim_left_rev_clean s :
  starts_clean (λ a b, space2 b a) (λ a b c, space3 c b a)
    (String.list_ascii_of_string (trim_left_rev s)).
Proof.
  enough (H : ∀ n s, (String.length s ≤ n)%nat → starts_clean (λ a b, space2 b a)
    (λ a b c, space3 c b a) (String.list_ascii_of_string (trim_left_rev s))) by eauto.
  clear s. induction n as [|n IH]; intros [|a s1] Hn; try (cbn in Hn; lia); [done..|].
  cbn [trim_left_rev]. cbn [String.length] in Hn. destruct (space1 a) eqn:E1; [apply IH; lia|].
  destruct s1 as [|b s2]; [done|]. cbn [String.length] in Hn. destruct (space2 b a) eqn:E2; [apply IH; lia|].
  destruct s2 as [|c s3]; [done|]. cbn [String.length] in Hn. destruct (space3 c b a) eqn:E3; [apply IH; lia|].
  done.
Qed.

Lemma trim_left_rev_id s :
  starts_clean (λ a b, space2 b a) (λ a b c, space3 c b a) (String.list_ascii_of_string s) →
  trim_left_rev s = s.
Proof.
  destruct s as [|a [|b [|c s]]]; cbn; [done|..]; intros; destruct_and?;
    repeat match goal with H : _ = false |- _ => rewrite H end; done.
Qed.

Lemma trim_left_rev_suffix s :
  ∃ p, String.list_ascii_of_string s = p ++ String.list_ascii_of_string (trim_left_rev s).
Proof.
  enough (H : ∀ n s, (String.length s ≤ n)%nat → ∃ p,
    String.list_ascii_of_string s = p ++ String.list_ascii_of_string (trim_left_rev s)) by eauto.
  clear s. induction n as [|n IH]; intros [|a s1] Hn; try (cbn in Hn; lia); [by exists []..|].
  cbn [trim_left_rev]. cbn [String.length] in Hn.
  destruct (space1 a); [destruct (IH s1) as [p Hp]; [lia|]; exists (a :: p); cbn; by rewrite Hp|].
  destruct s1 as [|b s2]; [by exists []|]. cbn [String.length] in Hn.
  destruct (space2 b a);
    [destruct (IH s2) as [p Hp]; [lia|]; exists (a :: b :: p); cbn; by rewrite Hp|].
  destruct s2 as [|c s3]; [by exists []|]. cbn [String.length] in Hn.
  destruct (space3 c b a);
    [destruct (IH s3) as [p Hp]; [lia|]; exists (a :: b :: c :: p); cbn; by rewrite Hp|].
  by exists [].
Qed.

Lemma starts_clean_prefix sp2 sp3 l1 l2 : starts_clean sp2 sp3 (l1 ++ l2) → starts_clean sp2 sp3 l1.
Proof. destruct l1 as [|a [|b [|c l1]]]; cbn; tauto. Qed.

Lemma trim_space_idemp s : trim_space (trim_space s) = trim_space s.
Proof.
  unfold trim_space. set (u := trim_left s). set (v := trim_left_rev (string_rev u)).
  assert (Hc : starts_clean space2 space3 (String.list_ascii_of_string (string_rev v))).
  { destruct (trim_left_rev_suffix (string_rev u)) as [p Hp]. fold v in Hp.
    pose proof (trim_left_clean s) as Hu. fold u in Hu. apply (f_equal (@rev ascii)) in Hp.
    unfold string_rev in Hp at 1. rewrite String.list_ascii_of_string_of_list_ascii, rev_involutive,
      rev_app_distr in Hp. rewrite Hp in Hu. apply starts_clean_prefix in Hu.
    unfold string_rev. by rewrite String.list_ascii_of_string_of_list_ascii. }
  rewrite (trim_left_id _ Hc).
  assert (Ev : string_rev (string_rev v) = v).
  { unfold string_rev. by rewrite String.list_ascii_of_string_of_list_ascii, rev_involutive,
      String.string_of_list_ascii_of_string. }
  rewrite Ev. by rewrite (trim_left_rev_id v (trim_left_rev_clean _)).
Qed.
