(* ===== verification/Sha256.v ===== *)
(** [crypto/sha256] (FIPS 180-4) on byte strings, executable. The code only
    relies on digests being a function of their input, written ["sha256:"]
    followed by 64 hexadecimal digits. *)
From S2P Require Import Prelude.
From S2P Require Import GoStrings.

(** The low 32 bits, which is [u32] without a division. *)
Definition low32 (x : Z) : Z := Z.land x 4294967295.

Lemma low32_u32 x : low32 x = u32 x.
Proof. unfold low32, u32. change 4294967295 with (Z.ones 32). by apply Z.land_ones. Qed.

Definition rotr (n x : Z) : Z := Z.lor (Z.shiftr x n) (low32 (Z.shiftl x (32 - n))).
Definition big_sigma0 x := Z.lxor (rotr 2 x) (Z.lxor (rotr 13 x) (rotr 22 x)).
Definition big_sigma1 x := Z.lxor (rotr 6 x) (Z.lxor (rotr 11 x) (rotr 25 x)).
Definition small_sigma0 x := Z.lxor (rotr 7 x) (Z.lxor (rotr 18 x) (Z.shiftr x 3)).
Definition small_sigma1 x := Z.lxor (rotr 17 x) (Z.lxor (rotr 19 x) (Z.shiftr x 10)).
Definition choose x y z := Z.lxor (Z.land x y) (Z.land (4294967295 - x) z).
Definition majority x y z := Z.lxor (Z.land x y) (Z.lxor (Z.land x z) (Z.land y z)).

(** The constants are the first 32 bits of the fractional parts of the roots of
    the first primes: cube roots for the rounds, square roots for the initial hash. *)
Definition is_prime (n : Z) : bool := forallb (λ d, negb (n mod d =? 0)) (seqZ 2 (n - 2)).

Definition primes : list Z := filter (λ n, is_prime n = true) (seqZ 2 310).

(** The largest [r] with [r * r * r <= n], bit by bit from bit [i - 1]. *)
Fixpoint cube_root (i : nat) (r n : Z) : Z :=
  match i with
  | O => r
  | S i => let r' := r + 2 ^ Z.of_nat i in
           cube_root i (if r' * r' * r' <=? n then r' else r) n
  end.

Definition round_constants : list Z :=
  Eval vm_compute in (λ p, u32 (cube_root 36 0 (p * 2 ^ 96))) <$> primes.

Definition initial_hash : list Z :=
  Eval vm_compute in (λ p, u32 (Z.sqrt (p * 2 ^ 64))) <$> take 8 primes.

(** Big-endian bytes of a word and words of a block. *)
Fixpoint be_bytes (n : nat) (x : Z) : list Z :=
  match n with
  | O => []
  | S n => Z.shiftr x (8 * Z.of_nat n) mod 256 :: be_bytes n x
  end.

Fixpoint words (l : list Z) : list Z :=
  match l with
  | a :: b :: c :: d :: l => a * 16777216 + b * 65536 + c * 256 + d :: words l
  | _ => []
  end.

Definition pad (l : list Z) : list Z :=
  let n := Z.of_nat (length l) in
  l ++ [0x80] ++ replicate (Z.to_nat ((55 - n) mod 64)) 0 ++ be_bytes 8 (8 * n).

(** The message schedule, latest word first. *)
Fixpoint schedule (n : nat) (w : list Z) : list Z :=
  match n with
  | O => w
  | S n =>
      let w2 := nth 1 w 0 in let w7 := nth 6 w 0 in
      let w15 := nth 14 w 0 in let w16 := nth 15 w 0 in
      schedule n (low32 (small_sigma1 w2 + w7 + small_sigma0 w15 + w16) :: w)
  end.

Definition round (h : list Z) (kw : Z * Z) : list Z :=
  match h with
  | [a; b; c; d; e; f; g; i] =>
      let t1 := i + big_sigma1 e + choose e f g + fst kw + snd kw in
      let t2 := big_sigma0 a + majority a b c in
      [low32 (t1 + t2); a; b; c; low32 (d + t1); e; f; g]
  | _ => h
  end.

Definition block (h : list Z) (b : list Z) : list Z :=
  let w := rev (schedule 48 (rev (words b))) in
  zip_with (λ x y, low32 (x + y)) h (foldl round h (zip round_constants w)).

Fixpoint blocks (fuel : nat) (h : list Z) (l : list Z) : list Z :=
  match fuel with
  | O => h
  | S fuel =>
      match l with
      | [] => h
      | _ => blocks fuel (block h (take 64 l)) (drop 64 l)
      end
  end.

(** [sha256.Sum256]; the padded length bounds the number of blocks. *)
Definition sum256 (s : string) : list Z :=
  let p := pad (bytes s) in
  mjoin (be_bytes 4 <$> blocks (length p) initial_hash p).

(** [hex.EncodeToString(sum[:])]. *)
Definition sha256_hex (s : string) : string := hex_encode (sum256 s).

(** The digest notation used everywhere in the code. *)
Definition sha256_digest (s : string) : string := "sha256:" +:+ sha256_hex s.

Example sha256_empty :
  sha256_hex "" = "e3b0c44298fc1c149afbf4c8996fb92427ae41e4649b934ca495991b7852b855".
Proof. vm_compute. reflexivity. Qed.

Example sha256_abc :
  sha256_hex "abc" = "ba7816bf8f01cfea414140de5dae2223b00361a396177a9cb410ff61f20015ad".
Proof. vm_compute. reflexivity. Qed.

Example sha256_two_blocks :
  sha256_hex "abcdbcdecdefdefgefghfghighijhijkijkljklmklmnlmnomnopnopq" =
  "248d6a61d20638b8e5c026930c3e6039a33ce45964ff2167f6ecedd419db06c1".
Proof. vm_compute. reflexivity. Qed.

Lemma sha256_digest_prefix s : has_prefix (sha256_digest s) "sha256:" = true.
Proof.
  unfold has_prefix, sha256_digest. generalize (sha256_hex s). intros t.
  apply String.prefix_correct. cbn. by destruct t.
Qed.

#[global] Opaque sum256 sha256_hex.
