(* ===== verification/Json.v ===== *)
(** Go's [encoding/json]: values, [Marshal] with HTML escaping, [Unmarshal]
    of an arbitrary text, and the float64 re-encoding of numbers that a value
    decoded into [any] goes through. *)
From S2P Require Import Prelude.
From S2P Require Import GoStrings.

(** Numbers keep the literal they are written with; [JRaw] is a
    [json.RawMessage], which the parser never produces. *)
Inductive json :=
  | JNull
  | JBool (b : bool)
  | JNum (literal : string)
  | JStr (s : string)
  | JArr (l : list json)
  | JObj (members : list (string * json))
  | JRaw (text : string).

Definition JInt (z : Z) : json := JNum (itoa z).

(** ** UTF-8 *)

Definition is_cont (b : Z) : bool := (0x80 <=? b) && (b <=? 0xBF).

(** [utf8.DecodeRune]: the rune at the head of the bytes and its width;
    [None] stands for [RuneError] of width 1. *)
Definition decode_rune (l : list Z) : option Z * nat :=
  match l with
  | b0 :: l1 =>
      if b0 <? 0x80 then (Some b0, 1%nat) else
      match l1 with
      | b1 :: l2 =>
          if (0xC2 <=? b0) && (b0 <=? 0xDF) && is_cont b1
          then (Some ((b0 - 0xC0) * 64 + (b1 - 0x80)), 2%nat) else
          match l2 with
          | b2 :: l3 =>
              if (0xE0 <=? b0) && (b0 <=? 0xEF) && is_cont b1 && is_cont b2
                 && negb ((b0 =? 0xE0) && (b1 <? 0xA0)) && negb ((b0 =? 0xED) && (0x9F <? b1))
              then (Some ((b0 - 0xE0) * 4096 + (b1 - 0x80) * 64 + (b2 - 0x80)), 3%nat) else
              match l3 with
              | b3 :: _ =>
                  if (0xF0 <=? b0) && (b0 <=? 0xF4) && is_cont b1 && is_cont b2 && is_cont b3
                     && negb ((b0 =? 0xF0) && (b1 <? 0x90)) && negb ((b0 =? 0xF4) && (0x8F <? b1))
                  then (Some ((b0 - 0xF0) * 262144 + (b1 - 0x80) * 4096
                              + (b2 - 0x80) * 64 + (b3 - 0x80)), 4%nat)
                  else (None, 1%nat)
              | [] => (None, 1%nat)
              end
          | [] => (None, 1%nat)
          end
      | [] => (None, 1%nat)
      end
  | [] => (None, 0%nat)
  end.

(** [utf8.AppendRune]. *)
Definition encode_rune (r : Z) : list Z :=
  if r <? 0x80 then [r]
  else if r <? 0x800 then [0xC0 + r / 64; 0x80 + r mod 64]
  else if r <? 0x10000 then [0xE0 + r / 4096; 0x80 + r / 64 mod 64; 0x80 + r mod 64]
  else [0xF0 + r / 262144; 0x80 + r / 4096 mod 64; 0x80 + r / 64 mod 64; 0x80 + r mod 64].

Definition rune_error : list Z := [0xEF; 0xBF; 0xBD].

(** ** Marshal *)

Definition quote_mark : string := String (ascii_of_N 34) "".
Definition backslash : string := String (ascii_of_N 92) "".

(** JSON text written with apostrophes for quotes. *)
Definition dquote (s : string) : string :=
  of_bytes ((λ b, if b =? 39 then 34 else b) <$> bytes s).

(** One rune of [appendString] with [escapeHTML] set. *)
Definition escape_rune (raw : list Z) (r : option Z) : string :=
  match r with
  | None => backslash +:+ "ufffd"
  | Some r =>
      if (r =? 34) || (r =? 92) then backslash +:+ of_bytes raw
      else if r =? 8 then backslash +:+ "b"
      else if r =? 12 then backslash +:+ "f"
      else if r =? 10 then backslash +:+ "n"
      else if r =? 13 then backslash +:+ "r"
      else if r =? 9 then backslash +:+ "t"
      else if (r <? 32) || (r =? 60) || (r =? 62) || (r =? 38)
      then backslash +:+ "u00" +:+ hex_pad 2 r
      else if (r =? 0x2028) || (r =? 0x2029)
      then backslash +:+ "u202" +:+ hex_pad 1 (r mod 16)
      else of_bytes raw
  end.

Fixpoint escape_bytes (fuel : nat) (l : list Z) : string :=
  match fuel, l with
  | S fuel, _ :: _ =>
      let '(r, w) := decode_rune l in
      escape_rune (take w l) r +:+ escape_bytes fuel (drop w l)
  | _, _ => ""
  end.

Definition encode_string (s : string) : string :=
  let l := bytes s in quote_mark +:+ escape_bytes (length l) l +:+ quote_mark.

(** [json.Compact] with HTML escaping, as [Marshal] treats a raw message:
    white space outside strings goes, [<>&] and U+2028/2029 inside become
    escapes. [instr] and [esc] track string literals. *)
Fixpoint compact_raw (l : list Z) (instr esc : bool) {struct l} : string :=
  match l with
  | 0xE2 :: 0x80 :: 0xA8 :: l => backslash +:+ "u2028" +:+ compact_raw l instr false
  | 0xE2 :: 0x80 :: 0xA9 :: l => backslash +:+ "u2029" +:+ compact_raw l instr false
  | b :: l =>
      if (b =? 60) || (b =? 62) || (b =? 38)
      then backslash +:+ "u00" +:+ hex_pad 2 b +:+ compact_raw l instr false
      else if instr then
        String (chr b) (compact_raw l (esc || negb (b =? 34)) (negb esc && (b =? 92)))
      else if (b =? 32) || (b =? 9) || (b =? 10) || (b =? 13) then compact_raw l false false
      else String (chr b) (compact_raw l (b =? 34) false)
  | [] => ""
  end.

(** [base64.StdEncoding.EncodeToString], the encoding of [[]byte]. *)
Definition base64_char (z : Z) : ascii :=
  match String.get (Z.to_nat z)
    "ABCDEFGHIJKLMNOPQRSTUVWXYZabcdefghijklmnopqrstuvwxyz0123456789+/" with
  | Some a => a
  | None => "="%char
  end.

Fixpoint base64_bytes (l : list Z) : string :=
  match l with
  | a :: b :: c :: l =>
      String (base64_char (a / 4)) (String (base64_char (a mod 4 * 16 + b / 16))
        (String (base64_char (b mod 16 * 4 + c / 64)) (String (base64_char (c mod 64))
           (base64_bytes l))))
  | [a; b] => of_bytes (code <$> [base64_char (a / 4); base64_char (a mod 4 * 16 + b / 16);
                                  base64_char (b mod 16 * 4); "="%char])
  | [a] => of_bytes (code <$> [base64_char (a / 4); base64_char (a mod 4 * 16);
                               "="%char; "="%char])
  | [] => ""
  end.
Definition base64 (s : string) : string := base64_bytes (bytes s).

(** [json.Marshal]: members in the order given (struct field order, or sorted
    keys for a map, by the caller). *)
Fixpoint encode (v : json) : string :=
  match v with
  | JNull => "null"
  | JBool b => fmt_bool b
  | JNum literal => literal
  | JStr s => encode_string s
  | JArr l => "[" +:+ join "," (map encode l) +:+ "]"
  | JObj members =>
      "{" +:+ join "," (map (λ '(k, v), encode_string k +:+ ":" +:+ encode v) members) +:+ "}"
  | JRaw text => if text == "" then "null" else compact_raw (bytes text) false false
  end.

(** Struct fields tagged [omitempty]. *)
Definition omit_str (k s : string) : list (string * json) :=
  if s == "" then [] else [(k, JStr s)].
Definition omit_int (k : string) (z : Z) : list (string * json) :=
  if z =? 0 then [] else [(k, JInt z)].
Definition omit_bool (k : string) (b : bool) : list (string * json) :=
  if b then [(k, JBool b)] else [].
Definition omit_strs (k : string) (l : list string) : list (string * json) :=
  match l with [] => [] | _ => [(k, JArr (JStr <$> l))] end.
Definition omit_opt {A} (k : string) (f : A → json) (o : option A) : list (string * json) :=
  match o with Some a => [(k, f a)] | None => [] end.

Lemma encode_object_nonempty members : encode (JObj members) ≠ "".
Proof. done. Qed.

(** ** Parsing *)

Definition is_ws (b : Z) : bool := (b =? 32) || (b =? 9) || (b =? 10) || (b =? 13).
Definition is_digit (b : Z) : bool := (48 <=? b) && (b <=? 57).

Fixpoint skip_ws (l : list Z) : list Z :=
  match l with
  | b :: l' => if is_ws b then skip_ws l' else l
  | [] => []
  end.

Fixpoint span_digits (l : list Z) : list Z * list Z :=
  match l with
  | b :: l' => if is_digit b then let '(d, r) := span_digits l' in (b :: d, r) else ([], l)
  | [] => ([], [])
  end.

(** A number literal: optional minus, an integer part without leading zeros,
    optional fraction and exponent. *)
Definition parse_number (l : list Z) : option (list Z * list Z) :=
  let '(sign, l) := match l with 45 :: l => ([45], l) | _ => ([], l) end in
  '(int, l) ← match l with
              | 48 :: l => Some ([48], l)
              | _ => match span_digits l with ([], _) => None | r => Some r end
              end;
  '(frac, l) ← match l with
               | 46 :: l => match span_digits l with
                            | ([], _) => None
                            | (d, r) => Some (46 :: d, r)
                            end
               | _ => Some ([], l)
               end;
  '(exp, l) ← match l with
              | e :: l' =>
                  if (e =? 101) || (e =? 69) then
                    let '(es, l') := match l' with
                      | s :: l'' => if (s =? 43) || (s =? 45) then ([s], l'') else ([], l')
                      | [] => ([], [])
                      end in
                    match span_digits l' with
                    | ([], _) => None
                    | (d, r) => Some (e :: es ++ d, r)
                    end
                  else Some ([], l)
              | [] => Some ([], l)
              end;
  Some (sign ++ int ++ frac ++ exp, l).

Definition hex_value (b : Z) : option Z :=
  if is_digit b then Some (b - 48)
  else if (97 <=? b) && (b <=? 102) then Some (b - 87)
  else if (65 <=? b) && (b <=? 70) then Some (b - 55)
  else None.

Definition hex4 (l : list Z) : option (Z * list Z) :=
  match l with
  | a :: b :: c :: d :: l =>
      a ← hex_value a; b ← hex_value b; c ← hex_value c; d ← hex_value d;
      Some (a * 4096 + b * 256 + c * 16 + d, l)
  | _ => None
  end.

Definition simple_escape (b : Z) : option Z :=
  if (b =? 34) || (b =? 92) || (b =? 47) then Some b
  else if b =? 98 then Some 8 else if b =? 102 then Some 12
  else if b =? 110 then Some 10 else if b =? 114 then Some 13
  else if b =? 116 then Some 9 else None.

(** [\u] escapes: a surrogate pair is one rune, a lone surrogate U+FFFD. *)
Definition unicode_escape (l : list Z) : option (list Z * list Z) :=
  '(r, l) ← hex4 l;
  if (0xD800 <=? r) && (r <? 0xE000) then
    match l with
    | 92 :: 117 :: l' =>
        match hex4 l' with
        | Some (r2, l'') =>
            if (r <? 0xDC00) && (0xDC00 <=? r2) && (r2 <? 0xE000)
            then Some (encode_rune ((r - 0xD800) * 1024 + (r2 - 0xDC00) + 0x10000), l'')
            else Some (rune_error, l)
        | None => Some (rune_error, l)
        end
    | _ => Some (rune_error, l)
    end
  else Some (encode_rune r, l).

(** The rest of a string literal after its opening quote, unquoted. *)
Fixpoint parse_string (fuel : nat) (l : list Z) : option (list Z * list Z) :=
  match fuel, l with
  | S fuel, b :: l' =>
      if b =? 34 then Some ([], l')
      else if b =? 92 then
        match l' with
        | 117 :: l'' =>
            '(r, l'') ← unicode_escape l'';
            '(s, rest) ← parse_string fuel l''; Some (r ++ s, rest)
        | e :: l'' =>
            r ← simple_escape e;
            '(s, rest) ← parse_string fuel l''; Some (r :: s, rest)
        | [] => None
        end
      else if b <? 32 then None
      else
        let '(r, w) := decode_rune l in
        '(s, rest) ← parse_string fuel (drop w l);
        Some (match r with Some _ => take w l | None => rune_error end ++ s, rest)
  | _, _ => None
  end.

Definition max_depth : Z := 10000.

(** One value; [fuel] bounds the recursion (twice the text length is enough,
    every two calls consume a byte), [depth] is Go's nesting limit. *)
Fixpoint parse_value (fuel : nat) (depth : Z) (l : list Z) {struct fuel} :
    option (json * list Z) :=
  match fuel with
  | O => None
  | S fuel =>
      match skip_ws l with
      | 110 :: 117 :: 108 :: 108 :: l => Some (JNull, l)
      | 116 :: 114 :: 117 :: 101 :: l => Some (JBool true, l)
      | 102 :: 97 :: 108 :: 115 :: 101 :: l => Some (JBool false, l)
      | 34 :: l => '(s, l) ← parse_string (S (length l)) l; Some (JStr (of_bytes s), l)
      | 91 :: l =>
          if max_depth <=? depth then None else
          match skip_ws l with
          | 93 :: l => Some (JArr [], l)
          | _ => '(vs, l) ← parse_elements fuel (depth + 1) l; Some (JArr vs, l)
          end
      | 123 :: l =>
          if max_depth <=? depth then None else
          match skip_ws l with
          | 125 :: l => Some (JObj [], l)
          | _ => '(ms, l) ← parse_members fuel (depth + 1) l; Some (JObj ms, l)
          end
      | l => '(n, l) ← parse_number l; Some (JNum (of_bytes n), l)
      end
  end
with parse_elements (fuel : nat) (depth : Z) (l : list Z) {struct fuel} :
    option (list json * list Z) :=
  match fuel with
  | O => None
  | S fuel =>
      '(v, l) ← parse_value fuel depth l;
      match skip_ws l with
      | 44 :: l => '(vs, l) ← parse_elements fuel depth l; Some (v :: vs, l)
      | 93 :: l => Some ([v], l)
      | _ => None
      end
  end
with parse_members (fuel : nat) (depth : Z) (l : list Z) {struct fuel} :
    option (list (string * json) * list Z) :=
  match fuel with
  | O => None
  | S fuel =>
      match skip_ws l with
      | 34 :: l =>
          '(k, l) ← parse_string (S (length l)) l;
          match skip_ws l with
          | 58 :: l =>
              '(v, l) ← parse_value fuel depth l;
              match skip_ws l with
              | 44 :: l => '(ms, l) ← parse_members fuel depth l;
                           Some ((of_bytes k, v) :: ms, l)
              | 125 :: l => Some ([(of_bytes k, v)], l)
              | _ => None
              end
          | _ => None
          end
      | _ => None
      end
  end.

(** [json.Unmarshal]'s syntax check and tree. *)
Definition parse (s : string) : option json :=
  let l := bytes s in
  '(v, rest) ← parse_value (2 * length l + 2) 0 l;
  match skip_ws rest with [] => Some v | _ => None end.

(** [json.Valid]. *)
Definition valid (s : string) : bool :=
  match parse s with Some _ => true | None => false end.

(** ** Decoding into structs *)

(** Field names match exactly or by simple case folding; the only non-ASCII
    runes folding to ASCII are U+017F (s) and U+212A (k). *)
Fixpoint fold_name (l : list Z) : list Z :=
  match l with
  | 0xC5 :: 0xBF :: l => 83 :: fold_name l
  | 0xE2 :: 0x84 :: 0xAA :: l => 75 :: fold_name l
  | b :: l => (if (97 <=? b) && (b <=? 122) then b - 32 else b) :: fold_name l
  | [] => []
  end.

Definition same_field (name key : string) : bool :=
  bool_decide (fold_name (bytes name) = fold_name (bytes key)).

Definition digits_value (l : list Z) : Z := foldl (λ a d, a * 10 + (d - 48)) 0 l.

(** [strconv.ParseInt(literal, 10, 64)] on a JSON number literal. *)
Definition parse_int64 (literal : string) : option Z :=
  let l := bytes literal in
  let '(neg, l) := match l with 45 :: l => (true, l) | _ => (false, l) end in
  match span_digits l with
  | (d, []) =>
      let n := digits_value d in
      let z := if neg then - n else n in
      if (- 2 ^ 63 <=? z) && (z <=? max_int64) then Some z else None
  | _ => None
  end.
