(* ===== verification/GoFloat.v ===== *)
(** [float64] as [encoding/json] uses it for numbers decoded into [any]:
    [strconv.ParseFloat(literal, 64)] (round to nearest even) and the shortest
    decimal that reads back as the same value, laid out as [Marshal] does.
    Exact integer arithmetic; a float is [m * 2^e]. *)
From S2P Require Import Prelude.
From S2P Require Import GoStrings.
From S2P Require Import Json.

(** A decimal [digits * 10^exponent]. *)
Record decimal := Decimal { dec_negative : bool; dec_digits : Z; dec_exponent : Z }.

(** A JSON number literal. *)
Definition literal_decimal (s : string) : decimal :=
  let l := bytes s in
  let '(neg, l) := match l with 45 :: l => (true, l) | _ => (false, l) end in
  let '(int, l) := span_digits l in
  let '(frac, l) := match l with 46 :: l => span_digits l | _ => ([], l) end in
  let exp := match l with
             | _ :: 45 :: l => - digits_value (span_digits l).1
             | _ :: 43 :: l => digits_value (span_digits l).1
             | _ :: l => digits_value (span_digits l).1
             | [] => 0
             end in
  Decimal neg (digits_value (int ++ frac)) (exp - Z.of_nat (length frac)).

(** [n / d] rounded to the nearest integer, ties to even. *)
Definition div_round_even (n d : Z) : Z :=
  let q := n / d in let r := n mod d in
  if 2 * r <? d then q
  else if d <? 2 * r then q + 1
  else if Z.even q then q else q + 1.

(** The float nearest to [n / d] for positive [n] and [d]; [None] on overflow. *)
Definition round_float (n d : Z) : option (Z * Z) :=
  let k := Z.log2 n - Z.log2 d in
  let k := if (if 0 <=? k then n <? d * 2 ^ k else n * 2 ^ (- k) <? d) then k - 1 else k in
  let e := Z.max (k - 52) (-1074) in
  let q := if 0 <=? e then div_round_even n (d * 2 ^ e) else div_round_even (n * 2 ^ (- e)) d in
  let '(q, e) := if q =? 2 ^ 53 then (2 ^ 52, e + 1) else (q, e) in
  if 971 <? e then None else Some (q, e).

(** [digits * 10^exponent] as a float. Exponents far outside the range of
    float64 are decided without building the power. *)
Definition parse_float (digits exponent : Z) : option (Z * Z) :=
  if digits =? 0 then Some (0, 0) else
  let size := Z.log2 digits in
  if 400 <? exponent then None
  else if exponent <? - 400 - size then Some (0, 0)
  else if 0 <=? exponent then round_float (digits * 10 ^ exponent) 1
  else round_float digits (10 ^ (- exponent)).

(** The floats are compared up to normalisation of a zero mantissa. *)
Definition same_float (f g : option (Z * Z)) : bool :=
  match f, g with
  | Some (m, e), Some (m', e') =>
      ((m =? 0) && (m' =? 0)) || ((m =? m') && (e =? e'))
  | _, _ => false
  end.

(** [x = n/d] scaled by [10^-p], as a fraction. *)
Definition scale (n d p : Z) : Z * Z :=
  if 0 <=? p then (n, d * 10 ^ p) else (n * 10 ^ (- p), d).

(** Decimal exponent [p] with [10^p <= n/d < 10^(p+1)]. *)
Fixpoint find_exponent (fuel : nat) (n d p : Z) : Z :=
  match fuel with
  | O => p
  | S fuel =>
      let '(a, b) := scale n d p in
      if a <? b then find_exponent fuel n d (p - 1)
      else if 10 * b <=? a then find_exponent fuel n d (p + 1)
      else p
  end.

(** Shortest digits: for growing lengths, the truncated and incremented
    [len]-digit decimals that read back as [f], the nearer one preferred. *)
Fixpoint shortest (fuel : nat) (f : Z * Z) (n d p len : Z) : Z * Z :=
  match fuel with
  | O => (0, 0)
  | S fuel =>
      let q := p - len + 1 in
      let '(a, b) := scale n d q in
      let lo := a / b in let hi := lo + 1 in
      let ok x := same_float (parse_float x q) (Some f) in
      let near_lo := 2 * (a mod b) <=? b in
      if ok lo && (near_lo || negb (ok hi)) then (lo, q)
      else if ok hi then (hi, q)
      else shortest fuel f n d p (len + 1)
  end.

(** Drop trailing zeros of the digits. *)
Fixpoint strip_zeros (fuel : nat) (digits q : Z) : Z * Z :=
  match fuel with
  | O => (digits, q)
  | S fuel => if digits mod 10 =? 0 then strip_zeros fuel (digits / 10) (q + 1) else (digits, q)
  end.

Definition zeros (n : Z) : string := of_bytes (replicate (Z.to_nat n) 48).

Definition take_string (n : Z) (s : string) : string := String.substring 0 (Z.to_nat n) s.
Definition drop_string (n : Z) (s : string) : string :=
  String.substring (Z.to_nat n) (String.length s - Z.to_nat n) s.

(** [floatEncoder]: format 'f' for [1e-6 <= x < 1e21], else 'e' with the
    exponent's leading zero removed. [digits * 10^q], [p] the exponent of the
    leading digit. *)
Definition layout (digits q : Z) : string :=
  let s := itoa digits in
  let len := Z.of_nat (String.length s) in
  let p := q + len - 1 in
  if (-6 <=? p) && (p <? 21) then
    if 0 <=? q then s +:+ zeros q
    else if 0 <=? p then take_string (p + 1) s +:+ "." +:+ drop_string (p + 1) s
    else "0." +:+ zeros (- p - 1) +:+ s
  else
    take_string 1 s +:+ (if len =? 1 then "" else "." +:+ drop_string 1 s)
      +:+ "e" +:+ (if p <? 0 then "-" else "+")
      +:+ (if (Z.abs p <? 10) && (0 <=? p) then "0" else "") +:+ itoa (Z.abs p).

Definition float_literal (f : Z * Z) : string :=
  let '(m, e) := f in
  if m =? 0 then "0" else
  let '(n, d) := if 0 <=? e then (m * 2 ^ e, 1) else (m, 2 ^ (- e)) in
  let p := find_exponent 8 n d ((Z.log2 n - Z.log2 d) * 30103 / 100000) in
  let '(digits, q) := shortest 18 f n d p 1 in
  let '(digits, q) := strip_zeros 20 digits q in
  layout digits q.

(** A literal decoded into [any] and encoded again; [None] when the number is
    out of range, which makes [Unmarshal] fail. *)
Definition canonical_number (literal : string) : option string :=
  let dec := literal_decimal literal in
  f ← parse_float (dec_digits dec) (dec_exponent dec);
  Some ((if dec_negative dec then "-" else "") +:+ float_literal f).

(** Last value of a duplicated member, members sorted by key. *)
Definition last_member (l : list (string * json)) (k : string) : json :=
  foldl (λ acc m, if fst m == k then snd m else acc) JNull l.

Definition map_members (l : list (string * json)) : list (string * json) :=
  (λ k, (k, last_member l k)) <$> sort_strings (remove_dups (fst <$> l)).

(** [Unmarshal] into [any] followed by [Marshal], as a value. *)
Fixpoint canonical (v : json) : option json :=
  match v with
  | JNum literal => JNum <$> canonical_number literal
  | JArr l => JArr <$> mapM canonical l
  | JObj members =>
      ms ← mapM (λ m, v ← canonical (snd m); Some (fst m, v)) members;
      Some (JObj (map_members ms))
  | v => Some v
  end.

Example canonical_numbers :
  canonical_number <$> ["1"; "1.0"; "0.1"; "100e-2"; "-0"; "1e21"; "123456789012345680000";
                        "1e-7"; "0.000001"; "0.30000000000000004"; "9007199254740993"] =
  [Some "1"; Some "1"; Some "0.1"; Some "1"; Some "-0"; Some "1e+21";
   Some "123456789012345680000"; Some "1e-7"; Some "0.000001"; Some "0.30000000000000004"; Some "9007199254740992"].
Proof. vm_compute. reflexivity. Qed.

Example canonical_object :
  encode <$> (parse (dquote "{ 'b' : [1.50, true], 'a':null, 'b':2e0 }") ≫= canonical) =
  Some (dquote "{'a':null,'b':2}").
Proof. vm_compute. reflexivity. Qed.
