(* ===== verification/Provider.v ===== *)
(** Provider and protocol data shared by the turn kernel and the response
    assembly: [internal/adapter/provider] (types.go, failure.go, replay.go,
    projection.go, admission.go), [internal/common/fault] and the turn intents
    of [internal/runtime/protocol]. *)
From S2P Require Import Prelude.
From S2P Require Import GoStrings.
From S2P Require Import Json.

(** ** protocol: intents, recovery actions, cancel reasons *)

(** [TurnIntentNone] is the empty string. *)
Inductive TurnIntent :=
  | TurnIntentNone | TurnIntentAnswer | TurnIntentPlan
  | TurnIntentWorkspaceChange | TurnIntentOperation.
#[export] Instance TurnIntent_eq_dec : EqDecision TurnIntent.
Proof. solve_decision. Defined.

Definition NormalizeTurnIntent (intent : TurnIntent) : TurnIntent :=
  match intent with TurnIntentNone => TurnIntentAnswer | _ => intent end.

Definition TurnRecoveryRetry : string := "retry".
Definition TurnRecoveryContinue : string := "continue".

Definition CancelReasonUserInterrupted : string := "user_interrupted".
Definition CancelReasonApprovalCanceled : string := "approval_canceled".

(** ** common/fault: fault metadata *)

Inductive Disposition :=
  | DispositionNone | FailTurn | RetryStep | RetryTurn | ResumeTurn | Reject.
#[export] Instance Disposition_eq_dec : EqDecision Disposition.
Proof. solve_decision. Defined.

Definition disposition_string (d : Disposition) : string :=
  match d with
  | DispositionNone => "" | FailTurn => "fail_turn" | RetryStep => "retry_step"
  | RetryTurn => "retry_turn" | ResumeTurn => "resume_turn" | Reject => "reject"
  end.

Record DeadlineMetadata := mkDeadlineMetadata {
  dl_Scope : string;
  dl_TimeoutMS : Z;
  dl_Renewable : bool;
}.

Record FaultMetadata := mkFaultMetadata {
  fm_Origin : string;
  fm_Disposition : Disposition;
  fm_Reason : string;
  fm_SideEffects : string;
  fm_Stage : string;
  fm_OperationID : string;
  fm_RetryOwner : string;
  fm_ResumeHint : string;
  fm_Deadline : option DeadlineMetadata;
  fm_RecoveryAction : string;
}.

Definition json_deadline (d : DeadlineMetadata) : json :=
  JObj ([("scope", JStr (dl_Scope d))] ++ omit_int "timeout_ms" (dl_TimeoutMS d)
        ++ omit_bool "renewable" (dl_Renewable d)).

Definition json_fault (f : FaultMetadata) : json :=
  JObj ([("origin", JStr (fm_Origin f));
         ("disposition", JStr (disposition_string (fm_Disposition f)))]
        ++ omit_str "reason" (fm_Reason f) ++ omit_str "side_effects" (fm_SideEffects f)
        ++ omit_str "stage" (fm_Stage f) ++ omit_str "operation_id" (fm_OperationID f)
        ++ omit_str "retry_owner" (fm_RetryOwner f) ++ omit_str "resume_hint" (fm_ResumeHint f)
        ++ omit_opt "deadline" json_deadline (fm_Deadline f)
        ++ omit_str "recovery_action" (fm_RecoveryAction f)).

(** ** provider: failures *)

(** [FailureNone] is the empty code. *)
Inductive FailureCode :=
  | FailureNone | FailureAuth | FailureQuota | FailureRateLimit | FailureContextWindowExceeded
  | FailureInvalidRequest | FailureUnsupportedContent | FailureServer | FailureTransport
  | FailureTimeout | FailureAborted | FailureMalformedResponse | FailureStreamClosed
  | FailureEmptyResponse | FailureUnknown.
#[export] Instance FailureCode_eq_dec : EqDecision FailureCode.
Proof. solve_decision. Defined.

Record Failure := mkFailure {
  fl_Code : FailureCode;
  fl_Message : string;
  fl_HTTPStatus : Z;
  fl_RetryAfterMS : Z;
  fl_RequestID : string;
}.

(** ** provider: message content *)

Inductive ContentType :=
  | ContentText | ContentReasoning | ContentToolCall | ContentToolResult
  | ContentSearch | ContentCitation | ContentImage.
#[export] Instance ContentType_eq_dec : EqDecision ContentType.
Proof. solve_decision. Defined.

Record ToolCall := mkToolCall {
  tc_ID : string; tc_Name : string; tc_Arguments : string;
}.
#[export] Instance ToolCall_eq_dec : EqDecision ToolCall.
Proof. solve_decision. Defined.

Record AdmissionReceipt := mkAdmissionReceipt {
  ar_Kind : string; ar_Reason : string; ar_Digest : string; ar_Handle : string;
  ar_OriginalBytes : Z; ar_RetainedBytes : Z; ar_OriginalTokens : Z; ar_RetainedTokens : Z;
  ar_TokenLimit : Z; ar_Truncated : bool;
}.
#[export] Instance AdmissionReceipt_eq_dec : EqDecision AdmissionReceipt.
Proof. solve_decision. Defined.

Record ToolResult := mkToolResult {
  tr_CallID : string; tr_Content : string; tr_IsError : bool;
  tr_Admission : option AdmissionReceipt;
}.
#[export] Instance ToolResult_eq_dec : EqDecision ToolResult.
Proof. solve_decision. Defined.

Record Source := mkSource { so_ID : string; so_Title : string; so_URL : string }.
#[export] Instance Source_eq_dec : EqDecision Source.
Proof. solve_decision. Defined.

Record SearchResult := mkSearchResult {
  sr_Query : string; sr_Sources : list Source; sr_Error : string;
}.
#[export] Instance SearchResult_eq_dec : EqDecision SearchResult.
Proof. solve_decision. Defined.

Record Citation := mkCitation {
  ct_SourceID : string; ct_URL : string; ct_Title : string; ct_Start : Z; ct_End : Z;
}.
#[export] Instance Citation_eq_dec : EqDecision Citation.
Proof. solve_decision. Defined.

Record Attachment := mkAttachment {
  at_MediaType : string; at_Data : string; at_Name : string; at_Handle : string;
}.
#[export] Instance Attachment_eq_dec : EqDecision Attachment.
Proof. solve_decision. Defined.

Record ContentBlock := mkContentBlock {
  cb_Type : ContentType;
  cb_Text : string;
  cb_ID : string;
  cb_ToolCall : option ToolCall;
  cb_ToolResult : option ToolResult;
  cb_Search : option SearchResult;
  cb_Citation : option Citation;
  cb_Attachment : option Attachment;
}.
#[export] Instance ContentBlock_eq_dec : EqDecision ContentBlock.
Proof. solve_decision. Defined.

(** ** provider: streams *)

(** [StopReasonNone] is the empty string. *)
Inductive StopReason :=
  | StopReasonNone | StopReasonEndTurn | StopReasonToolUse | StopReasonMaxTokens
  | StopReasonContentFilter | StopReasonIncomplete | StopReasonUnknown.
#[export] Instance StopReason_eq_dec : EqDecision StopReason.
Proof. solve_decision. Defined.

(** [StopReason.Incomplete]. *)
Definition stop_incomplete (r : StopReason) : bool :=
  match r with
  | StopReasonMaxTokens | StopReasonContentFilter | StopReasonIncomplete => true
  | _ => false
  end.

Record ProjectionReceipt := mkProjectionReceipt {
  pr_Mode : string; pr_IncrementalEligible : bool; pr_FallbackReason : string;
  pr_RouteDigest : string; pr_PropertyDigest : string; pr_StablePrefixDigest : string;
  pr_InputDigest : string; pr_DeltaDigest : string; pr_ContextRevision : Z;
  pr_WindowID : string; pr_WindowNumber : Z; pr_LogicalItems : Z; pr_TransportItems : Z;
  pr_LogicalTransportEquivalent : bool;
}.
#[export] Instance ProjectionReceipt_eq_dec : EqDecision ProjectionReceipt.
Proof. solve_decision. Defined.

Record TransportMetadata := mkTransportMetadata {
  tm_LogicalRequestID : string;
  tm_TransportRequestID : string;
  tm_Attempt : Z;
  tm_RequestBytes : Z;
  tm_RouteCooldownWaitMS : Z;
  tm_LogicalRequestDigest : string;
  tm_TransportPayloadDigest : string;
  tm_Incremental : bool;
  tm_Projection : ProjectionReceipt;
}.
#[export] Instance TransportMetadata_eq_dec : EqDecision TransportMetadata.
Proof. solve_decision. Defined.

(** [Usage] without its [Transport] field, which is excluded from encodings
    and never read by the assembly. *)
Record Usage := mkUsage {
  us_InputTokens : Z; us_OutputTokens : Z; us_ReasoningTokens : Z; us_CachedTokens : Z;
}.
#[export] Instance Usage_eq_dec : EqDecision Usage.
Proof. solve_decision. Defined.

Definition zero_usage : Usage := mkUsage 0 0 0 0.

(** [Usage.Add]. *)
Definition usage_add (u other : Usage) : Usage :=
  mkUsage (u64 (us_InputTokens u + us_InputTokens other))
          (u64 (us_OutputTokens u + us_OutputTokens other))
          (u64 (us_ReasoningTokens u + us_ReasoningTokens other))
          (u64 (us_CachedTokens u + us_CachedTokens other)).

Definition MergeCumulative (current update : Usage) : Usage :=
  let keep (get : Usage → Z) := if get update <? get current then get current else get update in
  mkUsage (keep us_InputTokens) (keep us_OutputTokens) (keep us_ReasoningTokens)
          (keep us_CachedTokens).

Record ToolCallFragment := mkToolCallFragment {
  tf_Index : Z; tf_ID : string; tf_Name : string; tf_Arguments : string;
}.
#[export] Instance ToolCallFragment_eq_dec : EqDecision ToolCallFragment.
Proof. solve_decision. Defined.

Record ReplayState := mkReplayState {
  rs_Version : Z; rs_ContentDigest : string; rs_Data : string;
}.
#[export] Instance ReplayState_eq_dec : EqDecision ReplayState.
Proof. solve_decision. Defined.

Record ResponseState := mkResponseState { rp_ID : string; rp_Output : list string }.
#[export] Instance ResponseState_eq_dec : EqDecision ResponseState.
Proof. solve_decision. Defined.
