(* ===== verification/ToolResult.v ===== *)
(** Decoding of tool arguments and tool results ([internal/adapter/tool]:
    tool.go, execution.go) as far as the turn kernel reads them: a shape per
    Go struct decides whether [json.Unmarshal] accepts a text, and projections
    read the fields the kernel uses. A member given twice counts once per
    occurrence and the last one is read. *)
From S2P Require Import Prelude.
From S2P Require Import GoStrings.
From S2P Require Import Json.
From S2P Require Import GoFloat.

(** Go types as [json.Unmarshal] checks them. *)
Inductive shape :=
  | SStr | SBool | SInt (lo hi : Z) | STime | SAny | SMap
  | SArr (elem : shape)
  | SObj (fields : list (string * shape)).

Definition SInt64 := SInt (- 2 ^ 63) max_int64.
Definition SUint64 := SInt 0 (2 ^ 64 - 1).
Definition SUint32 := SInt 0 (2 ^ 32 - 1).
Definition SUint16 := SInt 0 (2 ^ 16 - 1).

(** [strconv.ParseInt]/[ParseUint] of a literal, in range. *)
Definition literal_in (lo hi : Z) (literal : string) : bool :=
  let l := bytes literal in
  let '(neg, l) := match l with 45 :: l => (true, l) | _ => (false, l) end in
  match span_digits l with
  | (d, []) =>
      let z := if neg then - digits_value d else digits_value d in
      (lo <=? z) && (z <=? hi) && (negb neg || (lo <? 0))
  | _ => false
  end.

Definition two_digits (a b hi : Z) : bool :=
  is_digit a && is_digit b && ((a - 48) * 10 + (b - 48) <=? hi).

Definition days_in (year month : Z) : Z :=
  if month =? 2 then
    (if (year mod 4 =? 0) && (negb (year mod 100 =? 0) || (year mod 400 =? 0)) then 29 else 28)
  else if (month =? 4) || (month =? 6) || (month =? 9) || (month =? 11) then 30 else 31.

(** [time.Time.UnmarshalJSON]: RFC 3339. *)
Definition rfc3339 (s : string) : bool :=
  match bytes s with
  | y1 :: y2 :: y3 :: y4 :: 45 :: m1 :: m2 :: 45 :: d1 :: d2 :: 84 ::
    h1 :: h2 :: 58 :: n1 :: n2 :: 58 :: s1 :: s2 :: rest =>
      let year := digits_value [y1; y2; y3; y4] in
      let month := digits_value [m1; m2] in
      let day := digits_value [d1; d2] in
      forallb is_digit [y1; y2; y3; y4; m1; m2; d1; d2]
      && (1 <=? month) && (month <=? 12) && (1 <=? day) && (day <=? days_in year month)
      && two_digits h1 h2 23 && two_digits n1 n2 59 && two_digits s1 s2 59
      && match (match rest with
                | 46 :: r => match span_digits r with ([], _) => None | (_, r) => Some r end
                | r => Some r
                end) with
         | Some [90] => true
         | Some [sign; a; b; 58; c; d] =>
             ((sign =? 43) || (sign =? 45)) && two_digits a b 23 && two_digits c d 59
         | _ => false
         end
  | _ => false
  end.

(** Whether a value decodes without error into a shape; [null] always does. *)
Fixpoint decodes (t : shape) (v : json) {struct t} : bool :=
  match t, v with
  | _, JNull => true
  | SStr, JStr _ => true
  | SBool, JBool _ => true
  | SInt lo hi, JNum literal => literal_in lo hi literal
  | STime, JStr s => rfc3339 s
  | SAny, v => match canonical v with Some _ => true | None => false end
  | SMap, JObj members => match canonical (JObj members) with Some _ => true | None => false end
  | SArr elem, JArr l => forallb (decodes elem) l
  | SObj fields, JObj members =>
      forallb (λ m,
        (fix field fs := match fs with
           | [] => true
           | (name, t) :: fs => if same_field name (fst m) then decodes t (snd m) else field fs
           end) fields) members
  | _, _ => false
  end.

(** The last member matching a field. *)
Definition member (name : string) (v : json) : json :=
  match v with
  | JObj members => foldl (λ acc m, if same_field name (fst m) then snd m else acc) JNull members
  | _ => JNull
  end.

(** The same for a scalar field, which [null] leaves unchanged. *)
Definition scalar_member (name : string) (v : json) : json :=
  match v with
  | JObj members =>
      foldl (λ acc m, if same_field name (fst m)
                      then match snd m with JNull => acc | x => x end else acc) JNull members
  | _ => JNull
  end.

Definition str_member (name : string) (v : json) : string :=
  match scalar_member name v with JStr s => s | _ => "" end.
Definition bool_member (name : string) (v : json) : bool :=
  match scalar_member name v with JBool b => b | _ => false end.
Definition list_member (name : string) (v : json) : list json :=
  match member name v with JArr l => l | _ => [] end.

(** ** tool.Result *)

Definition strings (l : list string) : list (string * shape) := (λ k, (k, SStr)) <$> l.

Definition denial_shape : shape :=
  SObj (strings ["backend"; "operation"; "resource"; "reason_code"; "protocol"] ++ [("port", SUint16)]).
Definition network_target_shape : shape :=
  SObj (strings ["host"; "protocol"; "method"] ++ [("port", SUint16)]).
Definition security_shape : shape :=
  SObj [("sandbox_denied", denial_shape); ("egress_denied", network_target_shape)].
Definition position_shape : shape := SObj [("line", SInt64); ("character", SInt64)].
Definition diagnostic_shape : shape :=
  SObj (strings ["path"; "severity"; "code"; "message"; "source"]
        ++ [("range", SObj [("start", position_shape); ("end", position_shape)])]).
Definition diagnostic_receipt_shape : shape :=
  SObj (strings ["path"; "status"; "runner"; "message"; "error_category"]
        ++ [("unconfigured", SBool); ("diagnostics", SArr diagnostic_shape); ("exit_code", SInt64)]).
Definition evidence_hit_shape : shape :=
  SObj (strings ["kind"; "path"; "symbol"] ++ [("line", SInt64)]).
Definition evidence_shape : shape :=
  SObj (strings ["kind"; "status"; "command_digest"; "command"; "cwd"; "input_digest"; "call_id";
                 "started_call_id"; "invalidation_reason"]
        ++ [("schema_version", SInt64); ("covered_paths", SArr SStr); ("exit_code", SInt64);
            ("workspace_revision", SUint64); ("mutation_revision", SUint64)]).
Definition completion_shape : shape :=
  SObj (strings ["no_change_reason"; "status"; "summary"; "output_mode"; "call_id"]
        ++ [("no_change_evidence", SArr SStr); ("changed_paths", SArr SStr);
            ("verification_call_ids", SArr SStr); ("pending_actions", SArr SStr);
            ("mutation_revision", SUint64)]).
Definition process_session_shape : shape :=
  SObj (strings ["session_id"; "source_session_id"]
        ++ [("terminated", SBool); ("cursor", SUint64); ("running", SBool); ("exit_code", SInt64);
            ("timed_out", SBool); ("tty", SBool); ("archived", SBool); ("pending_bytes", SInt64);
            ("omitted_bytes", SInt64)]).
Definition change_shape : shape :=
  SObj (strings ["path"; "kind"; "summary"; "after_digest"]
        ++ [("added", SInt64); ("removed", SInt64)]).
Definition facts_shape : shape :=
  SObj [("workspace_read", SObj (strings ["path"; "digest"]));
        ("workspace_changes", SArr change_shape);
        ("diagnostics", SArr diagnostic_receipt_shape); ("evidence", SArr evidence_hit_shape);
        ("verification", evidence_shape); ("completion", completion_shape);
        ("failure", SObj [("category", SStr)]); ("process_session", process_session_shape);
        ("result_handle", SStr)].
Definition outcome_shape : shape :=
  SObj [("status", SStr); ("security", security_shape); ("facts", facts_shape); ("hook", SAny);
        ("telemetry", SMap)].
Definition policy_receipt_shape : shape := SObj (strings ["action"; "layer"; "code"]).
Definition controls_shape : shape :=
  SObj (strings ["filesystem_read"; "filesystem_write"; "network"; "process_tree"; "cross_process";
                 "syscall"; "ipc"; "path_identity"; "artifact_origin"; "durable_recovery"]).
Definition amendment_shape : shape :=
  SObj (strings ["base_permission_digest"; "kind"; "resource"; "protocol"; "capability"; "decision";
                 "amended_permission_digest"] ++ [("port", SUint16)]).
Definition attempt_shape : shape :=
  SObj (strings ["sandbox"; "status"; "terminal_owner"; "reason"; "operation_digest"; "lease_id";
                 "lease_state"; "workspace_id"; "subject_kind"; "subject_id"; "subject_digest";
                 "sandbox_policy_id"; "effect_kind"; "effect_risk"; "effect_reversibility";
                 "workspace_transaction"; "permission_digest"; "permission_capability";
                 "permission_access"; "enforcement"; "backend"; "workspace_root";
                 "execution_target"; "network_mode"]
        ++ [("sequence", SUint32); ("operation_schema_version", SInt64); ("lease_attempt", SUint64);
            ("workspace_generation", SUint64); ("subject_generation", SUint64);
            ("policy_revision", SUint64); ("policy", policy_receipt_shape);
            ("permission_schema_version", SInt64); ("permission_revision", SUint64);
            ("effective_controls", controls_shape); ("read_roots", SArr SStr);
            ("write_paths", SArr SStr); ("denied_write_roots", SArr SStr);
            ("workspace_base_write", SBool); ("full_access", SBool);
            ("network_targets", SArr SStr); ("managed_proxy_port", SUint16);
            ("loopback_allowed", SBool); ("process_allowed", SBool);
            ("provenance", SArr (SObj (strings ["kind"; "value"; "digest"] ++ [("revision", SUint64)])));
            ("denial", denial_shape); ("amendment", amendment_shape); ("started_at", STime);
            ("completed_at", STime); ("duration_ms", SInt64); ("teardown", SInt64);
            ("teardown_ms", SInt64); ("teardown_timed_out", SBool)]).
Definition execution_shape : shape :=
  SObj (strings ["guardian_review_id"; "source"; "disposition"; "terminal_status"; "terminal_owner"]
        ++ [("tool", SObj (strings ["name"; "source"; "catalog_id"]
                           ++ [("generation", SUint64); ("revision", SUint64)]));
            ("verification_evidence_authorized", SBool); ("policy_denial", policy_receipt_shape);
            ("attempts", SArr attempt_shape); ("approval_wait", SInt64); ("dispatch_wait", SInt64);
            ("claim_wait", SInt64); ("teardown", SInt64); ("teardown_ms", SInt64);
            ("teardown_timed_out", SBool)]).
Definition admission_shape : shape :=
  SObj (strings ["kind"; "reason"; "digest"; "handle"]
        ++ [("original_bytes", SInt64); ("retained_bytes", SInt64); ("original_tokens", SUint64);
            ("retained_tokens", SUint64); ("token_limit", SUint64); ("truncated", SBool)]).
Definition result_shape : shape :=
  SObj [("content", SStr); ("is_error", SBool); ("metadata", SMap); ("outcome", outcome_shape);
        ("execution", execution_shape); ("truncated", SBool); ("original_bytes", SInt64);
        ("handle", SStr); ("admission", admission_shape)].

(** What the kernel reads of a decoded [tool.Result]: its error flag, its
    content, and whether it observed workspace changes. *)
Record ResultFacts := mkResultFacts {
  rf_IsError : bool;
  rf_Content : string;
  rf_Changes : nat;
}.

Definition decode_result (text : string) : option ResultFacts :=
  v ← parse text;
  if decodes result_shape v
  then Some (mkResultFacts (bool_member "is_error" v) (str_member "content" v)
               (length (list_member "workspace_changes" (member "facts" (member "outcome" v)))))
  else None.

(** ** Arguments of file_read *)

Definition read_window_shape : shape := SObj [("path", SStr); ("start_line", SInt64)].

Definition ParseFileReadWindow (raw : string) : string * Z * bool :=
  match parse raw with
  | Some v =>
      if decodes read_window_shape v then
        let path := trim_space (str_member "path" v) in
        let start := match scalar_member "start_line" v with
                     | JNum literal => default 0 (parse_int64 literal)
                     | _ => 0
                     end in
        (path, start, path != "")
      else ("", 0, false)
  | None => ("", 0, false)
  end.

Example read_window :
  ParseFileReadWindow (dquote "{'path':' a.go ','start_line':12}") = ("a.go", 12, true)
  ∧ ParseFileReadWindow (dquote "{'PATH':'b','start_line':1.5}") = ("", 0, false)
  ∧ ParseFileReadWindow (dquote "{'Path':'b','extra':[1]}") = ("b", 0, true).
Proof. vm_compute. done. Qed.

Example rejected_result :
  decode_result (dquote "{'content':'no','is_error':true,'metadata':{'a':1}}") =
    Some (mkResultFacts true "no" 0)
  ∧ decode_result (dquote "{'content':1}") = None.
Proof. vm_compute. done. Qed.
