(* ===== verification/Assembly.v ===== *)
(** The response assembly of one logical model sample
    ([internal/adapter/provider/assembly/response_assembly.go] and
    [tool_argument_repair.go]): its data, its validity, the extension order durable
    progress must follow, and the repair of tool arguments. *)
From S2P Require Import Prelude.
From S2P Require Import GoStrings.
From S2P Require Import Sha256.
From S2P Require Import Json.
From S2P Require Import Provider.

Inductive ResponseCompleteness :=
  | ResponseEmpty | ResponseStreaming | ResponseIncomplete | ResponseComplete | ResponseFailed.
#[export] Instance ResponseCompleteness_eq_dec : EqDecision ResponseCompleteness.
Proof. solve_decision. Defined.

Definition completeness_string (c : ResponseCompleteness) : string :=
  match c with
  | ResponseEmpty => "empty" | ResponseStreaming => "streaming"
  | ResponseIncomplete => "incomplete" | ResponseComplete => "complete"
  | ResponseFailed => "failed"
  end.

Definition ResponseAssemblyVersion : Z := 1.

Record ResponseSegment := mkResponseSegment {
  sg_Transport : TransportMetadata;
  sg_State : ResponseCompleteness;
  sg_StopReason : StopReason;
  sg_Blocks : list ContentBlock;
  sg_ToolFragments : list ToolCallFragment;
  sg_Usage : Usage;
  sg_Replay : option ReplayState;
  sg_Response : option ResponseState;
  sg_Seen : gmap string string;
  sg_HasSequence : bool;
  sg_LastSequence : Z;
  sg_LastOrdinal : Z;
  sg_EventCount : Z;
  sg_Meaningful : bool;
  sg_Error : string;
  sg_RejectedToolArguments : bool;
}.

Definition eta_segment (s : ResponseSegment) : ResponseSegment :=
  mkResponseSegment (sg_Transport s) (sg_State s) (sg_StopReason s) (sg_Blocks s)
    (sg_ToolFragments s) (sg_Usage s) (sg_Replay s) (sg_Response s) (sg_Seen s)
    (sg_HasSequence s) (sg_LastSequence s) (sg_LastOrdinal s) (sg_EventCount s)
    (sg_Meaningful s) (sg_Error s) (sg_RejectedToolArguments s).

Definition set_sg_State : ResponseCompleteness → ResponseSegment → ResponseSegment.
Proof. field_setter eta_segment sg_State. Defined.
Definition set_sg_StopReason : StopReason → ResponseSegment → ResponseSegment.
Proof. field_setter eta_segment sg_StopReason. Defined.
Definition set_sg_Blocks : list ContentBlock → ResponseSegment → ResponseSegment.
Proof. field_setter eta_segment sg_Blocks. Defined.
Definition set_sg_ToolFragments : list ToolCallFragment → ResponseSegment → ResponseSegment.
Proof. field_setter eta_segment sg_ToolFragments. Defined.
Definition set_sg_Usage : Usage → ResponseSegment → ResponseSegment.
Proof. field_setter eta_segment sg_Usage. Defined.
Definition set_sg_Replay : option ReplayState → ResponseSegment → ResponseSegment.
Proof. field_setter eta_segment sg_Replay. Defined.
Definition set_sg_Response : option ResponseState → ResponseSegment → ResponseSegment.
Proof. field_setter eta_segment sg_Response. Defined.
Definition set_sg_Seen : gmap string string → ResponseSegment → ResponseSegment.
Proof. field_setter eta_segment sg_Seen. Defined.
Definition set_sg_HasSequence : bool → ResponseSegment → ResponseSegment.
Proof. field_setter eta_segment sg_HasSequence. Defined.
Definition set_sg_LastSequence : Z → ResponseSegment → ResponseSegment.
Proof. field_setter eta_segment sg_LastSequence. Defined.
Definition set_sg_LastOrdinal : Z → ResponseSegment → ResponseSegment.
Proof. field_setter eta_segment sg_LastOrdinal. Defined.
Definition set_sg_EventCount : Z → ResponseSegment → ResponseSegment.
Proof. field_setter eta_segment sg_EventCount. Defined.
Definition set_sg_Meaningful : bool → ResponseSegment → ResponseSegment.
Proof. field_setter eta_segment sg_Meaningful. Defined.
Definition set_sg_Error : string → ResponseSegment → ResponseSegment.
Proof. field_setter eta_segment sg_Error. Defined.
Definition set_sg_RejectedToolArguments : bool → ResponseSegment → ResponseSegment.
Proof. field_setter eta_segment sg_RejectedToolArguments. Defined.

Record ResponseAssembly := mkResponseAssembly {
  ra_Version : Z;
  ra_LogicalRequestID : string;
  ra_State : ResponseCompleteness;
  ra_Segments : list ResponseSegment;
  ra_ToolArgumentRepairs : list Z;
}.

(** [CloneResponseAssembly] is a JSON round trip; on the model's data (valid
    UTF-8 text, every field encoded) it is the identity. *)

Definition NewResponseAssembly (logicalRequestID : string) : ResponseAssembly :=
  mkResponseAssembly ResponseAssemblyVersion logicalRequestID ResponseEmpty [] [].

(** [currentOrNil]: the last segment. *)
Definition currentOrNil (a : ResponseAssembly) : option ResponseSegment :=
  last (ra_Segments a).

(** Writing through the pointer to the last segment. *)
Definition set_current (seg : ResponseSegment) (a : ResponseAssembly) : ResponseAssembly :=
  mkResponseAssembly (ra_Version a) (ra_LogicalRequestID a) (ra_State a)
    (removelast (ra_Segments a) ++ [seg]) (ra_ToolArgumentRepairs a).
Definition set_ra_State (c : ResponseCompleteness) (a : ResponseAssembly) : ResponseAssembly :=
  mkResponseAssembly (ra_Version a) (ra_LogicalRequestID a) c (ra_Segments a)
    (ra_ToolArgumentRepairs a).
Definition set_ra_Version (v : Z) (a : ResponseAssembly) : ResponseAssembly :=
  mkResponseAssembly v (ra_LogicalRequestID a) (ra_State a) (ra_Segments a)
    (ra_ToolArgumentRepairs a).
Definition set_ra_LogicalRequestID (id : string) (a : ResponseAssembly) : ResponseAssembly :=
  mkResponseAssembly (ra_Version a) id (ra_State a) (ra_Segments a) (ra_ToolArgumentRepairs a).
Definition set_ra_Segments (l : list ResponseSegment) (a : ResponseAssembly) : ResponseAssembly :=
  mkResponseAssembly (ra_Version a) (ra_LogicalRequestID a) (ra_State a) l
    (ra_ToolArgumentRepairs a).
Definition set_ra_ToolArgumentRepairs (l : list Z) (a : ResponseAssembly) : ResponseAssembly :=
  mkResponseAssembly (ra_Version a) (ra_LogicalRequestID a) (ra_State a) (ra_Segments a) l.

(** ** Tool argument repair *)

Definition ToolArgumentsRejected (a : ResponseAssembly) : bool :=
  match currentOrNil a with
  | Some seg => bool_decide (sg_State seg = ResponseFailed) && sg_RejectedToolArguments seg
  | None => false
  end.

Definition segment_count (a : ResponseAssembly) : Z := Z.of_nat (length (ra_Segments a)).

Definition toolArgumentRepairAuthorized (a : ResponseAssembly) : bool :=
  ToolArgumentsRejected a &&
  match last (ra_ToolArgumentRepairs a) with
  | Some index => index =? u32 (segment_count a)
  | None => false
  end.

(** [None] is success. *)
Definition AuthorizeToolArgumentRepair (limit : Z) (a : ResponseAssembly) :
    ResponseAssembly * option error :=
  if negb (ToolArgumentsRejected a)
  then (a, Some (ErrText "response has no rejected tool arguments"))
  else if toolArgumentRepairAuthorized a then (a, None)
  else if Z.max limit 0 <=? Z.of_nat (length (ra_ToolArgumentRepairs a))
  then (a, Some (ErrText "tool argument regeneration budget exhausted"))
  else (set_ra_ToolArgumentRepairs
          (ra_ToolArgumentRepairs a ++ [u32 (segment_count a)]) a, None).

Definition repair_error : error := ErrText "invalid tool argument repair authorization".

(** The first loop of [validateToolArgumentRepairs]; [previous] is the last
    index accepted. *)
Fixpoint validate_repair_indexes (segments : list ResponseSegment) (previous : Z)
    (repairs : list Z) : res error unit :=
  match repairs with
  | [] => Ok tt
  | index :: repairs =>
      refuse ((index <=? previous) || (Z.of_nat (length segments) <? index)
              || negb (match segments !! Z.to_nat (index - 1) with
                       | Some seg => sg_RejectedToolArguments seg
                       | None => false
                       end)) repair_error;;
      validate_repair_indexes segments index repairs
  end.

(** [for i, x := range l], with [i] as an integer. *)
Definition enumerate {A} (l : list A) : list (Z * A) := imap (λ i x, (Z.of_nat i, x)) l.

Definition validateToolArgumentRepairs (a : ResponseAssembly) : res error unit :=
  validate_repair_indexes (ra_Segments a) 0 (ra_ToolArgumentRepairs a);;
  iterM (λ '(i, seg),
    refuse (bool_decide (sg_State seg = ResponseFailed)
            && negb (bool_decide (u32 (i + 1) ∈ ra_ToolArgumentRepairs a)))
      (ErrFmt "failed response segment %d was resumed without authorization" [ArgZ i]))
    (enumerate (removelast (ra_Segments a))).

(** ** Validity *)

Definition validate_segment (a : ResponseAssembly) (i : Z) (seg : ResponseSegment) :
    res error unit :=
  refuse ((tm_LogicalRequestID (sg_Transport seg) != ra_LogicalRequestID a)
          || (tm_TransportRequestID (sg_Transport seg) == "")
          || (tm_Attempt (sg_Transport seg) =? 0))
    (ErrFmt "response segment %d has invalid attribution" [ArgZ i]);;
  refuse (bool_decide (sg_State seg = ResponseEmpty))
    (ErrFmt "response segment %d has invalid state %q"
       [ArgZ i; ArgS (completeness_string (sg_State seg))]);;
  refuse (sg_RejectedToolArguments seg &&
          (negb (bool_decide (sg_State seg = ResponseFailed))
           || bool_decide (sg_ToolFragments seg = [])))
    (ErrFmt "response segment %d has invalid tool rejection" [ArgZ i]).

Definition Validate (a : ResponseAssembly) : res error unit :=
  refuse (negb (ra_Version a =? ResponseAssemblyVersion))
    (ErrFmt "unsupported response assembly version %d" [ArgZ (ra_Version a)]);;
  refuse (blank (ra_LogicalRequestID a))
    (ErrText "response assembly logical request id is empty");;
  match last (ra_Segments a) with
  | None =>
      refuse (negb (bool_decide (ra_State a = ResponseEmpty))
              || negb (bool_decide (ra_ToolArgumentRepairs a = [])))
        (ErrText "response assembly without segments is not empty")
  | Some latest =>
      iterM (λ '(i, seg), validate_segment a i seg) (enumerate (ra_Segments a));;
      validateToolArgumentRepairs a;;
      refuse (negb (bool_decide (ra_State a = sg_State latest)))
        (ErrText "response assembly state does not match last segment")
  end.

(** ** The extension order on durable progress *)

Definition without_text (id : bool) (b : ContentBlock) : ContentBlock :=
  mkContentBlock (cb_Type b) "" (if id then cb_ID b else "") (cb_ToolCall b) (cb_ToolResult b)
    (cb_Search b) (cb_Citation b) (cb_Attachment b).

Definition block_extends (before after : ContentBlock) : bool :=
  bool_decide (without_text true before = without_text (cb_ID before != "") after)
  && has_prefix (cb_Text after) (cb_Text before).

Definition validateBlockPrefix (before after : list ContentBlock) : res error unit :=
  refuse (length after <? length before)%nat (ErrText "response blocks were removed");;
  iterM (λ '(i, (o, n)), require (block_extends o n) (ErrFmt "response block %d changed" [ArgZ i]))
    (enumerate (zip before after)).

Definition fragment_extends (o n : ToolCallFragment) : bool :=
  (tf_Index o =? tf_Index n)
  && ((tf_ID o == "") || (tf_ID o == tf_ID n))
  && ((tf_Name o == "") || (tf_Name o == tf_Name n))
  && has_prefix (tf_Arguments n) (tf_Arguments o).

Definition validateToolFragmentPrefix (before after : list ToolCallFragment) : res error unit :=
  refuse (length after <? length before)%nat (ErrText "tool fragments were removed");;
  iterM (λ '(i, (o, n)), require (fragment_extends o n) (ErrFmt "tool fragment %d changed" [ArgZ i]))
    (enumerate (zip before after)).

Definition validateResponseStatePrefix (before after : option ResponseState) : res error unit :=
  match before with
  | None => Ok tt
  | Some before =>
      match after with
      | None => Err (ErrText "response state changed")
      | Some after =>
          refuse ((rp_ID before != rp_ID after)
                  || (length (rp_Output after) <? length (rp_Output before))%nat)
            (ErrText "response state changed");;
          iterM (λ '(i, (o, n)),
              require (o == n) (ErrFmt "response output %d changed" [ArgZ i]))
            (enumerate (zip (rp_Output before) (rp_Output after)))
      end
  end.

Definition validateSegmentExtension (before after : ResponseSegment) : res error unit :=
  refuse ((sg_RejectedToolArguments before && negb (sg_RejectedToolArguments after))
          || (negb (bool_decide (sg_State before = ResponseStreaming))
              && negb (Bool.eqb (sg_RejectedToolArguments before) (sg_RejectedToolArguments after))))
    (ErrText "tool argument rejection changed");;
  require (bool_decide (sg_Transport before = sg_Transport after))
    (ErrText "transport metadata changed");;
  refuse ((sg_EventCount after <? sg_EventCount before)
          || (us_InputTokens (sg_Usage after) <? us_InputTokens (sg_Usage before))
          || (us_OutputTokens (sg_Usage after) <? us_OutputTokens (sg_Usage before))
          || (us_ReasoningTokens (sg_Usage after) <? us_ReasoningTokens (sg_Usage before))
          || (us_CachedTokens (sg_Usage after) <? us_CachedTokens (sg_Usage before)))
    (ErrText "counters moved backward");;
  refuse ((sg_Meaningful before && negb (sg_Meaningful after))
          || (sg_HasSequence before && negb (sg_HasSequence after))
          || (sg_HasSequence before
              && ((sg_LastSequence after <? sg_LastSequence before)
                  || ((sg_LastSequence after =? sg_LastSequence before)
                      && (sg_LastOrdinal after <? sg_LastOrdinal before)))))
    (ErrText "stream progress moved backward");;
  refuse ((negb (bool_decide (sg_StopReason before = StopReasonNone))
           && negb (bool_decide (sg_StopReason before = sg_StopReason after)))
          || ((sg_Error before != "") && (sg_Error before != sg_Error after)))
    (ErrText "terminal metadata changed");;
  refuse (negb (bool_decide (sg_State before = ResponseStreaming))
          && negb (bool_decide (sg_State before = sg_State after)))
    (ErrText "settled response state changed");;
  validateBlockPrefix (sg_Blocks before) (sg_Blocks after);;
  validateToolFragmentPrefix (sg_ToolFragments before) (sg_ToolFragments after);;
  refuse (match sg_Replay before with
          | Some _ => negb (bool_decide (sg_Replay before = sg_Replay after))
          | None => false
          end) (ErrText "replay state changed");;
  validateResponseStatePrefix (sg_Response before) (sg_Response after);;
  iterM (λ '(key, digest),
      require (default "" (sg_Seen after !! key) == digest) (ErrFmt "event %q changed" [ArgS key]))
    (map_to_list (sg_Seen before)).

Definition ValidateExtension (a : ResponseAssembly) (previous : option ResponseAssembly) :
    res error unit :=
  Validate a;;
  match previous with
  | None => Ok tt
  | Some previous =>
      match Validate previous with
      | Err e => Err (ErrWrap "previous response assembly: %w" [] e)
      | Ok _ =>
          refuse (negb (ra_Version a =? ra_Version previous)
                  || (ra_LogicalRequestID a != ra_LogicalRequestID previous)
                  || (segment_count a <? segment_count previous))
            (ErrText "response assembly does not extend durable identity");;
          let n := length (ra_ToolArgumentRepairs previous) in
          refuse ((length (ra_ToolArgumentRepairs a) <? n)%nat
                  || negb (bool_decide (take n (ra_ToolArgumentRepairs a)
                                        = ra_ToolArgumentRepairs previous)))
            (ErrText "tool argument repair authorizations changed");;
          iterM (λ '(i, (before, after)),
              match validateSegmentExtension before after with
              | Err e => Err (ErrWrap "response segment %d regressed durable progress: %w" [ArgZ i] e)
              | Ok _ => Ok tt
              end)
            (enumerate (zip (ra_Segments previous) (ra_Segments a)))
      end
  end.
