(* ===== verification/TurnState.v ===== *)
(** The turn kernel's data ([internal/runtime/agent/turnkernel/state.go], the
    work item of [work_item.go], the observation set, and the effects and
    events of [command.go]). Pointers are options, Go maps are [gmap]s (a nil
    ledger is not representable), enumerations are the declared constants with
    a [...None] constructor where the code uses the empty string, and a time is
    its offset in nanoseconds from Go's zero time. *)
From S2P Require Import Prelude.
From S2P Require Import GoStrings.
From S2P Require Import Json.
From S2P Require Import Provider.
From S2P Require Import Assembly.

(** [time.Time] and [time.Duration] in nanoseconds. *)
Definition Time : Type := Z.
Definition Duration : Type := Z.
Definition time_zero (t : Time) : bool := t =? 0.

(** Phases of a turn. *)
Inductive Phase :=
  | PhaseCreated | PhasePreparing | PhaseSampling | PhaseExecutingTools | PhaseAwaitingApproval | PhaseAwaitingInput | PhaseVerifying | PhaseCommitting | PhaseCompleted | PhaseFailed | PhaseCanceled.
#[export] Instance Phase_eq_dec : EqDecision Phase.
Proof. solve_decision. Defined.

(** [Phase.Terminal]. *)
Definition Terminal (p : Phase) : bool :=
  match p with
  | PhaseCompleted | PhaseFailed | PhaseCanceled => true
  | _ => false
  end.

(** Verification verdicts; retained for historical states. *)
Inductive VerificationStatus :=
  | VerificationNotRequired | VerificationNotEvaluated | VerificationPassed | VerificationFailed | VerificationUnavailable.
#[export] Instance VerificationStatus_eq_dec : EqDecision VerificationStatus.
Proof. solve_decision. Defined.

(** The workspace journal of the turn. *)
Inductive JournalStatus :=
  | JournalNone | JournalOpen | JournalSuspended | JournalCommitted | JournalRolledBack.
#[export] Instance JournalStatus_eq_dec : EqDecision JournalStatus.
Proof. solve_decision. Defined.

(** Model sample lifecycle; [SampleStatusNone] is the zero value of an absent ledger entry. *)
Inductive SampleStatus :=
  | SampleStatusNone | SampleRequested | SampleRunning | SampleCompleted | SampleFailed.
#[export] Instance SampleStatus_eq_dec : EqDecision SampleStatus.
Proof. solve_decision. Defined.

(** Effect lifecycle. *)
Inductive EffectLifecycleStatus :=
  | EffectRequested | EffectRunning | EffectSucceeded | EffectFailed.
#[export] Instance EffectLifecycleStatus_eq_dec : EqDecision EffectLifecycleStatus.
Proof. solve_decision. Defined.

(** Outcome of a turn. *)
Inductive TerminalKind :=
  | TerminalCompleted | TerminalFailed | TerminalCanceled.
#[export] Instance TerminalKind_eq_dec : EqDecision TerminalKind.
Proof. solve_decision. Defined.
Definition terminal_kind_string (x : TerminalKind) : string :=
  match x with
  | TerminalCompleted => "completed"
  | TerminalFailed => "failed"
  | TerminalCanceled => "canceled"
  end.

(** Repair budgets; [RepairNone] is the empty kind. *)
Inductive RepairKind :=
  | RepairNone | RepairCompletion | RepairWorkspace | RepairDeclaration | RepairVerification.
#[export] Instance RepairKind_eq_dec : EqDecision RepairKind.
Proof. solve_decision. Defined.
Definition repair_kind_string (x : RepairKind) : string :=
  match x with
  | RepairNone => ""
  | RepairCompletion => "completion"
  | RepairWorkspace => "workspace"
  | RepairDeclaration => "declaration"
  | RepairVerification => "verification"
  end.

#[export] Instance RepairKind_countable : Countable RepairKind.
Proof.
  refine (inj_countable'
    (λ k, match k with RepairNone => 0 | RepairCompletion => 1 | RepairWorkspace => 2
          | RepairDeclaration => 3 | RepairVerification => 4 end%nat)
    (λ n, match n with 0 => RepairNone | 1 => RepairCompletion | 2 => RepairWorkspace
          | 3 => RepairDeclaration | _ => RepairVerification end%nat) _).
  by intros [].
Defined.

(** What the engine does next. *)
Inductive StepAction :=
  | StepActionNone | StepActionRepairToolFailure | StepActionRepairCompletion | StepActionRepairWorkspace | StepActionRepairDeclaration | StepActionVerify | StepActionFinalize | StepActionBlock | StepActionComplete.
#[export] Instance StepAction_eq_dec : EqDecision StepAction.
Proof. solve_decision. Defined.

(** Why a turn must converge. *)
Inductive ConvergenceCause :=
  | ConvergenceOutputLimit | ConvergenceNoProgress | ConvergenceRepairBudget | ConvergenceStepLimit | ConvergenceIncomplete.
#[export] Instance ConvergenceCause_eq_dec : EqDecision ConvergenceCause.
Proof. solve_decision. Defined.
Definition cause_string (x : ConvergenceCause) : string :=
  match x with
  | ConvergenceOutputLimit => "output_limit"
  | ConvergenceNoProgress => "no_progress"
  | ConvergenceRepairBudget => "repair_budget"
  | ConvergenceStepLimit => "step_limit"
  | ConvergenceIncomplete => "declared_incomplete"
  end.

(** Verification outcomes; [VerificationActionNone] is the empty action. *)
Inductive VerificationAction :=
  | VerificationActionNone | VerificationActionNotRequired | VerificationActionPassed | VerificationActionRepair | VerificationActionReported | VerificationActionBlocked | VerificationActionFailed | VerificationActionReverted.
#[export] Instance VerificationAction_eq_dec : EqDecision VerificationAction.
Proof. solve_decision. Defined.

(** Consecutive and total repairs of one kind. *)
Record RepairBudget := mkRepairBudget {
  rb_ProgressKey : string;
  rb_Consecutive : Z;
  rb_Steps : Z;
}.

(** Escalation of the no-progress clock. *)
Inductive ProgressStage :=
  | ProgressStageNone | ProgressStageConverge | ProgressStageFinishOnly | ProgressStageExhausted.
#[export] Instance ProgressStage_eq_dec : EqDecision ProgressStage.
Proof. solve_decision. Defined.

(** Kind of stall observed. *)
Inductive ProgressStallKind :=
  | ProgressStallNone | ProgressStallIdenticalCall | ProgressStallCycle.
#[export] Instance ProgressStallKind_eq_dec : EqDecision ProgressStallKind.
Proof. solve_decision. Defined.

(** [observation_set.go]: seen keys in insertion order, with their index. *)
Record ObservationSet := mkObservationSet {
  os_order : list string;
  os_index : gset string;
}.

(** The no-progress clock. *)
Record ProgressState := mkProgressState {
  pg_Signature : string;
  pg_SampleIdentity : string;
  pg_PendingIdentity : string;
  pg_ObservationKey : string;
  pg_SeenObservations : option ObservationSet;
  pg_PendingResultDigests : list string;
  pg_ObservedSamples : Z;
  pg_NoProgressSamples : Z;
  pg_Stage : ProgressStage;
  pg_StallKind : ProgressStallKind;
}.
Definition eta_ProgressState (s : ProgressState) : ProgressState :=
  mkProgressState (pg_Signature s) (pg_SampleIdentity s) (pg_PendingIdentity s) (pg_ObservationKey s) (pg_SeenObservations s) (pg_PendingResultDigests s) (pg_ObservedSamples s) (pg_NoProgressSamples s) (pg_Stage s) (pg_StallKind s).
Definition set_pg_Signature : string → ProgressState → ProgressState.
Proof. field_setter eta_ProgressState pg_Signature. Defined.
Definition set_pg_SampleIdentity : string → ProgressState → ProgressState.
Proof. field_setter eta_ProgressState pg_SampleIdentity. Defined.
Definition set_pg_PendingIdentity : string → ProgressState → ProgressState.
Proof. field_setter eta_ProgressState pg_PendingIdentity. Defined.
Definition set_pg_ObservationKey : string → ProgressState → ProgressState.
Proof. field_setter eta_ProgressState pg_ObservationKey. Defined.
Definition set_pg_SeenObservations : option ObservationSet → ProgressState → ProgressState.
Proof. field_setter eta_ProgressState pg_SeenObservations. Defined.
Definition set_pg_PendingResultDigests : list string → ProgressState → ProgressState.
Proof. field_setter eta_ProgressState pg_PendingResultDigests. Defined.
Definition set_pg_ObservedSamples : Z → ProgressState → ProgressState.
Proof. field_setter eta_ProgressState pg_ObservedSamples. Defined.
Definition set_pg_NoProgressSamples : Z → ProgressState → ProgressState.
Proof. field_setter eta_ProgressState pg_NoProgressSamples. Defined.
Definition set_pg_Stage : ProgressStage → ProgressState → ProgressState.
Proof. field_setter eta_ProgressState pg_Stage. Defined.
Definition set_pg_StallKind : ProgressStallKind → ProgressState → ProgressState.
Proof. field_setter eta_ProgressState pg_StallKind. Defined.

(** An active convergence. *)
Record ConvergenceState := mkConvergenceState {
  cv_Cause : ConvergenceCause;
  cv_Used : Z;
  cv_Limit : Z;
  cv_RepairKind : RepairKind;
  cv_FinalizationAttempted : bool;
  cv_Summary : string;
  cv_PendingActions : list string;
}.
Definition eta_ConvergenceState (s : ConvergenceState) : ConvergenceState :=
  mkConvergenceState (cv_Cause s) (cv_Used s) (cv_Limit s) (cv_RepairKind s) (cv_FinalizationAttempted s) (cv_Summary s) (cv_PendingActions s).
Definition set_cv_FinalizationAttempted : bool → ConvergenceState → ConvergenceState.
Proof. field_setter eta_ConvergenceState cv_FinalizationAttempted. Defined.
Definition set_cv_Summary : string → ConvergenceState → ConvergenceState.
Proof. field_setter eta_ConvergenceState cv_Summary. Defined.
Definition set_cv_PendingActions : list string → ConvergenceState → ConvergenceState.
Proof. field_setter eta_ConvergenceState cv_PendingActions. Defined.

(** Thresholds of the no-progress clock. *)
Record ConvergencePolicy := mkConvergencePolicy {
  cp_ProgressConverge : Z;
  cp_ProgressFinishOnly : Z;
  cp_ProgressLimit : Z;
  cp_ResearchConverge : Z;
  cp_ResearchFinishOnly : Z;
  cp_ResearchLimit : Z;
}.
#[export] Instance ConvergencePolicy_eq_dec : EqDecision ConvergencePolicy.
Proof. solve_decision. Defined.

(** Turn policy, frozen at creation except for retired verification fields. *)
Record Policy := mkPolicy {
  po_CompletionRequired : bool;
  po_StructuredTerminalRequired : bool;
  po_VerificationRequired : bool;
  po_VerificationMustPass : bool;
  po_VerificationMode : string;
  po_VerificationOnFailure : string;
  po_CompletionRepairLimit : Z;
  po_WorkspaceRepairLimit : Z;
  po_DeclarationRepairLimit : Z;
  po_VerificationRepairLimit : Z;
  po_ExecutionStepLimit : Z;
  po_JournalRequired : bool;
  po_Convergence : ConvergencePolicy;
  po_ImplementNoProgressSamples : Z;
}.
Definition eta_Policy (s : Policy) : Policy :=
  mkPolicy (po_CompletionRequired s) (po_StructuredTerminalRequired s) (po_VerificationRequired s) (po_VerificationMustPass s) (po_VerificationMode s) (po_VerificationOnFailure s) (po_CompletionRepairLimit s) (po_WorkspaceRepairLimit s) (po_DeclarationRepairLimit s) (po_VerificationRepairLimit s) (po_ExecutionStepLimit s) (po_JournalRequired s) (po_Convergence s) (po_ImplementNoProgressSamples s).
Definition set_po_VerificationRequired : bool → Policy → Policy.
Proof. field_setter eta_Policy po_VerificationRequired. Defined.
Definition set_po_VerificationMustPass : bool → Policy → Policy.
Proof. field_setter eta_Policy po_VerificationMustPass. Defined.
Definition set_po_VerificationMode : string → Policy → Policy.
Proof. field_setter eta_Policy po_VerificationMode. Defined.
Definition set_po_VerificationOnFailure : string → Policy → Policy.
Proof. field_setter eta_Policy po_VerificationOnFailure. Defined.
Definition set_po_VerificationRepairLimit : Z → Policy → Policy.
Proof. field_setter eta_Policy po_VerificationRepairLimit. Defined.

Definition zero_convergence_policy : ConvergencePolicy := mkConvergencePolicy 0 0 0 0 0 0.

Definition ConvergencePolicyForStepLimit (limit : Z) : ConvergencePolicy :=
  if limit =? 0 then zero_convergence_policy else
  let converge := Z.max 1 (limit / 3) in
  let finishOnly := Z.max converge (u32 (u64 (limit * 2) / 3)) in
  mkConvergencePolicy converge finishOnly limit converge finishOnly limit.

Definition DefaultPolicy : Policy :=
  mkPolicy true false false false "" "" 2 1 1 0 0 false zero_convergence_policy 0.

(** An open tool call. *)
Record ToolCallState := mkToolCallState {
  cs_ID : string;
  cs_Name : string;
  cs_Arguments : string;
  cs_CatalogID : string;
  cs_CatalogGeneration : Z;
  cs_CatalogRevision : Z;
  cs_CatalogAuthority : Z;
  cs_AdmissionRejection : string;
}.
Definition eta_ToolCallState (s : ToolCallState) : ToolCallState :=
  mkToolCallState (cs_ID s) (cs_Name s) (cs_Arguments s) (cs_CatalogID s) (cs_CatalogGeneration s) (cs_CatalogRevision s) (cs_CatalogAuthority s) (cs_AdmissionRejection s).
Definition set_cs_AdmissionRejection : string → ToolCallState → ToolCallState.
Proof. field_setter eta_ToolCallState cs_AdmissionRejection. Defined.

(** A closed tool call. *)
Record ToolResultState := mkToolResultState {
  ts_ID : string;
  ts_Name : string;
  ts_IsError : bool;
}.

(** One observed file change. *)
Record ObservedChange := mkObservedChange {
  oc_Path : string;
  oc_Kind : string;
  oc_ContentDigest : string;
}.
#[export] Instance ObservedChange_eq_dec : EqDecision ObservedChange.
Proof. solve_decision. Defined.

(** A pending approval. *)
Record ApprovalState := mkApprovalState {
  ap_RequestID : string;
  ap_CallID : string;
}.

(** A pending user input. *)
Record InputState := mkInputState {
  is_RequestID : string;
  is_CallID : string;
}.

(** Effective changes relative to the turn baseline. *)
Record WorkspaceState := mkWorkspaceState {
  ws_Mutation : Z;
  ws_Changes : list ObservedChange;
}.

(** The verdict on a completion declaration. *)
Record CompletionDecision := mkCompletionDecision {
  cd_NoChangeReason : string;
  cd_NoChangeEvidence : list string;
  cd_Accepted : bool;
  cd_Summary : string;
  cd_Reason : string;
  cd_RequiredAction : string;
  cd_OutputMode : string;
  cd_PendingActions : list string;
  cd_Mutation : Z;
  cd_ChangedPaths : list string;
  cd_VerificationCalls : list string;
  cd_CompletionCall : string;
}.
Definition eta_CompletionDecision (s : CompletionDecision) : CompletionDecision :=
  mkCompletionDecision (cd_NoChangeReason s) (cd_NoChangeEvidence s) (cd_Accepted s) (cd_Summary s) (cd_Reason s) (cd_RequiredAction s) (cd_OutputMode s) (cd_PendingActions s) (cd_Mutation s) (cd_ChangedPaths s) (cd_VerificationCalls s) (cd_CompletionCall s).
Definition set_cd_Accepted : bool → CompletionDecision → CompletionDecision.
Proof. field_setter eta_CompletionDecision cd_Accepted. Defined.
Definition set_cd_Reason : string → CompletionDecision → CompletionDecision.
Proof. field_setter eta_CompletionDecision cd_Reason. Defined.
Definition set_cd_RequiredAction : string → CompletionDecision → CompletionDecision.
Proof. field_setter eta_CompletionDecision cd_RequiredAction. Defined.
Definition set_cd_ChangedPaths : list string → CompletionDecision → CompletionDecision.
Proof. field_setter eta_CompletionDecision cd_ChangedPaths. Defined.

(** Historical verification state. *)
Record VerificationState := mkVerificationState {
  vs_Status : VerificationStatus;
  vs_Action : VerificationAction;
  vs_Mutation : Z;
  vs_EvidenceCalls : list string;
  vs_FailureMessage : string;
}.

(** The terminal decision of a turn. *)
Record TerminalDecision := mkTerminalDecision {
  td_Kind : TerminalKind;
  td_Code : string;
  td_Message : string;
  td_Fault : option FaultMetadata;
  td_Convergence : option ConvergenceState;
}.
Definition eta_TerminalDecision (s : TerminalDecision) : TerminalDecision :=
  mkTerminalDecision (td_Kind s) (td_Code s) (td_Message s) (td_Fault s) (td_Convergence s).
Definition set_td_Convergence : option ConvergenceState → TerminalDecision → TerminalDecision.
Proof. field_setter eta_TerminalDecision td_Convergence. Defined.

(** Accumulated usage. *)
Record UsageState := mkUsageState {
  ug_Calls : Z;
  ug_InputTokens : Z;
  ug_OutputTokens : Z;
  ug_ReasoningTokens : Z;
  ug_CachedTokens : Z;
  ug_CostMicrounits : Z;
  ug_CostKnown : bool;
  ug_Frozen : bool;
}.
Definition eta_UsageState (s : UsageState) : UsageState :=
  mkUsageState (ug_Calls s) (ug_InputTokens s) (ug_OutputTokens s) (ug_ReasoningTokens s) (ug_CachedTokens s) (ug_CostMicrounits s) (ug_CostKnown s) (ug_Frozen s).
Definition set_ug_Frozen : bool → UsageState → UsageState.
Proof. field_setter eta_UsageState ug_Frozen. Defined.

(** Context bookkeeping. *)
Record ContextState := mkContextState {
  cx_Digest : string;
  cx_HistoryBytes : Z;
  cx_MaxBytes : Z;
  cx_Compactions : Z;
  cx_Frozen : bool;
  cx_Truncated : bool;
  cx_TruncateCause : string;
}.
Definition eta_ContextState (s : ContextState) : ContextState :=
  mkContextState (cx_Digest s) (cx_HistoryBytes s) (cx_MaxBytes s) (cx_Compactions s) (cx_Frozen s) (cx_Truncated s) (cx_TruncateCause s).
Definition set_cx_Frozen : bool → ContextState → ContextState.
Proof. field_setter eta_ContextState cx_Frozen. Defined.

(** Retry reservations of one sample. *)
Record ProviderRetryBudget := mkProviderRetryBudget {
  bg_TransientRetries : Z;
  bg_RateLimitRetries : Z;
  bg_RateLimitWaited : Duration;
  bg_WaitUntil : Time;
}.
#[export] Instance ProviderRetryBudget_eq_dec : EqDecision ProviderRetryBudget.
Proof. solve_decision. Defined.
Definition eta_ProviderRetryBudget (s : ProviderRetryBudget) : ProviderRetryBudget :=
  mkProviderRetryBudget (bg_TransientRetries s) (bg_RateLimitRetries s) (bg_RateLimitWaited s) (bg_WaitUntil s).
Definition set_bg_TransientRetries : Z → ProviderRetryBudget → ProviderRetryBudget.
Proof. field_setter eta_ProviderRetryBudget bg_TransientRetries. Defined.
Definition set_bg_RateLimitRetries : Z → ProviderRetryBudget → ProviderRetryBudget.
Proof. field_setter eta_ProviderRetryBudget bg_RateLimitRetries. Defined.
Definition set_bg_RateLimitWaited : Duration → ProviderRetryBudget → ProviderRetryBudget.
Proof. field_setter eta_ProviderRetryBudget bg_RateLimitWaited. Defined.
Definition set_bg_WaitUntil : Time → ProviderRetryBudget → ProviderRetryBudget.
Proof. field_setter eta_ProviderRetryBudget bg_WaitUntil. Defined.

(** A scheduled retry. *)
Record ProviderRetryState := mkProviderRetryState {
  pr_EffectID : string;
  pr_Attempt : Z;
  pr_Retry : Z;
  pr_EffectiveDelayMS : Z;
  pr_RetryAt : Time;
  pr_PolicyRevision : string;
}.

(** One model sample. *)
Record ModelSampleState := mkModelSampleState {
  ms_ID : string;
  ms_Attempt : Z;
  ms_Status : SampleStatus;
  ms_ProviderRetries : Z;
  ms_RetryBudget : ProviderRetryBudget;
  ms_LastFailure : option Failure;
  ms_Retry : option ProviderRetryState;
  ms_Assembly : option ResponseAssembly;
  ms_Error : string;
}.
Definition eta_ModelSampleState (s : ModelSampleState) : ModelSampleState :=
  mkModelSampleState (ms_ID s) (ms_Attempt s) (ms_Status s) (ms_ProviderRetries s) (ms_RetryBudget s) (ms_LastFailure s) (ms_Retry s) (ms_Assembly s) (ms_Error s).
Definition set_ms_ID : string → ModelSampleState → ModelSampleState.
Proof. field_setter eta_ModelSampleState ms_ID. Defined.
Definition set_ms_Attempt : Z → ModelSampleState → ModelSampleState.
Proof. field_setter eta_ModelSampleState ms_Attempt. Defined.
Definition set_ms_Status : SampleStatus → ModelSampleState → ModelSampleState.
Proof. field_setter eta_ModelSampleState ms_Status. Defined.
Definition set_ms_ProviderRetries : Z → ModelSampleState → ModelSampleState.
Proof. field_setter eta_ModelSampleState ms_ProviderRetries. Defined.
Definition set_ms_RetryBudget : ProviderRetryBudget → ModelSampleState → ModelSampleState.
Proof. field_setter eta_ModelSampleState ms_RetryBudget. Defined.
Definition set_ms_LastFailure : option Failure → ModelSampleState → ModelSampleState.
Proof. field_setter eta_ModelSampleState ms_LastFailure. Defined.
Definition set_ms_Retry : option ProviderRetryState → ModelSampleState → ModelSampleState.
Proof. field_setter eta_ModelSampleState ms_Retry. Defined.
Definition set_ms_Assembly : option ResponseAssembly → ModelSampleState → ModelSampleState.
Proof. field_setter eta_ModelSampleState ms_Assembly. Defined.
Definition set_ms_Error : string → ModelSampleState → ModelSampleState.
Proof. field_setter eta_ModelSampleState ms_Error. Defined.

Definition zero_retry_budget : ProviderRetryBudget := mkProviderRetryBudget 0 0 0 0.

(** The zero value read from an absent ledger entry. *)
Definition zero_sample : ModelSampleState :=
  mkModelSampleState "" 0 SampleStatusNone 0 zero_retry_budget None None None "".

(** Narration preceding tool calls. *)
Record Commentary := mkCommentary {
  cm_SampleID : string;
  cm_Text : string;
  cm_CallIDs : list string;
}.

(** Cancellation. *)
Record CancellationState := mkCancellationState {
  ca_Requested : bool;
  ca_Accepted : bool;
  ca_Reason : string;
}.

(** The turn this one recovers. *)
Record RecoveryRelation := mkRecoveryRelation {
  rr_SourceTurnID : string;
  rr_RecoveryTurnID : string;
  rr_Action : string;
  rr_DraftResumed : bool;
}.

(** Cursor of the newest durable conversation snapshot. *)
Record ContinuationCursor := mkContinuationCursor {
  cc_Sequence : Z;
  cc_Handle : string;
  cc_Digest : string;
}.

(** A durable read record. *)
Record WorkItemRead := mkWorkItemRead {
  wr_Window : string;
  wr_ContentDigest : string;
  wr_Turn : Z;
  wr_StartLine : Z;
  wr_EndLine : Z;
  wr_ResultHandle : string;
  wr_CallID : string;
}.
Definition eta_WorkItemRead (s : WorkItemRead) : WorkItemRead :=
  mkWorkItemRead (wr_Window s) (wr_ContentDigest s) (wr_Turn s) (wr_StartLine s) (wr_EndLine s) (wr_ResultHandle s) (wr_CallID s).
Definition set_wr_Window : string → WorkItemRead → WorkItemRead.
Proof. field_setter eta_WorkItemRead wr_Window. Defined.
Definition set_wr_ContentDigest : string → WorkItemRead → WorkItemRead.
Proof. field_setter eta_WorkItemRead wr_ContentDigest. Defined.
Definition set_wr_StartLine : Z → WorkItemRead → WorkItemRead.
Proof. field_setter eta_WorkItemRead wr_StartLine. Defined.
Definition set_wr_EndLine : Z → WorkItemRead → WorkItemRead.
Proof. field_setter eta_WorkItemRead wr_EndLine. Defined.
Definition set_wr_ResultHandle : string → WorkItemRead → WorkItemRead.
Proof. field_setter eta_WorkItemRead wr_ResultHandle. Defined.
Definition set_wr_CallID : string → WorkItemRead → WorkItemRead.
Proof. field_setter eta_WorkItemRead wr_CallID. Defined.

(** A durable edit record. *)
Record WorkItemEdit := mkWorkItemEdit {
  we_MutationRevision : Z;
  we_ContentDigest : string;
}.

(** Open obligations. *)
Record WorkItemOpen := mkWorkItemOpen {
  wo_UnverifiedPaths : list string;
  wo_Sessions : list string;
  wo_CoveredPaths : list string;
}.
Definition eta_WorkItemOpen (s : WorkItemOpen) : WorkItemOpen :=
  mkWorkItemOpen (wo_UnverifiedPaths s) (wo_Sessions s) (wo_CoveredPaths s).
Definition set_wo_UnverifiedPaths : list string → WorkItemOpen → WorkItemOpen.
Proof. field_setter eta_WorkItemOpen wo_UnverifiedPaths. Defined.
Definition set_wo_Sessions : list string → WorkItemOpen → WorkItemOpen.
Proof. field_setter eta_WorkItemOpen wo_Sessions. Defined.
Definition set_wo_CoveredPaths : list string → WorkItemOpen → WorkItemOpen.
Proof. field_setter eta_WorkItemOpen wo_CoveredPaths. Defined.

(** The next-step facts of a turn. *)
Record WorkItem := mkWorkItem {
  wi_GoalDigest : string;
  wi_KnownReads : gmap string WorkItemRead;
  wi_KnownEdits : gmap string WorkItemEdit;
  wi_Open : WorkItemOpen;
  wi_RequiredAction : string;
}.
Definition eta_WorkItem (s : WorkItem) : WorkItem :=
  mkWorkItem (wi_GoalDigest s) (wi_KnownReads s) (wi_KnownEdits s) (wi_Open s) (wi_RequiredAction s).
Definition set_wi_GoalDigest : string → WorkItem → WorkItem.
Proof. field_setter eta_WorkItem wi_GoalDigest. Defined.
Definition set_wi_KnownReads : gmap string WorkItemRead → WorkItem → WorkItem.
Proof. field_setter eta_WorkItem wi_KnownReads. Defined.
Definition set_wi_KnownEdits : gmap string WorkItemEdit → WorkItem → WorkItem.
Proof. field_setter eta_WorkItem wi_KnownEdits. Defined.
Definition set_wi_Open : WorkItemOpen → WorkItem → WorkItem.
Proof. field_setter eta_WorkItem wi_Open. Defined.
Definition set_wi_RequiredAction : string → WorkItem → WorkItem.
Proof. field_setter eta_WorkItem wi_RequiredAction. Defined.

(** Evidence of one tool result. *)
Record WorkItemObservation := mkWorkItemObservation {
  ob_ReadPath : string;
  ob_ReadWindow : string;
  ob_ReadStart : Z;
  ob_ReadEnd : Z;
  ob_ResultHandle : string;
  ob_CallID : string;
  ob_ContentDigest : string;
  ob_OpenSession : string;
  ob_CloseSession : string;
  ob_CoveredPaths : list string;
  ob_ResultDigest : string;
}.
Definition eta_WorkItemObservation (s : WorkItemObservation) : WorkItemObservation :=
  mkWorkItemObservation (ob_ReadPath s) (ob_ReadWindow s) (ob_ReadStart s) (ob_ReadEnd s) (ob_ResultHandle s) (ob_CallID s) (ob_ContentDigest s) (ob_OpenSession s) (ob_CloseSession s) (ob_CoveredPaths s) (ob_ResultDigest s).
Definition set_ob_ReadPath : string → WorkItemObservation → WorkItemObservation.
Proof. field_setter eta_WorkItemObservation ob_ReadPath. Defined.
Definition set_ob_ReadWindow : string → WorkItemObservation → WorkItemObservation.
Proof. field_setter eta_WorkItemObservation ob_ReadWindow. Defined.

(** Kinds of effects; [EffectNone] is the empty kind. *)
Inductive EffectKind :=
  | EffectNone | EffectSampleProvider | EffectExecuteTool | EffectAwaitApproval | EffectAwaitInput | EffectRunVerification | EffectCommitJournal | EffectSuspendJournal | EffectRollbackJournal.
#[export] Instance EffectKind_eq_dec : EqDecision EffectKind.
Proof. solve_decision. Defined.

(** A requested side effect. *)
Record Effect := mkEffect {
  ef_ID : string;
  ef_Kind : EffectKind;
  ef_Payload : string;
  ef_PayloadDigest : string;
  ef_Attempt : Z;
  ef_IdempotencyKey : string;
  ef_Status : EffectLifecycleStatus;
  ef_CallID : string;
  ef_Error : string;
}.
Definition eta_Effect (s : Effect) : Effect :=
  mkEffect (ef_ID s) (ef_Kind s) (ef_Payload s) (ef_PayloadDigest s) (ef_Attempt s) (ef_IdempotencyKey s) (ef_Status s) (ef_CallID s) (ef_Error s).
Definition set_ef_Attempt : Z → Effect → Effect.
Proof. field_setter eta_Effect ef_Attempt. Defined.
Definition set_ef_Status : EffectLifecycleStatus → Effect → Effect.
Proof. field_setter eta_Effect ef_Status. Defined.
Definition set_ef_Error : string → Effect → Effect.
Proof. field_setter eta_Effect ef_Error. Defined.

(** Kinds of domain events. *)
Inductive EventKind :=
  | EventTransition | EventToolStarted | EventToolClosed | EventMutationObserved | EventCompletionDecided | EventVerification | EventOutputReleased | EventOutputDiscarded | EventRepairRequested | EventConvergence | EventSampleStarted | EventSampleFinished | EventProviderRetry | EventUsageRecorded | EventCancelAccepted | EventRecoveryBound | EventEffectRequested | EventEffectStarted | EventEffectRequeued | EventEffectFinished | EventTerminalPrepared | EventTerminalCommitted.
#[export] Instance EventKind_eq_dec : EqDecision EventKind.
Proof. solve_decision. Defined.

(** A domain event; an empty phase is [None]. *)
Record Event := mkEvent {
  ev_Kind : EventKind;
  ev_From : option Phase;
  ev_To : option Phase;
  ev_CallID : string;
  ev_EffectID : string;
  ev_SampleID : string;
  ev_Mutation : Z;
  ev_Terminal : option TerminalDecision;
}.

(** The state of one turn. *)
Record State := mkState {
  st_Phase : Phase;
  st_Intent : TurnIntent;
  st_Mode : string;
  st_ProfileRevision : Z;
  st_Policy : Policy;
  st_MutationRevision : Z;
  st_OpenCalls : gmap string ToolCallState;
  st_ClosedCalls : gmap string ToolResultState;
  st_PendingApprovals : gmap string ApprovalState;
  st_PendingInput : option InputState;
  st_Workspace : option WorkspaceState;
  st_Changes : list ObservedChange;
  st_Completion : option CompletionDecision;
  st_Continuation : option ContinuationCursor;
  st_Verification : VerificationState;
  st_Journal : JournalStatus;
  st_Usage : UsageState;
  st_Context : ContextState;
  st_SampleLedger : gmap string ModelSampleState;
  st_ActiveSampleID : string;
  st_Cancellation : CancellationState;
  st_RecoveryRelation : option RecoveryRelation;
  st_PendingEffects : gmap string Effect;
  st_CompletedEffects : gmap string Effect;
  st_NextEffectSequence : Z;
  st_ProvisionalOutput : list string;
  st_FinalOutput : list string;
  st_Commentary : list Commentary;
  st_OutputEligibility : bool;
  st_RepairBudgets : gmap RepairKind RepairBudget;
  st_Progress : ProgressState;
  st_WorkItem : WorkItem;
  st_Convergence : option ConvergenceState;
  st_NextAction : StepAction;
  st_LastModelContinued : bool;
  st_UnresolvedToolFailure : bool;
  st_RecoveryToolSucceeded : bool;
  st_PendingTerminal : option TerminalDecision;
  st_Terminal : option TerminalDecision;
}.
Definition eta_State (s : State) : State :=
  mkState (st_Phase s) (st_Intent s) (st_Mode s) (st_ProfileRevision s) (st_Policy s) (st_MutationRevision s) (st_OpenCalls s) (st_ClosedCalls s) (st_PendingApprovals s) (st_PendingInput s) (st_Workspace s) (st_Changes s) (st_Completion s) (st_Continuation s) (st_Verification s) (st_Journal s) (st_Usage s) (st_Context s) (st_SampleLedger s) (st_ActiveSampleID s) (st_Cancellation s) (st_RecoveryRelation s) (st_PendingEffects s) (st_CompletedEffects s) (st_NextEffectSequence s) (st_ProvisionalOutput s) (st_FinalOutput s) (st_Commentary s) (st_OutputEligibility s) (st_RepairBudgets s) (st_Progress s) (st_WorkItem s) (st_Convergence s) (st_NextAction s) (st_LastModelContinued s) (st_UnresolvedToolFailure s) (st_RecoveryToolSucceeded s) (st_PendingTerminal s) (st_Terminal s).
Definition set_st_Phase : Phase → State → State.
Proof. field_setter eta_State st_Phase. Defined.
Definition set_st_Intent : TurnIntent → State → State.
Proof. field_setter eta_State st_Intent. Defined.
Definition set_st_Mode : string → State → State.
Proof. field_setter eta_State st_Mode. Defined.
Definition set_st_ProfileRevision : Z → State → State.
Proof. field_setter eta_State st_ProfileRevision. Defined.
Definition set_st_Policy : Policy → State → State.
Proof. field_setter eta_State st_Policy. Defined.
Definition set_st_MutationRevision : Z → State → State.
Proof. field_setter eta_State st_MutationRevision. Defined.
Definition set_st_OpenCalls : gmap string ToolCallState → State → State.
Proof. field_setter eta_State st_OpenCalls. Defined.
Definition set_st_ClosedCalls : gmap string ToolResultState → State → State.
Proof. field_setter eta_State st_ClosedCalls. Defined.
Definition set_st_PendingApprovals : gmap string ApprovalState → State → State.
Proof. field_setter eta_State st_PendingApprovals. Defined.
Definition set_st_PendingInput : option InputState → State → State.
Proof. field_setter eta_State st_PendingInput. Defined.
Definition set_st_Workspace : option WorkspaceState → State → State.
Proof. field_setter eta_State st_Workspace. Defined.
Definition set_st_Changes : list ObservedChange → State → State.
Proof. field_setter eta_State st_Changes. Defined.
Definition set_st_Completion : option CompletionDecision → State → State.
Proof. field_setter eta_State st_Completion. Defined.
Definition set_st_Continuation : option ContinuationCursor → State → State.
Proof. field_setter eta_State st_Continuation. Defined.
Definition set_st_Verification : VerificationState → State → State.
Proof. field_setter eta_State st_Verification. Defined.
Definition set_st_Journal : JournalStatus → State → State.
Proof. field_setter eta_State st_Journal. Defined.
Definition set_st_Usage : UsageState → State → State.
Proof. field_setter eta_State st_Usage. Defined.
Definition set_st_Context : ContextState → State → State.
Proof. field_setter eta_State st_Context. Defined.
Definition set_st_SampleLedger : gmap string ModelSampleState → State → State.
Proof. field_setter eta_State st_SampleLedger. Defined.
Definition set_st_ActiveSampleID : string → State → State.
Proof. field_setter eta_State st_ActiveSampleID. Defined.
Definition set_st_Cancellation : CancellationState → State → State.
Proof. field_setter eta_State st_Cancellation. Defined.
Definition set_st_RecoveryRelation : option RecoveryRelation → State → State.
Proof. field_setter eta_State st_RecoveryRelation. Defined.
Definition set_st_PendingEffects : gmap string Effect → State → State.
Proof. field_setter eta_State st_PendingEffects. Defined.
Definition set_st_CompletedEffects : gmap string Effect → State → State.
Proof. field_setter eta_State st_CompletedEffects. Defined.
Definition set_st_NextEffectSequence : Z → State → State.
Proof. field_setter eta_State st_NextEffectSequence. Defined.
Definition set_st_ProvisionalOutput : list string → State → State.
Proof. field_setter eta_State st_ProvisionalOutput. Defined.
Definition set_st_FinalOutput : list string → State → State.
Proof. field_setter eta_State st_FinalOutput. Defined.
Definition set_st_Commentary : list Commentary → State → State.
Proof. field_setter eta_State st_Commentary. Defined.
Definition set_st_OutputEligibility : bool → State → State.
Proof. field_setter eta_State st_OutputEligibility. Defined.
Definition set_st_RepairBudgets : gmap RepairKind RepairBudget → State → State.
Proof. field_setter eta_State st_RepairBudgets. Defined.
Definition set_st_Progress : ProgressState → State → State.
Proof. field_setter eta_State st_Progress. Defined.
Definition set_st_WorkItem : WorkItem → State → State.
Proof. field_setter eta_State st_WorkItem. Defined.
Definition set_st_Convergence : option ConvergenceState → State → State.
Proof. field_setter eta_State st_Convergence. Defined.
Definition set_st_NextAction : StepAction → State → State.
Proof. field_setter eta_State st_NextAction. Defined.
Definition set_st_LastModelContinued : bool → State → State.
Proof. field_setter eta_State st_LastModelContinued. Defined.
Definition set_st_UnresolvedToolFailure : bool → State → State.
Proof. field_setter eta_State st_UnresolvedToolFailure. Defined.
Definition set_st_RecoveryToolSucceeded : bool → State → State.
Proof. field_setter eta_State st_RecoveryToolSucceeded. Defined.
Definition set_st_PendingTerminal : option TerminalDecision → State → State.
Proof. field_setter eta_State st_PendingTerminal. Defined.
Definition set_st_Terminal : option TerminalDecision → State → State.
Proof. field_setter eta_State st_Terminal. Defined.

Definition zero_progress : ProgressState :=
  mkProgressState "" "" "" "" None [] 0 0 ProgressStageNone ProgressStallNone.
Definition zero_work_item : WorkItem :=
  mkWorkItem "" ∅ ∅ (mkWorkItemOpen [] [] []) "".
Definition not_evaluated : VerificationState :=
  mkVerificationState VerificationNotEvaluated VerificationActionNone 0 [] "".

Definition NewState (intent : TurnIntent) (mode : string) (profileRevision : Z) : State :=
  {| st_Phase := PhaseCreated; st_Intent := NormalizeTurnIntent intent; st_Mode := mode;
     st_ProfileRevision := profileRevision; st_Policy := DefaultPolicy;
     st_MutationRevision := 0; st_OpenCalls := ∅; st_ClosedCalls := ∅;
     st_PendingApprovals := ∅; st_PendingInput := None; st_Workspace := None;
     st_Changes := []; st_Completion := None; st_Continuation := None;
     st_Verification := not_evaluated; st_Journal := JournalNone;
     st_Usage := mkUsageState 0 0 0 0 0 0 false false;
     st_Context := mkContextState "" 0 0 0 false false "";
     st_SampleLedger := ∅; st_ActiveSampleID := "";
     st_Cancellation := mkCancellationState false false ""; st_RecoveryRelation := None;
     st_PendingEffects := ∅; st_CompletedEffects := ∅; st_NextEffectSequence := 0;
     st_ProvisionalOutput := []; st_FinalOutput := []; st_Commentary := [];
     st_OutputEligibility := false; st_RepairBudgets := ∅; st_Progress := zero_progress;
     st_WorkItem := zero_work_item; st_Convergence := None; st_NextAction := StepActionNone;
     st_LastModelContinued := false; st_UnresolvedToolFailure := false;
     st_RecoveryToolSucceeded := false; st_PendingTerminal := None; st_Terminal := None |}.

Definition NewStateWithPolicy (intent : TurnIntent) (mode : string) (profileRevision : Z)
    (policy : Policy) : State :=
  set_st_Policy policy (NewState intent mode profileRevision).

Definition RequiresCompletion (state : State) : bool :=
  po_CompletionRequired (st_Policy state) && po_StructuredTerminalRequired (st_Policy state).

Definition IsResearchIntent (intent : TurnIntent) : bool :=
  match intent with TurnIntentAnswer | TurnIntentPlan => true | _ => false end.

(** An empty event of a kind; handlers fill the fields they set. *)
Definition event (kind : EventKind) : Event := mkEvent kind None None "" "" "" 0 None.

(** The result of a handler: the next state, the events and the new effects. *)
Record Transition := mkTransition {
  tn_State : State;
  tn_Events : list Event;
  tn_Effects : list Effect;
}.
