(* ===== verification/WorkItem.v ===== *)
(** Work item and progress bookkeeping of a turn: the pure parts of
    [turnkernel/work_item.go] and [progress.go], and the observation set of
    [observation_set.go]. *)
From S2P Require Import Prelude.
From S2P Require Import GoStrings.
From S2P Require Import Sha256.
From S2P Require Import Json.
From S2P Require Import GoFloat.
From S2P Require Import ToolResult.
From S2P Require Import Provider.
From S2P Require Import TurnState.

(** The record separator the keys are joined with. *)
Definition record_separator : string := String (ascii_of_N 30) "".

(** ** Observation sets *)

Definition observation_contains (o : option ObservationSet) (key : string) : bool :=
  match o with
  | Some o => bool_decide (key ∈ os_index o)
  | None => false
  end.

Definition observation_add (o : ObservationSet) (key : string) : ObservationSet :=
  if observation_contains (Some o) key then o
  else mkObservationSet (os_order o ++ [key]) ({[key]} ∪ os_index o).

Definition empty_observations : ObservationSet := mkObservationSet [] ∅.

Definition rememberObservation (progress : ProgressState) (key : string) : ProgressState :=
  if (key == "") || observation_contains (pg_SeenObservations progress) key then progress
  else set_pg_SeenObservations
         (Some (observation_add (default empty_observations (pg_SeenObservations progress)) key))
         progress.

Definition seenObservation (progress : ProgressState) (key : string) : bool :=
  if key == "" then false else observation_contains (pg_SeenObservations progress) key.

(** ** Identities and digests *)

(** Non-blank keys of a map, sorted. *)
Definition sorted_keys {A} (m : gmap string A) : list string :=
  sort_strings (filter (λ k, blank k = false) (map_to_list m).*1).

Definition FormatWorkspaceContent (item : WorkItem) : string :=
  let read_part path :=
    match wi_KnownReads item !! path with
    | Some read =>
        "r:" +:+ path +:+ ":" +:+ wr_Window read +:+ ":" +:+ itoa (wr_StartLine read) +:+ ":"
          +:+ itoa (wr_EndLine read) +:+ ":" +:+ wr_ContentDigest read
    | None => ""
    end in
  let edit_part path :=
    match wi_KnownEdits item !! path with
    | Some edit => "e:" +:+ path +:+ ":" +:+ we_ContentDigest edit
    | None => ""
    end in
  join "," ((read_part <$> sorted_keys (wi_KnownReads item))
            ++ (edit_part <$> sorted_keys (wi_KnownEdits item))).

Definition FormatResultDigest (digests : list string) : string :=
  match filter (λ d, (d == "") = false) (trim_space <$> digests) with
  | [] => ""
  | parts => join record_separator (compact (sort_strings parts))
  end.

Definition FormatObservationKey (signature workspaceContent resultDigest : string) : string :=
  sha256_digest (trim_space signature +:+ record_separator +:+ trim_space workspaceContent
                 +:+ record_separator +:+ trim_space resultDigest).

Definition EmptySampleIdentity : string := "none".

Definition liveToolIdentity (identity : string) : bool :=
  let identity := trim_space identity in
  (identity != "") && (identity != EmptySampleIdentity).

Definition canonicalizeToolArguments (raw : string) : string :=
  let raw := trim_space raw in
  if raw == "" then "" else
  match parse raw ≫= canonical with
  | Some v => encode v
  | None => raw
  end.

Definition newline : string := String (ascii_of_N 10) "".

Definition FormatToolCallsIdentity (calls : list ToolCallState) : string :=
  let parts :=
    (λ call, trim_space (cs_Name call) +:+ newline
             +:+ canonicalizeToolArguments (cs_Arguments call))
      <$> filter (λ call, blank (cs_Name call) = false) calls in
  match parts with
  | [] => EmptySampleIdentity
  | _ => sha256_digest (join record_separator (sort_strings parts))
  end.

Definition joinSortedKeys {A} (values : gmap string A) : string := join "," (sorted_keys values).

Definition FormatWorkItemSignature (state : State) (completedPlanSteps : Z)
    (openImplement : bool) : string :=
  let accepted := match st_Completion state with Some c => cd_Accepted c | None => false end in
  let reads := if IsResearchIntent (st_Intent state) && negb openImplement
               then joinSortedKeys (wi_KnownReads (st_WorkItem state)) else "" in
  "goal=" +:+ wi_GoalDigest (st_WorkItem state) +:+ ";reads=" +:+ reads
    +:+ ";edits=" +:+ joinSortedKeys (wi_KnownEdits (st_WorkItem state))
    +:+ ";plan_done=" +:+ itoa completedPlanSteps +:+ ";completion=" +:+ fmt_bool accepted
    +:+ ";sessions=" +:+ itoa (Z.of_nat (length (wo_Sessions (wi_Open (st_WorkItem state))))).

Definition GoalDigest (goal : string) : string :=
  let goal := trim_space goal in
  if goal == "" then "" else sha256_digest goal.

(** ** Sorted string sets *)

(** Distinct non-blank values, trimmed and sorted. *)
Definition mergeUniqueSorted (existing extras : list string) : list string :=
  sort_strings (remove_dups
    (filter (λ v, (v == "") = false) (trim_space <$> existing ++ extras))).

Definition subtractSorted (values drop : list string) : list string :=
  match values, drop with
  | [], _ | _, [] => values
  | _, _ =>
      let remove := filter (λ v, (v == "") = false) (trim_space <$> drop) in
      filter (λ v, v ∉ remove) values
  end.

Definition removeSorted (values : list string) (drop : string) : list string :=
  subtractSorted values [drop].

(** ** The work item *)

Definition HasKnown (w : WorkItem) : bool :=
  (0 <? size (wi_KnownReads w))%nat || (0 <? size (wi_KnownEdits w))%nat.

Definition HasKnownOrOpen (w : WorkItem) : bool :=
  HasKnown w || (0 <? length (wo_Sessions (wi_Open w)))%nat.

Definition RequiredActionOr (w : WorkItem) (fallback : string) : string :=
  let action := trim_space (wi_RequiredAction w) in
  if action != "" then action else fallback.

Definition KnownRead (w : WorkItem) (path : string) : option WorkItemRead :=
  let path := trim_space path in
  if path == "" then None else wi_KnownReads w !! path.

Definition DeriveRequiredAction (state : State) : string :=
  let item := st_WorkItem state in
  if (0 <? length (wo_Sessions (wi_Open item)))%nat then "write_stdin"
  else if (0 <? size (wi_KnownReads item))%nat && (size (wi_KnownEdits item) =? 0)%nat
  then "file_edit"
  else if match st_Completion state with Some c => cd_Accepted c | None => false end
  then "turn_complete"
  else if (0 <? size (wi_KnownReads item))%nat then "turn_history"
  else "".

(** The read record of an observation: fields it does not carry are kept. *)
Definition observe_read (previous : option WorkItemRead) (ob : WorkItemObservation) :
    WorkItemRead :=
  let read := default (mkWorkItemRead "" "" 0 0 0 "" "") previous in
  let read :=
    if ob_ReadWindow ob != "" then set_wr_Window (ob_ReadWindow ob) read
    else match previous with None => set_wr_Window "full" read | Some _ => read end in
  let read := if ob_ContentDigest ob != "" then set_wr_ContentDigest (ob_ContentDigest ob) read
              else read in
  let read := set_wr_EndLine (ob_ReadEnd ob) (set_wr_StartLine (ob_ReadStart ob) read) in
  let handle := trim_space (ob_ResultHandle ob) in
  let read := if handle != "" then set_wr_ResultHandle handle read else read in
  let callID := trim_space (ob_CallID ob) in
  if callID != "" then set_wr_CallID callID read else read.

(** One iteration of the loop recording the edits of a tool result. *)
Definition observe_edit (mutation : Z) (edits : gmap string WorkItemEdit)
    (change : ObservedChange) : gmap string WorkItemEdit :=
  let path := trim_space (oc_Path change) in
  if path == "" then edits else
  let previous := default (mkWorkItemEdit 0 "") (edits !! path) in
  let digest := trim_space (oc_ContentDigest change) in
  <[path := mkWorkItemEdit mutation
              (if digest != "" then digest else we_ContentDigest previous)]> edits.

(** A [file_read] whose result named no path takes it from its arguments. *)
Definition complete_observation (call : ToolCallState) (ob : WorkItemObservation) :
    WorkItemObservation :=
  if (ob_ReadPath ob == "") && (cs_Name call == "file_read") then
    let '(path, start, ok) := ParseFileReadWindow (cs_Arguments call) in
    if ok then
      let ob := set_ob_ReadPath path ob in
      if (ob_ReadWindow ob == "") && (0 <? start) then set_ob_ReadWindow (itoa start) ob else ob
    else ob
  else ob.

Definition applyWorkItemObservation (state : State) (call : ToolCallState)
    (changes : list ObservedChange) (observation : WorkItemObservation) (isError : bool) : State :=
  if isError then
    set_st_WorkItem (set_wi_RequiredAction (DeriveRequiredAction state) (st_WorkItem state)) state
  else
    let item := st_WorkItem state in
    let ob := complete_observation call observation in
    let path := trim_space (ob_ReadPath ob) in
    let item :=
      if path != "" then
        set_wi_KnownReads
          (<[path := observe_read (wi_KnownReads item !! path) ob]> (wi_KnownReads item)) item
      else item in
    let item :=
      set_wi_KnownEdits
        (foldl (observe_edit (st_MutationRevision state)) (wi_KnownEdits item) changes) item in
    let opened := trim_space (ob_OpenSession ob) in
    let item :=
      if opened != "" then
        set_wi_Open (set_wo_Sessions
          (mergeUniqueSorted (wo_Sessions (wi_Open item)) [opened]) (wi_Open item)) item
      else item in
    let closed := trim_space (ob_CloseSession ob) in
    let item :=
      if closed != "" then
        set_wi_Open (set_wo_Sessions
          (removeSorted (wo_Sessions (wi_Open item)) closed) (wi_Open item)) item
      else item in
    let item := set_wi_RequiredAction (DeriveRequiredAction (set_st_WorkItem item state)) item in
    set_st_WorkItem item state.

(** ** Read windows *)

(** [strconv.Atoi]. *)
Definition atoi (s : string) : option Z :=
  let '(neg, l) := match bytes s with
                   | 45 :: l => (true, l) | 43 :: l => (false, l) | l => (false, l) end in
  match span_digits l with
  | (d :: ds, []) =>
      let n := digits_value (d :: ds) in
      let z := if neg then - n else n in
      if (- 2 ^ 63 <=? z) && (z <=? max_int64) then Some z else None
  | _ => None
  end.

Definition ReadWindowIsFull (read : WorkItemRead) : bool :=
  (trim_space (wr_Window read) == "full")
  || ((wr_StartLine read =? 0) && (trim_space (wr_Window read) == "")).

Definition ReadWindowCovers (read : WorkItemRead) (startLine : Z) : bool :=
  if ReadWindowIsFull read then true else
  match (if wr_StartLine read =? 0
         then match atoi (trim_space (wr_Window read)) with
              | Some parsed => if parsed <=? 0 then None else Some parsed
              | None => None
              end
         else Some (wr_StartLine read)) with
  | None => false
  | Some start =>
      if (startLine <=? 0) || (startLine <? start) then false
      else (wr_EndLine read =? 0) || (startLine <? wr_EndLine read)
  end.
