(* ===== verification/Command.v ===== *)
(** The reducer's commands ([turnkernel/command.go]), their contract table
    ([command_matrix.go]), the JSON of the effect payloads, and the errors a
    command is refused with. A command's struct is its constructor; structs of
    more than four fields are records named after the struct. *)
From S2P Require Import Prelude.
From S2P Require Import GoStrings.
From S2P Require Import Json.
From S2P Require Import Provider.
From S2P Require Import Assembly.
From S2P Require Import TurnState.

Record ModelSampleResult := mkModelSampleResult {
  msr_EffectID : string;
  msr_SampleID : string;
  msr_Usage : UsageState;
  msr_Context : ContextState;
  msr_Failure : option Failure;
  msr_Text : string;
  msr_Calls : list ToolCallState;
  msr_Continued : bool;
  msr_Error : string;
}.

Record ProviderRetry := mkProviderRetry {
  prr_EffectID : string;
  prr_SampleID : string;
  prr_Attempt : Z;
  prr_Retry : Z;
  prr_Failure : Failure;
  prr_EffectiveDelay : Duration;
  prr_RetryAt : Time;
  prr_PolicyRevision : string;
}.

Record WorkItemBinding := mkWorkItemBinding {
  bw_Goal : string;
  bw_GoalDigest : string;
  bw_KnownReads : gmap string WorkItemRead;
  bw_KnownEdits : gmap string WorkItemEdit;
  bw_Open : WorkItemOpen;
}.

Record ApprovalResult := mkApprovalResult {
  apr_EffectID : string;
  apr_RequestID : string;
  apr_Accepted : bool;
  apr_Canceled : bool;
  apr_Error : string;
}.

Record ToolResultFacts := mkToolResultFacts {
  trr_EffectID : string;
  trr_CallID : string;
  trr_IsError : bool;
  trr_Changes : list ObservedChange;
  trr_Observation : WorkItemObservation;
}.

Record CompletionCandidate := mkCompletionCandidate {
  ccd_NoChangeReason : string;
  ccd_NoChangeEvidence : list string;
  ccd_DeclarationValid : bool;
  ccd_Status : string;
  ccd_Summary : string;
  ccd_OutputMode : string;
  ccd_PendingActions : list string;
  ccd_CompletionCall : string;
  ccd_BatchMutated : bool;
  ccd_BatchSize : Z;
  ccd_ToolError : bool;
  ccd_VerificationCalls : list string;
  ccd_PlanOpenSteps : Z;
}.

Record Recovery := mkRecovery {
  rcv_SourceTurnID : string;
  rcv_RecoveryTurnID : string;
  rcv_CurrentProfileRevision : Z;
  rcv_Action : string;
  rcv_DraftResumed : bool;
  rcv_Changes : list ObservedChange;
}.

Record TerminalRequest := mkTerminalRequest {
  trq_FailureCode : string;
  trq_FailureMessage : string;
  trq_Fault : option FaultMetadata;
  trq_CancelReason : string;
  trq_Convergence : option ConvergenceState;
}.

Record Convergence := mkConvergence {
  cvr_Cause : ConvergenceCause;
  cvr_Used : Z;
  cvr_Limit : Z;
  cvr_RepairKind : RepairKind;
}.

Inductive Command :=
  | StartTurn
  | PreparationFinished
  | ModelSampleRequested (SampleID : string)
  | ModelSampleStarted (SampleID : string) (Attempt : Z)
  | ModelSampleFinished (SampleID : string) (Usage : UsageState) (Context : ContextState)
      (Error : string)
  | ModelSampleProgressRecorded (EffectID SampleID : string) (Attempt : Z)
      (Assembly : ResponseAssembly)
  | ModelSampleResultReceived (result : ModelSampleResult)
  | SupplementalUsageRecorded (Source SampleID : string) (Usage : UsageState)
  | ProviderRetryRequested (retry : ProviderRetry)
  | ProviderWaitReserved (SampleID : string) (Delay : Duration) (Until : Time)
  | ModelTextReceived (Text : string)
  | ReleaseProvisionalOutput
  | DiscardProvisionalOutput (Reason : string)
  | RepairRequested (Kind : RepairKind) (ProgressKey : string) (Limit : Z)
  | EvaluateTurnStep (ProgressKey : string)
  | ObserveProgress (Signature SampleIdentity ResultDigest : string) (CompletedSamples : Z)
  | BindWorkItem (binding : WorkItemBinding)
  | ConvergenceRequested (request : Convergence)
  | ConvergenceFinalizationStarted
  | ToolCallsProposed (Calls : list ToolCallState)
  | ApprovalRequired (RequestID CallID : string)
  | ApprovalResolved (RequestID : string)
  | ApprovalResultReceived (result : ApprovalResult)
  | InputRequired (RequestID CallID : string)
  | InputResolved (RequestID : string)
  | InputResultReceived (EffectID RequestID : string) (Accepted : bool) (Error : string)
  | ToolResultReceived (result : ToolResultFacts)
  | ToolBatchAdmissionRejected (CallIDs : list string) (Result : string)
  | AbortOpenCalls (Reason : string)
  | WorkspaceReconciled (Mutation : Z) (Changes : list ObservedChange)
  | CompletionEvaluated (Candidate : CompletionCandidate)
  | CompletionInvalidated (Reason : string)
  | CancelRequested (Reason : string)
  | ContinuationRecorded (Cursor : ContinuationCursor)
  | RecoveryRequested (recovery : Recovery)
  | EffectStarted (EffectID : string) (Attempt : Z)
  | EffectRequeued (EffectID : string)
  | EffectResultReceived (EffectID : string) (Success : bool) (Error : string)
  | PersistenceResultReceived (EffectID : string) (Success : bool) (Error : string)
  | TerminalRequested (request : TerminalRequest)
  | JournalFinalized (Status : JournalStatus)
  | JournalResultReceived (EffectID : string) (Status : JournalStatus) (Error : string)
  | FinishTerminal
  | VerificationRetired.

Definition commandName (command : Command) : string :=
  match command with
  | StartTurn => "start_turn"
  | PreparationFinished => "preparation_finished"
  | ModelSampleRequested _ => "model_sample_requested"
  | ModelSampleStarted _ _ => "model_sample_started"
  | ModelSampleFinished _ _ _ _ => "model_sample_finished"
  | ModelSampleProgressRecorded _ _ _ _ => "model_sample_progress_recorded"
  | ModelSampleResultReceived _ => "model_sample_result_received"
  | SupplementalUsageRecorded _ _ _ => "supplemental_usage_recorded"
  | ProviderRetryRequested _ => "provider_retry_requested"
  | ProviderWaitReserved _ _ _ => "provider_wait_reserved"
  | ModelTextReceived _ => "model_text_received"
  | ReleaseProvisionalOutput => "release_provisional_output"
  | DiscardProvisionalOutput _ => "discard_provisional_output"
  | RepairRequested _ _ _ => "repair_requested"
  | EvaluateTurnStep _ => "evaluate_turn_step"
  | ObserveProgress _ _ _ _ => "observe_progress"
  | BindWorkItem _ => "bind_work_item"
  | ConvergenceRequested _ => "convergence_requested"
  | ConvergenceFinalizationStarted => "convergence_finalization_started"
  | ToolCallsProposed _ => "tool_calls_proposed"
  | ApprovalRequired _ _ => "approval_required"
  | ApprovalResolved _ => "approval_resolved"
  | ApprovalResultReceived _ => "approval_result_received"
  | InputRequired _ _ => "input_required"
  | InputResolved _ => "input_resolved"
  | InputResultReceived _ _ _ _ => "input_result_received"
  | ToolResultReceived _ => "tool_result_received"
  | ToolBatchAdmissionRejected _ _ => "tool_batch_admission_rejected"
  | AbortOpenCalls _ => "abort_open_calls"
  | WorkspaceReconciled _ _ => "workspace_reconciled"
  | CompletionEvaluated _ => "completion_evaluated"
  | CompletionInvalidated _ => "completion_invalidated"
  | CancelRequested _ => "cancel_requested"
  | ContinuationRecorded _ => "continuation_recorded"
  | RecoveryRequested _ => "recovery_requested"
  | EffectStarted _ _ => "effect_started"
  | EffectRequeued _ => "effect_requeued"
  | EffectResultReceived _ _ _ => "effect_result_received"
  | PersistenceResultReceived _ _ _ => "persistence_result_received"
  | TerminalRequested _ => "terminal_requested"
  | JournalFinalized _ => "journal_finalized"
  | JournalResultReceived _ _ _ => "journal_result_received"
  | FinishTerminal => "finish_terminal"
  | VerificationRetired => "verification_retired"
  end.

(** ** The contract table *)

Inductive CommandFamily :=
  | CommandFamilyLifecycle | CommandFamilySampling | CommandFamilyTool
  | CommandFamilyInteraction | CommandFamilyCompletion | CommandFamilyTerminal
  | CommandFamilyEffect.
#[export] Instance CommandFamily_eq_dec : EqDecision CommandFamily.
Proof. solve_decision. Defined.

Record CommandContract := mkCommandContract {
  con_Name : string;
  con_Family : CommandFamily;
  con_AllowedPhases : list Phase;
}.

Definition commandContracts : list CommandContract := [
  mkCommandContract "start_turn" CommandFamilyLifecycle [PhaseCreated];
  mkCommandContract "preparation_finished" CommandFamilyLifecycle [PhasePreparing];
  mkCommandContract "model_sample_requested" CommandFamilySampling [PhaseSampling];
  mkCommandContract "model_sample_started" CommandFamilySampling [PhaseSampling];
  mkCommandContract "model_sample_finished" CommandFamilySampling [PhaseSampling];
  mkCommandContract "model_sample_progress_recorded" CommandFamilySampling [PhaseSampling];
  mkCommandContract "model_sample_result_received" CommandFamilySampling [PhaseSampling];
  mkCommandContract "supplemental_usage_recorded" CommandFamilySampling [];
  mkCommandContract "provider_retry_requested" CommandFamilySampling [PhaseSampling];
  mkCommandContract "provider_wait_reserved" CommandFamilySampling [PhaseSampling];
  mkCommandContract "model_text_received" CommandFamilySampling [PhaseSampling];
  mkCommandContract "release_provisional_output" CommandFamilySampling [PhaseSampling];
  mkCommandContract "discard_provisional_output" CommandFamilySampling [PhaseSampling];
  mkCommandContract "repair_requested" CommandFamilySampling [PhaseSampling];
  mkCommandContract "evaluate_turn_step" CommandFamilySampling [];
  mkCommandContract "observe_progress" CommandFamilySampling [PhaseSampling];
  mkCommandContract "bind_work_item" CommandFamilyLifecycle
    [PhaseCreated; PhasePreparing; PhaseSampling];
  mkCommandContract "continuation_recorded" CommandFamilyLifecycle [];
  mkCommandContract "convergence_requested" CommandFamilySampling [];
  mkCommandContract "convergence_finalization_started" CommandFamilySampling [PhaseSampling];
  mkCommandContract "tool_calls_proposed" CommandFamilyTool [PhaseSampling];
  mkCommandContract "tool_result_received" CommandFamilyTool [PhaseExecutingTools];
  mkCommandContract "tool_batch_admission_rejected" CommandFamilyTool [PhaseExecutingTools];
  mkCommandContract "abort_open_calls" CommandFamilyTool [];
  mkCommandContract "approval_required" CommandFamilyInteraction [PhaseExecutingTools];
  mkCommandContract "approval_resolved" CommandFamilyInteraction [PhaseAwaitingApproval];
  mkCommandContract "approval_result_received" CommandFamilyInteraction [PhaseAwaitingApproval];
  mkCommandContract "input_required" CommandFamilyInteraction [PhaseExecutingTools];
  mkCommandContract "input_resolved" CommandFamilyInteraction [PhaseAwaitingInput];
  mkCommandContract "input_result_received" CommandFamilyInteraction [PhaseAwaitingInput];
  mkCommandContract "workspace_reconciled" CommandFamilyCompletion [PhaseSampling];
  mkCommandContract "verification_retired" CommandFamilyLifecycle [];
  mkCommandContract "completion_evaluated" CommandFamilyCompletion [];
  mkCommandContract "completion_invalidated" CommandFamilyCompletion [];
  mkCommandContract "cancel_requested" CommandFamilyInteraction [];
  mkCommandContract "recovery_requested" CommandFamilyInteraction [];
  mkCommandContract "effect_started" CommandFamilyEffect [];
  mkCommandContract "effect_requeued" CommandFamilyEffect [];
  mkCommandContract "effect_result_received" CommandFamilyEffect [];
  mkCommandContract "persistence_result_received" CommandFamilyEffect [PhaseCommitting];
  mkCommandContract "terminal_requested" CommandFamilyTerminal [];
  mkCommandContract "journal_finalized" CommandFamilyTerminal [PhaseCommitting];
  mkCommandContract "journal_result_received" CommandFamilyTerminal [PhaseCommitting];
  mkCommandContract "finish_terminal" CommandFamilyTerminal [PhaseCommitting]
].

(** The contract of a command. *)
Definition contract_of (name : string) : option CommandContract :=
  head (filter (λ c, con_Name c = name) commandContracts).

(** ** Refusals *)

(** The errors of [Reducer.Apply]: [*TransitionError],
    [*RepairBudgetExhaustedError], a plain error, and the two wrapped
    validation errors. *)
Inductive kerror :=
  | TransitionError (Phase : Phase) (Command : string) (Reason : error)
  | RepairBudgetExhausted (Kind : RepairKind) (ProgressKey : string) (Limit : Z)
  | PlainError (e : error)
  | InvalidCurrent (e : error)
  | ProducedInvalid (Command : string) (e : error).

Definition illegal_error (state : State) (command : Command) (reason : error) : kerror :=
  TransitionError (st_Phase state) (commandName command) reason.
Definition illegal (state : State) (command : Command) (reason : string) : kerror :=
  illegal_error state command (ErrText reason).

(** [illegal(current, command, err.Error())]. *)
Definition or_illegal {A} (state : State) (command : Command) (m : res error A) :
    res kerror A :=
  match m with Ok a => Ok a | Err e => Err (illegal_error state command e) end.

Definition requirePhase (state : State) (command : Command) (allowed : list Phase) :
    res kerror unit :=
  require (bool_decide (st_Phase state ∈ allowed))
    (illegal_error state command (ErrFmt "expected phase %v" [])).

(** ** JSON of the effect payloads *)

Definition json_convergence (c : ConvergenceState) : json :=
  JObj ([("cause", JStr (cause_string (cv_Cause c))); ("used", JInt (cv_Used c));
         ("limit", JInt (cv_Limit c))]
        ++ omit_str "repair_kind" (repair_kind_string (cv_RepairKind c))
        ++ omit_bool "finalization_attempted" (cv_FinalizationAttempted c)
        ++ omit_str "summary" (cv_Summary c)
        ++ omit_strs "pending_actions" (cv_PendingActions c)).

Definition json_terminal (d : TerminalDecision) : json :=
  JObj ([("kind", JStr (terminal_kind_string (td_Kind d)))]
        ++ omit_str "code" (td_Code d) ++ omit_str "message" (td_Message d)
        ++ omit_opt "fault" json_fault (td_Fault d)
        ++ omit_opt "convergence" json_convergence (td_Convergence d)).

Definition json_call (c : ToolCallState) : json :=
  JObj ([("id", JStr (cs_ID c)); ("name", JStr (cs_Name c))]
        ++ omit_str "arguments" (cs_Arguments c) ++ omit_str "catalog_id" (cs_CatalogID c)
        ++ omit_int "catalog_generation" (cs_CatalogGeneration c)
        ++ omit_int "catalog_revision" (cs_CatalogRevision c)
        ++ omit_int "catalog_authority" (cs_CatalogAuthority c)
        ++ omit_str "admission_rejection" (cs_AdmissionRejection c)).

Definition json_sample_requested (SampleID : string) : json :=
  JObj [("SampleID", JStr SampleID)].
Definition json_wait_required (RequestID CallID : string) : json :=
  JObj [("RequestID", JStr RequestID); ("CallID", JStr CallID)].
