(* ===== verification/Invariants.v ===== *)
(** State validation ([turnkernel/invariants.go]) and the completion policy it
    shares with the reducer ([completion_policy.go], the helpers of
    [reducer_verification.go] and [reducer_terminal.go]). [Validate] is split
    into the checks it runs, in their order; [Valid] is the well-formedness
    predicate they decide. Loops over Go maps run in the map's listing order:
    which of several faults is reported is unspecified in Go as well. *)
From S2P Require Import Prelude.
From S2P Require Import GoStrings.
From S2P Require Import Sha256.
From S2P Require Import Provider.
From S2P Require Import Assembly.
From S2P Require Import TurnState.
From S2P Require Import WorkItem.

(** ** Effective changes and completion policy *)

Definition effectiveChanges (state : State) : list ObservedChange :=
  match st_Workspace state with
  | Some ws => if ws_Mutation ws =? st_MutationRevision state then ws_Changes ws
               else st_Changes state
  | None => st_Changes state
  end.

Definition hasEffectiveChanges (state : State) : bool :=
  negb (bool_decide (effectiveChanges state = [])).

(** The call is a successful closed call some known read cites. *)
Definition cites_read (state : State) (id : string) : bool :=
  match st_ClosedCalls state !! id with
  | Some call =>
      negb (ts_IsError call)
      && existsb (λ read, wr_CallID read == id)
           (map_to_list (wi_KnownReads (st_WorkItem state))).*2
  | None => false
  end.

Definition validNoChange (state : State) (reason : string) (calls : list string) : bool :=
  if bool_decide (st_Workspace state = None) || hasEffectiveChanges state || blank reason
     || bool_decide (calls = []) then false
  else forallb (cites_read state) calls.

(** An accepted completion decision, if any. *)
Definition accepted_completion (state : State) : option CompletionDecision :=
  match st_Completion state with
  | Some c => if cd_Accepted c then Some c else None
  | None => None
  end.

Definition workspaceCompletionMissing (state : State) : bool :=
  bool_decide (st_Intent state = TurnIntentWorkspaceChange) && (st_MutationRevision state =? 0)
  && match accepted_completion state with
     | Some c => negb (validNoChange state (cd_NoChangeReason c) (cd_NoChangeEvidence c))
     | None => true
     end.

Definition validateCompletionPolicy (state : State) : res error unit :=
  refuse (workspaceCompletionMissing state)
    (ErrText "workspace_change requires observed changes or an evidenced no-change declaration");;
  if RequiresCompletion state then
    match accepted_completion state with
    | None => Err (ErrText "turn has no accepted completion decision")
    | Some c => require (cd_Mutation c =? st_MutationRevision state)
                  (ErrText "completion decision is stale")
    end
  else Ok tt.

Definition validateCompletionContract (state : State) : res error unit :=
  validateCompletionPolicy state;;
  if st_MutationRevision state =? 0 then
    require (bool_decide (st_Journal state = JournalNone))
      (ErrText "unchanged turn has an open journal")
  else require (bool_decide (st_Journal state = JournalOpen))
         (ErrText "mutation journal is not open").

Definition validateCompletionReadiness (state : State) : res error unit :=
  require (st_OutputEligibility state) (ErrText "final output is not eligible");;
  validateCompletionContract state.

Definition changedPaths (changes : list ObservedChange) : list string :=
  sort_strings (remove_dups (oc_Path <$> changes)).

Definition samePaths (left right : list string) : bool :=
  strings_equal (sort_strings left) (sort_strings right).

(** ** Journal outcome of a terminal decision *)

Definition CancelSuspendsDraft (reason : string) : bool := reason == CancelReasonUserInterrupted.

Definition recoverableTerminalFault (fault : option FaultMetadata) : bool :=
  match fault with
  | None => false
  | Some f => match fm_Disposition f with
              | RetryStep | RetryTurn | ResumeTurn => true
              | _ => false
              end
  end.

Definition terminalJournalOutcome (state : State) (decision : TerminalDecision) :
    EffectKind * JournalStatus :=
  match td_Kind decision with
  | TerminalCompleted => (EffectCommitJournal, JournalCommitted)
  | TerminalCanceled =>
      if CancelSuspendsDraft (td_Message decision)
      then (EffectSuspendJournal, JournalSuspended)
      else (EffectRollbackJournal, JournalRolledBack)
  | TerminalFailed =>
      if bool_decide (is_Some (td_Convergence decision))
         || recoverableTerminalFault (td_Fault decision)
         || match st_RecoveryRelation state with
            | Some r => rr_DraftResumed r
            | None => false
            end
      then (EffectSuspendJournal, JournalSuspended)
      else (EffectRollbackJournal, JournalRolledBack)
  end.

Definition phaseForTerminal (kind : TerminalKind) : Phase :=
  match kind with
  | TerminalCompleted => PhaseCompleted
  | TerminalFailed => PhaseFailed
  | TerminalCanceled => PhaseCanceled
  end.

Definition validRepairKind (kind : RepairKind) : bool :=
  match kind with
  | RepairCompletion | RepairWorkspace | RepairDeclaration => true
  | RepairNone | RepairVerification => false
  end.

(** ** Validation *)

(** The entries of a map pass a check. *)
Definition each {K A} `{Countable K} (m : gmap K A) (f : K → A → res error unit) :
    res error unit :=
  iterM (λ '(k, x), f k x) (map_to_list m).

(** Call ids are non-blank and distinct. *)
Definition validateCallIDs (ids : list string) : res error (list string) :=
  foldM (λ seen id,
    refuse (blank id || bool_decide (id ∈ seen))
      (ErrText "invalid commentary call identity");;
    Ok (id :: seen)) ids [].

Definition validateCommentary (state : State) : res error (list string) :=
  foldM (λ seen message,
    refuse (bool_decide (cm_SampleID message ∈ seen)
            || negb (bool_decide (ms_Status (default zero_sample
                 (st_SampleLedger state !! cm_SampleID message)) = SampleCompleted))
            || blank (cm_Text message) || bool_decide (cm_CallIDs message = []))
      (ErrText "invalid commentary sample");;
    validateCallIDs (cm_CallIDs message);;
    Ok (cm_SampleID message :: seen)) (st_Commentary state) [].

(** The retry schedule of a requested sample names its pending effect. *)
Definition retry_schedule_ok (state : State) (sampleID : string) (sample : ModelSampleState)
    (retry : ProviderRetryState) : bool :=
  bool_decide (ms_Status sample = SampleRequested)
  && (pr_Attempt retry =? ms_Attempt sample)
  && (pr_Retry retry =? ms_ProviderRetries sample)
  && negb (time_zero (pr_RetryAt retry))
  && (bool_decide (ms_RetryBudget sample = zero_retry_budget)
      || (pr_RetryAt retry <=? bg_WaitUntil (ms_RetryBudget sample)))
  && negb (blank (pr_PolicyRevision retry))
  && match st_PendingEffects state !! pr_EffectID retry with
     | Some effect => bool_decide (ef_Kind effect = EffectSampleProvider)
                      && (ef_CallID effect == sampleID)
                      && bool_decide (ef_Status effect = EffectRequested)
     | None => false
     end.

Definition validateSample (state : State) (sampleID : string) (sample : ModelSampleState) :
    res error unit :=
  refuse (blank sampleID || (ms_ID sample != sampleID))
    (ErrFmt "invalid model sample %q" [ArgS sampleID]);;
  match ms_Status sample with
  | SampleRequested => Ok tt
  | SampleRunning | SampleCompleted | SampleFailed =>
      refuse (ms_Attempt sample =? 0) (ErrFmt "model sample %q has no attempt" [ArgS sampleID])
  | SampleStatusNone => Err (ErrFmt "invalid model sample status %q" [ArgS ""])
  end;;
  refuse (bool_decide (ms_Status sample = SampleFailed) && blank (ms_Error sample))
    (ErrFmt "failed model sample %q has no error" [ArgS sampleID]);;
  refuse (negb (bool_decide (ms_Status sample = SampleFailed)) && (ms_Error sample != "")
          && negb (bool_decide (ms_Status sample = SampleRunning)))
    (ErrFmt "successful model sample %q has an error" [ArgS sampleID]);;
  refuse ((ms_ProviderRetries sample =? 0) && bool_decide (is_Some (ms_Retry sample)))
    (ErrFmt "model sample %q has retry facts without a retry" [ArgS sampleID]);;
  refuse (negb (bool_decide (ms_RetryBudget sample = zero_retry_budget))
          && (negb (bg_TransientRetries (ms_RetryBudget sample)
                    + bg_RateLimitRetries (ms_RetryBudget sample) =? ms_ProviderRetries sample)
              || (bg_RateLimitWaited (ms_RetryBudget sample) <? 0)))
    (ErrFmt "model sample %q has an invalid retry budget" [ArgS sampleID]);;
  match ms_LastFailure sample with
  | Some failure => refuse (bool_decide (fl_Code failure = FailureNone) || blank (fl_Message failure))
                      (ErrFmt "model sample %q has an invalid failure" [ArgS sampleID])
  | None => Ok tt
  end;;
  match ms_Assembly sample with
  | Some a =>
      refuse (ra_LogicalRequestID a != sampleID)
        (ErrFmt "model sample %q has mismatched response assembly identity" [ArgS sampleID]);;
      match Assembly.Validate a with
      | Ok _ => Ok tt
      | Err e => Err (ErrWrap "model sample %q response assembly: %w" [ArgS sampleID] e)
      end
  | None => Ok tt
  end;;
  match ms_Retry sample with
  | Some retry => require (retry_schedule_ok state sampleID sample retry)
                    (ErrFmt "model sample %q has an invalid retry schedule" [ArgS sampleID])
  | None => Ok tt
  end.

Definition validateActiveSample (state : State) : res error unit :=
  if st_ActiveSampleID state != "" then
    match st_SampleLedger state !! st_ActiveSampleID state with
    | Some sample =>
        require (bool_decide (ms_Status sample = SampleRunning)
                 && bool_decide (st_Phase state = PhaseSampling))
          (ErrText "active model sample is invalid")
    | None => Err (ErrText "active model sample is invalid")
    end
  else Ok tt.

Definition validateEffect (effectID : string) (effect : Effect) (completed : bool) :
    res error unit :=
  refuse (blank effectID || (ef_ID effect != effectID)
          || bool_decide (ef_Kind effect = EffectNone) || (ef_Payload effect == "")
          || negb (has_prefix (ef_PayloadDigest effect) "sha256:")
          || blank (ef_IdempotencyKey effect))
    (ErrFmt "invalid effect %q" [ArgS effectID]);;
  refuse (ef_PayloadDigest effect != sha256_digest (ef_Payload effect))
    (ErrFmt "effect %q payload digest mismatch" [ArgS effectID]);;
  if completed then
    require (bool_decide (ef_Status effect = EffectSucceeded)
             || bool_decide (ef_Status effect = EffectFailed))
      (ErrFmt "completed effect %q has invalid status" [ArgS effectID]);;
    refuse (bool_decide (ef_Status effect = EffectFailed) && blank (ef_Error effect))
      (ErrFmt "failed effect %q has no error" [ArgS effectID])
  else
    require (bool_decide (ef_Status effect = EffectRequested)
             || bool_decide (ef_Status effect = EffectRunning))
      (ErrFmt "pending effect %q has invalid status" [ArgS effectID]);;
    refuse (bool_decide (ef_Status effect = EffectRunning) && (ef_Attempt effect =? 0))
      (ErrFmt "running effect %q has no attempt" [ArgS effectID]).

Definition validatePendingEffect (state : State) (effectID : string) (effect : Effect) :
    res error unit :=
  validateEffect effectID effect false;;
  refuse (bool_decide (is_Some (st_CompletedEffects state !! effectID)))
    (ErrFmt "effect %q is both pending and completed" [ArgS effectID]).

Definition validateCancellation (state : State) : res error unit :=
  refuse (ca_Accepted (st_Cancellation state) && negb (ca_Requested (st_Cancellation state)))
    (ErrText "accepted cancellation was not requested");;
  refuse (ca_Requested (st_Cancellation state) && blank (ca_Reason (st_Cancellation state)))
    (ErrText "cancellation reason is empty").

Definition validateRecovery (state : State) : res error unit :=
  match st_RecoveryRelation state with
  | Some r =>
      refuse (blank (rr_SourceTurnID r) || blank (rr_RecoveryTurnID r)
              || ((rr_Action r != TurnRecoveryRetry) && (rr_Action r != TurnRecoveryContinue))
              || (rr_DraftResumed r && ((rr_Action r != TurnRecoveryContinue)
                                        || (st_MutationRevision state =? 0)))
              || (st_ProfileRevision state =? 0))
        (ErrText "recovery relation is invalid")
  | None => Ok tt
  end;;
  match st_Continuation state with
  | Some c => refuse ((cc_Sequence c =? 0) || blank (cc_Handle c) || blank (cc_Digest c))
                (ErrText "continuation cursor is invalid")
  | None => Ok tt
  end.

Definition valid_convergence_policy (c : ConvergencePolicy) : bool :=
  bool_decide (c = zero_convergence_policy)
  || (negb (cp_ProgressConverge c =? 0)
      && (cp_ProgressConverge c <=? cp_ProgressFinishOnly c)
      && (cp_ProgressFinishOnly c <=? cp_ProgressLimit c)
      && negb (cp_ResearchConverge c =? 0)
      && (cp_ResearchConverge c <=? cp_ResearchFinishOnly c)
      && (cp_ResearchFinishOnly c <=? cp_ResearchLimit c)).

Definition validateRepairBudget (kind : RepairKind) (budget : RepairBudget) : res error unit :=
  refuse (negb (validRepairKind kind) || blank (rb_ProgressKey budget)
          || (rb_Steps budget <? rb_Consecutive budget))
    (ErrFmt "invalid %s repair budget" [ArgS (repair_kind_string kind)]).

Definition validateProgress (state : State) : res error unit :=
  let p := st_Progress state in
  refuse ((pg_Signature p == "")
          && (negb (pg_ObservedSamples p =? 0) || negb (pg_NoProgressSamples p =? 0)
              || negb (bool_decide (pg_Stage p = ProgressStageNone))))
    (ErrText "progress state has no signature");;
  refuse (pg_ObservedSamples p <? pg_NoProgressSamples p)
    (ErrText "no-progress samples exceed observed samples").

Definition validateConvergence (c : ConvergenceState) : res error unit :=
  refuse (match cv_Cause c with
          | ConvergenceIncomplete => false
          | cause => (cv_Used c <? cv_Limit c)
                     || ((cv_Limit c =? 0)
                         && (negb (cv_Used c =? 0)
                             || negb (bool_decide (cause = ConvergenceRepairBudget))))
          end) (ErrText "convergence budget is invalid");;
  match cv_Cause c with
  | ConvergenceOutputLimit | ConvergenceNoProgress | ConvergenceStepLimit =>
      require (bool_decide (cv_RepairKind c = RepairNone))
        (ErrText "non-repair convergence has repair kind")
  | ConvergenceRepairBudget =>
      require (validRepairKind (cv_RepairKind c)) (ErrText "repair convergence kind is invalid")
  | ConvergenceIncomplete =>
      require ((cv_Used c =? 0) && (cv_Limit c =? 0)
               && bool_decide (cv_RepairKind c = RepairNone) && cv_FinalizationAttempted c)
        (ErrText "declared incomplete convergence is invalid")
  end;;
  require (bool_decide (blank (cv_Summary c) = bool_decide (cv_PendingActions c = [])))
    (ErrText "convergence blocked outcome is incomplete");;
  iterM (λ action, refuse (blank action) (ErrText "convergence pending action is empty"))
    (cv_PendingActions c).

Definition validateOpenCall (state : State) (id : string) (call : ToolCallState) :
    res error unit :=
  refuse (blank id || (id != cs_ID call) || blank (cs_Name call))
    (ErrFmt "invalid open tool call %q" [ArgS id]);;
  refuse (bool_decide (is_Some (st_ClosedCalls state !! id)))
    (ErrFmt "tool call %q is both open and closed" [ArgS id]).

Definition validateClosedCall (id : string) (result : ToolResultState) : res error unit :=
  refuse (blank id || (id != ts_ID result) || blank (ts_Name result))
    (ErrFmt "invalid closed tool call %q" [ArgS id]).

(** Phases with open tool calls. *)
Definition tool_phase (p : Phase) : bool :=
  match p with
  | PhaseExecutingTools | PhaseAwaitingApproval | PhaseAwaitingInput => true
  | _ => false
  end.

Definition validateCalls (state : State) : res error unit :=
  each (st_OpenCalls state) (validateOpenCall state);;
  each (st_ClosedCalls state) validateClosedCall;;
  refuse (negb (bool_decide (st_OpenCalls state = ∅)) && negb (tool_phase (st_Phase state)))
    (ErrText "open tool calls exist outside tool execution");;
  refuse (bool_decide (st_Phase state = PhaseExecutingTools)
          && bool_decide (st_OpenCalls state = ∅))
    (ErrText "executing_tools has no open tool calls").

Definition validateApproval (state : State) (requestID : string) (approval : ApprovalState) :
    res error unit :=
  refuse (negb (bool_decide (st_Phase state = PhaseAwaitingApproval)) || (requestID == "")
          || (requestID != ap_RequestID approval))
    (ErrText "pending approval is invalid");;
  require (bool_decide (is_Some (st_OpenCalls state !! ap_CallID approval)))
    (ErrText "pending approval does not reference an open call").

Definition validateWaits (state : State) : res error unit :=
  each (st_PendingApprovals state) (validateApproval state);;
  refuse (bool_decide (st_PendingApprovals state = ∅)
          && bool_decide (st_Phase state = PhaseAwaitingApproval))
    (ErrText "awaiting_approval has no pending approval");;
  match st_PendingInput state with
  | Some input =>
      require (bool_decide (st_Phase state = PhaseAwaitingInput))
        (ErrText "pending input is outside awaiting_input");;
      refuse (blank (is_RequestID input)) (ErrText "pending input request id is empty")
  | None => refuse (bool_decide (st_Phase state = PhaseAwaitingInput))
              (ErrText "awaiting_input has no pending input")
  end.

(** Journals the terminal transaction leaves. *)
Definition journal_finalized (j : JournalStatus) : bool :=
  match j with
  | JournalCommitted | JournalSuspended | JournalRolledBack => true
  | JournalNone | JournalOpen => false
  end.

Definition validateMutation (state : State) : res error unit :=
  if st_MutationRevision state =? 0 then
    require (bool_decide (st_Changes state = []))
      (ErrText "changes exist without a mutation revision");;
    let finalizingJournal :=
      po_JournalRequired (st_Policy state)
      && (bool_decide (st_Phase state = PhaseCommitting) || Terminal (st_Phase state))
      && journal_finalized (st_Journal state) in
    refuse (negb (bool_decide (st_Journal state = JournalNone)) && negb finalizingJournal)
      (ErrText "unchanged turn has a journal")
  else
    refuse (bool_decide (st_Changes state = [])) (ErrText "mutation revision has no changes");;
    refuse (bool_decide (st_Journal state = JournalNone)) (ErrText "changed turn has no journal").

(** The check of one observed change; the index is the error's argument. *)
Definition validateChanges (changes : list ObservedChange) : res error Z :=
  foldM (λ index change,
    refuse (blank (oc_Path change) || blank (oc_Kind change))
      (ErrFmt "invalid observed change at index %d" [ArgZ index]);;
    Ok (index + 1)) changes 0.

Definition effective_kind (kind : string) : bool :=
  (kind == "created") || (kind == "modified") || (kind == "deleted").

Definition validateWorkspace (state : State) : res error unit :=
  match st_Workspace state with
  | Some ws =>
      require (ws_Mutation ws =? st_MutationRevision state)
        (ErrText "workspace observation is stale");;
      foldM (λ seen change,
        refuse (blank (oc_Path change) || bool_decide (oc_Path change ∈ seen))
          (ErrText "invalid effective change path");;
        require (effective_kind (oc_Kind change)) (ErrText "invalid effective change kind");;
        Ok (oc_Path change :: seen)) (ws_Changes ws) [];;
      Ok tt
  | None => Ok tt
  end.

Definition valid_output_mode (mode : string) : bool :=
  (mode == "") || (mode == "exact") || (mode == "preserve_provisional").

Definition validateCompletion (state : State) : res error unit :=
  match st_Completion state with
  | Some c =>
      require (valid_output_mode (cd_OutputMode c))
        (ErrText "completion output mode is invalid");;
      iterM (λ action, refuse (blank action) (ErrText "completion pending action is empty"))
        (cd_PendingActions c);;
      if cd_Accepted c then
        refuse (((cd_NoChangeReason c != "") || negb (bool_decide (cd_NoChangeEvidence c = [])))
                && negb (validNoChange state (cd_NoChangeReason c) (cd_NoChangeEvidence c)))
          (ErrText "accepted no-change completion lacks evidence");;
        require (cd_Mutation c =? st_MutationRevision state)
          (ErrText "accepted completion is not bound to current mutation");;
        refuse (blank (cd_CompletionCall c)) (ErrText "accepted completion has no call id");;
        require (samePaths (cd_ChangedPaths c) (changedPaths (effectiveChanges state)))
          (ErrText "accepted completion paths do not match changes")
      else refuse (blank (cd_Reason c)) (ErrText "rejected completion has no reason")
  | None => Ok tt
  end.

Definition decided_action (a : VerificationAction) : bool :=
  match a with
  | VerificationActionPassed | VerificationActionRepair | VerificationActionReported
  | VerificationActionBlocked | VerificationActionFailed | VerificationActionReverted => true
  | VerificationActionNone | VerificationActionNotRequired => false
  end.

Definition validateVerification (state : State) : res error unit :=
  let v := st_Verification state in
  match vs_Status v with
  | VerificationNotEvaluated =>
      refuse (negb (vs_Mutation v =? 0)
              || negb (bool_decide (vs_Action v = VerificationActionNone)))
        (ErrText "unevaluated verification has a mutation revision")
  | VerificationNotRequired =>
      refuse (bool_decide (st_Workspace state = None) || hasEffectiveChanges state
              || negb (vs_Mutation v =? st_MutationRevision state)
              || negb (bool_decide (vs_Action v = VerificationActionNotRequired))
              || negb (bool_decide (vs_EvidenceCalls v = [])))
        (ErrText "invalid not_required verification")
  | VerificationPassed | VerificationFailed | VerificationUnavailable =>
      require (vs_Mutation v =? st_MutationRevision state)
        (ErrText "verification is not bound to current mutation");;
      require (decided_action (vs_Action v)) (ErrText "verification action is invalid")
  end;;
  refuse (bool_decide (st_Phase state = PhaseVerifying) && (st_MutationRevision state =? 0)
          && bool_decide (st_Workspace state = None))
    (ErrText "verifying phase has no mutation").

Definition validateCommitting (state : State) : res error unit :=
  (if bool_decide (st_Phase state = PhaseCommitting) then
     require (bool_decide (is_Some (st_PendingTerminal state))
              && bool_decide (st_Terminal state = None))
       (ErrText "committing phase has invalid terminal state");;
     require (ug_Frozen (st_Usage state) && cx_Frozen (st_Context state))
       (ErrText "committing phase has no frozen snapshot")
   else refuse (bool_decide (is_Some (st_PendingTerminal state)))
          (ErrText "pending terminal exists outside committing"));;
  refuse (journal_finalized (st_Journal state)
          && negb (bool_decide (st_Phase state = PhaseCommitting))
          && negb (Terminal (st_Phase state)))
    (ErrText "finalized journal exists outside terminal transaction").

Definition validateTerminalState (state : State) (decision : TerminalDecision) :
    res error unit :=
  let hasChanges := negb (st_MutationRevision state =? 0) in
  match td_Kind decision with
  | TerminalCompleted =>
      require (st_OutputEligibility state && negb (bool_decide (st_FinalOutput state = [])))
        (ErrText "completed turn has no eligible final output");;
      validateCompletionPolicy state;;
      if negb hasChanges then
        let expected := if po_JournalRequired (st_Policy state) then JournalCommitted
                        else JournalNone in
        require (bool_decide (st_Journal state = expected))
          (ErrText "completed unchanged turn has invalid journal state")
      else
        let expectedJournal :=
          if bool_decide (vs_Action (st_Verification state) = VerificationActionReverted)
          then JournalRolledBack else JournalCommitted in
        require (bool_decide (st_Journal state = expectedJournal))
          (ErrText "completed mutation has no committed journal")
  | TerminalFailed | TerminalCanceled =>
      require (bool_decide (st_FinalOutput state = []))
        (ErrText "failed or canceled turn has final output");;
      refuse (blank (td_Message decision)) (ErrText "non-success terminal message is empty");;
      let expected :=
        if hasChanges || po_JournalRequired (st_Policy state) then
          if bool_decide (vs_Action (st_Verification state) = VerificationActionBlocked)
             && bool_decide (td_Kind decision = TerminalFailed)
          then JournalSuspended
          else (terminalJournalOutcome state decision).2
        else JournalNone in
      require (bool_decide (st_Journal state = expected))
        (ErrText "failed or canceled turn has invalid journal state")
  end.

Definition validateTerminal (state : State) : res error unit :=
  if Terminal (st_Phase state) then
    match st_Terminal state with
    | None => Err (ErrText "terminal phase has no decision")
    | Some decision =>
        require (bool_decide (st_OpenCalls state = ∅) && bool_decide (st_PendingApprovals state = ∅)
                 && bool_decide (st_PendingInput state = None) && (st_ActiveSampleID state == "")
                 && bool_decide (st_PendingEffects state = ∅))
          (ErrText "terminal state has unfinished work");;
        require (bool_decide (st_ProvisionalOutput state = []))
          (ErrText "terminal state retains provisional output");;
        require (ug_Frozen (st_Usage state) && cx_Frozen (st_Context state))
          (ErrText "terminal state has no frozen snapshot");;
        require (bool_decide (phaseForTerminal (td_Kind decision) = st_Phase state))
          (ErrText "terminal phase and decision disagree");;
        validateTerminalState state decision
    end
  else refuse (bool_decide (is_Some (st_Terminal state)))
         (ErrText "terminal decision exists in non-terminal phase").

Definition Validate (state : State) : res error unit :=
  refuse (bool_decide (st_Intent state = TurnIntentNone)) (ErrText "turn intent is empty");;
  validateCommentary state;;
  each (st_SampleLedger state) (validateSample state);;
  validateActiveSample state;;
  each (st_PendingEffects state) (validatePendingEffect state);;
  each (st_CompletedEffects state) (λ id effect, validateEffect id effect true);;
  validateCancellation state;;
  validateRecovery state;;
  require (bool_decide (ug_Frozen (st_Usage state) = cx_Frozen (st_Context state)))
    (ErrText "usage and context freeze state disagree");;
  require (valid_convergence_policy (po_Convergence (st_Policy state)))
    (ErrText "convergence policy is invalid");;
  each (st_RepairBudgets state) validateRepairBudget;;
  validateProgress state;;
  match st_Convergence state with Some c => validateConvergence c | None => Ok tt end;;
  validateCalls state;;
  validateWaits state;;
  validateMutation state;;
  validateChanges (st_Changes state);;
  validateWorkspace state;;
  validateCompletion state;;
  validateVerification state;;
  validateCommitting state;;
  validateTerminal state.
