(* ===== verification/Effects.v ===== *)
(** The reducer's effect ledger ([turnkernel/reducer_effect.go]) and the phase
    moves of [reducer_common.go]: how effects are requested, finished exactly
    once, and closed by call, identity or kind. *)
From S2P Require Import Prelude.
From S2P Require Import GoStrings.
From S2P Require Import Sha256.
From S2P Require Import Json.
From S2P Require Import Provider.
From S2P Require Import Assembly.
From S2P Require Import TurnState.
From S2P Require Import WorkItem.
From S2P Require Import Invariants.
From S2P Require Import Command.

Definition with_state (f : State → State) (t : Transition) : Transition :=
  mkTransition (f (tn_State t)) (tn_Events t) (tn_Effects t).
Definition emit (e : Event) (t : Transition) : Transition :=
  mkTransition (tn_State t) (tn_Events t ++ [e]) (tn_Effects t).

(** Events with the fields a handler sets. *)
Definition event_call (kind : EventKind) (CallID : string) : Event :=
  mkEvent kind None None CallID "" "" 0 None.
Definition event_effect (kind : EventKind) (EffectID CallID : string) : Event :=
  mkEvent kind None None CallID EffectID "" 0 None.
Definition event_sample (kind : EventKind) (EffectID SampleID : string) : Event :=
  mkEvent kind None None "" EffectID SampleID 0 None.
Definition event_mutation (kind : EventKind) (Mutation : Z) : Event :=
  mkEvent kind None None "" "" "" Mutation None.
Definition event_terminal (kind : EventKind) (decision : TerminalDecision) : Event :=
  mkEvent kind None None "" "" "" 0 (Some decision).

Definition move (phase : Phase) (t : Transition) : Transition :=
  t |> with_state (set_st_Phase phase)
    |> emit (mkEvent EventTransition (Some (st_Phase (tn_State t))) (Some phase) "" "" "" 0 None).

(** [fmt.Sprintf("effect-%016x", sequence)]. *)
Definition effect_id (sequence : Z) : string := "effect-" +:+ hex_pad 16 sequence.

Definition new_effect (sequence : Z) (kind : EffectKind) (payload : json)
    (idempotencyKey callID : string) : Effect :=
  mkEffect (effect_id sequence) kind (encode payload) (sha256_digest (encode payload)) 0
    idempotencyKey EffectRequested callID "".

Definition requestEffect (kind : EffectKind) (payload : json) (idempotencyKey callID : string)
    (t : Transition) : Transition :=
  let sequence := u64 (st_NextEffectSequence (tn_State t) + 1) in
  let effect := new_effect sequence kind payload idempotencyKey callID in
  mkTransition
    (tn_State t |> set_st_NextEffectSequence sequence
     |> set_st_PendingEffects (<[ef_ID effect := effect]> (st_PendingEffects (tn_State t))))
    (tn_Events t ++ [event_effect EventEffectRequested (ef_ID effect) callID])
    (tn_Effects t ++ [effect]).

Definition finishEffect (effectID : string) (success : bool) (message : string)
    (t : Transition) : res error Transition :=
  match st_PendingEffects (tn_State t) !! effectID with
  | None =>
      if bool_decide (is_Some (st_CompletedEffects (tn_State t) !! effectID))
      then Err (ErrText "effect result is duplicated")
      else Err (ErrText "effect result does not match a pending effect")
  | Some effect =>
      require (bool_decide (ef_Status effect = EffectRequested)
               || bool_decide (ef_Status effect = EffectRunning))
        (ErrText "effect is not awaiting a result");;
      refuse (negb success && blank message) (ErrText "failed effect result has no error");;
      let effect :=
        if success then effect |> set_ef_Status EffectSucceeded |> set_ef_Error ""
        else effect |> set_ef_Status EffectFailed |> set_ef_Error message in
      Ok (t |> with_state (λ s, s
                 |> set_st_PendingEffects (delete effectID (st_PendingEffects s))
                 |> set_st_CompletedEffects (<[effectID := effect]> (st_CompletedEffects s)))
            |> emit (event_effect EventEffectFinished (ef_ID effect) (ef_CallID effect)))
  end.

Definition sortedEffectIDs (effects : gmap string Effect) : list string :=
  sort_strings (map_to_list effects).*1.

Definition nonEmptyEffectError (success : bool) (message : string) : string :=
  if success || negb (blank message) then message else "effect failed".

(** [_ = finishEffect(...)] with a non-empty error. *)
Definition close_effect (success : bool) (message : string) (t : Transition)
    (effectID : string) : Transition :=
  match finishEffect effectID success (nonEmptyEffectError success message) t with
  | Ok t' => t'
  | Err _ => t
  end.

(** The effect [id] is pending and satisfies [p]. *)
Definition pending_matches (p : Effect → bool) (t : Transition) (id : string) : bool :=
  match st_PendingEffects (tn_State t) !! id with
  | Some effect => p effect
  | None => false
  end.

(** The loop closing the first pending effect, in id order, that satisfies [p]. *)
Definition close_first (p : Effect → bool) (success : bool) (message : string)
    (t : Transition) : Transition :=
  match filter (λ id, pending_matches p t id = true)
          (sortedEffectIDs (st_PendingEffects (tn_State t))) with
  | effectID :: _ => close_effect success message t effectID
  | [] => t
  end.

Definition closeEffectByCall (kind : EffectKind) (callID : string) (success : bool)
    (message : string) (t : Transition) : Transition :=
  close_first (λ e, bool_decide (ef_Kind e = kind) && (ef_CallID e == callID))
    success message t.

Definition closeEffectByIdentity (kind : EffectKind) (identity : string) (success : bool)
    (message : string) (t : Transition) : Transition :=
  let wantKey := match kind with
                 | EffectAwaitApproval => "approval:" +:+ identity
                 | EffectAwaitInput => "input:" +:+ identity
                 | _ => ""
                 end in
  close_first (λ e, bool_decide (ef_Kind e = kind) && (ef_IdempotencyKey e == wantKey))
    success message t.

Definition closeFirstEffectByKind (kind : EffectKind) (success : bool) (message : string)
    (t : Transition) : Transition :=
  close_first (λ e, bool_decide (ef_Kind e = kind)) success message t.

Definition closeEffectsByKind (kind : EffectKind) (success : bool) (message : string)
    (t : Transition) : Transition :=
  foldl (λ t effectID,
    if pending_matches (λ e, bool_decide (ef_Kind e = kind)) t effectID
    then close_effect success message t effectID else t)
    t (sortedEffectIDs (st_PendingEffects (tn_State t))).

(** ** The effect commands *)

Definition applyEffectStarted (t : Transition) (current : State) (EffectID : string)
    (Attempt : Z) : res kerror Transition :=
  let command := EffectStarted EffectID Attempt in
  match st_PendingEffects current !! EffectID with
  | None => Err (illegal current command "effect is not pending")
  | Some effect =>
      refuse (negb (bool_decide (ef_Status effect = EffectRequested)) || (Attempt =? 0))
        (illegal current command "effect cannot start");;
      let effect := effect |> set_ef_Status EffectRunning |> set_ef_Attempt Attempt
                           |> set_ef_Error "" in
      let t := t |> with_state (λ s,
        set_st_PendingEffects (<[EffectID := effect]> (st_PendingEffects s)) s) in
      t ← (if bool_decide (ef_Kind effect = EffectSampleProvider) then
             match st_SampleLedger current !! ef_CallID effect with
             | Some sample =>
                 require (bool_decide (ms_Status sample = SampleRequested))
                   (illegal current command "sample effect is not requested");;
                 let sample := sample |> set_ms_Status SampleRunning |> set_ms_Attempt Attempt
                   |> set_ms_Retry None
                   |> set_ms_RetryBudget (set_bg_WaitUntil 0 (ms_RetryBudget sample))
                   |> set_ms_Error "" in
                 Ok (t |> with_state (λ s, s
                   |> set_st_SampleLedger (<[ef_CallID effect := sample]> (st_SampleLedger s))
                   |> set_st_ActiveSampleID (ef_CallID effect)))
             | None => Err (illegal current command "sample effect is not requested")
             end
           else Ok t);
      Ok (t |> emit (event_effect EventEffectStarted EffectID ""))
  end.

Definition applyEffectRequeued (t : Transition) (current : State) (EffectID : string) :
    res kerror Transition :=
  let command := EffectRequeued EffectID in
  match st_PendingEffects current !! EffectID with
  | None => Err (illegal current command "effect is not pending")
  | Some effect =>
      require (bool_decide (ef_Status effect = EffectRunning))
        (illegal current command "only a running effect can be requeued");;
      let effect := effect |> set_ef_Status EffectRequested in
      let t := t |> with_state (λ s,
        set_st_PendingEffects (<[EffectID := effect]> (st_PendingEffects s)) s) in
      t ← (if bool_decide (ef_Kind effect = EffectSampleProvider) then
             match st_SampleLedger current !! ef_CallID effect with
             | Some sample =>
                 require (bool_decide (ms_Status sample = SampleRunning))
                   (illegal current command "running sample effect has no sample");;
                 Ok (t |> with_state (λ s, s
                   |> set_st_SampleLedger (<[ef_CallID effect := set_ms_Status SampleRequested
                                               sample]> (st_SampleLedger s))
                   |> set_st_ActiveSampleID ""))
             | None => Err (illegal current command "running sample effect has no sample")
             end
           else Ok t);
      Ok (t |> emit (event_effect EventEffectRequeued EffectID ""))
  end.

Definition applyEffectResult (t : Transition) (current : State) (EffectID : string)
    (Success : bool) (Error : string) : res kerror Transition :=
  or_illegal current (EffectResultReceived EffectID Success Error)
    (finishEffect EffectID Success Error t).

Definition applyPersistenceResult (t : Transition) (current : State) (EffectID : string)
    (Success : bool) (Error : string) : res kerror Transition :=
  or_illegal current (PersistenceResultReceived EffectID Success Error)
    (finishEffect EffectID Success Error t).
