(* ===== verification/Validity.v ===== *)
(** The well-formedness of a turn's state as a predicate, and the proof that
    [Validate] decides it. *)
From S2P Require Import Prelude.
From S2P Require Import GoStrings.
From S2P Require Import Sha256.
From S2P Require Import Provider.
From S2P Require Import Assembly.
From S2P Require Import TurnState.
From S2P Require Import WorkItem.
From S2P Require Import Invariants.

Section Parts.
Context (s : State).

Definition ValidMessage (m : Commentary) : Prop :=
  ms_Status (default zero_sample (st_SampleLedger s !! cm_SampleID m)) = SampleCompleted ∧
  blank (cm_Text m) = false ∧ cm_CallIDs m ≠ [] ∧
  Forall (λ id, blank id = false) (cm_CallIDs m) ∧ NoDup (cm_CallIDs m).

(** A retry schedule belongs to a requested sample and names its pending effect. *)
Definition ValidRetry (id : string) (sample : ModelSampleState) (r : ProviderRetryState) : Prop :=
  ms_Status sample = SampleRequested ∧ pr_Attempt r = ms_Attempt sample ∧
  pr_Retry r = ms_ProviderRetries sample ∧ pr_RetryAt r ≠ 0 ∧
  (ms_RetryBudget sample = zero_retry_budget ∨
   pr_RetryAt r ≤ bg_WaitUntil (ms_RetryBudget sample)) ∧
  blank (pr_PolicyRevision r) = false ∧
  ∃ e, st_PendingEffects s !! pr_EffectID r = Some e ∧ ef_Kind e = EffectSampleProvider ∧
       ef_CallID e = id ∧ ef_Status e = EffectRequested.

Definition ValidSample (id : string) (sample : ModelSampleState) : Prop :=
  blank id = false ∧ ms_ID sample = id ∧ ms_Status sample ≠ SampleStatusNone ∧
  (ms_Status sample ≠ SampleRequested → ms_Attempt sample ≠ 0) ∧
  (ms_Status sample = SampleFailed → blank (ms_Error sample) = false) ∧
  (ms_Status sample = SampleRequested ∨ ms_Status sample = SampleCompleted →
     ms_Error sample = "") ∧
  (ms_ProviderRetries sample = 0 → ms_Retry sample = None) ∧
  (ms_RetryBudget sample ≠ zero_retry_budget →
     bg_TransientRetries (ms_RetryBudget sample) + bg_RateLimitRetries (ms_RetryBudget sample)
       = ms_ProviderRetries sample ∧ 0 ≤ bg_RateLimitWaited (ms_RetryBudget sample)) ∧
  (∀ f, ms_LastFailure sample = Some f → fl_Code f ≠ FailureNone ∧ blank (fl_Message f) = false) ∧
  (∀ a, ms_Assembly sample = Some a → ra_LogicalRequestID a = id ∧ is_ok (Assembly.Validate a) = true) ∧
  (∀ r, ms_Retry sample = Some r → ValidRetry id sample r).

Definition ValidEffect (id : string) (e : Effect) : Prop :=
  blank id = false ∧ ef_ID e = id ∧ ef_Kind e ≠ EffectNone ∧ ef_Payload e ≠ "" ∧
  has_prefix (ef_PayloadDigest e) "sha256:" = true ∧ blank (ef_IdempotencyKey e) = false ∧
  ef_PayloadDigest e = sha256_digest (ef_Payload e).

Definition ValidPending (id : string) (e : Effect) : Prop :=
  ValidEffect id e ∧ (ef_Status e = EffectRequested ∨ ef_Status e = EffectRunning) ∧
  (ef_Status e = EffectRunning → ef_Attempt e ≠ 0) ∧ st_CompletedEffects s !! id = None.

Definition ValidCompleted (id : string) (e : Effect) : Prop :=
  ValidEffect id e ∧ (ef_Status e = EffectSucceeded ∨ ef_Status e = EffectFailed) ∧
  (ef_Status e = EffectFailed → blank (ef_Error e) = false).

Definition ValidRecovery (r : RecoveryRelation) : Prop :=
  blank (rr_SourceTurnID r) = false ∧ blank (rr_RecoveryTurnID r) = false ∧
  (rr_Action r = TurnRecoveryRetry ∨ rr_Action r = TurnRecoveryContinue) ∧
  (rr_DraftResumed r = true → rr_Action r = TurnRecoveryContinue ∧ st_MutationRevision s ≠ 0) ∧
  st_ProfileRevision s ≠ 0.

Definition ValidCursor (c : ContinuationCursor) : Prop :=
  cc_Sequence c ≠ 0 ∧ blank (cc_Handle c) = false ∧ blank (cc_Digest c) = false.

Definition ValidBudget (kind : RepairKind) (b : RepairBudget) : Prop :=
  validRepairKind kind = true ∧ blank (rb_ProgressKey b) = false ∧
  rb_Consecutive b ≤ rb_Steps b.

Definition ValidProgress (p : ProgressState) : Prop :=
  (pg_Signature p = "" →
     pg_ObservedSamples p = 0 ∧ pg_NoProgressSamples p = 0 ∧ pg_Stage p = ProgressStageNone) ∧
  pg_NoProgressSamples p ≤ pg_ObservedSamples p.

Definition ValidConvergence (c : ConvergenceState) : Prop :=
  (cv_Cause c ≠ ConvergenceIncomplete →
     cv_Limit c ≤ cv_Used c ∧
     (cv_Limit c = 0 → cv_Used c = 0 ∧ cv_Cause c = ConvergenceRepairBudget)) ∧
  match cv_Cause c with
  | ConvergenceOutputLimit | ConvergenceNoProgress | ConvergenceStepLimit =>
      cv_RepairKind c = RepairNone
  | ConvergenceRepairBudget => validRepairKind (cv_RepairKind c) = true
  | ConvergenceIncomplete =>
      cv_Used c = 0 ∧ cv_Limit c = 0 ∧ cv_RepairKind c = RepairNone ∧
      cv_FinalizationAttempted c = true
  end ∧
  (blank (cv_Summary c) = true ↔ cv_PendingActions c = []) ∧
  Forall (λ a, blank a = false) (cv_PendingActions c).

Definition ValidCalls : Prop :=
  map_Forall (λ id c, blank id = false ∧ id = cs_ID c ∧ blank (cs_Name c) = false ∧
                      st_ClosedCalls s !! id = None) (st_OpenCalls s) ∧
  map_Forall (λ id r, blank id = false ∧ id = ts_ID r ∧ blank (ts_Name r) = false)
    (st_ClosedCalls s) ∧
  (st_OpenCalls s ≠ ∅ → tool_phase (st_Phase s) = true) ∧
  (st_Phase s = PhaseExecutingTools → st_OpenCalls s ≠ ∅).

Definition ValidWaits : Prop :=
  map_Forall (λ id a, st_Phase s = PhaseAwaitingApproval ∧ id ≠ "" ∧ id = ap_RequestID a ∧
                      is_Some (st_OpenCalls s !! ap_CallID a)) (st_PendingApprovals s) ∧
  (st_Phase s = PhaseAwaitingApproval → st_PendingApprovals s ≠ ∅) ∧
  (∀ i, st_PendingInput s = Some i →
     st_Phase s = PhaseAwaitingInput ∧ blank (is_RequestID i) = false) ∧
  (st_PendingInput s = None → st_Phase s ≠ PhaseAwaitingInput).

Definition ValidMutation : Prop :=
  (st_MutationRevision s = 0 →
     st_Changes s = [] ∧
     (st_Journal s = JournalNone ∨
      po_JournalRequired (st_Policy s) = true ∧
      (st_Phase s = PhaseCommitting ∨ Terminal (st_Phase s) = true) ∧
      journal_finalized (st_Journal s) = true)) ∧
  (st_MutationRevision s ≠ 0 → st_Changes s ≠ [] ∧ st_Journal s ≠ JournalNone) ∧
  Forall (λ c, blank (oc_Path c) = false ∧ blank (oc_Kind c) = false) (st_Changes s).

Definition ValidWorkspace : Prop :=
  ∀ ws, st_Workspace s = Some ws →
    ws_Mutation ws = st_MutationRevision s ∧
    Forall (λ c, blank (oc_Path c) = false ∧ effective_kind (oc_Kind c) = true) (ws_Changes ws) ∧
    NoDup (oc_Path <$> ws_Changes ws).

Definition ValidCompletion (c : CompletionDecision) : Prop :=
  valid_output_mode (cd_OutputMode c) = true ∧
  Forall (λ a, blank a = false) (cd_PendingActions c) ∧
  (cd_Accepted c = true →
     ((cd_NoChangeReason c ≠ "" ∨ cd_NoChangeEvidence c ≠ []) →
        validNoChange s (cd_NoChangeReason c) (cd_NoChangeEvidence c) = true) ∧
     cd_Mutation c = st_MutationRevision s ∧ blank (cd_CompletionCall c) = false ∧
     samePaths (cd_ChangedPaths c) (changedPaths (effectiveChanges s)) = true) ∧
  (cd_Accepted c = false → blank (cd_Reason c) = false).

Definition ValidVerification : Prop :=
  let v := st_Verification s in
  match vs_Status v with
  | VerificationNotEvaluated => vs_Mutation v = 0 ∧ vs_Action v = VerificationActionNone
  | VerificationNotRequired =>
      st_Workspace s ≠ None ∧ hasEffectiveChanges s = false ∧
      vs_Mutation v = st_MutationRevision s ∧ vs_Action v = VerificationActionNotRequired ∧
      vs_EvidenceCalls v = []
  | VerificationPassed | VerificationFailed | VerificationUnavailable =>
      vs_Mutation v = st_MutationRevision s ∧ decided_action (vs_Action v) = true
  end ∧
  (st_Phase s = PhaseVerifying → st_MutationRevision s = 0 → st_Workspace s ≠ None).

Definition frozen : Prop := ug_Frozen (st_Usage s) = true ∧ cx_Frozen (st_Context s) = true.

Definition ValidCommitting : Prop :=
  (st_Phase s = PhaseCommitting →
     is_Some (st_PendingTerminal s) ∧ st_Terminal s = None ∧ frozen) ∧
  (st_Phase s ≠ PhaseCommitting → st_PendingTerminal s = None) ∧
  (journal_finalized (st_Journal s) = true →
     st_Phase s = PhaseCommitting ∨ Terminal (st_Phase s) = true).

(** The journal a completed turn must show. *)
Definition completed_journal : JournalStatus :=
  if st_MutationRevision s =? 0 then
    if po_JournalRequired (st_Policy s) then JournalCommitted else JournalNone
  else if bool_decide (vs_Action (st_Verification s) = VerificationActionReverted)
  then JournalRolledBack else JournalCommitted.

(** The journal a failed or canceled turn must show. *)
Definition failed_journal (d : TerminalDecision) : JournalStatus :=
  if negb (st_MutationRevision s =? 0) || po_JournalRequired (st_Policy s) then
    if bool_decide (vs_Action (st_Verification s) = VerificationActionBlocked)
       && bool_decide (td_Kind d = TerminalFailed)
    then JournalSuspended
    else (terminalJournalOutcome s d).2
  else JournalNone.

Definition ValidOutcome (d : TerminalDecision) : Prop :=
  match td_Kind d with
  | TerminalCompleted =>
      st_OutputEligibility s = true ∧ st_FinalOutput s ≠ [] ∧
      validateCompletionPolicy s = Ok tt ∧ st_Journal s = completed_journal
  | TerminalFailed | TerminalCanceled =>
      st_FinalOutput s = [] ∧ blank (td_Message d) = false ∧ st_Journal s = failed_journal d
  end.

Definition ValidTerminal : Prop :=
  (Terminal (st_Phase s) = true →
     ∃ d, st_Terminal s = Some d ∧ st_OpenCalls s = ∅ ∧ st_PendingApprovals s = ∅ ∧
       st_PendingInput s = None ∧ st_ActiveSampleID s = "" ∧ st_PendingEffects s = ∅ ∧
       st_ProvisionalOutput s = [] ∧ frozen ∧ phaseForTerminal (td_Kind d) = st_Phase s ∧
       ValidOutcome d) ∧
  (Terminal (st_Phase s) = false → st_Terminal s = None).

Record Valid : Prop := {
  v_intent : st_Intent s ≠ TurnIntentNone;
  v_commentary : Forall ValidMessage (st_Commentary s) ∧ NoDup (cm_SampleID <$> st_Commentary s);
  v_samples : map_Forall ValidSample (st_SampleLedger s);
  v_active : st_ActiveSampleID s ≠ "" →
    ∃ sample, st_SampleLedger s !! st_ActiveSampleID s = Some sample ∧
      ms_Status sample = SampleRunning ∧ st_Phase s = PhaseSampling;
  v_pending : map_Forall ValidPending (st_PendingEffects s);
  v_completed : map_Forall ValidCompleted (st_CompletedEffects s);
  v_cancel : (ca_Accepted (st_Cancellation s) = true → ca_Requested (st_Cancellation s) = true) ∧
    (ca_Requested (st_Cancellation s) = true → blank (ca_Reason (st_Cancellation s)) = false);
  v_recovery : ∀ r, st_RecoveryRelation s = Some r → ValidRecovery r;
  v_continuation : ∀ c, st_Continuation s = Some c → ValidCursor c;
  v_frozen : ug_Frozen (st_Usage s) = cx_Frozen (st_Context s);
  v_policy : valid_convergence_policy (po_Convergence (st_Policy s)) = true;
  v_budgets : map_Forall ValidBudget (st_RepairBudgets s);
  v_progress : ValidProgress (st_Progress s);
  v_convergence : ∀ c, st_Convergence s = Some c → ValidConvergence c;
  v_calls : ValidCalls;
  v_waits : ValidWaits;
  v_mutation : ValidMutation;
  v_workspace : ValidWorkspace;
  v_completion : ∀ c, st_Completion s = Some c → ValidCompletion c;
  v_verification : ValidVerification;
  v_committing : ValidCommitting;
  v_terminal : ValidTerminal;
}.

End Parts.

(** ** [Validate] decides [Valid] *)

Lemma each_Ok {K A} `{Countable K} (m : gmap K A) f :
  each m f = Ok tt ↔ map_Forall (λ k x, f k x = Ok tt) m.
Proof.
  unfold each. rewrite iterM_Ok, map_Forall_to_list.
  apply Forall_iff. by intros [k x].
Qed.

Lemma map_Forall_equiv {K A} `{Countable K} (P Q : K → A → Prop) (m : gmap K A) :
  (∀ k x, P k x ↔ Q k x) → map_Forall P m ↔ map_Forall Q m.
Proof. intros HPQ. split; intros Hm k x Hx; apply HPQ; by apply Hm. Qed.

Ltac checks := autorewrite with check.

Lemma validateCommentary_Ok s :
  (∃ r, validateCommentary s = Ok r) ↔
  Forall (ValidMessage s) (st_Commentary s) ∧ NoDup (cm_SampleID <$> st_Commentary s).
Proof.
  unfold validateCommentary. rewrite (foldM_seen _ cm_SampleID (ValidMessage s)).
  - split; [naive_solver|]. intros [? ?]. split_and!; [done..|].
    intros k _ Hk. by apply not_elem_of_nil in Hk.
  - intros seen m r. checks. rewrite run_Ok. unfold validateCallIDs.
    rewrite (foldM_seen _ (λ x, x) (λ id, blank id = false)).
    + unfold ValidMessage. rewrite list_fmap_id.
      assert (∀ k, k ∈ cm_CallIDs m → k ∉ []).
      { intros k _ Hk. by apply not_elem_of_nil in Hk. }
      split; [|naive_solver]. intros (([[? ?] ?] & ?) & (? & ? & _) & [= <-]). naive_solver.
    + intros seen' x r'. checks. naive_solver.
Qed.

Lemma retry_schedule_Ok s id sample r :
  retry_schedule_ok s id sample r = true ↔ ValidRetry s id sample r.
Proof.
  unfold retry_schedule_ok, ValidRetry, time_zero.
  destruct (st_PendingEffects s !! pr_EffectID r) as [e|]; checks; naive_solver.
Qed.

Lemma validateSample_Ok s id sample :
  validateSample s id sample = Ok tt ↔ ValidSample s id sample.
Proof.
  unfold validateSample, ValidSample. rewrite !then_Ok. checks.
  setoid_rewrite <- retry_schedule_Ok.
  assert (Hr : match ms_Retry sample with
               | Some r => require (retry_schedule_ok s id sample r)
                             (ErrFmt "model sample %q has an invalid retry schedule" [ArgS id])
               | None => Ok tt end = Ok tt
               ↔ ∀ r, ms_Retry sample = Some r → retry_schedule_ok s id sample r = true).
  { destruct (ms_Retry sample); checks; naive_solver. }
  rewrite Hr; clear Hr.
  assert (Ha : ∀ (m : res error unit), m = match ms_Assembly sample with
      | Some a => refuse (ra_LogicalRequestID a != id)
          (ErrFmt "model sample %q has mismatched response assembly identity" [ArgS id]);;
          match Assembly.Validate a with
          | Ok _ => Ok tt
          | Err e => Err (ErrWrap "model sample %q response assembly: %w" [ArgS id] e)
          end
      | None => Ok tt
      end → m = Ok tt ↔ ∀ a, ms_Assembly sample = Some a →
                 ra_LogicalRequestID a = id ∧ is_ok (Assembly.Validate a) = true).
  { intros m ->. destruct (ms_Assembly sample) as [a|]; [|naive_solver]. checks.
    assert (∀ e, match Assembly.Validate a with Ok _ => Ok tt | Err e' => Err (e e') end
                 = (Ok tt : res error unit) ↔ is_ok (Assembly.Validate a) = true) as ->.
    { intros e. by destruct (Assembly.Validate a). }
    naive_solver. }
  rewrite (Ha _ eq_refl); clear Ha.
  assert (Hf : match ms_LastFailure sample with
      | Some failure => refuse (bool_decide (fl_Code failure = FailureNone)
                                || blank (fl_Message failure))
                          (ErrFmt "model sample %q has an invalid failure" [ArgS id])
      | None => Ok tt
      end = Ok tt ↔ ∀ f, ms_LastFailure sample = Some f →
                      fl_Code f ≠ FailureNone ∧ blank (fl_Message f) = false).
  { destruct (ms_LastFailure sample); checks; naive_solver. }
  rewrite Hf; clear Hf.
  assert (Hret : (ms_ProviderRetries sample ≠ 0 ∨ ¬ is_Some (ms_Retry sample))
                 ↔ (ms_ProviderRetries sample = 0 → ms_Retry sample = None)).
  { rewrite <- eq_None_not_Some. destruct (decide (ms_ProviderRetries sample = 0)); naive_solver. }
  rewrite Hret; clear Hret.
  assert (Hb : ∀ P : Prop, (ms_RetryBudget sample = zero_retry_budget ∨ P)
                 ↔ (ms_RetryBudget sample ≠ zero_retry_budget → P)).
  { intros P. destruct (decide (ms_RetryBudget sample = zero_retry_budget)); naive_solver. }
  rewrite Hb; clear Hb.
  destruct (ms_Status sample); checks; naive_solver.
Qed.

Lemma validateActiveSample_Ok s :
  validateActiveSample s = Ok tt ↔
  (st_ActiveSampleID s ≠ "" →
   ∃ sample, st_SampleLedger s !! st_ActiveSampleID s = Some sample ∧
     ms_Status sample = SampleRunning ∧ st_Phase s = PhaseSampling).
Proof.
  unfold validateActiveSample. destruct (st_ActiveSampleID s != "") eqn:E; bool_prop;
    destruct (st_SampleLedger s !! _) eqn:E'; checks; naive_solver.
Qed.

Lemma validateEffect_Ok id e completed :
  validateEffect id e completed = Ok tt ↔
  ValidEffect id e ∧
  if completed
  then (ef_Status e = EffectSucceeded ∨ ef_Status e = EffectFailed) ∧
       (ef_Status e = EffectFailed → blank (ef_Error e) = false)
  else (ef_Status e = EffectRequested ∨ ef_Status e = EffectRunning) ∧
       (ef_Status e = EffectRunning → ef_Attempt e ≠ 0).
Proof.
  unfold validateEffect, ValidEffect. rewrite !then_Ok. destruct completed; checks;
    destruct (ef_Status e); naive_solver.
Qed.

Lemma validatePending_Ok s id e :
  validatePendingEffect s id e = Ok tt ↔ ValidPending s id e.
Proof.
  unfold validatePendingEffect, ValidPending. rewrite then_Ok, validateEffect_Ok. checks.
  rewrite <- eq_None_not_Some. naive_solver.
Qed.

Lemma validateCompleted_Ok id e :
  validateEffect id e true = Ok tt ↔ ValidCompleted id e.
Proof. unfold ValidCompleted. apply validateEffect_Ok. Qed.

Lemma validateCancellation_Ok s :
  validateCancellation s = Ok tt ↔
  (ca_Accepted (st_Cancellation s) = true → ca_Requested (st_Cancellation s) = true) ∧
  (ca_Requested (st_Cancellation s) = true → blank (ca_Reason (st_Cancellation s)) = false).
Proof.
  unfold validateCancellation. checks.
  destruct (ca_Accepted _), (ca_Requested _), (blank _); naive_solver.
Qed.

Lemma validateRecovery_Ok s :
  validateRecovery s = Ok tt ↔
  (∀ r, st_RecoveryRelation s = Some r → ValidRecovery s r) ∧
  (∀ c, st_Continuation s = Some c → ValidCursor c).
Proof.
  unfold validateRecovery, ValidRecovery, ValidCursor. rewrite then_Ok. f_equiv.
  - destruct (st_RecoveryRelation s) as [r|]; checks; [|done].
    destruct (rr_DraftResumed r); naive_solver.
  - destruct (st_Continuation s); checks; naive_solver.
Qed.

Lemma validateRepairBudget_Ok kind b : validateRepairBudget kind b = Ok tt ↔ ValidBudget kind b.
Proof. unfold validateRepairBudget, ValidBudget. checks. naive_solver. Qed.

Lemma validateProgress_Ok s : validateProgress s = Ok tt ↔ ValidProgress (st_Progress s).
Proof.
  unfold validateProgress, ValidProgress. rewrite then_Ok. checks. f_equiv.
  destruct (decide (pg_Signature (st_Progress s) = "")); naive_solver.
Qed.

Lemma validateConvergence_Ok c : validateConvergence c = Ok tt ↔ ValidConvergence c.
Proof.
  unfold validateConvergence, ValidConvergence. rewrite !then_Ok.
  assert (Hs : bool_decide (blank (cv_Summary c) = bool_decide (cv_PendingActions c = [])) = true
               ↔ (blank (cv_Summary c) = true ↔ cv_PendingActions c = [])).
  { rewrite bool_decide_eq_true, bool_eq_iff, bool_decide_eq_true. done. }
  rewrite require_Ok, Hs; clear Hs. rewrite iterM_Ok.
  setoid_rewrite refuse_Ok.
  destruct (cv_Cause c); checks; rewrite ?neq_or; intuition congruence.
Qed.

Lemma validateCalls_Ok s : validateCalls s = Ok tt ↔ ValidCalls s.
Proof.
  unfold validateCalls, ValidCalls. rewrite !then_Ok, !each_Ok. f_equiv.
  { apply map_Forall_equiv. intros id c. unfold validateOpenCall. checks.
    rewrite <- eq_None_not_Some. naive_solver. }
  f_equiv.
  { apply map_Forall_equiv. intros id r. unfold validateClosedCall. checks. naive_solver. }
  checks. destruct (decide (st_OpenCalls s = ∅)), (tool_phase (st_Phase s));
    destruct (decide (st_Phase s = PhaseExecutingTools)); naive_solver.
Qed.

Lemma validateWaits_Ok s : validateWaits s = Ok tt ↔ ValidWaits s.
Proof.
  unfold validateWaits, ValidWaits. rewrite !then_Ok, each_Ok. f_equiv.
  { apply map_Forall_equiv. intros id a. unfold validateApproval. checks. naive_solver. }
  destruct (st_PendingInput s) as [i|]; checks; cbn;
    destruct (decide (st_PendingApprovals s = ∅));
    destruct (decide (st_Phase s = PhaseAwaitingApproval)); intuition congruence.
Qed.

Lemma validateChanges_Ok changes :
  (∃ n, validateChanges changes = Ok n) ↔
  Forall (λ c, blank (oc_Path c) = false ∧ blank (oc_Kind c) = false) changes.
Proof.
  unfold validateChanges. generalize 0. induction changes as [|c changes IH]; intros n; cbn.
  - split; [by constructor|by eauto].
  - rewrite Forall_cons, <- (IH (n + 1)). split.
    + intros (r & (n' & [Hn [= <-]]%then_Ok & Hr)%bind_Ok). revert Hn. checks. eauto.
    + intros [[Hp Hk] [r Hr]]. exists r. rewrite Hp, Hk. exact Hr.
Qed.

Lemma validateMutation_Ok s :
  validateMutation s = Ok tt ∧ (∃ n, validateChanges (st_Changes s) = Ok n) ↔ ValidMutation s.
Proof.
  rewrite validateChanges_Ok. unfold validateMutation, ValidMutation.
  destruct (Z.eqb_spec (st_MutationRevision s) 0) as [E|E]; checks; intuition congruence.
Qed.

Lemma validateWorkspace_Ok s : validateWorkspace s = Ok tt ↔ ValidWorkspace s.
Proof.
  unfold validateWorkspace, ValidWorkspace. destruct (st_Workspace s) as [ws|]; checks; [|done].
  rewrite run_Ok, (foldM_seen _ oc_Path
    (λ c, blank (oc_Path c) = false ∧ effective_kind (oc_Kind c) = true)).
  - assert (∀ k, k ∈ oc_Path <$> ws_Changes ws → k ∉ []).
    { intros k _ Hk. by apply not_elem_of_nil in Hk. }
    naive_solver.
  - intros seen c r. checks. naive_solver.
Qed.

Lemma validateCompletion_Ok s :
  validateCompletion s = Ok tt ↔ ∀ c, st_Completion s = Some c → ValidCompletion s c.
Proof.
  unfold validateCompletion, ValidCompletion. destruct (st_Completion s) as [c|]; checks; [|done].
  rewrite iterM_Ok. setoid_rewrite refuse_Ok. f_equiv. f_equiv.
  destruct (cd_Accepted c); checks.
  - destruct (decide (cd_NoChangeReason c = "")), (decide (cd_NoChangeEvidence c = []));
      intuition congruence.
  - naive_solver.
Qed.

Lemma validateVerification_Ok s : validateVerification s = Ok tt ↔ ValidVerification s.
Proof.
  unfold validateVerification, ValidVerification. rewrite then_Ok. f_equiv.
  - destruct (vs_Status (st_Verification s)); checks; naive_solver.
  - checks. destruct (decide (st_Phase s = PhaseVerifying)),
      (decide (st_MutationRevision s = 0)); intuition congruence.
Qed.

Lemma validateCommitting_Ok s : validateCommitting s = Ok tt ↔ ValidCommitting s.
Proof.
  unfold validateCommitting, ValidCommitting, frozen. rewrite then_Ok.
  destruct (decide (st_Phase s = PhaseCommitting)) as [E|E].
  - rewrite bool_decide_eq_true_2 by done. checks. destruct (journal_finalized _); intuition congruence.
  - rewrite bool_decide_eq_false_2 by done. checks. rewrite <- eq_None_not_Some.
    destruct (journal_finalized _), (Terminal _); intuition congruence.
Qed.

Lemma validateTerminalState_Ok s d : validateTerminalState s d = Ok tt ↔ ValidOutcome s d.
Proof.
  unfold validateTerminalState, ValidOutcome, completed_journal, failed_journal.
  destruct (td_Kind d); checks.
  - destruct (st_MutationRevision s =? 0); cbn; checks; naive_solver.
  - intuition.
  - intuition.
Qed.

Lemma validateTerminal_Ok s : validateTerminal s = Ok tt ↔ ValidTerminal s.
Proof.
  unfold validateTerminal, ValidTerminal, frozen.
  destruct (Terminal (st_Phase s)); [|checks; rewrite <- eq_None_not_Some; naive_solver].
  destruct (st_Terminal s) as [d|]; checks; [|naive_solver].
  rewrite validateTerminalState_Ok. naive_solver.
Qed.

Theorem Validate_Valid s : Validate s = Ok tt ↔ Valid s.
Proof.
  unfold Validate.
  rewrite then_Ok, run_Ok, !then_Ok, run_Ok, !then_Ok, !each_Ok.
  rewrite validateCommentary_Ok, validateActiveSample_Ok, validateCancellation_Ok,
    validateRecovery_Ok, validateProgress_Ok, validateCalls_Ok, validateWaits_Ok,
    validateWorkspace_Ok, validateCompletion_Ok, validateVerification_Ok,
    validateCommitting_Ok, validateTerminal_Ok.
  rewrite (map_Forall_equiv _ _ _ (validateSample_Ok s)),
    (map_Forall_equiv _ _ _ (validatePending_Ok s)),
    (map_Forall_equiv _ _ _ validateCompleted_Ok),
    (map_Forall_equiv _ _ _ validateRepairBudget_Ok).
  assert (Hc : match st_Convergence s with Some c => validateConvergence c | None => Ok tt end
               = Ok tt ↔ ∀ c, st_Convergence s = Some c → ValidConvergence c).
  { destruct (st_Convergence s); checks; [|done]. apply validateConvergence_Ok. }
  rewrite Hc; clear Hc. checks. pose proof (validateMutation_Ok s) as Hm.
  split; [|intros []]; intros; destruct_and?; [split; try tauto|]; tauto.
Qed.
