(* ===== verification/TurnSpec.v ===== *)
(** Abstract machines the turn kernel promises to implement: the lifecycle of a
    turn, the effect ledger, the tool-call ledger and the sample ledger. Each is
    a small transition system over the part of the state it owns; the kernel's
    refinement theorems map every applied command to steps of each machine. *)
From S2P Require Import Prelude.
From S2P Require Import GoStrings.
From S2P Require Import Sha256.
From S2P Require Import Provider.
From S2P Require Import Assembly.
From S2P Require Import TurnState.
From S2P Require Import WorkItem.
From S2P Require Import Invariants.
From S2P Require Import Command.
From S2P Require Import Effects.

(** ** Lifecycle *)

Module Lifecycle.

(** The edges of the phase graph; every phase but a terminal one may stay. *)
Definition edge (p q : Phase) : bool :=
  match p, q with
  | PhaseCreated, PhasePreparing | PhasePreparing, PhaseSampling => true
  | PhaseSampling, (PhaseExecutingTools | PhaseAwaitingInput) => true
  | PhaseExecutingTools, (PhaseExecutingTools | PhaseAwaitingApproval | PhaseAwaitingInput
                          | PhaseSampling) => true
  | PhaseAwaitingApproval, (PhaseAwaitingApproval | PhaseExecutingTools | PhaseSampling) => true
  | PhaseAwaitingInput, (PhaseExecutingTools | PhaseSampling) => true
  | PhaseVerifying, PhaseSampling => true
  | (PhaseCreated | PhasePreparing | PhaseSampling | PhaseExecutingTools
     | PhaseAwaitingApproval | PhaseAwaitingInput | PhaseVerifying), PhaseCommitting => true
  | PhaseCommitting, (PhaseCompleted | PhaseFailed | PhaseCanceled) => true
  | _, _ => false
  end.

(** The phases a list of events moves through: each move starts where the last ended. *)
Fixpoint path (p : Phase) (evs : list Event) : option Phase :=
  match evs with
  | [] => Some p
  | e :: evs =>
      match ev_Kind e with
      | EventTransition =>
          match ev_From e, ev_To e with
          | Some from, Some to =>
              if bool_decide (from = p) && edge from to then path to evs else None
          | _, _ => None
          end
      | _ => path p evs
      end
  end.

Lemma path_app p evs evs' :
  path p (evs ++ evs') = path p evs ≫= λ q, path q evs'.
Proof.
  revert p. induction evs as [|e evs IH]; intros p; cbn; [done|].
  destruct (ev_Kind e); auto. destruct (ev_From e), (ev_To e); cbn; auto.
  destruct (_ && _); auto.
Qed.

Lemma path_quiet p evs : Forall (λ e, ev_Kind e ≠ EventTransition) evs → path p evs = Some p.
Proof. induction 1 as [|e evs He _ IH]; cbn; [done|]. by destruct (ev_Kind e). Qed.

Lemma path_terminal p evs q : Terminal p = true → path p evs = Some q → q = p.
Proof.
  intros Hp. induction evs as [|e evs IH]; cbn; [naive_solver|].
  destruct (ev_Kind e); auto. destruct (ev_From e) as [f|], (ev_To e); try done.
  case_bool_decide as Hf; [|done]. subst. by destruct p.
Qed.

End Lifecycle.

(** ** Effect ledger *)

Module EffectLedger.

(** Sequence, pending and completed effects. *)
Record t := mk { seq : Z; pending : gmap string Effect; completed : gmap string Effect }.

(** What the ledger never changes about an effect. *)
Definition same_effect (e e' : Effect) : Prop :=
  ef_ID e = ef_ID e' ∧ ef_Kind e = ef_Kind e' ∧ ef_Payload e = ef_Payload e' ∧
  ef_PayloadDigest e = ef_PayloadDigest e' ∧ ef_IdempotencyKey e = ef_IdempotencyKey e' ∧
  ef_CallID e = ef_CallID e'.
Definition live (e : Effect) : Prop :=
  ef_Status e = EffectRequested ∨ ef_Status e = EffectRunning.
Definition settled (e : Effect) : Prop :=
  ef_Status e = EffectSucceeded ∨ ef_Status e = EffectFailed.

(** Request under the next identity, start or requeue, settle. The label counts
    the identities the step issues. *)
Inductive step : nat → t → t → Prop :=
  | step_request l e :
      ef_ID e = effect_id (u64 (seq l + 1)) → ef_Status e = EffectRequested →
      ef_Attempt e = 0 →
      step 1 l (mk (u64 (seq l + 1)) (<[ef_ID e := e]> (pending l)) (completed l))
  | step_update l id e e' :
      pending l !! id = Some e → same_effect e e' → live e' →
      step 0 l (mk (seq l) (<[id := e']> (pending l)) (completed l))
  | step_settle l id e e' :
      pending l !! id = Some e → same_effect e e' → settled e' → ef_Attempt e = ef_Attempt e' →
      step 0 l (mk (seq l) (delete id (pending l)) (<[id := e']> (completed l))).

(** Steps that issue at most the given number of identities. *)
Inductive steps : nat → t → t → Prop :=
  | steps_nil n l : steps n l l
  | steps_cons k n l l' l'' : step k l l' → steps n l' l'' → steps (k + n) l l''.

Lemma steps_once k l l' : step k l l' → steps k l l'.
Proof. intros H. rewrite <- (Nat.add_0_r k). eapply steps_cons; [exact H|constructor]. Qed.

Lemma steps_le m n l l' : (m ≤ n)%nat → steps m l l' → steps n l l'.
Proof.
  intros Hle H. revert n Hle. induction H as [|k m l l' l'' Hs _ IH]; intros j Hle; [constructor|].
  replace j with (k + (j - k))%nat by lia. eapply steps_cons; [exact Hs|]. apply IH. lia.
Qed.

Lemma steps_trans m n l1 l2 l3 : steps m l1 l2 → steps n l2 l3 → steps (m + n) l1 l3.
Proof.
  intros H1. revert l3 n. induction H1 as [m|k m l1 l l2 Hs _ IH]; intros l3 j H2.
  - eapply steps_le; [|exact H2]. lia.
  - rewrite <- Nat.add_assoc. eapply steps_cons; [exact Hs|]. by apply IH.
Qed.

Definition of_state (s : State) : t :=
  mk (st_NextEffectSequence s) (st_PendingEffects s) (st_CompletedEffects s).

(** The ledger's invariant: keys are identities below the sequence, and no
    identity is both pending and completed. *)
Definition issued (n : Z) (id : string) : Prop := ∃ k, 1 ≤ k ≤ n ∧ id = effect_id k.
Record Inv (l : t) : Prop := {
  inv_seq : is_u64 (seq l);
  inv_pending : ∀ id e, pending l !! id = Some e → ef_ID e = id ∧ issued (seq l) id ∧ live e;
  inv_completed : ∀ id e, completed l !! id = Some e → ef_ID e = id ∧ issued (seq l) id ∧ settled e;
  inv_disjoint : pending l ##ₘ completed l;
}.

Lemma effect_id_inj m n : is_u64 m → is_u64 n → effect_id m = effect_id n → m = n.
Proof.
  unfold effect_id, is_u64. intros Hm Hn H%(inj (String.append _)).
  apply (hex_pad_inj 16) in H; [done|..]; change (16 ^ Z.of_nat 16) with (2 ^ 64); lia.
Qed.

Lemma issued_mono m n id : m ≤ n → issued m id → issued n id.
Proof. intros ? (k & ? & ->). exists k. split; [lia|done]. Qed.

Lemma issued_fresh n : is_u64 n → n + 1 < 2 ^ 64 → ¬ issued n (effect_id (n + 1)).
Proof.
  intros Hn Hlt (k & Hk & Heq). apply effect_id_inj in Heq; unfold is_u64 in *; lia.
Qed.

Lemma u64_next n : is_u64 n → n + 1 < 2 ^ 64 → u64 (n + 1) = n + 1.
Proof. intros. apply u64_small. unfold is_u64 in *. lia. Qed.

(** A request below the last sequence number preserves the invariant; the other
    steps always do. *)
Lemma effect_step_inv k l l' :
  seq l + Z.of_nat k < 2 ^ 64 → step k l l' → Inv l → Inv l'.
Proof.
  intros Hlt Hstep [Hseq Hp Hc Hd]. destruct Hstep as [l e Hid Hst _|l id e e' He Hs Hlive
    |l id e e' He Hs Hset _]; cbn in *.
  - rewrite (u64_next _ Hseq Hlt) in *. pose proof (issued_fresh _ Hseq Hlt) as Hfresh.
    assert (Hnone : completed l !! ef_ID e = None).
    { destruct (completed l !! ef_ID e) eqn:E; [|done]. exfalso. apply Hfresh.
      rewrite <- Hid. by eapply Hc. }
    split; cbn.
    + unfold is_u64 in *. lia.
    + intros id e' [[<- <-]|[_ H]]%lookup_insert_Some.
      * split_and!; [done| |by left]. exists (seq l + 1). rewrite Hid.
        unfold is_u64 in *. split; [lia|done].
      * apply Hp in H as (?&?&?). split_and!; auto. eapply issued_mono; [|done]. lia.
    + intros id e' (?&?&?)%Hc. split_and!; auto. eapply issued_mono; [|done]. lia.
    + by apply map_disjoint_insert_l_2.
  - destruct (Hp _ _ He) as (Hid & Hi & _).
    assert (Hnone : completed l !! id = None) by (eapply map_disjoint_Some_l; done).
    split; cbn; auto.
    + intros id' e2 [[<- <-]|[_ H]]%lookup_insert_Some; [|by apply Hp].
      split_and!; [|done..]. by destruct Hs as [<- _].
    + by apply map_disjoint_insert_l_2.
  - destruct (Hp _ _ He) as (Hid & Hi & _). split; cbn; auto.
    + intros id' e2 [_ H]%lookup_delete_Some. by apply Hp.
    + intros id' e2 [[<- <-]|[_ H]]%lookup_insert_Some; [|by apply Hc].
      split_and!; [|done..]. by destruct Hs as [<- _].
    + apply map_disjoint_insert_r_2; [apply lookup_delete_eq|]. by apply map_disjoint_delete_l.
Qed.

Lemma step_seq k l l' : is_u64 (seq l) → step k l l' → seq l' ≤ seq l + Z.of_nat k.
Proof.
  unfold is_u64. intros H. destruct 1; cbn; [|lia..]. apply Z.mod_le; lia.
Qed.

(** A settled effect is never touched again. *)
Lemma step_settled k l l' id e :
  step k l l' → Inv l → completed l !! id = Some e → completed l' !! id = Some e.
Proof.
  intros Hs [_ _ _ Hd] He. destruct Hs as [| |l id' e1 e2 He1 _ _ _]; cbn; [done..|].
  rewrite lookup_insert_ne; [done|]. intros ->.
  pose proof (map_disjoint_Some_l _ _ _ _ Hd He1). congruence.
Qed.

(** A pending effect is kept, updated or settled. *)
Lemma step_pending k l l' id e :
  seq l + Z.of_nat k < 2 ^ 64 → step k l l' → Inv l → pending l !! id = Some e →
  ∃ e', (pending l' !! id = Some e' ∨ completed l' !! id = Some e') ∧ same_effect e e'.
Proof.
  intros Hlt Hs [Hseq Hp _ _] He. destruct Hs as [l e1 Hid _ _|l id' e1 e2 He1 Hs _
    |l id' e1 e2 He1 Hs _ _]; cbn in *.
  - exists e. split; [left|done]. rewrite lookup_insert_ne; [done|]. intros Heq.
    rewrite (u64_next _ Hseq) in Hid by lia. apply (issued_fresh _ Hseq); [lia|].
    rewrite <- Hid, Heq. by eapply Hp.
  - destruct (decide (id = id')) as [->|Hne].
    + exists e2. rewrite lookup_insert_eq. simplify_eq. auto.
    + exists e. rewrite lookup_insert_ne by done. split; [by left|done].
  - destruct (decide (id = id')) as [->|Hne].
    + exists e2. rewrite lookup_insert_eq. simplify_eq. auto.
    + exists e. rewrite lookup_delete_ne by done. split; [by left|done].
Qed.

Lemma same_effect_trans e1 e2 e3 : same_effect e1 e2 → same_effect e2 e3 → same_effect e1 e3.
Proof. unfold same_effect. intuition congruence. Qed.

(** Steps that cannot exhaust the identities preserve the invariant and what is settled. *)
Lemma steps_inv n l l' :
  steps n l l' → seq l + Z.of_nat n < 2 ^ 64 → Inv l →
  Inv l' ∧ seq l' ≤ seq l + Z.of_nat n ∧ completed l ⊆ completed l'.
Proof.
  induction 1 as [n l|k n l l' l'' Hs _ IH]; intros Hlt Hinv.
  - split_and!; [done|lia|done].
  - pose proof (step_seq _ _ _ (inv_seq _ Hinv) Hs).
    assert (Hinv' : Inv l') by (eapply effect_step_inv; [|done..]; lia).
    destruct IH as (? & ? & Hsub); [lia|done|]. split_and!; [done|lia|].
    etransitivity; [|exact Hsub]. apply map_subseteq_spec. intros id e. by eapply step_settled.
Qed.

End EffectLedger.

(** ** Tool-call ledger *)

Module CallLedger.

Record t := mk { opened : gmap string ToolCallState; closed : gmap string ToolResultState }.

(** Open a fresh call, record an admission rejection, close an open call. *)
Inductive step : t → t → Prop :=
  | step_open l call :
      opened l !! cs_ID call = None → closed l !! cs_ID call = None →
      step l (mk (<[cs_ID call := call]> (opened l)) (closed l))
  | step_reject l id call reason :
      opened l !! id = Some call →
      step l (mk (<[id := set_cs_AdmissionRejection reason call]> (opened l)) (closed l))
  | step_close l id call failed :
      opened l !! id = Some call →
      step l (mk (delete id (opened l))
                (<[id := mkToolResultState id (cs_Name call) failed]> (closed l))).
Definition steps : t → t → Prop := rtc step.

Definition of_state (s : State) : t := mk (st_OpenCalls s) (st_ClosedCalls s).

(** No call is both open and closed. *)
Definition Inv (l : t) : Prop :=
  ∀ id call, opened l !! id = Some call → closed l !! id = None.

Lemma call_step_inv l l' : step l l' → Inv l → Inv l'.
Proof.
  intros Hstep Hd. destruct Hstep as [l call Ho Hc|l id call r Ho|l id call f Ho];
    intros id' call'; cbn.
  - intros [[<- _]|[_ H]]%lookup_insert_Some; eauto.
  - intros [[<- _]|[_ H]]%lookup_insert_Some; eauto.
  - intros [Hne H]%lookup_delete_Some. rewrite lookup_insert_ne by done. eauto.
Qed.

(** A closed call stays closed with its result. *)
Lemma call_step_closed l l' id r :
  step l l' → Inv l → closed l !! id = Some r → closed l' !! id = Some r.
Proof.
  intros Hstep Hd Hr. destruct Hstep as [| |l id' call f Ho]; cbn; auto.
  destruct (decide (id = id')) as [->|]; [|by rewrite lookup_insert_ne].
  exfalso. apply Hd in Ho. congruence.
Qed.

(** Along steps closed calls keep their result, and an open call stays open or closes. *)
Lemma call_steps_keep l l' :
  steps l l' → Inv l →
  Inv l' ∧ closed l ⊆ closed l' ∧
  ∀ id, is_Some (opened l !! id) → is_Some (closed l' !! id) ∨ is_Some (opened l' !! id).
Proof.
  induction 1 as [l|l l1 l2 Hs _ IH]; intros Hinv; [by auto|].
  destruct IH as (Hinv2 & Hsub & Hop); [by eapply call_step_inv|]. split_and!; [done|..].
  - etransitivity; [|exact Hsub]. apply map_subseteq_spec. intros id r. by eapply call_step_closed.
  - intros id Hid. assert (is_Some (closed l1 !! id) ∨ is_Some (opened l1 !! id)) as [Hc|Ho].
    + destruct Hs as [l call _ _|l id' call r _|l id' call f _]; cbn.
      * right. rewrite lookup_insert_is_Some'. auto.
      * right. rewrite lookup_insert_is_Some'. auto.
      * destruct (decide (id' = id)) as [->|Hne]; [left; rewrite lookup_insert_eq; eauto|].
        right. by rewrite lookup_delete_ne.
    + left. destruct Hc as [r Hr]. exists r. by eapply lookup_weaken.
    + by apply Hop.
Qed.

End CallLedger.
