(* ===== verification/Sampling.v ===== *)
(** The reducer's sampling, tool-proposal, retry, output, repair and convergence
    handlers ([turnkernel/reducer_sampling.go], [applyToolCalls] of
    [reducer_tool.go]). A handler takes the transition built so far, the state
    the command was applied to, and the command's fields; [cloneState] is the
    identity on immutable values. *)
From S2P Require Import Prelude.
From S2P Require Import GoStrings.
From S2P Require Import Sha256.
From S2P Require Import Json.
From S2P Require Import ToolResult.
From S2P Require Import Provider.
From S2P Require Import Assembly.
From S2P Require Import TurnState.
From S2P Require Import WorkItem.
From S2P Require Import Invariants.
From S2P Require Import Command.
From S2P Require Import Effects.

(** ** Sampling ([reducer_sampling.go]) *)

Definition applyModelSampleRequested (t : Transition) (current : State) (SampleID : string) :
    res kerror Transition :=
  let command := ModelSampleRequested SampleID in
  requirePhase current command [PhaseSampling];;
  refuse (ca_Accepted (st_Cancellation current))
    (illegal current command "cancellation was accepted");;
  refuse (blank SampleID) (illegal current command "sample identity is empty");;
  refuse (st_ActiveSampleID current != "")
    (illegal current command "another model sample is active");;
  refuse (bool_decide (is_Some (st_SampleLedger current !! SampleID)))
    (illegal current command "sample identity is duplicated");;
  let sample := zero_sample |> set_ms_ID SampleID |> set_ms_Status SampleRequested in
  Ok (t |> with_state (λ s, s
             |> set_st_SampleLedger (<[SampleID := sample]> (st_SampleLedger s))
             |> set_st_NextAction StepActionNone)
        |> requestEffect EffectSampleProvider (json_sample_requested SampleID)
             ("sample:" +:+ SampleID) SampleID).

Definition applyModelSampleStarted (t : Transition) (current : State) (SampleID : string)
    (Attempt : Z) : res kerror Transition :=
  let command := ModelSampleStarted SampleID Attempt in
  requirePhase current command [PhaseSampling];;
  refuse (ca_Accepted (st_Cancellation current))
    (illegal current command "cancellation was accepted");;
  refuse (blank SampleID || (Attempt =? 0))
    (illegal current command "sample identity is incomplete");;
  refuse (st_ActiveSampleID current != "")
    (illegal current command "another model sample is active");;
  refuse (match st_SampleLedger current !! SampleID with
          | Some existing => Attempt <=? ms_Attempt existing
          | None => false
          end) (illegal current command "sample attempt is not monotonic");;
  let sample := default zero_sample (st_SampleLedger current !! SampleID) in
  let sample := sample |> set_ms_ID SampleID |> set_ms_Attempt Attempt
    |> set_ms_Status SampleRunning |> set_ms_Error "" |> set_ms_Retry None
    |> set_ms_RetryBudget (set_bg_WaitUntil 0 (ms_RetryBudget sample)) in
  Ok (t |> with_state (λ s, s
             |> set_st_SampleLedger (<[SampleID := sample]> (st_SampleLedger s))
             |> set_st_ActiveSampleID SampleID)
        |> emit (event_sample EventSampleStarted "" SampleID)).

(** The uint32 and uint64 counters wrap. *)
Definition mergeUsage (target value : UsageState) : UsageState :=
  let calls := if ug_Calls value =? 0 then 1 else ug_Calls value in
  mkUsageState (u32 (ug_Calls target + calls))
    (u64 (ug_InputTokens target + ug_InputTokens value))
    (u64 (ug_OutputTokens target + ug_OutputTokens value))
    (u64 (ug_ReasoningTokens target + ug_ReasoningTokens value))
    (u64 (ug_CachedTokens target + ug_CachedTokens value))
    (u64 (ug_CostMicrounits target + ug_CostMicrounits value))
    (if ug_Calls target =? 0 then ug_CostKnown value
     else ug_CostKnown target && ug_CostKnown value)
    (ug_Frozen target).

(** A sample's usage and context are recorded; the context is never frozen by it. *)
Definition record_usage (Usage : UsageState) (Context : ContextState) (s : State) : State :=
  s |> set_st_Usage (mergeUsage (st_Usage s) Usage)
    |> set_st_Context (set_cx_Frozen false Context).

Definition applyModelSampleFinished (t : Transition) (current : State) (SampleID : string)
    (Usage : UsageState) (Context : ContextState) (Error : string) : res kerror Transition :=
  let command := ModelSampleFinished SampleID Usage Context Error in
  requirePhase current command [PhaseSampling];;
  refuse ((st_ActiveSampleID current == "") || (st_ActiveSampleID current != SampleID))
    (illegal current command "sample result does not match active sample");;
  let sample := default zero_sample (st_SampleLedger current !! SampleID) in
  let sample := if Error != "" then sample |> set_ms_Status SampleFailed |> set_ms_Error Error
                else sample |> set_ms_Status SampleCompleted |> set_ms_Error "" in
  Ok (t |> with_state (λ s, s
             |> set_st_SampleLedger (<[SampleID := sample]> (st_SampleLedger s))
             |> set_st_ActiveSampleID ""
             |> record_usage Usage Context)
        |> emit (event_sample EventSampleFinished "" SampleID)).

Definition applyModelSampleProgress (t : Transition) (current : State)
    (EffectID SampleID : string) (Attempt : Z) (Assembly : ResponseAssembly) :
    res kerror Transition :=
  let command := ModelSampleProgressRecorded EffectID SampleID Attempt Assembly in
  let mismatch := illegal current command
                    "sample progress does not match the running provider effect" in
  requirePhase current command [PhaseSampling];;
  match st_PendingEffects current !! EffectID, st_SampleLedger current !! SampleID with
  | Some effect, Some sample =>
      refuse (blank EffectID || blank SampleID || (Attempt =? 0)
              || negb (bool_decide (ef_Kind effect = EffectSampleProvider))
              || (ef_CallID effect != SampleID)
              || negb (bool_decide (ef_Status effect = EffectRunning))
              || negb (ef_Attempt effect =? Attempt)
              || negb (bool_decide (ms_Status sample = SampleRunning))
              || negb (ms_Attempt sample =? Attempt)
              || (st_ActiveSampleID current != SampleID)) mismatch;;
      refuse (ra_LogicalRequestID Assembly != SampleID)
        (illegal current command "sample progress changed logical request identity");;
      or_illegal current command (ValidateExtension Assembly (ms_Assembly sample));;
      Ok (t |> with_state (λ s, s
             |> set_st_SampleLedger
                  (<[SampleID := set_ms_Assembly (Some Assembly) sample]> (st_SampleLedger s))))
  | _, _ => Err mismatch
  end.

(** ** Tool batches ([reducer_tool.go]) *)

(** One call of a proposed batch. *)
Definition propose_call (current : State) (command : Command) (acc : list string * Transition)
    (call : ToolCallState) : res kerror (list string * Transition) :=
  let '(seen, t) := acc in
  refuse (blank (cs_ID call) || blank (cs_Name call))
    (illegal current command "tool call identity is incomplete");;
  refuse (bool_decide (cs_ID call ∈ seen))
    (illegal current command "tool call id is duplicated");;
  refuse (bool_decide (is_Some (st_OpenCalls current !! cs_ID call)))
    (illegal current command "tool call id is already open");;
  refuse (bool_decide (is_Some (st_ClosedCalls current !! cs_ID call)))
    (illegal current command "tool call id was already closed");;
  Ok (cs_ID call :: seen,
      t |> with_state (λ s, set_st_OpenCalls (<[cs_ID call := call]> (st_OpenCalls s)) s)
        |> emit (event_call EventToolStarted (cs_ID call))
        |> requestEffect EffectExecuteTool (json_call call) ("tool:" +:+ cs_ID call)
             (cs_ID call)).

Definition applyToolCalls (t : Transition) (current : State) (Calls : list ToolCallState) :
    res kerror Transition :=
  let command := ToolCallsProposed Calls in
  requirePhase current command [PhaseSampling; PhaseExecutingTools];;
  refuse (bool_decide (Calls = [])) (illegal current command "tool batch is empty");;
  refuse (ca_Accepted (st_Cancellation current))
    (illegal current command "cancellation was accepted");;
  let t := t |> with_state (λ s, s |> set_st_Completion None |> set_st_OutputEligibility false) in
  acc ← foldM (propose_call current command) Calls ([], t);
  let t := acc.2 in
  let t := if bool_decide (st_Phase current = PhaseSampling) then move PhaseExecutingTools t
           else t in
  Ok (t |> with_state (λ s, s |> set_st_Progress (st_Progress s
             |> set_pg_PendingIdentity (FormatToolCallsIdentity Calls)
             |> set_pg_PendingResultDigests []))).

(** ** Sample results *)

(** The sample narrates before calling tools. *)
Definition is_commentary (current : State) (c : ModelSampleResult) : bool :=
  negb (blank (msr_Text c)) && negb (bool_decide (msr_Calls c = []))
  && bool_decide (st_Convergence current = None)
  && negb (match msr_Calls c with [call] => cs_Name call == "turn_complete" | _ => false end).

(** The effect is running, or scheduled with a failure or a recovered response. *)
Definition sample_result_ready (current : State) (c : ModelSampleResult) (effect : Effect) :
    bool :=
  let sample := default zero_sample (st_SampleLedger current !! msr_SampleID c) in
  let scheduled := bool_decide (ef_Status effect = EffectRequested)
                   && (st_ActiveSampleID current == "")
                   && bool_decide (ms_Status sample = SampleRequested) in
  let running := bool_decide (ef_Status effect = EffectRunning)
                 && (st_ActiveSampleID current == msr_SampleID c) in
  let scheduledAbort := scheduled && (msr_Error c != "") in
  let recoveredComplete :=
    scheduled && (msr_Error c == "")
    && match ms_Assembly sample with
       | Some a => bool_decide (ra_State a = ResponseComplete)
       | None => false
       end in
  bool_decide (ef_Kind effect = EffectSampleProvider) && (ef_CallID effect == msr_SampleID c)
  && (running || scheduledAbort || recoveredComplete).

(** The ledger entry of a finished sample. *)
Definition finished_sample (sample : ModelSampleState) (Error : string) (f : option Failure) :
    ModelSampleState :=
  let sample := set_ms_Retry None sample in
  if Error == "" then sample |> set_ms_Status SampleCompleted |> set_ms_Error ""
  else sample |> set_ms_Status SampleFailed |> set_ms_Error Error |> set_ms_LastFailure f.

(** The state of a finished sample. *)
Definition record_sample (current : State) (c : ModelSampleResult) (s : State) : State :=
  let sample := default zero_sample (st_SampleLedger current !! msr_SampleID c) in
  s |> set_st_SampleLedger
         (<[msr_SampleID c := finished_sample sample (msr_Error c) (msr_Failure c)]>
            (st_SampleLedger s))
    |> set_st_ActiveSampleID ""
    |> record_usage (msr_Usage c) (msr_Context c)
    |> set_st_LastModelContinued (msr_Continued c)
    |> set_st_NextAction StepActionNone.

(** A successful sample's text: commentary before tool calls, else provisional output. *)
Definition record_text (current : State) (c : ModelSampleResult) (s : State) : State :=
  if is_commentary current c then
    set_st_Commentary (st_Commentary s
      ++ [mkCommentary (msr_SampleID c) (msr_Text c) (cs_ID <$> msr_Calls c)]) s
  else if negb (blank (msr_Text c)) then
    s |> set_st_ProvisionalOutput (st_ProvisionalOutput s ++ [msr_Text c])
      |> set_st_OutputEligibility false
  else s.

(** ... then its tool calls. *)
Definition sample_output (t : Transition) (current : State) (c : ModelSampleResult) :
    res kerror Transition :=
  let t := with_state (record_text current c) t in
  match msr_Calls c with
  | [] => Ok (t |> with_state (λ s, s
             |> set_st_Progress (set_pg_PendingIdentity "" (st_Progress s))))
  | calls => applyToolCalls t (tn_State t) calls
  end.

Definition applyModelSampleResult (t : Transition) (current : State) (c : ModelSampleResult) :
    res kerror Transition :=
  let command := ModelSampleResultReceived c in
  requirePhase current command [PhaseSampling];;
  refuse (blank (msr_EffectID c) || blank (msr_SampleID c))
    (illegal current command "sample result identity is incomplete");;
  require (bool_decide ((msr_Error c == "") = bool_decide (msr_Failure c = None)))
    (illegal current command "sample failure fact does not match result");;
  match st_PendingEffects current !! msr_EffectID c with
  | None => Err (illegal current command "sample result effect is not running")
  | Some effect =>
      require (sample_result_ready current c effect)
        (illegal current command "sample result effect is not running");;
      t ← or_illegal current command
            (finishEffect (msr_EffectID c) (msr_Error c == "") (msr_Error c) t);
      let t := t |> with_state (record_sample current c)
                 |> emit (event_sample EventSampleFinished "" (msr_SampleID c)) in
      if msr_Error c == "" then sample_output t current c else Ok t
  end.

Definition applySupplementalUsage (t : Transition) (current : State) (Source SampleID : string)
    (Usage : UsageState) : res kerror Transition :=
  let command := SupplementalUsageRecorded Source SampleID Usage in
  requirePhase current command [PhaseSampling];;
  refuse (blank Source || blank SampleID)
    (illegal current command "supplemental usage identity is incomplete");;
  refuse (ug_Frozen Usage) (illegal current command "supplemental usage is frozen");;
  Ok (t |> with_state (λ s, set_st_Usage (mergeUsage (st_Usage s) Usage) s)
        |> emit (event_sample EventUsageRecorded "" SampleID)).

(** ** Provider retries *)

(** [time.Millisecond]. *)
Definition millisecond : Duration := 1000000.

(** The reservation of a retry: rate-limit waits and transient retries are counted apart. *)
Definition reserve_retry (current : State) (command : Command) (c : ProviderRetry)
    (budget : ProviderRetryBudget) : res kerror ProviderRetryBudget :=
  if bool_decide (fl_Code (prr_Failure c) = FailureRateLimit) then
    refuse (max_int64 - prr_EffectiveDelay c <? bg_RateLimitWaited budget)
      (illegal current command "provider retry wait budget overflows duration");;
    Ok (budget |> set_bg_RateLimitRetries (u32 (bg_RateLimitRetries budget + 1))
               |> set_bg_RateLimitWaited (bg_RateLimitWaited budget + prr_EffectiveDelay c))
  else Ok (budget |> set_bg_TransientRetries (u32 (bg_TransientRetries budget + 1))).

Definition applyProviderRetry (t : Transition) (current : State) (c : ProviderRetry) :
    res kerror Transition :=
  let command := ProviderRetryRequested c in
  let mismatch := illegal current command "provider retry does not match active sample" in
  requirePhase current command [PhaseSampling];;
  match st_PendingEffects current !! prr_EffectID c with
  | None => Err mismatch
  | Some effect =>
      refuse ((st_ActiveSampleID current != prr_SampleID c)
              || negb (bool_decide (ef_Kind effect = EffectSampleProvider))
              || (ef_CallID effect != prr_SampleID c)
              || negb (bool_decide (ef_Status effect = EffectRunning))
              || (prr_Attempt c =? 0) || negb (prr_Attempt c =? ef_Attempt effect)
              || bool_decide (fl_Code (prr_Failure c) = FailureNone)
              || blank (fl_Message (prr_Failure c)) || (prr_Retry c =? 0)
              || blank (prr_PolicyRevision c) || time_zero (prr_RetryAt c)) mismatch;;
      let sample := default zero_sample (st_SampleLedger current !! prr_SampleID c) in
      require (prr_Retry c =? u32 (ms_ProviderRetries sample + 1))
        (illegal current command "provider retry number is not monotonic");;
      refuse (prr_EffectiveDelay c <? 0)
        (illegal current command "provider retry delay is negative");;
      budget ← reserve_retry current command c (ms_RetryBudget sample);
      let sample := sample
        |> set_ms_ProviderRetries (prr_Retry c)
        |> set_ms_RetryBudget (set_bg_WaitUntil (prr_RetryAt c) budget)
        |> set_ms_LastFailure (Some (prr_Failure c))
        |> set_ms_Retry (Some (mkProviderRetryState (prr_EffectID c) (prr_Attempt c)
             (prr_Retry c) (prr_EffectiveDelay c / millisecond) (prr_RetryAt c)
             (prr_PolicyRevision c)))
        |> set_ms_Status SampleRequested |> set_ms_Error "" in
      Ok (t |> with_state (λ s, s
             |> set_st_SampleLedger (<[prr_SampleID c := sample]> (st_SampleLedger s))
             |> set_st_ActiveSampleID ""
             |> set_st_PendingEffects
                  (<[prr_EffectID c := set_ef_Status EffectRequested effect]>
                     (st_PendingEffects s)))
            |> emit (event_sample EventProviderRetry (prr_EffectID c) (prr_SampleID c)))
  end.

Definition applyProviderWait (t : Transition) (current : State) (SampleID : string)
    (Delay : Duration) (Until : Time) : res kerror Transition :=
  let command := ProviderWaitReserved SampleID Delay Until in
  let mismatch := illegal current command "provider wait does not match pending sample or budget"
  in
  requirePhase current command [PhaseSampling];;
  match st_SampleLedger current !! SampleID with
  | None => Err mismatch
  | Some sample =>
      let budget := ms_RetryBudget sample in
      refuse (negb (bool_decide (ms_Status sample = SampleRequested)) || (Delay <=? 0)
              || time_zero Until || (Until - Delay <? bg_WaitUntil budget)
              || (max_int64 - Delay <? bg_RateLimitWaited budget)) mismatch;;
      let budget := budget |> set_bg_RateLimitWaited (bg_RateLimitWaited budget + Delay)
                           |> set_bg_WaitUntil Until in
      Ok (t |> with_state (λ s, s
             |> set_st_SampleLedger
                  (<[SampleID := set_ms_RetryBudget budget sample]> (st_SampleLedger s))))
  end.

(** ** Output *)

Definition applyModelText (t : Transition) (current : State) (Text : string) :
    res kerror Transition :=
  let command := ModelTextReceived Text in
  requirePhase current command [PhaseSampling];;
  refuse (Text == "") (illegal current command "model text is empty");;
  Ok (t |> with_state (λ s, s
             |> set_st_ProvisionalOutput (st_ProvisionalOutput s ++ [Text])
             |> set_st_OutputEligibility false)).

Definition applyReleaseOutput (t : Transition) (current : State) : res kerror Transition :=
  let command := ReleaseProvisionalOutput in
  requirePhase current command [PhaseSampling];;
  refuse (bool_decide (st_ProvisionalOutput current = []))
    (illegal current command "provisional output is empty");;
  or_illegal current command (validateCompletionContract current);;
  Ok (t |> with_state (set_st_OutputEligibility true) |> emit (event EventOutputReleased)).

Definition applyDiscardOutput (t : Transition) (current : State) (Reason : string) :
    res kerror Transition :=
  let command := DiscardProvisionalOutput Reason in
  requirePhase current command
    [PhaseSampling; PhaseExecutingTools; PhaseAwaitingApproval; PhaseAwaitingInput;
     PhaseVerifying];;
  refuse (blank Reason) (illegal current command "discard reason is empty");;
  Ok (t |> with_state (λ s, s |> set_st_ProvisionalOutput [] |> set_st_OutputEligibility false)
        |> emit (event EventOutputDiscarded)).

(** ** Repairs and convergence *)

Definition spendRepairBudget (kind : RepairKind) (progressKey : string) (limit : Z)
    (t : Transition) : res kerror Transition :=
  require (validRepairKind kind)
    (PlainError (ErrFmt "invalid repair kind %q" [ArgS (repair_kind_string kind)]));;
  refuse (blank progressKey || (limit =? 0))
    (PlainError (ErrText "repair budget request is incomplete"));;
  let budget := default (mkRepairBudget "" 0 0) (st_RepairBudgets (tn_State t) !! kind) in
  let consecutive := if rb_ProgressKey budget != progressKey then 0 else rb_Consecutive budget in
  refuse (limit <=? consecutive) (RepairBudgetExhausted kind progressKey limit);;
  Ok (t |> with_state (λ s, s |> set_st_RepairBudgets
             (<[kind := mkRepairBudget progressKey (u32 (consecutive + 1))
                          (u32 (rb_Steps budget + 1))]> (st_RepairBudgets s)))
        |> emit (event EventRepairRequested)).

Definition applyRepairRequested (t : Transition) (current : State) (Kind : RepairKind)
    (ProgressKey : string) (Limit : Z) : res kerror Transition :=
  let command := RepairRequested Kind ProgressKey Limit in
  requirePhase current command [PhaseSampling];;
  require (validRepairKind Kind) (illegal current command "repair kind is invalid");;
  refuse (blank ProgressKey) (illegal current command "repair progress key is empty");;
  refuse (Limit =? 0) (illegal current command "repair limit is zero");;
  spendRepairBudget Kind ProgressKey Limit t.

Definition unfinished_work : string :=
  "Continue the unfinished work from the retained turn context.".

Definition beginConvergence (c : Convergence) (t : Transition) : Transition :=
  match st_Convergence (tn_State t) with
  | Some _ => t
  | None =>
      let '(summary, pending) :=
        match st_Completion (tn_State t) with
        | Some completion => (trim_space (cd_Summary completion), cd_PendingActions completion)
        | None => ("", [])
        end in
      let pending := if (summary != "") && bool_decide (pending = []) then [unfinished_work]
                     else pending in
      t |> with_state (λ s, s
             |> set_st_Convergence (Some (mkConvergenceState (cvr_Cause c) (cvr_Used c)
                  (cvr_Limit c) (cvr_RepairKind c) false summary pending))
             |> set_st_NextAction StepActionFinalize)
        |> emit (event EventConvergence)
  end.

Definition validConvergenceRequest (c : Convergence) : bool :=
  if (cvr_Used c <? cvr_Limit c)
     || ((cvr_Limit c =? 0)
         && (negb (cvr_Used c =? 0)
             || negb (bool_decide (cvr_Cause c = ConvergenceRepairBudget)))) then false
  else match cvr_Cause c with
       | ConvergenceOutputLimit | ConvergenceNoProgress | ConvergenceStepLimit =>
           bool_decide (cvr_RepairKind c = RepairNone)
       | ConvergenceRepairBudget => validRepairKind (cvr_RepairKind c)
       | ConvergenceIncomplete => false
       end.

Definition applyConvergenceRequested (t : Transition) (current : State) (c : Convergence) :
    res kerror Transition :=
  let command := ConvergenceRequested c in
  requirePhase current command [PhaseSampling];;
  refuse (st_ActiveSampleID current != "") (illegal current command "model sample is active");;
  require (validConvergenceRequest c)
    (illegal current command "convergence request is invalid");;
  Ok (beginConvergence c t).

Definition applyConvergenceFinalizationStarted (t : Transition) (current : State) :
    res kerror Transition :=
  let command := ConvergenceFinalizationStarted in
  requirePhase current command [PhaseSampling];;
  refuse (st_ActiveSampleID current != "") (illegal current command "model sample is active");;
  match st_Convergence current with
  | None => Err (illegal current command "convergence is not active")
  | Some c =>
      refuse (cv_FinalizationAttempted c)
        (illegal current command "convergence finalization already started");;
      Ok (t |> with_state (λ s, s
             |> set_st_Convergence (set_cv_FinalizationAttempted true <$> st_Convergence s)
             |> set_st_NextAction StepActionNone))
  end.

(** [fmt.Sprintf("Turn could not complete after the %s convergence budget was exhausted.")]. *)
Definition exhausted_summary (cause : ConvergenceCause) : string :=
  "Turn could not complete after the " +:+ cause_string cause
    +:+ " convergence budget was exhausted.".

Definition blockedConvergence (outcome : ConvergenceState) : ConvergenceState :=
  if blank (cv_Summary outcome) then
    outcome |> set_cv_Summary (exhausted_summary (cv_Cause outcome))
            |> set_cv_PendingActions [unfinished_work]
  else outcome.
