(* ===== verification/Reducer.v ===== *)
(** The turn reducer: progress, work-item, interaction, tool-result, completion,
    terminal and step handlers ([turnkernel/reducer_*.go],
    [completion_policy.go], [tool_admission.go], [work_item.go]) and
    [Reducer.Apply], which validates the state before and after every command.
    Loops over Go maps run in the map's listing order. *)
From S2P Require Import Prelude.
From S2P Require Import GoStrings.
From S2P Require Import Sha256.
From S2P Require Import Json.
From S2P Require Import ToolResult.
From S2P Require Import Provider.
From S2P Require Import Assembly.
From S2P Require Import TurnState.
From S2P Require Import WorkItem.
From S2P Require Import Invariants.
From S2P Require Import Command.
From S2P Require Import Effects.
From S2P Require Import Sampling.

(** ** Progress and the work item *)

(** The stage thresholds in force: converge, finish-only and limit. *)
Record Thresholds := mkThresholds { th_converge : Z; th_finish : Z; th_limit : Z }.

Definition policy_thresholds (current : State) : Thresholds :=
  let policy := po_Convergence (st_Policy current) in
  if IsResearchIntent (st_Intent current) && (st_MutationRevision current =? 0)
  then mkThresholds (cp_ResearchConverge policy) (cp_ResearchFinishOnly policy)
         (cp_ResearchLimit policy)
  else mkThresholds (cp_ProgressConverge policy) (cp_ProgressFinishOnly policy)
         (cp_ProgressLimit policy).

(** An identical-call stall is bounded by the tighter implement lease. *)
Definition progress_thresholds (current : State) (stall : ProgressStallKind) : Thresholds :=
  let policy := po_Convergence (st_Policy current) in
  let lease := po_ImplementNoProgressSamples (st_Policy current) in
  if bool_decide (stall = ProgressStallIdenticalCall) && (0 <? lease) then
    let repairReserve := u32 (po_CompletionRepairLimit (st_Policy current)
                              + po_WorkspaceRepairLimit (st_Policy current)
                              + po_DeclarationRepairLimit (st_Policy current)) in
    let convergeAt := Z.max 1 (lease / 2) in
    let limit := Z.max (u32 (lease + 1)) (u32 (lease + repairReserve)) in
    if 0 <? cp_ProgressLimit policy then
      mkThresholds
        (if 0 <? cp_ProgressConverge policy then Z.min convergeAt (cp_ProgressConverge policy)
         else convergeAt)
        (if 0 <? cp_ProgressFinishOnly policy then Z.min lease (cp_ProgressFinishOnly policy)
         else lease)
        (Z.min limit (cp_ProgressLimit policy))
    else mkThresholds convergeAt lease limit
  else policy_thresholds current.

Definition progress_stage (th : Thresholds) (noProgress : Z) : ProgressStage :=
  if th_limit th =? 0 then ProgressStageNone
  else if th_limit th <=? noProgress then ProgressStageExhausted
  else if th_finish th <=? noProgress then ProgressStageFinishOnly
  else if th_converge th <=? noProgress then ProgressStageConverge
  else ProgressStageNone.

(** A new observation renews the clock; a revisited one consumes it. *)
Definition observe (progress : ProgressState) (observationKey identity : string)
    (CompletedSamples : Z) : ProgressState :=
  if seenObservation progress observationKey then
    progress
      |> set_pg_NoProgressSamples (u32 (pg_NoProgressSamples progress
                                        + (CompletedSamples - pg_ObservedSamples progress)))
      |> set_pg_StallKind
           (if liveToolIdentity identity && (identity == pg_SampleIdentity progress)
            then ProgressStallIdenticalCall else ProgressStallCycle)
  else
    rememberObservation
      (progress |> set_pg_NoProgressSamples 0 |> set_pg_Stage ProgressStageNone
                |> set_pg_StallKind ProgressStallNone) observationKey.

Definition applyObserveProgress (t : Transition) (current : State)
    (Signature SampleIdentity ResultDigest : string) (CompletedSamples : Z) :
    res kerror Transition :=
  let command := ObserveProgress Signature SampleIdentity ResultDigest CompletedSamples in
  requirePhase current command [PhaseSampling];;
  refuse (st_ActiveSampleID current != "") (illegal current command "model sample is active");;
  let signature := trim_space Signature in
  refuse (signature == "") (illegal current command "progress signature is empty");;
  let progress := st_Progress current in
  let identity := trim_space SampleIdentity in
  let identity := if identity == "" then pg_PendingIdentity progress else identity in
  refuse (CompletedSamples <? pg_ObservedSamples progress)
    (illegal current command "completed samples regressed");;
  let resultDigest := trim_space ResultDigest in
  let resultDigest := if resultDigest == ""
                      then FormatResultDigest (pg_PendingResultDigests progress)
                      else resultDigest in
  let observationKey :=
    FormatObservationKey signature (FormatWorkspaceContent (st_WorkItem current)) resultDigest in
  let progress := observe progress observationKey identity CompletedSamples
    |> set_pg_Signature signature |> set_pg_SampleIdentity identity
    |> set_pg_ObservationKey observationKey |> set_pg_ObservedSamples CompletedSamples in
  let th := progress_thresholds current (pg_StallKind progress) in
  let progress := set_pg_Stage (progress_stage th (pg_NoProgressSamples progress)) progress in
  let t := t |> with_state (set_st_Progress progress) in
  Ok (if bool_decide (pg_Stage progress = ProgressStageExhausted)
      then beginConvergence (mkConvergence ConvergenceNoProgress (pg_NoProgressSamples progress)
             (th_limit th) RepairNone) t
      else t).

(** Inherited facts never replace the turn's own; keys are trimmed. *)
Definition bind_known {A} (known : gmap string A) (inherited : gmap string A) : gmap string A :=
  foldl (λ m '(path, x),
    let path := trim_space path in
    if (path == "") || bool_decide (is_Some (m !! path)) then m else <[path := x]> m)
    known (map_to_list inherited).

Definition applyBindWorkItem (t : Transition) (current : State) (c : WorkItemBinding) :
    res kerror Transition :=
  let command := BindWorkItem c in
  requirePhase current command [PhaseCreated; PhasePreparing; PhaseSampling];;
  refuse (st_ActiveSampleID current != "") (illegal current command "model sample is active");;
  let item := st_WorkItem current in
  let digest := trim_space (bw_GoalDigest c) in
  let goal := trim_space (bw_Goal c) in
  let item := if digest != "" then set_wi_GoalDigest digest item
              else if goal != "" then set_wi_GoalDigest (GoalDigest goal) item else item in
  let item := item
    |> set_wi_KnownReads (bind_known (wi_KnownReads item) (bw_KnownReads c))
    |> set_wi_KnownEdits (bind_known (wi_KnownEdits item) (bw_KnownEdits c))
    |> set_wi_Open (set_wo_Sessions
         (mergeUniqueSorted (wo_Sessions (wi_Open item)) (wo_Sessions (bw_Open c)))
         (wi_Open item)) in
  let item := set_wi_RequiredAction
                (DeriveRequiredAction (set_st_WorkItem item (tn_State t))) item in
  Ok (t |> with_state (set_st_WorkItem item)).

(** ** Interaction ([reducer_interaction.go]) *)

Definition applyApprovalRequired (t : Transition) (current : State) (RequestID CallID : string) :
    res kerror Transition :=
  let command := ApprovalRequired RequestID CallID in
  requirePhase current command [PhaseExecutingTools; PhaseAwaitingApproval];;
  refuse (blank RequestID) (illegal current command "approval request id is empty");;
  require (bool_decide (is_Some (st_OpenCalls current !! CallID)))
    (illegal current command "approval does not reference an open call");;
  refuse (bool_decide (is_Some (st_PendingApprovals current !! RequestID)))
    (illegal current command "approval request id is duplicated");;
  let t := t
    |> with_state (λ s, set_st_PendingApprovals
         (<[RequestID := mkApprovalState RequestID CallID]> (st_PendingApprovals s)) s)
    |> requestEffect EffectAwaitApproval (json_wait_required RequestID CallID)
         ("approval:" +:+ RequestID) CallID in
  Ok (if bool_decide (st_Phase current = PhaseExecutingTools) then move PhaseAwaitingApproval t
      else t).

Definition applyApprovalResolved (t : Transition) (current : State) (RequestID : string) :
    res kerror Transition :=
  let command := ApprovalResolved RequestID in
  requirePhase current command [PhaseAwaitingApproval];;
  require (bool_decide (is_Some (st_PendingApprovals current !! RequestID)))
    (illegal current command "approval request does not match");;
  let t := t
    |> with_state (λ s, set_st_PendingApprovals (delete RequestID (st_PendingApprovals s)) s)
    |> closeEffectByIdentity EffectAwaitApproval RequestID true "" in
  Ok (if bool_decide (st_PendingApprovals (tn_State t) = ∅) then move PhaseExecutingTools t
      else t).

Definition applyCancelRequested (t : Transition) (current : State) (Reason : string) :
    res kerror Transition :=
  let command := CancelRequested Reason in
  refuse (blank Reason) (illegal current command "cancel reason is empty");;
  refuse (ca_Accepted (st_Cancellation current))
    (illegal current command "cancellation was already accepted");;
  Ok (t |> with_state (set_st_Cancellation (mkCancellationState true true Reason))
        |> emit (event EventCancelAccepted)).

(** The effect of this id is running and of this kind. *)
Definition effect_running (current : State) (kind : EffectKind) (EffectID : string) : bool :=
  match st_PendingEffects current !! EffectID with
  | Some effect => bool_decide (ef_Kind effect = kind)
                   && bool_decide (ef_Status effect = EffectRunning)
  | None => false
  end.

Definition applyApprovalResult (t : Transition) (current : State) (c : ApprovalResult) :
    res kerror Transition :=
  let command := ApprovalResultReceived c in
  refuse (blank (apr_EffectID c)) (illegal current command "approval effect id is empty");;
  require (effect_running current EffectAwaitApproval (apr_EffectID c))
    (illegal current command "approval effect is not running");;
  t ← or_illegal current command
        (finishEffect (apr_EffectID c) (apr_Accepted c) (apr_Error c) t);
  t ← applyApprovalResolved t (tn_State t) (apr_RequestID c);
  if apr_Canceled c then applyCancelRequested t (tn_State t) CancelReasonApprovalCanceled
  else Ok t.

Definition applyInputRequired (t : Transition) (current : State) (RequestID CallID : string) :
    res kerror Transition :=
  let command := InputRequired RequestID CallID in
  requirePhase current command [PhaseSampling; PhaseExecutingTools];;
  refuse (blank RequestID) (illegal current command "input request id is empty");;
  Ok (t |> with_state (set_st_PendingInput (Some (mkInputState RequestID CallID)))
        |> requestEffect EffectAwaitInput (json_wait_required RequestID CallID)
             ("input:" +:+ RequestID) CallID
        |> move PhaseAwaitingInput).

(** A reply reopens a convergence: it may finalize again. *)
Definition reopen_convergence (s : State) : State :=
  set_st_Convergence
    ((λ c, c |> set_cv_FinalizationAttempted false |> set_cv_Summary ""
             |> set_cv_PendingActions []) <$> st_Convergence s) s.

Definition applyInputResolved (t : Transition) (current : State) (RequestID : string) :
    res kerror Transition :=
  let command := InputResolved RequestID in
  requirePhase current command [PhaseAwaitingInput];;
  require (match st_PendingInput current with
           | Some input => is_RequestID input == RequestID
           | None => false
           end) (illegal current command "input request does not match");;
  let t := t
    |> with_state (λ s, s |> set_st_PendingInput None |> reopen_convergence)
    |> closeEffectByIdentity EffectAwaitInput RequestID true "" in
  Ok (if negb (bool_decide (st_OpenCalls current = ∅)) then move PhaseExecutingTools t
      else move PhaseSampling t).

Definition applyInputResult (t : Transition) (current : State) (EffectID RequestID : string)
    (Accepted : bool) (Error : string) : res kerror Transition :=
  let command := InputResultReceived EffectID RequestID Accepted Error in
  refuse (blank EffectID) (illegal current command "input effect id is empty");;
  require (effect_running current EffectAwaitInput EffectID)
    (illegal current command "input effect is not running");;
  t ← or_illegal current command (finishEffect EffectID Accepted Error t);
  applyInputResolved t (tn_State t) RequestID.

Definition applyRecoveryRequested (t : Transition) (current : State) (c : Recovery) :
    res kerror Transition :=
  let command := RecoveryRequested c in
  requirePhase current command [PhaseCreated];;
  refuse (blank (rcv_SourceTurnID c) || blank (rcv_RecoveryTurnID c)
          || (rcv_CurrentProfileRevision c =? 0)
          || ((rcv_Action c != TurnRecoveryRetry) && (rcv_Action c != TurnRecoveryContinue))
          || (rcv_DraftResumed c && bool_decide (rcv_Changes c = [])))
    (illegal current command "recovery relation is incomplete");;
  let t := t |> with_state (λ s, s
    |> set_st_ProfileRevision (rcv_CurrentProfileRevision c)
    |> set_st_RecoveryRelation (Some (mkRecoveryRelation (rcv_SourceTurnID c)
         (rcv_RecoveryTurnID c) (rcv_Action c) (rcv_DraftResumed c)))) in
  let t :=
    if negb (bool_decide (rcv_Changes c = [])) then
      t |> with_state (λ s, s |> set_st_MutationRevision 1 |> set_st_Changes (rcv_Changes c)
                              |> set_st_Journal JournalOpen)
        |> emit (event_mutation EventMutationObserved 1)
    else t in
  Ok (t |> emit (event EventRecoveryBound)).

(** ** Tool results ([reducer_tool.go], [tool_admission.go]) *)

(** The call is the subject of a pending approval, or of the pending input. *)
Definition call_awaiting_approval (current : State) (CallID : string) : bool :=
  existsb (λ a, ap_CallID a == CallID) (map_to_list (st_PendingApprovals current)).*2.
Definition input_bound (current : State) (CallID : string) : bool :=
  match st_PendingInput current with Some input => is_CallID input == CallID | None => false end.

(** The wait bound to a finished call is retired. *)
Definition retire_input (current : State) (t : Transition) : Transition :=
  match st_PendingInput current with
  | Some input =>
      t |> with_state (λ s, s |> set_st_PendingInput None |> reopen_convergence)
        |> closeEffectByIdentity EffectAwaitInput (is_RequestID input) true ""
  | None => t
  end.

(** The approvals of a canceled call are dropped and their effects failed. *)
Definition drop_approvals (current : State) (CallID : string) (t : Transition) : Transition :=
  foldl (λ t '(requestID, approval),
    if ap_CallID approval == CallID then
      t |> with_state (λ s, set_st_PendingApprovals (delete requestID (st_PendingApprovals s)) s)
        |> closeEffectByIdentity EffectAwaitApproval requestID false
             (ca_Reason (st_Cancellation current))
    else t) t (map_to_list (st_PendingApprovals current)).

(** A tool result that changed files starts a new mutation revision. *)
Definition record_changes (Changes : list ObservedChange) (t : Transition) : Transition :=
  if bool_decide (Changes = []) then t else
  let revision := u64 (st_MutationRevision (tn_State t) + 1) in
  t |> with_state (λ s, s
         |> set_st_MutationRevision revision
         |> set_st_Workspace None
         |> set_st_Changes (st_Changes s ++ Changes)
         |> set_st_Completion None
         |> set_st_Verification not_evaluated
         |> set_st_Journal JournalOpen)
    |> emit (event_mutation EventMutationObserved revision).

Definition note_tool_outcome (current : State) (IsError : bool) (s : State) : State :=
  if IsError then s |> set_st_UnresolvedToolFailure true |> set_st_RecoveryToolSucceeded false
  else if st_UnresolvedToolFailure current then s |> set_st_RecoveryToolSucceeded true else s.

Definition note_result_digest (digest : string) (s : State) : State :=
  let digest := trim_space digest in
  if digest != "" then
    set_st_Progress (set_pg_PendingResultDigests
      (pg_PendingResultDigests (st_Progress s) ++ [digest]) (st_Progress s)) s
  else s.

(** Where the turn goes once a tool call closed. *)
Definition after_tool (t : Transition) : Transition :=
  if negb (bool_decide (st_PendingApprovals (tn_State t) = ∅)) then move PhaseAwaitingApproval t
  else if negb (bool_decide (st_OpenCalls (tn_State t) = ∅)) then move PhaseExecutingTools t
  else move PhaseSampling t.

Definition applyToolResult (t : Transition) (current : State) (c : ToolResultFacts) :
    res kerror Transition :=
  let command := ToolResultReceived c in
  let awaiting := call_awaiting_approval current (trr_CallID c) in
  let canceling := awaiting && ca_Accepted (st_Cancellation current) in
  let bound := input_bound current (trr_CallID c) in
  let mismatch := illegal current command "tool result effect does not match call" in
  requirePhase current command
    ([PhaseExecutingTools; PhaseAwaitingApproval] ++ if bound then [PhaseAwaitingInput] else []);;
  refuse (awaiting && negb canceling)
    (illegal current command "tool result cannot bypass a pending approval");;
  refuse (blank (trr_EffectID c)) (illegal current command "tool effect id is empty");;
  match st_OpenCalls current !! trr_CallID c, st_PendingEffects current !! trr_EffectID c with
  | None, _ => Err (illegal current command "tool result does not match an open call")
  | Some _, None => Err mismatch
  | Some call, Some effect =>
      refuse (negb (bool_decide (ef_Kind effect = EffectExecuteTool))
              || (ef_CallID effect != trr_CallID c)
              || negb (bool_decide (ef_Status effect = EffectRunning))) mismatch;;
      t ← or_illegal current command (finishEffect (trr_EffectID c) true "" t);
      let t := if bound then retire_input current t else t in
      let t := t |> with_state (λ s, s
        |> set_st_OpenCalls (delete (trr_CallID c) (st_OpenCalls s))
        |> set_st_ClosedCalls (<[trr_CallID c := mkToolResultState (trr_CallID c) (cs_Name call)
                                   (trr_IsError c)]> (st_ClosedCalls s))) in
      let t := if canceling then drop_approvals current (trr_CallID c) t else t in
      let t := t |> with_state (note_tool_outcome current (trr_IsError c))
                 |> emit (event_call EventToolClosed (trr_CallID c))
                 |> record_changes (trr_Changes c)
                 |> with_state (λ s, applyWorkItemObservation s call (trr_Changes c)
                                       (trr_Observation c) (trr_IsError c))
                 |> with_state (note_result_digest (ob_ResultDigest (trr_Observation c))) in
      Ok (after_tool t)
  end.

(** One open call is closed with an error. *)
Definition abort_call (current : State) (Reason : string) (t : Transition) (callID : string) :
    Transition :=
  let name := match st_OpenCalls current !! callID with Some c => cs_Name c | None => "" end in
  t |> with_state (λ s, s
         |> set_st_OpenCalls (delete callID (st_OpenCalls s))
         |> set_st_ClosedCalls (<[callID := mkToolResultState callID name true]>
                                  (st_ClosedCalls s)))
    |> closeEffectByCall EffectExecuteTool callID false Reason
    |> emit (event_call EventToolClosed callID).

Definition applyAbortOpenCalls (t : Transition) (current : State) (Reason : string) :
    res kerror Transition :=
  let command := AbortOpenCalls Reason in
  requirePhase current command [PhaseExecutingTools; PhaseAwaitingApproval];;
  refuse (blank Reason) (illegal current command "abort reason is empty");;
  refuse (bool_decide (st_OpenCalls current = ∅)) (illegal current command "no tool calls are open");;
  let callIDs := sort_strings (map_to_list (st_OpenCalls current)).*1 in
  Ok (foldl (abort_call current Reason) t callIDs
        |> with_state (set_st_PendingApprovals ∅)
        |> closeEffectsByKind EffectAwaitApproval false Reason
        |> move PhaseSampling).

(** One call of a rejected batch. *)
Definition reject_call (current : State) (command : Command) (Result : string)
    (acc : list string * Transition) (id : string) : res kerror (list string * Transition) :=
  let '(seen, t) := acc in
  let mismatch := illegal current command "admission rejection does not match open calls" in
  match st_OpenCalls current !! id with
  | None => Err mismatch
  | Some call =>
      refuse (bool_decide (id ∈ seen)
              || ((cs_AdmissionRejection call != "") && (cs_AdmissionRejection call != Result)))
        mismatch;;
      refuse ((cs_AdmissionRejection call == "")
              && existsb (λ e, (ef_CallID e == id)
                               && negb (bool_decide (ef_Status e = EffectRequested)))
                   (map_to_list (st_PendingEffects current)).*2)
        (illegal current command "cannot reject a started effect");;
      Ok (id :: seen,
          t |> with_state (λ s, set_st_OpenCalls
                 (<[id := set_cs_AdmissionRejection Result call]> (st_OpenCalls s)) s))
  end.

Definition applyToolBatchAdmissionRejection (t : Transition) (current : State)
    (CallIDs : list string) (Result : string) : res kerror Transition :=
  let command := ToolBatchAdmissionRejected CallIDs Result in
  requirePhase current command [PhaseExecutingTools];;
  require (negb (bool_decide (CallIDs = []))
           && match decode_result Result with
              | Some r => rf_IsError r && negb (blank (rf_Content r))
                          && (rf_Changes r =? 0)%nat
              | None => false
              end) (illegal current command "invalid admission rejection");;
  acc ← foldM (reject_call current command Result) CallIDs ([], t);
  Ok acc.2.

(** ** Completion ([completion_policy.go], [reducer_verification.go]) *)

Definition applyWorkspaceReconciled (t : Transition) (current : State) (Mutation : Z)
    (Changes : list ObservedChange) : res kerror Transition :=
  let command := WorkspaceReconciled Mutation Changes in
  requirePhase current command [PhaseSampling];;
  refuse (negb (bool_decide (st_OpenCalls current = ∅)) || (st_ActiveSampleID current != "")
          || negb (Mutation =? st_MutationRevision current))
    (illegal current command "workspace observation is stale or work is still running");;
  refuse (negb (bool_decide (Changes = [])) && (st_MutationRevision current =? 0))
    (illegal current command "workspace changes have no observed mutation");;
  refuse (match st_Workspace current with
          | Some ws => negb (bool_decide (ws_Changes ws = Changes))
          | None => false
          end) (illegal current command "workspace changed without a new mutation");;
  let discharge s :=
    if bool_decide (Changes = []) then
      let paths := changedPaths (st_Changes current) in
      let open := wi_Open (st_WorkItem s) in
      set_st_WorkItem (set_wi_Open (set_wo_UnverifiedPaths
        (filter (λ p, p ∉ paths) (wo_UnverifiedPaths open)) open) (st_WorkItem s)) s
    else s in
  Ok (t |> with_state (λ s, s
             |> set_st_Workspace (Some (mkWorkspaceState Mutation Changes))
             |> set_st_Completion (set_cd_ChangedPaths (changedPaths Changes) <$> st_Completion s)
             |> discharge)
        |> with_state (λ s, set_st_WorkItem
             (set_wi_RequiredAction (DeriveRequiredAction s) (st_WorkItem s)) s)).

Definition completionRejectionAction (reason : string) : string :=
  if reason == "no_observed_changes" then "perform_workspace_mutation_or_explain_no_change"
  else if reason == "pending_actions" then "continue_work"
  else if reason == "convergence_blocked" then "finalize_blocked"
  else "correct_and_retry_turn_complete".

(** The switch of [applyCompletion]: a rejection reason and the convergence it
    leaves, or acceptance. *)
Inductive Verdict :=
  | Rejected (reason : string)
  | Blocked (convergence : ConvergenceState)
  | AcceptedVerdict.

Definition completion_verdict (current : State) (c : CompletionCandidate) : Verdict :=
  let summary := trim_space (ccd_Summary c) in
  let blocked := (ccd_Status c == "incomplete") && negb (blank (ccd_Summary c))
                 && negb (bool_decide (ccd_PendingActions c = [])) in
  let no_change := validNoChange current (ccd_NoChangeReason c) (ccd_NoChangeEvidence c) in
  if ccd_BatchMutated c then Rejected "same_batch_mutation"
  else if negb (ccd_BatchSize c =? 1) then Rejected "declaration_must_be_only_call"
  else if negb (ccd_DeclarationValid c) then Rejected "invalid_declaration"
  else if negb (valid_output_mode (ccd_OutputMode c)) then Rejected "invalid_output_mode"
  else if blocked then
    match st_Convergence current with
    | Some conv =>
        if cv_FinalizationAttempted conv then
          Blocked (conv |> set_cv_Summary summary
                        |> set_cv_PendingActions (ccd_PendingActions c))
        else Blocked (mkConvergenceState ConvergenceIncomplete 0 0 RepairNone true summary
                        (ccd_PendingActions c))
    | None => Blocked (mkConvergenceState ConvergenceIncomplete 0 0 RepairNone true summary
                         (ccd_PendingActions c))
    end
  else if ccd_ToolError c || (ccd_Status c != "complete") || blank (ccd_Summary c)
          || negb (bool_decide (ccd_PendingActions c = [])) then
    Rejected "incomplete_declaration"
  else if ((ccd_NoChangeReason c != "") || negb (bool_decide (ccd_NoChangeEvidence c = [])))
          && negb no_change then Rejected "invalid_no_change_evidence"
  else if bool_decide (st_Intent current = TurnIntentWorkspaceChange)
          && (st_MutationRevision current =? 0) && negb no_change then
    Rejected "no_observed_changes"
  else if (ccd_OutputMode c == "preserve_provisional")
          && bool_decide (st_ProvisionalOutput current = []) then
    Rejected "provisional_output_unavailable"
  else AcceptedVerdict.

(** The decision before its verdict. *)
Definition completion_draft (current : State) (c : CompletionCandidate) : CompletionDecision :=
  mkCompletionDecision (ccd_NoChangeReason c) (ccd_NoChangeEvidence c) false (ccd_Summary c) "" ""
    (ccd_OutputMode c) (ccd_PendingActions c) (st_MutationRevision current)
    (changedPaths (effectiveChanges current)) [] (ccd_CompletionCall c).

Definition rejected_decision (reason : string) (d : CompletionDecision) : CompletionDecision :=
  d |> set_cd_Reason reason |> set_cd_RequiredAction (completionRejectionAction reason).

(** The output an accepted declaration owns. *)
Definition accepted_output (c : CompletionCandidate) (s : State) : State :=
  let summary := trim_space (ccd_Summary c) in
  s |> set_st_ProvisionalOutput
         (if ccd_OutputMode c == "preserve_provisional"
          then st_ProvisionalOutput s ++ [newline +:+ newline +:+ summary] else [summary])
    |> set_st_OutputEligibility false.

Definition applyCompletion (t : Transition) (current : State) (candidate : CompletionCandidate) :
    res kerror Transition :=
  let command := CompletionEvaluated candidate in
  requirePhase current command [PhaseSampling];;
  refuse (blank (ccd_CompletionCall candidate))
    (illegal current command "completion call id is empty");;
  let draft := completion_draft current candidate in
  let '(decision, settle) :=
    match completion_verdict current candidate with
    | Rejected reason => (rejected_decision reason draft, λ s : State, s)
    | Blocked convergence =>
        (rejected_decision "convergence_blocked" draft, set_st_Convergence (Some convergence))
    | AcceptedVerdict =>
        (draft |> set_cd_Accepted true |> set_cd_RequiredAction "final_answer",
         accepted_output candidate)
    end in
  Ok (t |> with_state settle |> with_state (set_st_Completion (Some decision))
        |> emit (event_mutation EventCompletionDecided (st_MutationRevision current))).

Definition applyCompletionInvalidated (t : Transition) (current : State) (Reason : string) :
    res kerror Transition :=
  let command := CompletionInvalidated Reason in
  requirePhase current command [PhaseSampling];;
  refuse (blank Reason) (illegal current command "completion invalidation reason is empty");;
  require (bool_decide (is_Some (accepted_completion current)))
    (illegal current command "accepted completion is unavailable");;
  Ok (t |> with_state (set_st_Completion None)
        |> emit (event_mutation EventCompletionDecided (st_MutationRevision current))).

Definition retirement_note : string :=
  "verification gate was removed; no check was executed".

(** The loop failing the pending verification effects. *)
Definition retire_effects (t : Transition) : res error Transition :=
  foldM (λ t id,
    if pending_matches (λ e, bool_decide (ef_Kind e = EffectRunVerification)) t id
    then finishEffect id false retirement_note t else Ok t)
    (sortedEffectIDs (st_PendingEffects (tn_State t))) t.

Definition retire_policy (p : Policy) : Policy :=
  p |> set_po_VerificationRequired false |> set_po_VerificationMustPass false
    |> set_po_VerificationMode "" |> set_po_VerificationOnFailure ""
    |> set_po_VerificationRepairLimit 0.

Definition retire_state (s : State) : State :=
  let s := s |> set_st_Policy (retire_policy (st_Policy s))
             |> set_st_Verification not_evaluated
             |> set_st_RepairBudgets (delete RepairVerification (st_RepairBudgets s))
             |> set_st_Convergence
                  (match st_Convergence s with
                   | Some c => if bool_decide (cv_RepairKind c = RepairVerification) then None
                               else Some c
                   | None => None
                   end)
             |> set_st_WorkItem (set_wi_Open (mkWorkItemOpen [] (wo_Sessions
                  (wi_Open (st_WorkItem s))) []) (st_WorkItem s)) in
  s |> set_st_WorkItem (set_wi_RequiredAction (DeriveRequiredAction s) (st_WorkItem s))
    |> set_st_NextAction (match st_NextAction s with
                          | StepActionVerify => StepActionNone
                          | action => action
                          end).

Definition retireVerification (t : Transition) : res kerror Transition :=
  match retire_effects t with
  | Err e => Err (PlainError e)
  | Ok t =>
      let t := with_state retire_state t in
      Ok (if bool_decide (st_Phase (tn_State t) = PhaseVerifying) then move PhaseSampling t
          else t)
  end.

(** ** Continuation ([reducer_continuation.go]) *)

Definition applyContinuationRecorded (t : Transition) (current : State)
    (Cursor : ContinuationCursor) : res kerror Transition :=
  let command := ContinuationRecorded Cursor in
  refuse ((cc_Sequence Cursor =? 0) || blank (cc_Handle Cursor) || blank (cc_Digest Cursor))
    (illegal current command "continuation cursor is incomplete");;
  let expected := match st_Continuation current with
                  | Some c => u64 (cc_Sequence c + 1)
                  | None => 1
                  end in
  require (cc_Sequence Cursor =? expected)
    (illegal_error current command
       (ErrFmt "continuation sequence %d does not extend cursor %d"
          [ArgZ (cc_Sequence Cursor); ArgZ (u64 (expected - 1))]));;
  Ok (t |> with_state (set_st_Continuation (Some Cursor))).

(** ** The terminal transaction ([reducer_terminal.go]) *)

(** The decision [Reducer.Apply] derives from the request. *)
Definition terminal_decision (c : TerminalRequest) : TerminalDecision :=
  if negb (blank (trq_CancelReason c)) then
    mkTerminalDecision TerminalCanceled "" (trq_CancelReason c) None None
  else match trq_Convergence c with
       | Some _ => mkTerminalDecision TerminalFailed (trq_FailureCode c) (trq_FailureMessage c)
                     (trq_Fault c) (trq_Convergence c)
       | None =>
           if negb (blank (trq_FailureMessage c)) then
             mkTerminalDecision TerminalFailed (trq_FailureCode c) (trq_FailureMessage c)
               (trq_Fault c) None
           else mkTerminalDecision TerminalCompleted "" "" None None
       end.

(** The decision and state of a non-success: a convergence outcome is taken from the state. *)
Definition settle_failure (t : Transition) (current : State) (command : Command)
    (decision : TerminalDecision) : res kerror (TerminalDecision * Transition) :=
  refuse (blank (td_Message decision))
    (illegal current command "non-success terminal message is empty");;
  if bool_decide (td_Convergence decision = None) then Ok (decision, t) else
  match st_Convergence current with
  | Some conv =>
      require (bool_decide (td_Kind decision = TerminalFailed) && cv_FinalizationAttempted conv)
        (illegal current command "convergence terminal is not ready");;
      let outcome := blockedConvergence conv in
      Ok (set_td_Convergence (Some outcome) decision,
          t |> with_state (set_st_Convergence (Some outcome)))
  | None => Err (illegal current command "convergence terminal is not ready")
  end.

Definition freeze (s : State) : State :=
  s |> set_st_Usage (set_ug_Frozen true (st_Usage s))
    |> set_st_Context (set_cx_Frozen true (st_Context s)).

Definition applyTerminalRequested (t : Transition) (current : State) (c : TerminalRequest) :
    res kerror Transition :=
  let command := TerminalRequested c in
  let decision := terminal_decision c in
  refuse (bool_decide (st_Phase current = PhaseCommitting))
    (illegal current command "terminal transaction is already active");;
  require (bool_decide (st_OpenCalls current = ∅))
    (illegal current command "tool calls remain open");;
  require (bool_decide (st_PendingApprovals current = ∅))
    (illegal current command "approval remains pending");;
  require (bool_decide (st_PendingInput current = None))
    (illegal current command "user input remains pending");;
  refuse (st_ActiveSampleID current != "")
    (illegal current command "model sample remains active");;
  require (bool_decide (st_PendingEffects current = ∅))
    (illegal current command "effects remain pending");;
  settled ← match td_Kind decision with
            | TerminalCompleted =>
                require (bool_decide (st_Phase current = PhaseSampling))
                  (illegal current command "completion must begin from sampling");;
                or_illegal current command (validateCompletionReadiness current);;
                Ok (decision, t)
            | TerminalFailed | TerminalCanceled => settle_failure t current command decision
            end;
  let '(decision, t) := settled : TerminalDecision * Transition in
  let t := t |> with_state (λ s, s |> set_st_PendingTerminal (Some decision) |> freeze)
             |> move PhaseCommitting
             |> emit (event_terminal EventTerminalPrepared decision) in
  Ok (if bool_decide (st_Journal current = JournalOpen) || po_JournalRequired (st_Policy current)
      then requestEffect (terminalJournalOutcome current decision).1 (json_terminal decision)
             ("journal:" +:+ terminal_kind_string (td_Kind decision)) "" t
      else t).

Definition applyJournalFinalized (t : Transition) (current : State) (Status : JournalStatus) :
    res kerror Transition :=
  let command := JournalFinalized Status in
  requirePhase current command [PhaseCommitting];;
  match st_PendingTerminal current with
  | None => Err (illegal current command "terminal transaction is missing")
  | Some pending =>
      let '(effectKind, expected) := terminalJournalOutcome current pending in
      require (bool_decide (st_Journal current = JournalOpen) && bool_decide (Status = expected))
        (illegal current command "journal result does not match terminal outcome");;
      Ok (t |> with_state (set_st_Journal Status) |> closeFirstEffectByKind effectKind true "")
  end.

Definition applyJournalResult (t : Transition) (current : State) (EffectID : string)
    (Status : JournalStatus) (Error : string) : res kerror Transition :=
  let command := JournalResultReceived EffectID Status Error in
  requirePhase current command [PhaseCommitting];;
  match st_PendingEffects current !! EffectID, st_PendingTerminal current with
  | None, _ => Err (illegal current command "journal effect is not running")
  | Some effect, pending =>
      require (bool_decide (ef_Status effect = EffectRunning))
        (illegal current command "journal effect is not running");;
      match pending with
      | None => Err (illegal current command "terminal transaction is missing")
      | Some pending =>
          let '(expectedKind, expectedStatus) := terminalJournalOutcome current pending in
          require (bool_decide (ef_Kind effect = expectedKind)
                   && bool_decide (Status = expectedStatus))
            (illegal current command "journal result does not match terminal outcome");;
          (if st_MutationRevision current =? 0 then
             require (po_JournalRequired (st_Policy current)
                      && bool_decide (st_Journal current = JournalNone))
               (illegal current command "unchanged turn has no open journal")
           else require (bool_decide (st_Journal current = JournalOpen))
                  (illegal current command "changed turn has no open journal"));;
          if Error != "" then
            Ok (t |> with_state (λ s, set_st_PendingEffects
                   (<[EffectID := effect |> set_ef_Status EffectRequested |> set_ef_Error Error]>
                      (st_PendingEffects s)) s)
                  |> emit (event_effect EventEffectRequeued EffectID ""))
          else
            t ← or_illegal current command (finishEffect EffectID true "" t);
            Ok (t |> with_state (set_st_Journal Status))
      end
  end.

Definition applyFinishTerminal (t : Transition) (current : State) : res kerror Transition :=
  let command := FinishTerminal in
  requirePhase current command [PhaseCommitting];;
  match st_PendingTerminal current with
  | None => Err (illegal current command "terminal transaction is missing")
  | Some decision =>
      let outcome := (terminalJournalOutcome current decision).2 in
      (if negb (bool_decide (st_Changes current = [])) then
         require (bool_decide (st_Journal current = outcome))
           (illegal current command "journal is not finalized")
       else
         require (bool_decide (st_Journal current =
                    if po_JournalRequired (st_Policy current) then outcome else JournalNone))
           (illegal current command "unchanged turn journal is not finalized"));;
      Ok (t |> with_state (λ s, s
                 |> set_st_PendingTerminal None
                 |> set_st_Terminal (Some decision)
                 |> set_st_FinalOutput (st_ProvisionalOutput current)
                 |> set_st_ProvisionalOutput [])
            |> move (phaseForTerminal (td_Kind decision))
            |> emit (event_terminal EventTerminalCommitted decision))
  end.

(** ** Step selection ([reducer_common.go]) *)

(** The closure [spend]: an exhausted or absent budget starts a convergence. *)
Definition spend (ProgressKey : string) (kind : RepairKind) (limit : Z) (action : StepAction)
    (t : Transition) : res kerror Transition :=
  if limit =? 0 then
    Ok (beginConvergence (mkConvergence ConvergenceRepairBudget 0 0 kind) t)
  else match spendRepairBudget kind ProgressKey limit t with
       | Ok t => Ok (t |> with_state (set_st_NextAction action))
       | Err (RepairBudgetExhausted _ _ _) =>
           Ok (beginConvergence (mkConvergence ConvergenceRepairBudget limit limit kind) t)
       | Err e => Err e
       end.

(** An active convergence that already tried to finalize: one declaration repair. *)
Definition finalize_step (t : Transition) (current : State) (c : ConvergenceState) :
    res kerror Transition :=
  if negb (cv_FinalizationAttempted c) then
    Ok (t |> with_state (set_st_NextAction StepActionFinalize))
  else
    let t := t |> with_state (set_st_NextAction StepActionBlock) in
    let declared := match st_Completion current with
                    | Some d => (cd_Reason d == "invalid_declaration")
                                || (cd_Reason d == "incomplete_declaration")
                    | None => false
                    end in
    let limit := po_DeclarationRepairLimit (st_Policy current) in
    let steps := match st_RepairBudgets current !! RepairDeclaration with
                 | Some b => rb_Steps b
                 | None => 0
                 end in
    if declared && (steps <? limit) then
      t ← spendRepairBudget RepairDeclaration "convergence_declaration" limit t;
      Ok (t |> with_state (λ s, s
                 |> set_st_Convergence (set_cv_FinalizationAttempted false <$> st_Convergence s)
                 |> set_st_NextAction StepActionFinalize))
    else Ok t.

Definition clear_tool_failure (s : State) : State :=
  s |> set_st_UnresolvedToolFailure false |> set_st_RecoveryToolSucceeded false.

Definition applyEvaluateTurnStep (t : Transition) (current : State) (ProgressKey : string) :
    res kerror Transition :=
  let command := EvaluateTurnStep ProgressKey in
  requirePhase current command [PhaseSampling];;
  refuse (blank ProgressKey) (illegal current command "turn step progress key is empty");;
  let t := t |> with_state (set_st_NextAction StepActionNone) in
  let recovered := st_UnresolvedToolFailure current && st_RecoveryToolSucceeded current in
  let t := if recovered then t |> with_state clear_tool_failure else t in
  let current := if recovered then clear_tool_failure current else current in
  let policy := st_Policy current in
  let accepted := bool_decide (is_Some (accepted_completion current)) in
  if accepted then Ok (t |> with_state (set_st_NextAction StepActionComplete))
  else match st_Convergence current with
  | Some c => finalize_step t current c
  | None =>
      if st_UnresolvedToolFailure current then
        t ← spend ProgressKey RepairCompletion (po_CompletionRepairLimit policy)
              StepActionRepairToolFailure t;
        Ok (if st_RecoveryToolSucceeded current || IsResearchIntent (st_Intent current)
            then t |> with_state clear_tool_failure else t)
      else if st_LastModelContinued current
              && negb (bool_decide (st_ClosedCalls current = ∅)) then
        spend ProgressKey RepairCompletion (po_CompletionRepairLimit policy)
          StepActionRepairCompletion t
      else if bool_decide (st_ProvisionalOutput current = []) then
        spend ProgressKey RepairCompletion (po_CompletionRepairLimit policy)
          StepActionRepairCompletion t
      else if workspaceCompletionMissing current then
        spend ProgressKey RepairWorkspace (po_WorkspaceRepairLimit policy)
          StepActionRepairWorkspace t
      else if RequiresCompletion current then
        spend ProgressKey RepairDeclaration (po_DeclarationRepairLimit policy)
          StepActionRepairDeclaration t
      else Ok (t |> with_state (set_st_NextAction StepActionComplete))
  end.

(** ** [Reducer.Apply] *)

(** The handler of a command. *)
Definition dispatch (t : Transition) (current : State) (command : Command) :
    res kerror Transition :=
  match command with
  | StartTurn => requirePhase current command [PhaseCreated];; Ok (move PhasePreparing t)
  | PreparationFinished =>
      requirePhase current command [PhasePreparing];; Ok (move PhaseSampling t)
  | ModelSampleRequested id => applyModelSampleRequested t current id
  | ModelSampleStarted id attempt => applyModelSampleStarted t current id attempt
  | ModelSampleFinished id usage context err =>
      applyModelSampleFinished t current id usage context err
  | ModelSampleProgressRecorded eid id attempt assembly =>
      applyModelSampleProgress t current eid id attempt assembly
  | ModelSampleResultReceived c => applyModelSampleResult t current c
  | SupplementalUsageRecorded source id usage => applySupplementalUsage t current source id usage
  | ProviderRetryRequested c => applyProviderRetry t current c
  | ProviderWaitReserved id delay until => applyProviderWait t current id delay until
  | ModelTextReceived text => applyModelText t current text
  | ReleaseProvisionalOutput => applyReleaseOutput t current
  | DiscardProvisionalOutput reason => applyDiscardOutput t current reason
  | RepairRequested kind key limit => applyRepairRequested t current kind key limit
  | EvaluateTurnStep key => applyEvaluateTurnStep t current key
  | ObserveProgress signature identity digest completed =>
      applyObserveProgress t current signature identity digest completed
  | BindWorkItem c => applyBindWorkItem t current c
  | ConvergenceRequested c => applyConvergenceRequested t current c
  | ConvergenceFinalizationStarted => applyConvergenceFinalizationStarted t current
  | ToolCallsProposed calls => applyToolCalls t current calls
  | ApprovalRequired request call => applyApprovalRequired t current request call
  | ApprovalResolved request => applyApprovalResolved t current request
  | ApprovalResultReceived c => applyApprovalResult t current c
  | InputRequired request call => applyInputRequired t current request call
  | InputResolved request => applyInputResolved t current request
  | InputResultReceived eid request accepted err =>
      applyInputResult t current eid request accepted err
  | ToolResultReceived c => applyToolResult t current c
  | ToolBatchAdmissionRejected ids result =>
      applyToolBatchAdmissionRejection t current ids result
  | AbortOpenCalls reason => applyAbortOpenCalls t current reason
  | WorkspaceReconciled mutation changes => applyWorkspaceReconciled t current mutation changes
  | CompletionEvaluated candidate => applyCompletion t current candidate
  | CompletionInvalidated reason => applyCompletionInvalidated t current reason
  | CancelRequested reason => applyCancelRequested t current reason
  | ContinuationRecorded cursor => applyContinuationRecorded t current cursor
  | RecoveryRequested c => applyRecoveryRequested t current c
  | EffectStarted eid attempt => applyEffectStarted t current eid attempt
  | EffectRequeued eid => applyEffectRequeued t current eid
  | EffectResultReceived eid success err => applyEffectResult t current eid success err
  | PersistenceResultReceived eid success err => applyPersistenceResult t current eid success err
  | TerminalRequested c => applyTerminalRequested t current c
  | JournalFinalized status => applyJournalFinalized t current status
  | JournalResultReceived eid status err => applyJournalResult t current eid status err
  | FinishTerminal => applyFinishTerminal t current
  | VerificationRetired => retireVerification t
  end.

Definition Apply (current : State) (command : Command) : res kerror Transition :=
  match Validate current with
  | Err e => Err (InvalidCurrent e)
  | Ok _ =>
      refuse (Terminal (st_Phase current))
        (illegal current command "terminal states have no outgoing transitions");;
      transition ← dispatch (mkTransition current [] []) current command;
      match Validate (tn_State transition) with
      | Err e => Err (ProducedInvalid (commandName command) e)
      | Ok _ => Ok transition
      end
  end.
