(* ===== verification/Frames.v ===== *)
(** What the reducer's composite operations change: each loop and helper of
    [Effects], [Sampling] and [Reducer] that is not a plain field update
    rewrites to one, over an abstract settlement of the effect ledger. The
    properties of the kernel are proved from these equations. *)
From S2P Require Import Prelude.
From S2P Require Import GoStrings.
From S2P Require Import Sha256.
From S2P Require Import Json.
From S2P Require Import ToolResult.
From S2P Require Import Provider.
From S2P Require Import Assembly.
From S2P Require Import TurnState.
From S2P Require Import WorkItem.
From S2P Require Import Invariants.
From S2P Require Import Command.
From S2P Require Import Effects.
From S2P Require Import TurnSpec.
From S2P Require Import Sampling.
From S2P Require Import Reducer.

(** ** The effect ledger *)

(** Pending and completed effects. *)
Definition Ledger : Type := gmap string Effect * gmap string Effect.
Definition ledger (s : State) : Ledger := (st_PendingEffects s, st_CompletedEffects s).

(** An effect with its result: only status and error differ. *)
Definition with_result (success : bool) (message : string) (e : Effect) : Effect :=
  if success then e |> set_ef_Status EffectSucceeded |> set_ef_Error ""
  else e |> set_ef_Status EffectFailed |> set_ef_Error message.

(** One effect leaves the pending map and enters the completed one. *)
Inductive settle1 : Ledger → Ledger → Prop :=
  | settle1_intro pending completed id e success message :
      pending !! id = Some e →
      settle1 (pending, completed)
        (delete id pending, <[id := with_result success message e]> completed).
Definition settles : Ledger → Ledger → Prop := rtc settle1.

(** The transition with another ledger and more [effect_finished] events. *)
Definition touch (l : Ledger) (evs : list Event) (t : Transition) : Transition :=
  mkTransition (tn_State t |> set_st_PendingEffects l.1 |> set_st_CompletedEffects l.2)
    (tn_Events t ++ evs) (tn_Effects t).

Definition finish_event (e : Event) : Prop := ev_Kind e = EventEffectFinished.

(** [t'] is [t] with effects settled and nothing else changed. *)
Definition only_settles (t t' : Transition) : Prop :=
  ∃ l evs, settles (ledger (tn_State t)) l ∧ Forall finish_event evs ∧ t' = touch l evs t.

Lemma only_settles_refl t : only_settles t t.
Proof.
  exists (ledger (tn_State t)), []. split; [done|]. split; [done|].
  destruct t as [s evs effs]. unfold touch; cbn. rewrite app_nil_r. by destruct s.
Qed.

Lemma only_settles_trans t1 t2 t3 :
  only_settles t1 t2 → only_settles t2 t3 → only_settles t1 t3.
Proof.
  intros (l & evs & Hl & Hevs & ->) (l' & evs' & Hl' & Hevs' & ->).
  exists l', (evs ++ evs'). split; [|split].
  - etransitivity; [exact Hl|]. by destruct l.
  - by apply Forall_app.
  - unfold touch; cbn. by rewrite app_assoc.
Qed.

(** A successful [finishEffect] settles exactly its effect. *)
Lemma finishEffect_Ok id success message t t' :
  finishEffect id success message t = Ok t' →
  ∃ e, st_PendingEffects (tn_State t) !! id = Some e ∧
    (ef_Status e = EffectRequested ∨ ef_Status e = EffectRunning) ∧
    (success = true ∨ blank message = false) ∧
    t' = touch (delete id (st_PendingEffects (tn_State t)),
                <[id := with_result success message e]> (st_CompletedEffects (tn_State t)))
           [event_effect EventEffectFinished (ef_ID e) (ef_CallID e)] t.
Proof.
  unfold finishEffect. destruct (_ !! id) as [e|]; intros H; [|by inv_case].
  inv_ok. exists e. split_and!; [done| | |].
  - apply orb_true_iff in Hx as [Hx|Hx]; bool_prop; auto.
  - apply andb_false_iff in Hx0 as [Hx0|Hx0]; bool_prop; auto.
  - unfold with_result, touch, emit, with_state; destruct success; cbn; done.
Qed.

Lemma finishEffect_settles id success message t t' :
  finishEffect id success message t = Ok t' → only_settles t t'.
Proof.
  intros (e & He & _ & _ & ->)%finishEffect_Ok. do 2 eexists.
  split; [|split; [|reflexivity]]; [|by repeat constructor].
  apply rtc_once. by constructor.
Qed.

Lemma close_effect_settles success message t id :
  only_settles t (close_effect success message t id).
Proof.
  unfold close_effect. destruct (finishEffect _ _ _ _) eqn:H.
  - by eapply finishEffect_settles.
  - apply only_settles_refl.
Qed.

Lemma close_first_settles p success message t :
  only_settles t (close_first p success message t).
Proof.
  unfold close_first. destruct (filter _ _); [apply only_settles_refl|].
  apply close_effect_settles.
Qed.

Lemma closeEffectByIdentity_settles kind identity success message t :
  only_settles t (closeEffectByIdentity kind identity success message t).
Proof. apply close_first_settles. Qed.
Lemma closeEffectByCall_settles kind callID success message t :
  only_settles t (closeEffectByCall kind callID success message t).
Proof. apply close_first_settles. Qed.
Lemma closeFirstEffectByKind_settles kind success message t :
  only_settles t (closeFirstEffectByKind kind success message t).
Proof. apply close_first_settles. Qed.

Lemma closeEffectsByKind_settles kind success message t :
  only_settles t (closeEffectsByKind kind success message t).
Proof.
  unfold closeEffectsByKind. generalize (sortedEffectIDs (st_PendingEffects (tn_State t))).
  intros ids. revert t. induction ids as [|id ids IH]; intros t; cbn.
  - apply only_settles_refl.
  - eapply only_settles_trans; [|apply IH].
    destruct (pending_matches _ _ _); [apply close_effect_settles|apply only_settles_refl].
Qed.

Lemma retire_effects_settles t t' : retire_effects t = Ok t' → only_settles t t'.
Proof.
  unfold retire_effects. generalize (sortedEffectIDs (st_PendingEffects (tn_State t))).
  intros ids. apply (foldM_ind (λ t1, only_settles t t1)); [apply only_settles_refl|].
  intros t1 id t2 _ H1 H2. eapply only_settles_trans; [exact H1|].
  destruct (pending_matches _ _ _); inv_ok;
    [by eapply finishEffect_settles | apply only_settles_refl].
Qed.

(** ** Proposed, aborted and rejected calls *)

(** A batch of calls: opened calls, their requested effects, and events that are
    not phase moves. *)
Definition quiet_event (e : Event) : Prop := ev_Kind e ≠ EventTransition.

(** Requesting the effects of a batch, one call at a time. *)
Definition request_call (s : State) (call : ToolCallState) : State :=
  tn_State (requestEffect EffectExecuteTool (json_call call) ("tool:" +:+ cs_ID call)
              (cs_ID call)
              (mkTransition (set_st_OpenCalls (<[cs_ID call := call]> (st_OpenCalls s)) s) [] [])).

Lemma propose_call_Ok current command seen t call seen' t' :
  propose_call current command (seen, t) call = Ok (seen', t') →
  blank (cs_ID call) = false ∧ blank (cs_Name call) = false ∧
  st_OpenCalls current !! cs_ID call = None ∧ st_ClosedCalls current !! cs_ID call = None ∧
  cs_ID call ∉ seen ∧ seen' = cs_ID call :: seen ∧
  tn_State t' = request_call (tn_State t) call ∧
  (∃ evs, Forall quiet_event evs ∧ tn_Events t' = (tn_Events t ++ evs)%list) ∧
  (∃ e, tn_Effects t' = tn_Effects t ++ [e] ∧
     st_PendingEffects (tn_State t') = <[ef_ID e := e]> (st_PendingEffects (tn_State t)) ∧
     ef_ID e = effect_id (u64 (st_NextEffectSequence (tn_State t) + 1)) ∧
     ef_CallID e = cs_ID call ∧ ef_Kind e = EffectExecuteTool).
Proof.
  unfold propose_call. intros H. inv_ok. simplify_eq.
  bool_prop.
  split_and!; auto.
  - cbn. eexists. rewrite <- app_assoc. split; [|done]. by repeat constructor.
  - cbn. eexists. split; [done|]. by cbn.
Qed.

(** The whole batch is a fold of [request_call]. *)
Lemma propose_calls_Ok current command calls seen t seen' t' :
  foldM (propose_call current command) calls (seen, t) = Ok (seen', t') →
  tn_State t' = foldl request_call (tn_State t) calls ∧
  NoDup (cs_ID <$> calls) ∧
  (∀ id, id ∈ cs_ID <$> calls → id ∉ seen) ∧
  Forall (λ c, blank (cs_ID c) = false ∧ blank (cs_Name c) = false ∧
               st_OpenCalls current !! cs_ID c = None ∧
               st_ClosedCalls current !! cs_ID c = None) calls ∧
  (∃ evs, Forall quiet_event evs ∧ tn_Events t' = tn_Events t ++ evs).
Proof.
  revert seen t. induction calls as [|call calls IH]; intros seen t H; cbn in H.
  - injection H as <- <-. split_and!; try done.
    + constructor.
    + intros id Hid. by apply not_elem_of_nil in Hid.
    + exists []. by rewrite app_nil_r.
  - apply bind_Ok in H as ([seen1 t1] & H1 & H2).
    apply propose_call_Ok in H1 as (? & ? & ? & ? & Hseen & -> & Ht1 & (evs & Hevs & Et) & _).
    apply IH in H2 as (Ht' & Hnd & Hout & Hall & (evs' & Hevs' & Et')).
    split_and!.
    + by rewrite Ht', Ht1.
    + rewrite fmap_cons. constructor; [|done]. intros Hin. apply (Hout _ Hin). by left.
    + rewrite fmap_cons. intros id [->|Hid]%elem_of_cons; [done|].
      intros ?. apply (Hout _ Hid). by right.
    + by constructor.
    + exists (evs ++ evs'). rewrite Et', Et, app_assoc. split; [by apply Forall_app|done].
Qed.

Lemma settles_steps n l l' :
  settles l l' →
  EffectLedger.steps 0 (EffectLedger.mk n l.1 l.2) (EffectLedger.mk n l'.1 l'.2).
Proof.
  induction 1 as [|l1 l2 l3 H _ IH]; [constructor|]. eapply (EffectLedger.steps_cons 0); [|exact IH].
  destruct H as [p c id e success message He]; cbn.
  apply (EffectLedger.step_settle (EffectLedger.mk n p c) id e); [done|..].
  - by destruct success.
  - destruct success; [by left|by right].
  - by destruct success.
Qed.

Lemma request_calls_frame calls s :
  ∃ n p, EffectLedger.steps (length calls) (EffectLedger.of_state s)
           (EffectLedger.mk n p (st_CompletedEffects s)) ∧
    foldl request_call s calls =
      (s |> set_st_OpenCalls (foldl (λ m c, <[cs_ID c := c]> m) (st_OpenCalls s) calls)
         |> set_st_NextEffectSequence n |> set_st_PendingEffects p).
Proof.
  revert s. induction calls as [|c calls IH]; intros s.
  - exists (st_NextEffectSequence s), (st_PendingEffects s). split; [constructor|by destruct s].
  - change (foldl request_call s (c :: calls)) with (foldl request_call (request_call s c) calls).
    destruct (IH (request_call s c)) as (n & p & Hsteps & ->). exists n, p. split; [|done].
    eapply (EffectLedger.steps_cons 1); [|exact Hsteps]. unfold request_call, requestEffect; cbn.
    by apply (EffectLedger.step_request (EffectLedger.of_state s)
                (new_effect _ EffectExecuteTool _ _ _)).
Qed.

Lemma open_calls_steps calls opened closed :
  NoDup (cs_ID <$> calls) →
  Forall (λ c, opened !! cs_ID c = None ∧ closed !! cs_ID c = None) calls →
  CallLedger.steps (CallLedger.mk opened closed)
    (CallLedger.mk (foldl (λ m c, <[cs_ID c := c]> m) opened calls) closed).
Proof.
  revert opened. induction calls as [|c calls IH]; intros opened Hnd Hf; cbn; [done|].
  rewrite fmap_cons in Hnd. apply NoDup_cons in Hnd as [Hnot Hnd].
  apply Forall_cons in Hf as [[Ho Hc] Hf].
  eapply rtc_l; [by apply (CallLedger.step_open (CallLedger.mk opened closed) c)|].
  apply IH; [done|]. eapply Forall_impl; [apply Forall_and; split; [exact Hf|]|].
  - apply Forall_forall. intros x Hx. exact (list_elem_of_fmap_2 cs_ID _ _ Hx).
  - intros x [[? ?] Hin]. cbn in Hin. rewrite lookup_insert_ne; [done|].
    intros Heq. by rewrite Heq in Hnot.
Qed.

(** A proposed batch: the completion is dropped, the calls are opened under
    requested effects, and the turn executes tools. *)
Lemma applyToolCalls_Ok t current calls t' :
  applyToolCalls t current calls = Ok t' →
  ca_Accepted (st_Cancellation current) = false ∧
  st_Phase current ∈ [PhaseSampling; PhaseExecutingTools] ∧ calls ≠ [] ∧
  NoDup (cs_ID <$> calls) ∧
  Forall (λ c, blank (cs_ID c) = false ∧ blank (cs_Name c) = false ∧
               st_OpenCalls current !! cs_ID c = None ∧
               st_ClosedCalls current !! cs_ID c = None) calls ∧
  ∃ n p evs, EffectLedger.steps (length calls) (EffectLedger.of_state (tn_State t))
               (EffectLedger.mk n p (st_CompletedEffects (tn_State t))) ∧
    Forall quiet_event evs ∧
    let s := tn_State t in
    let s' := s |> set_st_Completion None |> set_st_OutputEligibility false
      |> set_st_OpenCalls (foldl (λ m c, <[cs_ID c := c]> m) (st_OpenCalls s) calls)
      |> set_st_NextEffectSequence n |> set_st_PendingEffects p
      |> set_st_Progress (st_Progress s
           |> set_pg_PendingIdentity (FormatToolCallsIdentity calls)
           |> set_pg_PendingResultDigests []) in
    if bool_decide (st_Phase current = PhaseSampling) then
      tn_State t' = set_st_Phase PhaseExecutingTools s' ∧
      tn_Events t' = tn_Events t ++ evs ++
        [mkEvent EventTransition (Some (st_Phase s)) (Some PhaseExecutingTools) "" "" "" 0 None]
    else tn_State t' = s' ∧ tn_Events t' = tn_Events t ++ evs.
Proof.
  unfold applyToolCalls, requirePhase. intros H. inv_ok. bool_prop.
  destruct x2 as [seen t1]. apply propose_calls_Ok in Hx2 as (Ht1 & Hnd & _ & Hall & evs & Hq & Hev).
  split_and!; try done. cbn in Ht1.
  destruct (request_calls_frame calls (tn_State t |> set_st_Completion None
              |> set_st_OutputEligibility false)) as (n & p & Hsteps & Heq).
  rewrite Heq in Ht1. exists n, p, evs. split; [exact Hsteps|]. split; [done|]. cbn.
  destruct (bool_decide _); cbn; rewrite Ht1, Hev; cbn; [by rewrite app_assoc|done].
Qed.

(** ** Approvals, inputs and aborted calls *)

Lemma drop_approvals_frame current CallID t :
  ∃ m l evs, settles (ledger (tn_State t)) l ∧ Forall finish_event evs ∧
    m ⊆ st_PendingApprovals (tn_State t) ∧
    drop_approvals current CallID t
    = touch l evs (with_state (set_st_PendingApprovals m) t).
Proof.
  unfold drop_approvals. generalize (map_to_list (st_PendingApprovals current)) as l.
  intros l. revert t. induction l as [|[rid a] l IH]; intros t; cbn.
  - destruct (only_settles_refl t) as (l & evs & ? & ? & Ht).
    exists (st_PendingApprovals (tn_State t)), (ledger (tn_State t)), [].
    split_and!; [done|done|done|]. destruct t as [s e f]. unfold touch, with_state; cbn.
    rewrite app_nil_r. by destruct s.
  - destruct (ap_CallID a == CallID); [|apply IH].
    set (t1 := with_state _ t).
    destruct (closeEffectByIdentity_settles EffectAwaitApproval rid false
                (ca_Reason (st_Cancellation current)) t1) as (l1 & e1 & Hl1 & He1 & Heq).
    rewrite Heq. destruct (IH (touch l1 e1 t1)) as (m & l2 & e2 & Hl2 & He2 & Hm & ->).
    exists m, l2, (e1 ++ e2). split_and!.
    + etransitivity; [exact Hl1|]. destruct l1; exact Hl2.
    + by apply Forall_app.
    + etransitivity; [exact Hm|]. cbn. apply delete_subseteq.
    + unfold touch, with_state, t1; cbn. by rewrite app_assoc.
Qed.

(** Closing a set of open calls, in order. *)
Definition closed_call (current : State) (id : string) : ToolResultState :=
  mkToolResultState id
    (match st_OpenCalls current !! id with Some c => cs_Name c | None => "" end) true.

Lemma abort_calls_frame current Reason ids t :
  ∃ l evs, settles (ledger (tn_State t)) l ∧ Forall quiet_event evs ∧
    foldl (abort_call current Reason) t ids =
      mkTransition
        (tn_State t
         |> set_st_OpenCalls (foldl (λ m id, delete id m) (st_OpenCalls (tn_State t)) ids)
         |> set_st_ClosedCalls (foldl (λ m id, <[id := closed_call current id]> m)
                                  (st_ClosedCalls (tn_State t)) ids)
         |> set_st_PendingEffects l.1 |> set_st_CompletedEffects l.2)
        (tn_Events t ++ evs) (tn_Effects t).
Proof.
  revert t. induction ids as [|id ids IH]; intros t; cbn.
  - exists (ledger (tn_State t)), []. split_and!; [done|done|].
    destruct t as [s e f]; cbn. rewrite app_nil_r. by destruct s.
  - unfold abort_call at 2. set (t1 := with_state _ t).
    destruct (closeEffectByCall_settles EffectExecuteTool id false Reason t1)
      as (l1 & e1 & Hl1 & He1 & ->).
    match goal with |- context [foldl _ ?x ids] => destruct (IH x) as (l2 & e2 & Hl2 & He2 & ->) end.
    exists l2, (e1 ++ [event_call EventToolClosed id] ++ e2). split_and!.
    + etransitivity; [exact Hl1|]. destruct l1; exact Hl2.
    + apply Forall_app; split; [|by constructor].
      eapply Forall_impl; [exact He1|]. unfold finish_event, quiet_event. by intros ? ->.
    + unfold touch, with_state, emit, t1; cbn. by rewrite <- !app_assoc.
Qed.

Lemma close_calls_steps current opened closed ids :
  NoDup ids → (∀ id, id ∈ ids → opened !! id = st_OpenCalls current !! id ∧ is_Some (opened !! id)) →
  CallLedger.steps (CallLedger.mk opened closed)
    (CallLedger.mk (foldl (λ m id, delete id m) opened ids)
                   (foldl (λ m id, <[id := closed_call current id]> m) closed ids)).
Proof.
  revert opened closed. induction ids as [|id ids IH]; intros opened closed Hnd Hin; cbn; [done|].
  apply NoDup_cons in Hnd as [Hnot Hnd].
  destruct (Hin id) as [Heq [c Hc]]; [by left|].
  eapply rtc_l.
  - apply (CallLedger.step_close (CallLedger.mk opened closed) id c true Hc).
  - cbn. unfold closed_call at 2. rewrite <- Heq, Hc. apply IH; [done|].
    intros id' Hid'. rewrite lookup_delete_ne; [apply Hin; by right|]. intros ->. done.
Qed.

(** Deleting every listed key empties the map. *)
Lemma foldl_delete_all {A} (m m' : gmap string A) ids :
  m' ⊆ m → (∀ id, id ∈ (map_to_list m).*1 → id ∈ ids) → foldl (λ m id, delete id m) m' ids = ∅.
Proof.
  revert m m'. induction ids as [|id ids IH]; intros m m' Hsub Hin; cbn.
  - apply map_eq. intros i. rewrite lookup_empty. destruct (m' !! i) as [x|] eqn:E; [|done].
    exfalso. eapply lookup_weaken in E; [|exact Hsub].
    apply elem_of_map_to_list in E. apply (list_elem_of_fmap_2 fst) in E.
    apply Hin in E. by apply not_elem_of_nil in E.
  - apply (IH (delete id m)); [by apply delete_mono|].
    intros i (p & -> & Hp)%list_elem_of_fmap. destruct p as [i x]. cbn.
    apply elem_of_map_to_list, lookup_delete_Some in Hp as [Hne Hp].
    assert (Hi : i ∈ id :: ids).
    { apply Hin. apply elem_of_map_to_list in Hp. exact (list_elem_of_fmap_2 fst _ _ Hp). }
    apply elem_of_cons in Hi as [->|]; done.
Qed.

Lemma reject_calls_Ok current command Result ids seen t seen' t' :
  foldM (reject_call current command Result) ids (seen, t) = Ok (seen', t') →
  (∀ id, id ∈ seen → is_Some (st_OpenCalls (tn_State t) !! id)) →
  (∀ id, id ∉ seen → st_OpenCalls (tn_State t) !! id = st_OpenCalls current !! id) →
  ∃ o, CallLedger.steps (CallLedger.of_state (tn_State t))
         (CallLedger.mk o (st_ClosedCalls (tn_State t))) ∧
    (∀ id, is_Some (o !! id) ↔ is_Some (st_OpenCalls (tn_State t) !! id)) ∧
    t' = with_state (set_st_OpenCalls o) t.
Proof.
  revert seen t. induction ids as [|id ids IH]; intros seen t H Hseen Hcur; cbn in H.
  - injection H as <- <-. exists (st_OpenCalls (tn_State t)). split_and!; [done|done|].
    destruct t as [s e f]. unfold with_state; cbn. by destruct s.
  - apply bind_Ok in H as ([seen1 t1] & H1 & H2). unfold reject_call in H1.
    destruct (st_OpenCalls current !! id) as [call|] eqn:Hcall; [|done].
    inv_ok. simplify_eq. bool_prop. rewrite <- Hcur in Hcall by done.
    apply IH in H2 as (o & Hsteps & Hdom & ->).
    + exists o. split_and!.
      * eapply rtc_l; [|exact Hsteps].
        by apply (CallLedger.step_reject (CallLedger.of_state (tn_State t)) id call Result).
      * intros i. rewrite Hdom. cbn. rewrite lookup_insert_is_Some.
        destruct (decide (id = i)) as [->|]; naive_solver.
      * done.
    + intros i [->|Hi]%elem_of_cons; cbn; rewrite lookup_insert_is_Some; [by left|].
      destruct (decide (id = i)); [by left|right]. split; [done|]. by apply Hseen.
    + intros i [Hne Hi]%not_elem_of_cons; cbn. rewrite lookup_insert_ne by done. by apply Hcur.
Qed.

(** ** Tool results *)

(** Finished effects are quiet. *)
Lemma finish_quiet evs : Forall finish_event evs → Forall quiet_event evs.
Proof.
  intros H. eapply Forall_impl; [exact H|]. unfold finish_event, quiet_event. by intros ? ->.
Qed.

Lemma applyWorkItemObservation_frame t call changes ob isError :
  ∃ item, with_state (λ s, applyWorkItemObservation s call changes ob isError) t
          = with_state (set_st_WorkItem item) t.
Proof. unfold applyWorkItemObservation, with_state. destruct isError; by eexists. Qed.

(** The state part of [record_changes]. *)
Definition changed (Changes : list ObservedChange) (s : State) : State :=
  if bool_decide (Changes = []) then s else
  s |> set_st_MutationRevision (u64 (st_MutationRevision s + 1))
    |> set_st_Workspace None |> set_st_Changes (st_Changes s ++ Changes)
    |> set_st_Completion None |> set_st_Verification not_evaluated
    |> set_st_Journal JournalOpen.

Lemma changed_phase Changes s err x :
  st_Phase (changed Changes (note_tool_outcome s err x)) = st_Phase x.
Proof.
  unfold changed, note_tool_outcome.
  by destruct (bool_decide _), err, (st_UnresolvedToolFailure s).
Qed.

Lemma record_changes_frame Changes t :
  ∃ evs, Forall quiet_event evs ∧
    record_changes Changes t
    = mkTransition (changed Changes (tn_State t)) (tn_Events t ++ evs) (tn_Effects t).
Proof.
  unfold record_changes, changed. case_bool_decide.
  - exists []. rewrite app_nil_r. split; [done|]. by destruct t.
  - eexists. split; [|reflexivity]. by repeat constructor.
Qed.

(** The state a tool result leaves, before its phase: what is settled [l], the
    approvals [m] still pending, and the derived work item and progress. *)
Definition tool_closed (current : State) (c : ToolResultFacts) (call : ToolCallState)
    (l : Ledger) (m : gmap string ApprovalState) (item : WorkItem) (progress : ProgressState)
    (s : State) : State :=
  s |> set_st_PendingEffects l.1 |> set_st_CompletedEffects l.2
    |> set_st_OpenCalls (delete (trr_CallID c) (st_OpenCalls s))
    |> set_st_ClosedCalls (<[trr_CallID c := mkToolResultState (trr_CallID c) (cs_Name call)
                               (trr_IsError c)]> (st_ClosedCalls s))
    |> set_st_PendingApprovals m
    |> note_tool_outcome current (trr_IsError c)
    |> changed (trr_Changes c)
    |> set_st_WorkItem item |> set_st_Progress progress.

Lemma retire_input_frame current t :
  ∃ l evs, settles (ledger (tn_State t)) l ∧ Forall finish_event evs ∧
    retire_input current t =
      touch l evs (if bool_decide (is_Some (st_PendingInput current))
                   then with_state (λ s, s |> set_st_PendingInput None |> reopen_convergence) t
                   else t).
Proof.
  unfold retire_input. destruct (st_PendingInput current) as [i|]; cbn.
  - destruct (closeEffectByIdentity_settles EffectAwaitInput (is_RequestID i) true ""
      (with_state (λ s, s |> set_st_PendingInput None |> reopen_convergence) t))
      as (l & evs & Hl & He & ->). by exists l, evs.
  - destruct (only_settles_refl t) as (l & evs & ? & ? & E). by exists l, evs.
Qed.

Lemma note_tool_outcome_frame current err s :
  ∃ u r, note_tool_outcome current err s
         = (s |> set_st_UnresolvedToolFailure u |> set_st_RecoveryToolSucceeded r).
Proof.
  unfold note_tool_outcome. destruct err; [by do 2 eexists|].
  destruct (st_UnresolvedToolFailure current).
  - exists (st_UnresolvedToolFailure s), true. by destruct s.
  - exists (st_UnresolvedToolFailure s), (st_RecoveryToolSucceeded s). by destruct s.
Qed.

Lemma note_result_digest_frame digest t :
  ∃ p, with_state (note_result_digest digest) t = with_state (set_st_Progress p) t ∧
    pg_NoProgressSamples p = pg_NoProgressSamples (st_Progress (tn_State t)) ∧
    pg_ObservedSamples p = pg_ObservedSamples (st_Progress (tn_State t)).
Proof.
  unfold note_result_digest, with_state. destruct (_ != _); [by eexists|].
  exists (st_Progress (tn_State t)). destruct t as [s ? ?]; cbn. by destruct s.
Qed.

(** The phase a closed call leads to. *)
Definition phase_after (s : State) : Phase :=
  if negb (bool_decide (st_PendingApprovals s = ∅)) then PhaseAwaitingApproval
  else if negb (bool_decide (st_OpenCalls s = ∅)) then PhaseExecutingTools
  else PhaseSampling.

Lemma after_tool_move t : after_tool t = move (phase_after (tn_State t)) t.
Proof. unfold after_tool, phase_after. by repeat case_bool_decide. Qed.

(** The input and the convergence a finished call leaves. *)
Definition waits_closed (bound : bool) (s : State) : State :=
  if bound then s |> set_st_PendingInput None |> reopen_convergence else s.

Lemma retire_if_bound s CallID l e :
  settles (ledger s) l → Forall finish_event e →
  let t := touch l e (mkTransition s [] []) in
  ∃ l' e', settles (ledger s) l' ∧ Forall finish_event e' ∧
    (if input_bound s CallID then retire_input s t else t)
    = touch l' e' (mkTransition (waits_closed (input_bound s CallID) s) [] []).
Proof.
  intros Hl He t. destruct (input_bound s CallID) eqn:Hb; [|by exists l, e].
  destruct (retire_input_frame s t) as (l2 & e2 & Hl2 & He2 & ->).
  exists l2, (e ++ e2). split_and!.
  - etransitivity; [exact Hl|]. by destruct l.
  - by apply Forall_app.
  - unfold input_bound in Hb. by destruct (st_PendingInput s).
Qed.

Lemma drop_if_canceling s CallID (canceling : bool) t :
  ∃ l e m, settles (ledger (tn_State t)) l ∧ Forall finish_event e ∧
    m ⊆ st_PendingApprovals (tn_State t) ∧
    (if canceling then drop_approvals s CallID t else t)
    = touch l e (with_state (set_st_PendingApprovals m) t).
Proof.
  destruct canceling.
  - destruct (drop_approvals_frame s CallID t) as (m & l & e & ? & ? & ? & ->). by exists l, e, m.
  - exists (ledger (tn_State t)), [], (st_PendingApprovals (tn_State t)).
    split_and!; [done|done|done|]. destruct t as [x ? ?]. unfold touch, with_state; cbn.
    rewrite app_nil_r. by destruct x.
Qed.

(** Recording a closed call: its outcome, changes, observation and digest. *)
Lemma record_result_frame s c call t :
  ∃ item progress evs,
    let s' := set_st_Progress progress (set_st_WorkItem item (changed (trr_Changes c)
                (note_tool_outcome s (trr_IsError c) (tn_State t)))) in
    Forall quiet_event evs ∧
    pg_NoProgressSamples progress = pg_NoProgressSamples (st_Progress (tn_State t)) ∧
    pg_ObservedSamples progress = pg_ObservedSamples (st_Progress (tn_State t)) ∧
    after_tool (t |> with_state (note_tool_outcome s (trr_IsError c))
                  |> emit (event_call EventToolClosed (trr_CallID c))
                  |> record_changes (trr_Changes c)
                  |> with_state (λ s, applyWorkItemObservation s call (trr_Changes c)
                                        (trr_Observation c) (trr_IsError c))
                  |> with_state (note_result_digest (ob_ResultDigest (trr_Observation c))))
    = move (phase_after s') (mkTransition s' (tn_Events t ++ evs) (tn_Effects t)).
Proof.
  destruct (record_changes_frame (trr_Changes c) (t |> with_state (note_tool_outcome s (trr_IsError c))
    |> emit (event_call EventToolClosed (trr_CallID c)))) as (evs & Hevs & ->).
  edestruct applyWorkItemObservation_frame as [item ->].
  edestruct note_result_digest_frame as (progress & -> & Hn & Ho).
  rewrite after_tool_move. exists item, progress, ([event_call EventToolClosed (trr_CallID c)] ++ evs).
  split_and!.
  - by constructor.
  - rewrite Hn. cbn. unfold changed.
    destruct (note_tool_outcome_frame s (trr_IsError c) (tn_State t)) as (u & r & ->).
    by destruct (bool_decide _).
  - rewrite Ho. cbn. unfold changed.
    destruct (note_tool_outcome_frame s (trr_IsError c) (tn_State t)) as (u & r & ->).
    by destruct (bool_decide _).
  - unfold with_state, emit; cbn. by rewrite <- app_assoc.
Qed.

Lemma applyToolResult_Ok s c t' :
  applyToolResult (mkTransition s [] []) s c = Ok t' →
  ∃ call effect l m item progress evs,
    let bound := input_bound s (trr_CallID c) in
    let s' := tool_closed s c call l m item progress (waits_closed bound s) in
    st_OpenCalls s !! trr_CallID c = Some call ∧
    (st_PendingEffects s !! trr_EffectID c = Some effect ∧
     ef_Kind effect = EffectExecuteTool ∧ ef_CallID effect = trr_CallID c ∧
     ef_Status effect = EffectRunning) ∧
    (st_Phase s = PhaseExecutingTools ∨ st_Phase s = PhaseAwaitingApproval ∨
     st_Phase s = PhaseAwaitingInput ∧ bound = true) ∧
    (call_awaiting_approval s (trr_CallID c) = true → ca_Accepted (st_Cancellation s) = true) ∧
    settles (ledger s) l ∧ Forall quiet_event evs ∧ m ⊆ st_PendingApprovals s ∧
    pg_NoProgressSamples progress = pg_NoProgressSamples (st_Progress s) ∧
    pg_ObservedSamples progress = pg_ObservedSamples (st_Progress s) ∧
    tn_State t' = set_st_Phase (phase_after s') s' ∧
    tn_Events t' = evs ++ [mkEvent EventTransition (Some (st_Phase s)) (Some (phase_after s'))
                             "" "" "" 0 None].
Proof.
  unfold applyToolResult, requirePhase, or_illegal. intros H.
  apply bind_Ok in H as (? & Hph & H). apply require_Ok in Hph.
  apply bind_Ok in H as (? & Haw & H). apply refuse_Ok in Haw.
  apply bind_Ok in H as (? & _ & H).
  destruct (st_OpenCalls s !! _) as [call|] eqn:Hcall; [|done].
  destruct (st_PendingEffects s !! _) as [effect|] eqn:Heff; [|done].
  apply bind_Ok in H as (? & Hk & H). apply refuse_Ok in Hk.
  apply bind_Ok in H as (t1 & Hfin & H).
  destruct (finishEffect _ _ _ _) as [t0|] eqn:Hf; [|done]. injection Hfin as ->.
  apply finishEffect_settles in Hf as (l1 & e1 & Hl1 & He1 & ->). injection H as <-.
  destruct (retire_if_bound s (trr_CallID c) l1 e1 Hl1 He1) as (l2 & e2 & Hl2 & He2 & ->).
  edestruct drop_if_canceling as (l3 & e3 & m & Hl3 & He3 & Hm & ->).
  edestruct record_result_frame as (item & progress & evs & Hevs & Hn & Ho & ->).
  assert (Hw : ledger (waits_closed (input_bound s (trr_CallID c)) s) = ledger s ∧
    st_PendingApprovals (waits_closed (input_bound s (trr_CallID c)) s) = st_PendingApprovals s ∧
    st_Phase (waits_closed (input_bound s (trr_CallID c)) s) = st_Phase s ∧
    st_Progress (waits_closed (input_bound s (trr_CallID c)) s) = st_Progress s).
  { by destruct (input_bound _ _). }
  cbn in Hn, Ho, Hm. destruct Hw as (Hw1 & Hw2 & Hw3 & Hw4).
  exists call, effect, l3, m, item, progress, (e2 ++ e3 ++ evs).
  apply bool_decide_eq_true in Hph. bool_prop. split_and!; try done.
  - revert Hph. destruct (input_bound _ _); set_unfold; naive_solver.
  - intros Ha. rewrite Ha in Haw. cbn in Haw. by bool_prop.
  - etransitivity; [exact Hl2|]. by destruct l2.
  - rewrite !Forall_app. auto using finish_quiet.
  - by rewrite <- Hw2.
  - by rewrite <- Hw4.
  - by rewrite <- Hw4.
  - cbn. rewrite <- !app_assoc, changed_phase. cbn. by rewrite Hw3.
Qed.

(** ** Resolved waits *)

(** The state once a wait is retired and its effect settled. *)
Definition approval_closed (rid : string) (l : Ledger) (s : State) : State :=
  s |> set_st_PendingApprovals (delete rid (st_PendingApprovals s))
    |> set_st_PendingEffects l.1 |> set_st_CompletedEffects l.2.
Definition input_closed (l : Ledger) (s : State) : State :=
  s |> set_st_PendingInput None |> reopen_convergence
    |> set_st_PendingEffects l.1 |> set_st_CompletedEffects l.2.

Lemma applyApprovalResolved_Ok t current rid t' :
  applyApprovalResolved t current rid = Ok t' →
  st_Phase current = PhaseAwaitingApproval ∧ is_Some (st_PendingApprovals current !! rid) ∧
  ∃ l evs, settles (ledger (tn_State t)) l ∧ Forall finish_event evs ∧
    let s' := approval_closed rid l (tn_State t) in
    let t1 := mkTransition s' (tn_Events t ++ evs) (tn_Effects t) in
    t' = if bool_decide (delete rid (st_PendingApprovals (tn_State t)) = ∅)
         then move PhaseExecutingTools t1 else t1.
Proof.
  unfold applyApprovalResolved, requirePhase. intros H. inv_case. bool_prop.
  apply list_elem_of_singleton in Hx. split_and!; [done..|].
  edestruct closeEffectByIdentity_settles as (l & evs & Hl & He & Heq).
  exists l, evs. rewrite Heq. by split_and!.
Qed.

Lemma applyInputResolved_Ok t current rid t' :
  applyInputResolved t current rid = Ok t' →
  st_Phase current = PhaseAwaitingInput ∧
  (∃ i, st_PendingInput current = Some i ∧ is_RequestID i = rid) ∧
  ∃ l evs, settles (ledger (tn_State t)) l ∧ Forall finish_event evs ∧
    t' = move (if bool_decide (st_OpenCalls current = ∅) then PhaseSampling
               else PhaseExecutingTools)
           (mkTransition (input_closed l (tn_State t)) (tn_Events t ++ evs) (tn_Effects t)).
Proof.
  unfold applyInputResolved, requirePhase. intros H. inv_ok. bool_prop.
  apply list_elem_of_singleton in Hx.
  edestruct closeEffectByIdentity_settles as (l & evs & Hl & He & Heq).
  split_and!; [done| |].
  - destruct (st_PendingInput current) as [i|]; [|done]. exists i. by bool_prop.
  - exists l, evs. rewrite Heq. split_and!; [done|done|].
    by destruct (bool_decide (st_OpenCalls current = ∅)).
Qed.

(** ** Sample results *)

Lemma applyModelSampleResult_Ok s c t' :
  applyModelSampleResult (mkTransition s [] []) s c = Ok t' →
  st_Phase s = PhaseSampling ∧ blank (msr_SampleID c) = false ∧
  (∃ e, st_PendingEffects s !! msr_EffectID c = Some e ∧ sample_result_ready s c e = true) ∧
  ∃ l evs, settles (ledger s) l ∧ Forall quiet_event evs ∧
    let s1 := record_sample s c (s |> set_st_PendingEffects l.1 |> set_st_CompletedEffects l.2) in
    if msr_Error c == "" then sample_output (mkTransition s1 evs []) s c = Ok t'
    else t' = mkTransition s1 evs [].
Proof.
  unfold applyModelSampleResult, requirePhase, or_illegal. intros H.
  apply bind_Ok in H as (? & Hp & H). apply require_Ok in Hp.
  apply bind_Ok in H as (? & Hid & H). apply refuse_Ok in Hid.
  apply bind_Ok in H as (? & _ & H).
  destruct (st_PendingEffects s !! _) as [e|]; [|done].
  apply bind_Ok in H as (? & Hr & H). apply require_Ok in Hr.
  apply bind_Ok in H as (t1 & Hfin & H).
  destruct (finishEffect _ _ _ _) as [t0|] eqn:Hf; [|done]. injection Hfin as ->.
  apply finishEffect_settles in Hf as (l & evs & Hl & Hev & ->).
  apply bool_decide_eq_true, list_elem_of_singleton in Hp. bool_prop.
  split_and!; [done|done|by eexists|].
  exists l, (evs ++ [event_sample EventSampleFinished "" (msr_SampleID c)]).
  split_and!; [done| |].
  { apply Forall_app; split; [by apply finish_quiet|]. by constructor. }
  destruct (msr_Error c == ""); [exact H|by injection H as <-].
Qed.

Lemma record_text_frame current c s :
  ∃ cm po oe, record_text current c s
              = (s |> set_st_Commentary cm |> set_st_ProvisionalOutput po
                   |> set_st_OutputEligibility oe) ∧
    (oe = false ∨ po = st_ProvisionalOutput s ∧ oe = st_OutputEligibility s).
Proof.
  exists (st_Commentary (record_text current c s)), (st_ProvisionalOutput (record_text current c s)),
    (st_OutputEligibility (record_text current c s)).
  unfold record_text. destruct (is_commentary current c); [|destruct (negb _)];
    destruct s; (split; [reflexivity|auto]).
Qed.

(** A sample's text, then its tool calls if any. *)
Definition spoken (cm : list Commentary) (po : list string) (oe : bool) (s : State) : State :=
  s |> set_st_Commentary cm |> set_st_ProvisionalOutput po |> set_st_OutputEligibility oe.

Lemma sample_output_Ok s1 evs s c t' :
  sample_output (mkTransition s1 evs []) s c = Ok t' →
  ∃ cm po oe, (oe = false ∨ po = st_ProvisionalOutput s1 ∧ oe = st_OutputEligibility s1) ∧
    let s2 := spoken cm po oe s1 in
    (t' = mkTransition (set_st_Progress (set_pg_PendingIdentity "" (st_Progress s2)) s2) evs [] ∨
     applyToolCalls (mkTransition s2 evs []) s2 (msr_Calls c) = Ok t').
Proof.
  destruct (record_text_frame s c s1) as (cm & po & oe & Heq & Hoe).
  unfold sample_output, with_state. cbn [tn_State tn_Events tn_Effects]. rewrite Heq.
  intros H. exists cm, po, oe. split; [done|].
  destruct (msr_Calls c); [left; by injection H as <-|by right].
Qed.

(** The state a tool result leaves, as one update of the state before it. *)
Lemma waits_closed_frame b s :
  ∃ pi conv, waits_closed b s = (s |> set_st_PendingInput pi |> set_st_Convergence conv).
Proof.
  exists (st_PendingInput (waits_closed b s)), (st_Convergence (waits_closed b s)).
  destruct b, s; reflexivity.
Qed.

Lemma tool_closed_frame s c call l m item progress b :
  ∃ pi conv u r,
    tool_closed s c call l m item progress (waits_closed b s) =
    (changed (trr_Changes c)
       (s |> set_st_PendingInput pi |> set_st_Convergence conv
          |> set_st_PendingEffects l.1 |> set_st_CompletedEffects l.2
          |> set_st_OpenCalls (delete (trr_CallID c) (st_OpenCalls s))
          |> set_st_ClosedCalls (<[trr_CallID c := mkToolResultState (trr_CallID c) (cs_Name call)
                                     (trr_IsError c)]> (st_ClosedCalls s))
          |> set_st_PendingApprovals m
          |> set_st_UnresolvedToolFailure u |> set_st_RecoveryToolSucceeded r)
     |> set_st_WorkItem item |> set_st_Progress progress).
Proof.
  unfold tool_closed. destruct (waits_closed_frame b s) as (pi & conv & ->).
  match goal with |- context [note_tool_outcome s ?e ?x] =>
    destruct (note_tool_outcome_frame s e x) as (u & r & ->) end.
  by exists pi, conv, u, r.
Qed.

(** ** Aborted calls and rejected batches *)

Lemma applyAbortOpenCalls_Ok s Reason t' :
  applyAbortOpenCalls (mkTransition s [] []) s Reason = Ok t' →
  (st_Phase s = PhaseExecutingTools ∨ st_Phase s = PhaseAwaitingApproval) ∧
  ∃ l evs closed, settles (ledger s) l ∧ Forall quiet_event evs ∧
    CallLedger.steps (CallLedger.of_state s) (CallLedger.mk ∅ closed) ∧
    t' = move PhaseSampling (mkTransition
           (s |> set_st_OpenCalls ∅ |> set_st_ClosedCalls closed |> set_st_PendingApprovals ∅
              |> set_st_PendingEffects l.1 |> set_st_CompletedEffects l.2) evs []).
Proof.
  unfold applyAbortOpenCalls, requirePhase. intros H.
  apply bind_Ok in H as (? & Hp & H). apply require_Ok, bool_decide_eq_true in Hp.
  apply bind_Ok in H as (? & _ & H). apply bind_Ok in H as (? & _ & H). injection H as <-.
  split; [set_unfold; naive_solver|].
  set (ids := sort_strings (map_to_list (st_OpenCalls s)).*1).
  assert (Hids : ∀ id, id ∈ ids ↔ is_Some (st_OpenCalls s !! id)).
  { intros id. unfold ids. rewrite elem_of_sort_strings, list_elem_of_fmap. split.
    - intros ([k v] & -> & Hk%elem_of_map_to_list). by exists v.
    - intros [v Hv%elem_of_map_to_list]. by exists (id, v). }
  assert (Hnd : NoDup ids).
  { unfold ids. rewrite sort_strings_Permutation. apply NoDup_fst_map_to_list. }
  destruct (abort_calls_frame s Reason ids (mkTransition s [] [])) as (l1 & e1 & Hl1 & He1 & ->).
  edestruct closeEffectsByKind_settles as (l2 & e2 & Hl2 & He2 & ->).
  exists l2, (e1 ++ e2), (foldl (λ m id, <[id := closed_call s id]> m) (st_ClosedCalls s) ids).
  split_and!.
  - etransitivity; [exact Hl1|]. by destruct l1.
  - apply Forall_app; split; [done|by apply finish_quiet].
  - rewrite <- (foldl_delete_all (st_OpenCalls s) (st_OpenCalls s) ids); [|done|].
    + apply close_calls_steps; [done|]. intros id Hid. split; [done|by apply Hids].
    + intros id ([k v] & -> & Hk%elem_of_map_to_list)%list_elem_of_fmap. apply Hids. by exists v.
  - rewrite <- (foldl_delete_all (st_OpenCalls s) (st_OpenCalls s) ids); [reflexivity|done|].
    intros id ([k v] & -> & Hk%elem_of_map_to_list)%list_elem_of_fmap. apply Hids. by exists v.
Qed.

(** ** Step selection *)

(** The part of the state that advises the loop: the next action, the tool
    failure flags, a convergence and the repair budgets. *)
Definition advised (t t' : Transition) : Prop :=
  ∃ action failed recovered conv budgets evs,
    Forall quiet_event evs ∧
    tn_State t' = tn_State t |> set_st_NextAction action |> set_st_UnresolvedToolFailure failed
      |> set_st_RecoveryToolSucceeded recovered |> set_st_Convergence conv
      |> set_st_RepairBudgets budgets ∧
    tn_Events t' = tn_Events t ++ evs.

(** [s'] differs from [s] in advice only. *)
Definition same_but_advice (s s' : State) : Prop :=
  s' = s |> set_st_NextAction (st_NextAction s')
         |> set_st_UnresolvedToolFailure (st_UnresolvedToolFailure s')
         |> set_st_RecoveryToolSucceeded (st_RecoveryToolSucceeded s')
         |> set_st_Convergence (st_Convergence s') |> set_st_RepairBudgets (st_RepairBudgets s').

Lemma advised_intro t t' evs :
  Forall quiet_event evs → tn_Events t' = tn_Events t ++ evs →
  same_but_advice (tn_State t) (tn_State t') → advised t t'.
Proof. intros Hq He Hs. by eexists _, _, _, _, _, evs. Qed.

Lemma advised_state f t : same_but_advice (tn_State t) (f (tn_State t)) → advised t (with_state f t).
Proof. intros H. apply (advised_intro _ _ []); [done|by rewrite app_nil_r|done]. Qed.

Lemma advised_action a t : advised t (with_state (set_st_NextAction a) t).
Proof. apply advised_state. by destruct (tn_State t). Qed.
Lemma advised_clear t : advised t (with_state clear_tool_failure t).
Proof. apply advised_state. by destruct (tn_State t). Qed.

Lemma advised_trans t1 t2 t3 : advised t1 t2 → advised t2 t3 → advised t1 t3.
Proof.
  intros (?&?&?&?&?&e1&H1&Hs1&He1) (a&f&r&c&b&e2&H2&Hs2&He2).
  exists a, f, r, c, b, (e1 ++ e2). split_and!.
  - by apply Forall_app.
  - rewrite Hs2, Hs1. by destruct (tn_State t1).
  - by rewrite He2, He1, app_assoc.
Qed.

Lemma advised_refl t : advised t t.
Proof.
  apply (advised_intro _ _ []); [done|by rewrite app_nil_r|by destruct (tn_State t)].
Qed.

Lemma advised_converge c t : advised t (beginConvergence c t).
Proof.
  unfold beginConvergence. destruct (st_Convergence (tn_State t)); [apply advised_refl|].
  match goal with |- context [let '(_, _) := ?x in _] => destruct x end.
  eapply advised_intro; [|reflexivity|by destruct t as [[] ? ?]]; by repeat constructor.
Qed.

Lemma advised_budget kind key limit t t' :
  spendRepairBudget kind key limit t = Ok t' → advised t t'.
Proof.
  unfold spendRepairBudget. intros H. inv_case.
  eapply advised_intro; [|reflexivity|by destruct t as [[] ? ?]]; by repeat constructor.
Qed.

Lemma advised_spend key kind limit action t t' :
  spend key kind limit action t = Ok t' → advised t t'.
Proof.
  unfold spend. intros H. destruct (limit =? 0); [injection H as <-; apply advised_converge|].
  destruct (spendRepairBudget kind key limit t) as [t1|e] eqn:E.
  - injection H as <-. eapply advised_trans; [by eapply advised_budget|apply advised_action].
  - destruct e; try done. injection H as <-. apply advised_converge.
Qed.

Lemma advised_finalize t s c t' : finalize_step t s c = Ok t' → advised t t'.
Proof.
  unfold finalize_step. intros H.
  destruct (negb _); [injection H as <-; apply advised_action|].
  match type of H with (if ?b then _ else _) = _ => destruct b end;
    [|injection H as <-; apply advised_action].
  apply bind_Ok in H as (t1 & H1%advised_budget & H). injection H as <-.
  eapply advised_trans; [apply advised_action|]. eapply advised_trans; [exact H1|].
  apply advised_state. by destruct (tn_State t1).
Qed.

Lemma applyEvaluateTurnStep_advised t s key t' :
  applyEvaluateTurnStep t s key = Ok t' → advised t t'.
Proof.
  unfold applyEvaluateTurnStep. intros H.
  apply bind_Ok in H as (? & _ & H). apply bind_Ok in H as (? & _ & H).
  cbn zeta in H.
  set (t1 := if _ && _ then with_state clear_tool_failure _ else _) in H.
  assert (Hb : advised t t1).
  { eapply advised_trans; [apply advised_action|]. unfold t1.
    destruct (_ && _); [apply advised_clear|apply advised_refl]. }
  clearbody t1. eapply advised_trans; [exact Hb|]. clear Hb.
  revert H. generalize (if st_UnresolvedToolFailure s && st_RecoveryToolSucceeded s
                        then clear_tool_failure s else s). clear s. intros s H.
  repeat match type of H with
  | (if ?b then _ else _) = _ => destruct b
  | match ?c with Some _ => _ | None => _ end = _ => destruct c
  end; try (injection H as <-; apply advised_action); try by eapply advised_spend.
  - by eapply advised_finalize.
  - apply bind_Ok in H as (t2 & H2%advised_spend & H). injection H as <-.
    eapply advised_trans; [exact H2|]. case_match; [apply advised_clear|apply advised_refl].
Qed.

(** ** The terminal transaction *)

Lemma settle_failure_Ok t s command d d' t' :
  settle_failure t s command d = Ok (d', t') →
  blank (td_Message d) = false ∧ td_Kind d' = td_Kind d ∧
  ∃ conv, t' = with_state (set_st_Convergence conv) t.
Proof.
  unfold settle_failure. intros H. apply bind_Ok in H as (? & Hb%refuse_Ok & H). split; [done|].
  case_bool_decide; [injection H as <- <-; split; [done|];
    exists (st_Convergence (tn_State t)); by destruct t as [[] ? ?]|].
  destruct (st_Convergence s) as [c|]; [|done]. apply bind_Ok in H as (? & _ & H).
  injection H as <- <-. split; [done|]. by eexists.
Qed.

(** A terminal request finds the turn at rest and prepares one decision. *)
Lemma applyTerminalRequested_Ok s c t' :
  applyTerminalRequested (mkTransition s [] []) s c = Ok t' →
  (st_Phase s ≠ PhaseCommitting ∧ st_OpenCalls s = ∅ ∧ st_PendingApprovals s = ∅ ∧
   st_PendingInput s = None ∧ st_ActiveSampleID s = "" ∧ st_PendingEffects s = ∅) ∧
  ∃ d conv,
    td_Kind d = td_Kind (terminal_decision c) ∧
    (td_Kind d = TerminalCompleted →
       d = terminal_decision c ∧ st_Phase s = PhaseSampling ∧ validateCompletionReadiness s = Ok tt ∧
       conv = st_Convergence s) ∧
    (td_Kind d ≠ TerminalCompleted → blank (td_Message (terminal_decision c)) = false) ∧
    let t := mkTransition (s |> set_st_Convergence conv) [] []
             |> with_state (λ s, s |> set_st_PendingTerminal (Some d) |> freeze)
             |> move PhaseCommitting |> emit (event_terminal EventTerminalPrepared d) in
    t' = if bool_decide (st_Journal s = JournalOpen) || po_JournalRequired (st_Policy s)
         then requestEffect (terminalJournalOutcome s d).1 (json_terminal d)
                ("journal:" +:+ terminal_kind_string (td_Kind d)) "" t
         else t.
Proof.
  unfold applyTerminalRequested. intros H.
  do 6 (apply bind_Ok in H as ([] & Hg & H); revert Hg). intros ??????. bool_prop.
  apply bind_Ok in H as ([d t] & Hd & H). injection H as <-.
  autorewrite with check in *. bool_prop. split; [done|].
  destruct (td_Kind (terminal_decision c)) eqn:Hk.
  - apply bind_Ok in Hd as ([] & Hp%require_Ok & Hd). apply bind_Ok in Hd as ([] & Hr & Hd).
    injection Hd as <- <-. exists (terminal_decision c), (st_Convergence s).
    unfold or_illegal in Hr. bool_prop. split_and!; try done.
    intros _. split_and!; try done. by destruct (validateCompletionReadiness s) as [[]|].
  - apply settle_failure_Ok in Hd as (Hb & Hk' & conv & ->). exists d, conv.
    split_and!; try done; congruence.
  - apply settle_failure_Ok in Hd as (Hb & Hk' & conv & ->). exists d, conv.
    split_and!; try done; congruence.
Qed.
