(* ===== verification/Kernel.v ===== *)
(** The turn kernel refines the machines of [TurnSpec]: shared inversion lemmas
    of [Reducer.Apply], reachability, and the simulation of every handler by
    the lifecycle, the effect ledger and the tool-call ledger. *)
From S2P Require Import Prelude.
From S2P Require Import GoStrings.
From S2P Require Import Sha256.
From S2P Require Import Json.
From S2P Require Import ToolResult.
From S2P Require Import Provider.
From S2P Require Import Assembly.
From S2P Require Import TurnState.
From S2P Require Import WorkItem.
From S2P Require Import Invariants.
From S2P Require Import Command.
From S2P Require Import Effects.
From S2P Require Import Validity.
From S2P Require Import TurnSpec.
From S2P Require Import Sampling.
From S2P Require Import Reducer.
From S2P Require Import Frames.

(** ** Applying a command *)

Lemma Apply_Ok s command t :
  Apply s command = Ok t ↔
  Valid s ∧ Terminal (st_Phase s) = false ∧
  dispatch (mkTransition s [] []) s command = Ok t ∧ Valid (tn_State t).
Proof.
  unfold Apply. rewrite <- !Validate_Valid. destruct (Validate s) as [[]|e] eqn:E; [|naive_solver].
  rewrite then_Ok, refuse_Ok, bind_Ok. split.
  - intros (Ht & t1 & Hd & H). destruct (Validate (tn_State t1)) as [[]|e] eqn:E1; [|done].
    by simplify_eq.
  - intros (_ & Ht & Hd & Hv). split; [done|].
    exists t. split; [done|]. by rewrite Hv.
Qed.

(** States of a run. *)
Definition run (s : State) (commands : list Command) : res kerror State :=
  foldM (λ s c, t ← Apply s c; Ok (tn_State t)) commands s.

Inductive reachable : State → Prop :=
  | reachable_new intent mode profile policy :
      reachable (NewStateWithPolicy intent mode profile policy)
  | reachable_apply s command t :
      reachable s → Apply s command = Ok t → reachable (tn_State t).

(** Inversion of a handler: split its guards, name its result. *)
Ltac handler H :=
  unfold requirePhase, or_illegal in H; inv_case; bool_prop;
  repeat match goal with
  | Hp : st_Phase _ ∈ [_] |- _ => apply list_elem_of_singleton in Hp
  | Hp : st_Phase _ ∈ _ :: _ |- _ => set_unfold in Hp
  end.


Lemma quiet_prefix p evs evs' :
  Forall quiet_event evs → Lifecycle.path p (evs ++ evs') = Lifecycle.path p evs'.
Proof. intros H. by rewrite Lifecycle.path_app, Lifecycle.path_quiet. Qed.

(** What a command does to the phase: quiet events, then at most one move. *)
Inductive phase_step (t t' : Transition) : Prop :=
  | phase_keeps evs :
      Forall quiet_event evs → st_Phase (tn_State t') = st_Phase (tn_State t) →
      tn_Events t' = tn_Events t ++ evs → phase_step t t'
  | phase_moves evs evs' q :
      tn_Events t' = tn_Events t ++ evs ++
        mkEvent EventTransition (Some (st_Phase (tn_State t))) (Some q) "" "" "" 0 None :: evs' →
      st_Phase (tn_State t') = q → Forall quiet_event evs → Forall quiet_event evs' →
      Lifecycle.edge (st_Phase (tn_State t)) q = true → phase_step t t'.

Lemma phase_step_path s t' :
  phase_step (mkTransition s [] []) t' →
  Lifecycle.path (st_Phase s) (tn_Events t') = Some (st_Phase (tn_State t')).
Proof.
  intros [evs Hq Hp ->|evs evs' q -> Hp Hq Hq' He]; cbn in *.
  - by rewrite Lifecycle.path_quiet, Hp.
  - rewrite quiet_prefix by done. cbn. rewrite bool_decide_eq_true_2, He by done. cbn.
    by rewrite Lifecycle.path_quiet, Hp.
Qed.

(** Splitting a command into its handler's successful paths. *)
Ltac quiet :=
  repeat match goal with
  | |- Forall _ [] => apply Forall_nil_2
  | |- Forall quiet_event (_ :: _) => apply Forall_cons_2; [by unfold quiet_event|]
  | |- Forall _ (_ ++ _) => apply Forall_app_2
  | H : Forall finish_event ?l |- Forall quiet_event ?l => exact (finish_quiet l H)
  | _ => assumption
  end.

(** Replace the closed effects met in the goal by a settlement. *)
Ltac settle_goal :=
  repeat match goal with
  | |- context [closeEffectByIdentity ?k ?i ?b ?m ?t] =>
      let l := fresh "l" in let e := fresh "evs" in let Hl := fresh "Hl" in
      let He := fresh "He" in
      destruct (closeEffectByIdentity_settles k i b m t) as (l & e & Hl & He & ->)
  | |- context [closeFirstEffectByKind ?k ?b ?m ?t] =>
      let l := fresh "l" in let e := fresh "evs" in let Hl := fresh "Hl" in
      let He := fresh "He" in
      destruct (closeFirstEffectByKind_settles k b m t) as (l & e & Hl & He & ->)
  | H : finishEffect _ _ _ _ = Ok _ |- _ =>
      let l := fresh "l" in let e := fresh "evs" in let Hl := fresh "Hl" in
      let He := fresh "He" in
      apply finishEffect_settles in H as (l & e & Hl & He & ->)
  end.

(** ** One command, seen by each component *)

(** Changes accumulate under increasing revisions; only a recovery, before the
    turn starts, installs a draft. *)
Definition mutation_step (s s' : State) : Prop :=
  (st_MutationRevision s' = st_MutationRevision s ∧ st_Changes s' = st_Changes s) ∨
  (∃ changes, changes ≠ [] ∧ st_MutationRevision s' = u64 (st_MutationRevision s + 1) ∧
     st_Changes s' = st_Changes s ++ changes ∧ st_Completion s' = None ∧
     st_Workspace s' = None ∧ st_Verification s' = not_evaluated ∧ st_Journal s' = JournalOpen) ∨
  (st_Phase s = PhaseCreated ∧ st_MutationRevision s' = 1 ∧ st_Changes s' ≠ [] ∧
     st_Journal s' = JournalOpen).

(** The journal opens with a change and is finalized by the terminal transaction. *)
Definition journal_step (s s' : State) : Prop :=
  st_Journal s' = st_Journal s ∨
  (st_Journal s' = JournalOpen ∧ st_Changes s' ≠ []) ∨
  (st_Phase s = PhaseCommitting ∧ ∃ d, st_PendingTerminal s = Some d ∧
     st_Journal s' = (terminalJournalOutcome s d).2).

(** Cancellation is accepted at most once. *)
Definition cancel_step (s s' : State) : Prop :=
  st_Cancellation s' = st_Cancellation s ∨
  (ca_Accepted (st_Cancellation s) = false ∧
   ∃ reason, blank reason = false ∧ st_Cancellation s' = mkCancellationState true true reason).

(** The terminal transaction: nothing, prepare, or commit. *)
Inductive terminal_step (s s' : State) : Prop :=
  | terminal_idle :
      st_PendingTerminal s' = st_PendingTerminal s → st_Terminal s' = st_Terminal s →
      st_FinalOutput s' = st_FinalOutput s →
      ug_Frozen (st_Usage s') = ug_Frozen (st_Usage s) →
      (st_Phase s = PhaseCommitting →
         st_Phase s' = PhaseCommitting ∧ st_Usage s' = st_Usage s ∧
         st_Context s' = st_Context s ∧ st_ProvisionalOutput s' = st_ProvisionalOutput s ∧
         st_OutputEligibility s' = st_OutputEligibility s) →
      (st_Phase s' = PhaseCommitting → st_Phase s = PhaseCommitting) →
      (Terminal (st_Phase s') = true → Terminal (st_Phase s) = true) →
      terminal_step s s'
  | terminal_prepare d :
      st_Phase s ≠ PhaseCommitting → st_Phase s' = PhaseCommitting →
      st_PendingTerminal s' = Some d → st_Terminal s' = st_Terminal s →
      st_FinalOutput s' = st_FinalOutput s →
      st_ProvisionalOutput s' = st_ProvisionalOutput s →
      st_Usage s' = set_ug_Frozen true (st_Usage s) →
      st_Context s' = set_cx_Frozen true (st_Context s) →
      terminal_step s s'
  | terminal_commit d :
      st_Phase s = PhaseCommitting → st_PendingTerminal s = Some d →
      st_Phase s' = phaseForTerminal (td_Kind d) →
      st_PendingTerminal s' = None → st_Terminal s' = Some d →
      st_FinalOutput s' = st_ProvisionalOutput s → st_ProvisionalOutput s' = [] →
      st_Usage s' = st_Usage s → st_Context s' = st_Context s →
      terminal_step s s'.

(** A sample keeps its identity and never gets retries or waits refunded. *)
Definition sample_le (a b : ModelSampleState) : Prop :=
  ms_ID b = ms_ID a ∧
  (ms_ProviderRetries b = ms_ProviderRetries a ∧
   bg_TransientRetries (ms_RetryBudget b) = bg_TransientRetries (ms_RetryBudget a) ∧
   bg_RateLimitRetries (ms_RetryBudget b) = bg_RateLimitRetries (ms_RetryBudget a)
   ∨ ms_ProviderRetries b = u32 (ms_ProviderRetries a + 1) ∧
     (bg_TransientRetries (ms_RetryBudget b) = u32 (bg_TransientRetries (ms_RetryBudget a) + 1) ∧
      bg_RateLimitRetries (ms_RetryBudget b) = bg_RateLimitRetries (ms_RetryBudget a)
      ∨ bg_TransientRetries (ms_RetryBudget b) = bg_TransientRetries (ms_RetryBudget a) ∧
        bg_RateLimitRetries (ms_RetryBudget b) = u32 (bg_RateLimitRetries (ms_RetryBudget a) + 1))) ∧
  bg_RateLimitWaited (ms_RetryBudget a) ≤ bg_RateLimitWaited (ms_RetryBudget b).
Definition samples_step (s s' : State) : Prop :=
  ∀ id a, st_SampleLedger s !! id = Some a →
    ∃ b, st_SampleLedger s' !! id = Some b ∧ sample_le a b.

Definition continuation_step (s s' : State) : Prop :=
  st_Continuation s' = st_Continuation s ∨
  ∃ c, st_Continuation s' = Some c ∧
    cc_Sequence c = match st_Continuation s with
                    | Some c0 => u64 (cc_Sequence c0 + 1)
                    | None => 1
                    end.

(** Eligible output is the output that was released. *)
Definition output_step (s s' : State) : Prop :=
  st_OutputEligibility s' = true → Terminal (st_Phase s') = false →
  st_ProvisionalOutput s' = st_ProvisionalOutput s ∧
  (st_OutputEligibility s = true ∨ st_ProvisionalOutput s ≠ []).

(** What never changes, but for a recovery's profile and a retired policy. *)
Definition identity_step (s s' : State) : Prop :=
  st_Intent s' = st_Intent s ∧ st_Mode s' = st_Mode s ∧
  (st_Policy s' = st_Policy s ∨ st_Policy s' = retire_policy (st_Policy s)) ∧
  (st_ProfileRevision s' = st_ProfileRevision s ∨ st_Phase s = PhaseCreated).

(** After an accepted cancellation no sample and no tool call is admitted. *)
Definition admission_step (s s' : State) : Prop :=
  ca_Accepted (st_Cancellation s) = true →
  dom (st_SampleLedger s') ⊆ dom (st_SampleLedger s) ∧
  dom (st_OpenCalls s') ⊆ dom (st_OpenCalls s).

(** A recorded verification is only ever reset. *)
Definition verification_step (s s' : State) : Prop :=
  st_Verification s' = st_Verification s ∨ st_Verification s' = not_evaluated.

(** How many effects a command can request: one per proposed call, or one. *)
Definition command_requests (c : Command) : nat :=
  match c with
  | ModelSampleResultReceived c => length (msr_Calls c)
  | ToolCallsProposed calls => length calls
  | _ => 1
  end.

(** At most [n] effects are requested. *)
Record Sim (n : nat) (s : State) (t : Transition) : Prop := {
  sim_phase : phase_step (mkTransition s [] []) t;
  sim_effects : EffectLedger.steps n (EffectLedger.of_state s)
                  (EffectLedger.of_state (tn_State t));
  sim_calls : CallLedger.steps (CallLedger.of_state s) (CallLedger.of_state (tn_State t));
  sim_mutation : mutation_step s (tn_State t);
  sim_journal : journal_step s (tn_State t);
  sim_cancel : cancel_step s (tn_State t);
  sim_terminal : terminal_step s (tn_State t);
  sim_verification : verification_step s (tn_State t);
  sim_admission : admission_step s (tn_State t);
  sim_samples : samples_step s (tn_State t);
  sim_continuation : continuation_step s (tn_State t);
  sim_output : output_step s (tn_State t);
  sim_identity : identity_step s (tn_State t);
}.

(** Solvers for the fields a handler leaves alone. *)
Lemma sample_le_refl a : sample_le a a.
Proof. split_and!; auto. lia. Qed.
Lemma samples_same s s' : st_SampleLedger s' = st_SampleLedger s → samples_step s s'.
Proof. unfold samples_step. intros -> id a Ha. exists a. split; [done|apply sample_le_refl]. Qed.
Lemma samples_insert s s' id b :
  Valid s → st_SampleLedger s' = <[id := b]> (st_SampleLedger s) →
  (∀ a, st_SampleLedger s !! id = Some a → ms_ID a = id → sample_le a b) → samples_step s s'.
Proof.
  unfold samples_step. intros Hv Hs Hle id' a Ha. rewrite Hs. destruct (decide (id' = id)) as [->|].
  - exists b. rewrite lookup_insert_eq. split; [done|]. apply Hle; [done|].
    by destruct (v_samples _ Hv _ _ Ha) as (_ & ? & _).
  - exists a. rewrite lookup_insert_ne by done. split; [done|apply sample_le_refl].
Qed.

Lemma effects_same n s s' :
  st_NextEffectSequence s' = st_NextEffectSequence s →
  st_PendingEffects s' = st_PendingEffects s →
  st_CompletedEffects s' = st_CompletedEffects s →
  EffectLedger.steps n (EffectLedger.of_state s) (EffectLedger.of_state s').
Proof. unfold EffectLedger.of_state. intros -> -> ->. constructor. Qed.
Lemma calls_same s s' :
  st_OpenCalls s' = st_OpenCalls s → st_ClosedCalls s' = st_ClosedCalls s →
  CallLedger.steps (CallLedger.of_state s) (CallLedger.of_state s').
Proof. unfold CallLedger.of_state. by intros -> ->. Qed.
Lemma admission_same s s' :
  dom (st_SampleLedger s') ⊆ dom (st_SampleLedger s) →
  dom (st_OpenCalls s') ⊆ dom (st_OpenCalls s) → admission_step s s'.
Proof. by intros. Qed.
Lemma admission_refused s s' :
  ca_Accepted (st_Cancellation s) = false → admission_step s s'.
Proof. unfold admission_step. congruence. Qed.
Lemma admission_known s s' id a b :
  st_SampleLedger s' = <[id := b]> (st_SampleLedger s) → st_SampleLedger s !! id = Some a →
  st_OpenCalls s' = st_OpenCalls s → admission_step s s'.
Proof.
  intros Hs Ha Hc _. rewrite Hs, Hc, dom_insert_L. split; [|done].
  apply elem_of_dom_2 in Ha. set_solver.
Qed.
Lemma admission_active s s' id b :
  Valid s → Valid s' → st_ActiveSampleID s = id →
  st_SampleLedger s' = <[id := b]> (st_SampleLedger s) → st_OpenCalls s' = st_OpenCalls s →
  admission_step s s'.
Proof.
  intros Hv Hv' Ha Hs Hc. destruct (decide (id = "")) as [->|Hne].
  - destruct (v_samples _ Hv' "" b) as (Hb & _); [by rewrite Hs, lookup_insert_eq|done].
  - destruct (v_active _ Hv) as (a & Hl & _); [congruence|]. rewrite Ha in Hl.
    by eapply admission_known.
Qed.

Lemma output_same s s' :
  st_OutputEligibility s' = st_OutputEligibility s →
  st_ProvisionalOutput s' = st_ProvisionalOutput s → output_step s s'.
Proof. unfold output_step. intros -> ->. auto. Qed.
Lemma output_released s s' :
  st_ProvisionalOutput s' = st_ProvisionalOutput s → st_ProvisionalOutput s ≠ [] →
  output_step s s'.
Proof. unfold output_step. auto. Qed.
Lemma output_dropped s s' : st_OutputEligibility s' = false → output_step s s'.
Proof. unfold output_step. by intros ->. Qed.

Lemma terminal_kept s s' :
  st_Phase s' = st_Phase s → st_PendingTerminal s' = st_PendingTerminal s →
  st_Terminal s' = st_Terminal s → st_FinalOutput s' = st_FinalOutput s →
  ug_Frozen (st_Usage s') = ug_Frozen (st_Usage s) →
  (st_Phase s ≠ PhaseCommitting ∨
   st_Usage s' = st_Usage s ∧ st_Context s' = st_Context s ∧
   st_ProvisionalOutput s' = st_ProvisionalOutput s ∧
   st_OutputEligibility s' = st_OutputEligibility s) → terminal_step s s'.
Proof. intros Hp ???? H. apply terminal_idle; rewrite ?Hp; try done. destruct H; [done|tauto]. Qed.
Lemma terminal_moved s s' :
  st_Phase s ≠ PhaseCommitting →
  bool_decide (st_Phase s' = PhaseCommitting) || Terminal (st_Phase s') = false →
  st_PendingTerminal s' = st_PendingTerminal s → st_Terminal s' = st_Terminal s →
  st_FinalOutput s' = st_FinalOutput s → ug_Frozen (st_Usage s') = ug_Frozen (st_Usage s) →
  terminal_step s s'.
Proof.
  intros Hp Hq ????. bool_prop. apply terminal_idle; try done. congruence.
Qed.

Lemma effects_update n s s' id e e' :
  EffectLedger.of_state s' = EffectLedger.mk (st_NextEffectSequence s)
    (<[id := e']> (st_PendingEffects s)) (st_CompletedEffects s) →
  st_PendingEffects s !! id = Some e → EffectLedger.same_effect e e' → EffectLedger.live e' →
  EffectLedger.steps n (EffectLedger.of_state s) (EffectLedger.of_state s').
Proof.
  intros -> He Hs Hl. apply (EffectLedger.steps_le 0); [lia|]. apply EffectLedger.steps_once.
  by apply (EffectLedger.step_update (EffectLedger.of_state s) id e e').
Qed.

Lemma effects_settle n s s' l :
  EffectLedger.of_state s' = EffectLedger.mk (st_NextEffectSequence s) l.1 l.2 →
  settles (ledger s) l →
  EffectLedger.steps n (EffectLedger.of_state s) (EffectLedger.of_state s').
Proof.
  intros -> H. apply (EffectLedger.steps_le 0); [lia|].
  exact (settles_steps (st_NextEffectSequence s) _ _ H).
Qed.

Lemma effects_settle2 n s s' l l' :
  EffectLedger.of_state s' = EffectLedger.mk (st_NextEffectSequence s) l'.1 l'.2 →
  settles (ledger s) l → settles (l.1, l.2) l' →
  EffectLedger.steps n (EffectLedger.of_state s) (EffectLedger.of_state s').
Proof.
  intros -> H H'. apply (EffectLedger.steps_le 0); [lia|]. apply (settles_steps (st_NextEffectSequence s) (ledger s)).
  etransitivity; [exact H|]. by destruct l.
Qed.

Lemma effects_request n s s' kind payload key callID :
  (1 ≤ n)%nat →
  EffectLedger.of_state s' = EffectLedger.of_state (tn_State
    (requestEffect kind payload key callID (mkTransition s [] []))) →
  EffectLedger.steps n (EffectLedger.of_state s) (EffectLedger.of_state s').
Proof.
  intros Hn ->. apply (EffectLedger.steps_le 1); [done|]. apply EffectLedger.steps_once.
  by apply (EffectLedger.step_request (EffectLedger.of_state s) (new_effect _ _ _ _ _)).
Qed.

(** A field of [Sim] the handler leaves alone, or changes in the one way the
    machine has for it. *)
Ltac sample_kept :=
  let a0 := fresh "a0" in let Ha0 := fresh "Ha0" in
  intros a0 Ha0 ?; unfold sample_le; cbn in *;
  first [ congruence
        | by (rewrite ?Ha0 in *; cbn in *; repeat case_match; simplify_eq; cbn in *;
              (split_and!; [done|auto 6|lia])) ].
(** The handler's phase guard excludes committing. *)
Ltac outside_commit := intros ?; destruct_or?; congruence.
Ltac output_kept :=
  first [ apply output_same; reflexivity | apply output_dropped; reflexivity
        | apply output_released; [reflexivity|assumption] ].
Ltac sim_field :=
  try lazymatch goal with
  | |- phase_step _ _ =>
      eapply phase_keeps; [|reflexivity|cbn; rewrite ?app_nil_r; reflexivity]; by quiet
  | |- EffectLedger.steps _ _ _ =>
      first [ apply effects_same; reflexivity
            | eapply effects_settle; [reflexivity|eassumption]
            | eapply effects_settle2; [reflexivity|eassumption|eassumption]
            | eapply effects_update; [reflexivity|eassumption|done|first [by left|by right]]
            | eapply effects_request; [lia|reflexivity] ]
  | |- CallLedger.steps _ _ => apply calls_same; reflexivity
  | |- mutation_step _ _ => left; split; reflexivity
  | |- journal_step _ _ => left; reflexivity
  | |- cancel_step _ _ => left; reflexivity
  | |- continuation_step _ _ => left; reflexivity
  | |- terminal_step _ _ =>
      first
      [ apply terminal_kept; [reflexivity..|];
        first [ right; split_and!; reflexivity | left; outside_commit ]
      | apply terminal_moved; [outside_commit|reflexivity..] ]
  | |- verification_step _ _ => first [left; reflexivity | right; reflexivity]
  | |- admission_step _ _ =>
      first [ apply admission_same; reflexivity
            | by apply admission_refused
            | eapply admission_known; [reflexivity|eassumption|reflexivity]
            | eapply admission_active; [eassumption|eassumption| |reflexivity|reflexivity]; by bool_prop ]
  | |- samples_step _ _ =>
      first [ apply samples_same; reflexivity
            | eapply samples_insert; [done|reflexivity|]; sample_kept ]
  | |- output_step _ _ => output_kept
  | |- identity_step _ _ => split_and!; first [reflexivity | left; reflexivity | by right]
  end.

(** The one move a handler ends with. *)
Ltac sim_move_with before after :=
  eapply (phase_moves _ _ before after); cbn;
  [rewrite ?app_nil_r, <- ?app_assoc; reflexivity|reflexivity|by quiet|by quiet|].
Ltac sim_move :=
  first [ sim_move_with (@nil Event) (@nil Event)
        | match goal with
          | _ : Forall finish_event ?l, _ : Forall finish_event ?l' |- _ =>
              first [ sim_move_with (l ++ l') (@nil Event) | sim_move_with (l' ++ l) (@nil Event)
                    | let e := open_constr:([_]) in sim_move_with (l ++ l') e
                    | let e := open_constr:([_]) in sim_move_with (l' ++ l) e ]
          | _ : Forall finish_event ?l |- _ => sim_move_with l (@nil Event)
          end
        | let e := open_constr:([_]) in sim_move_with e (@nil Event)
        | let e := open_constr:([_]) in sim_move_with (@nil Event) e
        | let e := open_constr:([_; _]) in sim_move_with (@nil Event) e ].

(** The edge is decided by the handler's phase guard. *)
Ltac by_phase :=
  cbn [tn_State];
  match goal with
  | H : st_Phase ?s = _ |- context [st_Phase ?s] => by rewrite H
  end.

(** A handler whose successful paths are plain updates. *)
Ltac sim_handler H := handler H; split; sim_field.

Section Handlers.
Context (s : State) (t : Transition) (Hv : Valid s) (Hv' : Valid (tn_State t)).
Notation t0 := (mkTransition s [] []).

Lemma sim_sample_requested id : applyModelSampleRequested t0 s id = Ok t → Sim 1 s t.
Proof. unfold applyModelSampleRequested. intros H. sim_handler H. Qed.
Lemma sim_sample_started id attempt : applyModelSampleStarted t0 s id attempt = Ok t → Sim 1 s t.
Proof. unfold applyModelSampleStarted. intros H. sim_handler H. Qed.
Lemma sim_sample_finished id usage context err :
  applyModelSampleFinished t0 s id usage context err = Ok t → Sim 1 s t.
Proof. unfold applyModelSampleFinished. intros H. sim_handler H. Qed.
Lemma sim_sample_progress eid id attempt a :
  applyModelSampleProgress t0 s eid id attempt a = Ok t → Sim 1 s t.
Proof. unfold applyModelSampleProgress. intros H. sim_handler H. Qed.
Lemma sim_supplemental source id usage :
  applySupplementalUsage t0 s source id usage = Ok t → Sim 1 s t.
Proof. unfold applySupplementalUsage. intros H. sim_handler H. Qed.
Lemma sim_provider_retry c : applyProviderRetry t0 s c = Ok t → Sim 1 s t.
Proof. unfold applyProviderRetry, reserve_retry. intros H. sim_handler H. Qed.
Lemma sim_provider_wait id delay until : applyProviderWait t0 s id delay until = Ok t → Sim 1 s t.
Proof. unfold applyProviderWait. intros H. sim_handler H. Qed.
Lemma sim_model_text text : applyModelText t0 s text = Ok t → Sim 1 s t.
Proof. unfold applyModelText. intros H. sim_handler H. Qed.
Lemma sim_release : applyReleaseOutput t0 s = Ok t → Sim 1 s t.
Proof. unfold applyReleaseOutput. intros H. sim_handler H. Qed.
Lemma sim_discard reason : applyDiscardOutput t0 s reason = Ok t → Sim 1 s t.
Proof.
  unfold applyDiscardOutput. intros H. handler H.
  destruct_or?; split; sim_field.
Qed.
Lemma sim_repair kind key limit : applyRepairRequested t0 s kind key limit = Ok t → Sim 1 s t.
Proof. unfold applyRepairRequested, spendRepairBudget. intros H. sim_handler H. Qed.
Lemma sim_observe sig id digest n : applyObserveProgress t0 s sig id digest n = Ok t → Sim 1 s t.
Proof.
  unfold applyObserveProgress, beginConvergence. intros H. handler H.
  repeat case_match; simplify_eq; split; sim_field.
Qed.
Lemma sim_bind c : applyBindWorkItem t0 s c = Ok t → Sim 1 s t.
Proof. unfold applyBindWorkItem. intros H. sim_handler H. Qed.
Lemma sim_convergence c : applyConvergenceRequested t0 s c = Ok t → Sim 1 s t.
Proof.
  unfold applyConvergenceRequested, beginConvergence. intros H. handler H.
  repeat case_match; simplify_eq; split; sim_field.
Qed.
Lemma sim_finalization : applyConvergenceFinalizationStarted t0 s = Ok t → Sim 1 s t.
Proof. unfold applyConvergenceFinalizationStarted. intros H. sim_handler H. Qed.
Lemma sim_cancel_requested reason : applyCancelRequested t0 s reason = Ok t → Sim 1 s t.
Proof.
  unfold applyCancelRequested. intros H. sim_handler H. right. eauto.
Qed.
Lemma sim_continuation_recorded cursor :
  applyContinuationRecorded t0 s cursor = Ok t → Sim 1 s t.
Proof.
  unfold applyContinuationRecorded. intros H. sim_handler H. right. eauto.
Qed.
Lemma sim_effect_started eid attempt : applyEffectStarted t0 s eid attempt = Ok t → Sim 1 s t.
Proof. unfold applyEffectStarted. intros H. sim_handler H. Qed.
Lemma sim_effect_requeued eid : applyEffectRequeued t0 s eid = Ok t → Sim 1 s t.
Proof. unfold applyEffectRequeued. intros H. sim_handler H. Qed.
Lemma sim_invalidated reason : applyCompletionInvalidated t0 s reason = Ok t → Sim 1 s t.
Proof. unfold applyCompletionInvalidated. intros H. sim_handler H. Qed.
Lemma sim_reconciled mutation changes :
  applyWorkspaceReconciled t0 s mutation changes = Ok t → Sim 1 s t.
Proof.
  unfold applyWorkspaceReconciled. intros H. handler H.
  destruct (bool_decide (changes = [])); split; sim_field.
Qed.

(** Handlers that move. *)
Lemma sim_start : dispatch t0 s StartTurn = Ok t → Sim 1 s t.
Proof. cbn. intros H. sim_handler H. sim_move. by_phase. Qed.
Lemma sim_prepared : dispatch t0 s PreparationFinished = Ok t → Sim 1 s t.
Proof. cbn. intros H. sim_handler H. sim_move. by_phase. Qed.

Lemma sim_recovery c : applyRecoveryRequested t0 s c = Ok t → Sim 1 s t.
Proof.
  unfold applyRecoveryRequested. intros H. handler H.
  case_bool_decide; cbn; split; sim_field.
  - right; right. done.
  - right; left. done.
Qed.

Lemma sim_approval_required rid cid : applyApprovalRequired t0 s rid cid = Ok t → Sim 1 s t.
Proof.
  unfold applyApprovalRequired. intros H. handler H.
  destruct (bool_decide (st_Phase s = PhaseExecutingTools)) eqn:E; bool_prop; cbn;
    destruct_or?; split; sim_field.
  all: sim_move; by_phase.
Qed.

Lemma sim_approval_resolved rid : applyApprovalResolved t0 s rid = Ok t → Sim 1 s t.
Proof.
  intros (Hp & _ & l & evs & Hl & He & ->)%applyApprovalResolved_Ok. cbn in *.
  case_bool_decide; split; sim_field. sim_move. by_phase.
Qed.

Lemma sim_approval_result c : applyApprovalResult t0 s c = Ok t → Sim 1 s t.
Proof.
  unfold applyApprovalResult. intros H. handler H.
  all: match goal with H : applyApprovalResolved _ _ _ = Ok _ |- _ =>
         apply applyApprovalResolved_Ok in H as (Hp & _ & l & evs & Hl & He & ->) end.
  all: settle_goal; cbn in *.
  - unfold applyCancelRequested in H. handler H.
    case_bool_decide; cbn in *; split; sim_field.
    all: lazymatch goal with
         | |- cancel_step _ _ => right; split; [done|]; by exists CancelReasonApprovalCanceled
         | _ => sim_move; by_phase
         end.
  - case_bool_decide; cbn in *; split; sim_field. sim_move; by_phase.
Qed.

Lemma sim_input_required rid cid : applyInputRequired t0 s rid cid = Ok t → Sim 1 s t.
Proof.
  unfold applyInputRequired. intros H. handler H. destruct_or?; split; sim_field.
  all: sim_move; by_phase.
Qed.

Lemma sim_input_resolved rid : applyInputResolved t0 s rid = Ok t → Sim 1 s t.
Proof.
  intros (Hp & _ & l & evs & Hl & He & ->)%applyInputResolved_Ok. cbn in *.
  case_bool_decide; split; sim_field. all: sim_move; by_phase.
Qed.

Lemma sim_input_result eid rid accepted err : applyInputResult t0 s eid rid accepted err = Ok t → Sim 1 s t.
Proof.
  unfold applyInputResult. intros H. handler H.
  apply applyInputResolved_Ok in H as (Hp & _ & l & evs & Hl & He & ->).
  settle_goal; cbn in *. case_bool_decide; split; sim_field. all: sim_move; by_phase.
Qed.

(** Tool batches, sample results and tool results. *)
Lemma open_batch_steps calls s1 s2 :
  NoDup (cs_ID <$> calls) →
  Forall (λ c, blank (cs_ID c) = false ∧ blank (cs_Name c) = false ∧
               st_OpenCalls s1 !! cs_ID c = None ∧ st_ClosedCalls s1 !! cs_ID c = None) calls →
  st_OpenCalls s2 = foldl (λ m c, <[cs_ID c := c]> m) (st_OpenCalls s1) calls →
  st_ClosedCalls s2 = st_ClosedCalls s1 →
  CallLedger.steps (CallLedger.of_state s1) (CallLedger.of_state s2).
Proof.
  unfold CallLedger.of_state. intros Hnd Hall -> ->. apply open_calls_steps; [done|].
  eapply Forall_impl; [exact Hall|]. by intros c (_ & _ & ?).
Qed.

Lemma sim_tool_calls calls : applyToolCalls t0 s calls = Ok t → Sim (length calls) s t.
Proof.
  intros (Hac & Hp & _ & Hnd & Hall & n & p & evs & Heff & Hq & Heq)%applyToolCalls_Ok.
  destruct t as [s' e' f']. cbn in *. set_unfold in Hp.
  destruct Hp as [Hp|[Hp|[]]];
    [rewrite bool_decide_eq_true_2 in Heq by done|rewrite bool_decide_eq_false_2 in Heq by congruence];
    destruct Heq as [-> ->].
  all: split; sim_field.
  all: lazymatch goal with
       | |- CallLedger.steps _ _ => by apply (open_batch_steps calls)
       | |- phase_step _ _ => idtac
       | _ => exact Heff
       end.
  eapply (phase_moves _ _ evs []); cbn; [reflexivity|done|done|by quiet|by_phase].
Qed.

(** Composition of settled and further requested effects. *)
Lemma effects_compose k s1 s2 s3 l n p c :
  settles (ledger s1) l →
  EffectLedger.steps k (EffectLedger.of_state s2) (EffectLedger.mk n p c) →
  st_NextEffectSequence s2 = st_NextEffectSequence s1 →
  st_PendingEffects s2 = l.1 → st_CompletedEffects s2 = l.2 →
  st_NextEffectSequence s3 = n → st_PendingEffects s3 = p → st_CompletedEffects s3 = c →
  EffectLedger.steps k (EffectLedger.of_state s1) (EffectLedger.of_state s3).
Proof.
  unfold EffectLedger.of_state. intros H H2 Hn Hp Hc -> -> ->.
  apply (EffectLedger.steps_trans 0 k _ _ _) with (2 := H2). rewrite Hn, Hp, Hc. exact (settles_steps (st_NextEffectSequence s1) _ _ H).
Qed.

(** A ready result names a sample of the ledger. *)
Lemma ready_known c e :
  sample_result_ready s c e = true → blank (msr_SampleID c) = false →
  ∃ a, st_SampleLedger s !! msr_SampleID c = Some a.
Proof.
  unfold sample_result_ready. intros Hr Hb.
  destruct (st_SampleLedger s !! msr_SampleID c) as [a|] eqn:E; [by exists a|].
  cbn in Hr. rewrite (bool_decide_eq_false_2 (SampleStatusNone = SampleRequested)) in Hr by done.
  rewrite !andb_false_r in Hr. cbn in Hr. rewrite !orb_false_r in Hr.
  apply andb_true_iff in Hr as [_ [_ Hact%String.eqb_eq]%andb_true_iff].
  destruct (v_active _ Hv) as (a & Hl & _); [|congruence].
  intros Hnil. rewrite Hact in Hnil. by rewrite Hnil in Hb.
Qed.

Lemma sim_sample_result c :
  applyModelSampleResult t0 s c = Ok t → Sim (length (msr_Calls c)) s t.
Proof.
  intros (Hp & Hb & (e & _ & Hr) & l & evs & Hl & Hev & H)%applyModelSampleResult_Ok. cbn zeta in H.
  destruct (ready_known c e Hr Hb) as [a Ha].
  destruct (msr_Error c == ""); [|subst; unfold record_sample, finished_sample; split; sim_field].
  apply sample_output_Ok in H as (cm & po & oe & Hoe & [->|H]).
  { unfold record_sample, finished_sample; split; sim_field.
    destruct Hoe as [->|[-> ->]]; [by apply output_dropped|by apply output_same]. }
  apply applyToolCalls_Ok in H as (Hac & _ & _ & Hnd & Hall & n & p & ev & Heff & Hq & Hs).
  destruct t as [s' e' f']. rewrite bool_decide_eq_true_2 in Hs by done.
  destruct Hs as [Hs He]. cbn [tn_State tn_Events] in Hs, He. subst s' e'.
  unfold record_sample, finished_sample in *. split; sim_field.
  - eapply (phase_moves _ _ (evs ++ ev) []); [|reflexivity|by quiet|by quiet|by_phase].
    cbn. by rewrite <- app_assoc.
  - eapply effects_compose; [exact Hl|exact Heff|..]. all: cbn; reflexivity.
  - apply (open_batch_steps (msr_Calls c)); [exact Hnd|exact Hall|cbn; reflexivity..].
Qed.
(** Where a closed call leads is an edge: approvals wait only in their phase. *)
Lemma tool_result_edge x :
  (st_Phase s = PhaseExecutingTools ∨ st_Phase s = PhaseAwaitingApproval ∨
   st_Phase s = PhaseAwaitingInput) →
  st_PendingApprovals x ⊆ st_PendingApprovals s →
  Lifecycle.edge (st_Phase s) (phase_after x) = true.
Proof.
  intros Hp Hsub. unfold phase_after.
  destruct Hp as [->|[->|Hp]]; [by repeat case_bool_decide..|].
  assert (Hs : st_PendingApprovals s = ∅).
  { destruct (v_waits _ Hv) as (Hw & _). apply map_empty. intros id.
    destruct (st_PendingApprovals s !! id) as [a|] eqn:E; [|done].
    destruct (Hw _ _ E) as (? & _). congruence. }
  rewrite Hp. rewrite Hs in Hsub. rewrite bool_decide_eq_true_2; cbn; [by case_bool_decide|].
  apply map_empty. intros id. destruct (st_PendingApprovals x !! id) as [a|] eqn:E; [|done].
  by eapply lookup_weaken in E; [|exact Hsub].
Qed.

Lemma phase_after_open x :
  bool_decide (phase_after x = PhaseCommitting) || Terminal (phase_after x) = false.
Proof. unfold phase_after. by repeat case_bool_decide. Qed.

Lemma sim_tool_result c : applyToolResult t0 s c = Ok t → Sim 1 s t.
Proof.
  intros (call & effect & l & m & item & progress & evs & Hopen & _ & Hp & _ & Hl & Hq & Hm & _ & _
          & Hs & He)%applyToolResult_Ok.
  destruct (tool_closed_frame s c call l m item progress (input_bound s (trr_CallID c)))
    as (pi & conv & u & r & Heq).
  assert (Hedge : Lifecycle.edge (st_Phase s) (phase_after (tool_closed s c call l m item progress
                    (waits_closed (input_bound s (trr_CallID c)) s))) = true).
  { apply tool_result_edge; [tauto|]. rewrite Heq. unfold changed. by case_bool_decide. }
  destruct t as [s' e' f']. cbn [tn_State tn_Events] in Hs, He. rewrite Heq in Hs, He, Hedge.
  assert (Hsp : st_Phase s ≠ PhaseCommitting) by (intros E; destruct_or?; destruct_and?; congruence).
  revert Hs He Hedge. match goal with |- context [set_st_Phase (phase_after ?x)] =>
    pose proof (phase_after_open x) as Hopn; generalize dependent (phase_after x) end.
  intros q Hopn -> -> Hedge. clear Heq. unfold changed. destruct (bool_decide (trr_Changes c = [])) eqn:Hch.
  all: split; sim_field.
  all: lazymatch goal with
       | |- phase_step _ _ =>
           eapply (phase_moves _ _ evs []); [reflexivity|reflexivity|by quiet|by quiet|done]
       | |- admission_step _ _ => apply admission_same; [done|]; cbn; rewrite dom_delete_L; set_solver
       | |- CallLedger.steps _ _ =>
           apply rtc_once; exact (CallLedger.step_close (CallLedger.of_state s) _ call _ Hopen)
       | |- terminal_step _ _ =>
           apply terminal_moved; [done|exact Hopn|reflexivity..]
       | |- mutation_step _ _ =>
           right; left; exists (trr_Changes c);
           split_and!; [by bool_prop|reflexivity..]
       | |- journal_step _ _ =>
           right; left; split; [reflexivity|]; cbn; intros [_ Hnil]%app_nil; by bool_prop
       end.
Qed.
Lemma sim_abort reason : applyAbortOpenCalls t0 s reason = Ok t → Sim 1 s t.
Proof.
  intros (Hp & l & evs & closed & Hl & Hev & Hcalls & ->)%applyAbortOpenCalls_Ok.
  split; sim_field; [|exact Hcalls|by apply admission_same].
  eapply (phase_moves _ _ evs []); [reflexivity|reflexivity|by quiet|by quiet|].
  by destruct Hp as [Hp|Hp]; cbn; rewrite Hp.
Qed.

Lemma sim_rejection ids result : applyToolBatchAdmissionRejection t0 s ids result = Ok t → Sim 1 s t.
Proof.
  unfold applyToolBatchAdmissionRejection. intros H. handler H. destruct x1 as [seen t1].
  apply reject_calls_Ok in Hx1 as (o & Hsteps & Hdom & ->);
    [|intros id Hid; by apply not_elem_of_nil in Hid|done].
  split; sim_field; [exact Hsteps|]. apply admission_same; [done|].
  intros id. rewrite !elem_of_dom. apply Hdom.
Qed.

(** Completion, retirement and effect results. *)
Lemma sim_completion c : applyCompletion t0 s c = Ok t → Sim 1 s t.
Proof.
  unfold applyCompletion, accepted_output. intros H. handler H.
  destruct (completion_verdict s c); simplify_eq; split; sim_field.
Qed.

Lemma sim_effect_result eid success err : applyEffectResult t0 s eid success err = Ok t → Sim 1 s t.
Proof. unfold applyEffectResult. intros H. handler H. settle_goal. split; sim_field. Qed.
Lemma sim_persistence_result eid success err :
  applyPersistenceResult t0 s eid success err = Ok t → Sim 1 s t.
Proof. unfold applyPersistenceResult. intros H. handler H. settle_goal. split; sim_field. Qed.

Lemma sim_retired : retireVerification t0 = Ok t → Sim 1 s t.
Proof.
  unfold retireVerification. intros H. destruct (retire_effects t0) as [t1|] eqn:Ht1; [|done].
  apply retire_effects_settles in Ht1 as (l & evs & Hl & Hev & ->). injection H as <-.
  cbn. case_bool_decide; cbn; split; sim_field.
  sim_move. by_phase.
Qed.

(** The terminal transaction and step selection. *)
Lemma committing_edge : st_Phase s ≠ PhaseCommitting → Terminal (st_Phase s) = false →
  Lifecycle.edge (st_Phase s) PhaseCommitting = true.
Proof. by destruct (st_Phase s). Qed.

Lemma sim_terminal_requested c :
  Terminal (st_Phase s) = false → applyTerminalRequested t0 s c = Ok t → Sim 1 s t.
Proof.
  intros Ht ((Hp & _) & d & conv & _ & _ & _ & ->)%applyTerminalRequested_Ok.
  pose proof (committing_edge Hp Ht). unfold freeze. cbn zeta.
  destruct (_ || _); split; sim_field.
  all: lazymatch goal with
       | |- phase_step _ _ => sim_move; done
       | |- terminal_step _ _ => by apply (terminal_prepare _ _ d)
       end.
Qed.

Lemma journal_finalized d j s' :
  st_Phase s = PhaseCommitting → st_PendingTerminal s = Some d →
  (terminalJournalOutcome s d).2 = j → st_Journal s' = j → journal_step s s'.
Proof. intros Hp Hd <- Hj. right; right. eauto. Qed.

Lemma sim_journal_finalized st : applyJournalFinalized t0 s st = Ok t → Sim 1 s t.
Proof.
  unfold applyJournalFinalized. intros H. handler H. settle_goal. split; sim_field.
  subst. eapply journal_finalized; [done|done|by rewrite Heqp|reflexivity].
Qed.

Lemma sim_journal_result eid st err : applyJournalResult t0 s eid st err = Ok t → Sim 1 s t.
Proof.
  unfold applyJournalResult. intros H. handler H. all: settle_goal; split; sim_field.
  all: eapply journal_finalized; [done|done| |reflexivity].
  all: by rewrite Heqp.
Qed.

Lemma sim_finish : applyFinishTerminal t0 s = Ok t → Sim 1 s t.
Proof.
  unfold applyFinishTerminal. intros H. handler H. all: split; sim_field.
  all: lazymatch goal with
       | |- phase_step _ _ => sim_move; cbn; rewrite Hx; by destruct (td_Kind _)
       | H : st_PendingTerminal s = Some ?d |- terminal_step _ _ => by apply (terminal_commit _ _ d)
       | |- output_step _ _ => intros _; cbn; by destruct (td_Kind _)
       end.
Qed.

Lemma sim_step key : applyEvaluateTurnStep t0 s key = Ok t → Sim 1 s t.
Proof.
  intros H. apply applyEvaluateTurnStep_advised in H as (a & f & r & c & b & evs & Hq & Hs & He).
  destruct t as [s' e' f']. cbn [tn_State tn_Events] in *. subst s' e'. split; sim_field.
Qed.

Lemma sim_le m n : (m ≤ n)%nat → Sim m s t → Sim n s t.
Proof. intros Hle []. split; try done. by eapply EffectLedger.steps_le. Qed.

(** Every handler simulates. *)
Lemma dispatch_sim c :
  Terminal (st_Phase s) = false → dispatch t0 s c = Ok t → Sim (command_requests c) s t.
Proof.
  intros Ht. destruct c; cbn [dispatch command_requests].
  1: exact sim_start. 1: exact sim_prepared.
  all: eauto using sim_sample_requested, sim_sample_started, sim_sample_finished,
         sim_sample_progress, sim_sample_result, sim_supplemental, sim_provider_retry,
         sim_provider_wait, sim_model_text, sim_release, sim_discard, sim_repair, sim_step,
         sim_observe, sim_bind, sim_convergence, sim_finalization, sim_tool_calls.
  all: eauto using sim_approval_required, sim_approval_resolved, sim_approval_result,
         sim_input_required, sim_input_resolved, sim_input_result, sim_tool_result, sim_rejection,
         sim_abort, sim_reconciled, sim_completion, sim_invalidated, sim_cancel_requested,
         sim_continuation_recorded, sim_recovery, sim_effect_started, sim_effect_requeued.
  all: eauto using sim_effect_result, sim_persistence_result, sim_terminal_requested,
         sim_journal_finalized, sim_journal_result, sim_finish, sim_retired.
Qed.
End Handlers.

(** An applied command simulates in every component, between valid states. *)
Lemma Apply_sim s c t : Apply s c = Ok t → Sim (command_requests c) s t.
Proof. intros (Hv & Ht & Hd & Hv')%Apply_Ok. by eapply dispatch_sim. Qed.
