(* ===== verification/Runs.v ===== *)
(** Runs of the kernel: sequences of applied commands, what a run preserves, and
    the run-level reading of the component steps of [Kernel]. *)
From S2P Require Import Prelude.
From S2P Require Import GoStrings.
From S2P Require Import Sha256.
From S2P Require Import Json.
From S2P Require Import ToolResult.
From S2P Require Import Provider.
From S2P Require Import Assembly.
From S2P Require Import TurnState.
From S2P Require Import WorkItem.
From S2P Require Import Invariants.
From S2P Require Import Command.
From S2P Require Import Effects.
From S2P Require Import Validity.
From S2P Require Import TurnSpec.
From S2P Require Import Sampling.
From S2P Require Import Reducer.
From S2P Require Import Frames.
From S2P Require Import Kernel.

(** The effects a list of commands can request. *)
Fixpoint run_requests (commands : list Command) : Z :=
  match commands with
  | [] => 0
  | c :: cs => Z.of_nat (command_requests c) + run_requests cs
  end.

Lemma run_cons s c cs s' :
  run s (c :: cs) = Ok s' ↔ ∃ t, Apply s c = Ok t ∧ run (tn_State t) cs = Ok s'.
Proof.
  unfold run; cbn. rewrite bind_Ok. split.
  - intros (s1 & H1 & H). apply bind_Ok in H1 as (t & Ht & [= <-]). eauto.
  - intros (t & Ht & H). exists (tn_State t). split; [|done]. by rewrite Ht.
Qed.

Lemma run_app s cs cs' s' :
  run s (cs ++ cs') = Ok s' ↔ ∃ s1, run s cs = Ok s1 ∧ run s1 cs' = Ok s'.
Proof.
  revert s. induction cs as [|c cs IH]; intros s; cbn [app].
  - split; [intros; by exists s|]. by intros (? & [= <-] & ?).
  - rewrite run_cons. setoid_rewrite IH. setoid_rewrite run_cons. naive_solver.
Qed.

(** A preorder on an observation of the state, respected by every command, is
    respected by a run. *)
Lemma run_lift {A} (f : State → A) (R : relation A) `{!PreOrder R} :
  (∀ s c t, Apply s c = Ok t → R (f s) (f (tn_State t))) →
  ∀ s cs s', run s cs = Ok s' → R (f s) (f s').
Proof.
  intros HR s cs. revert s. induction cs as [|c cs IH]; intros s s' H.
  - by injection H as <-.
  - apply run_cons in H as (t & Ht & H). etransitivity; [by eapply HR|eauto].
Qed.

(** A property kept by every command is kept by a run. *)
Lemma run_keeps (P : State → Prop) :
  (∀ s c t, P s → Apply s c = Ok t → P (tn_State t)) →
  ∀ s cs s', P s → run s cs = Ok s' → P s'.
Proof.
  intros HP s cs. revert s. induction cs as [|c cs IH]; intros s s' Hs H.
  - by injection H as <-.
  - apply run_cons in H as (t & Ht & H). eauto.
Qed.

Lemma run_valid s cs s' : Valid s → run s cs = Ok s' → Valid s'.
Proof. apply run_keeps. by intros s1 c t _ (_ & _ & _ & ?)%Apply_Ok. Qed.

(** A run that went anywhere ends in a valid state. *)
Lemma run_valid_or s cs s' : run s cs = Ok s' → s' = s ∨ Valid s'.
Proof.
  intros H. destruct cs as [|c cs]; [left; by injection H as <-|right].
  apply run_cons in H as (t & (_ & _ & _ & Hv)%Apply_Ok & H). by eapply run_valid.
Qed.

(** A terminal state reached from a new turn is valid. *)
Lemma new_terminal_valid i m p pol cs s :
  run (NewStateWithPolicy i m p pol) cs = Ok s → Terminal (st_Phase s) = true → Valid s.
Proof. intros [->|?]%run_valid_or Ht; done. Qed.

Lemma run_reachable s cs s' : reachable s → run s cs = Ok s' → reachable s'.
Proof. apply (run_keeps reachable). intros. by eapply reachable_apply. Qed.

Lemma reachable_run i m p pol cs s :
  run (NewStateWithPolicy i m p pol) cs = Ok s → reachable s.
Proof. apply run_reachable. constructor. Qed.

(** ** Phases *)

Lemma Apply_path s c t :
  Apply s c = Ok t → Lifecycle.path (st_Phase s) (tn_Events t) = Some (st_Phase (tn_State t)).
Proof. intros H%Apply_sim. apply phase_step_path, H. Qed.

Lemma Apply_edge s c t :
  Apply s c = Ok t → st_Phase (tn_State t) = st_Phase s ∨
                     Lifecycle.edge (st_Phase s) (st_Phase (tn_State t)) = true.
Proof. intros H%Apply_sim. destruct (sim_phase _ _ _ H); cbn in *; subst; auto. Qed.

(** No edge enters these phases. *)
Definition source_phase (p : Phase) : bool :=
  match p with PhaseCreated | PhaseVerifying => true | _ => false end.
Lemma run_not_into p s cs s' :
  source_phase p = true → st_Phase s ≠ p → run s cs = Ok s' → st_Phase s' ≠ p.
Proof.
  intros Hp. apply (run_keeps (λ s, st_Phase s ≠ p)). intros s1 c t Hs [->|He]%Apply_edge; [done|].
  intros Heq. rewrite Heq in He. by destruct (st_Phase s1), p.
Qed.

(** ** Ledgers *)

Lemma run_requests_nonneg cs : 0 ≤ run_requests cs.
Proof. induction cs; cbn [run_requests]; lia. Qed.
Lemma run_requests_app cs cs' : run_requests (cs ++ cs') = run_requests cs + run_requests cs'.
Proof. induction cs as [|c cs IH]; cbn [app run_requests]; [done|]. rewrite IH. lia. Qed.

Lemma run_effect_steps s cs s' :
  run s cs = Ok s' →
  EffectLedger.steps (Z.to_nat (run_requests cs)) (EffectLedger.of_state s)
    (EffectLedger.of_state s').
Proof.
  revert s. induction cs as [|c cs IH]; intros s H.
  - injection H as <-. constructor.
  - apply run_cons in H as (t & Ht%Apply_sim & H). cbn [run_requests].
    rewrite Z2Nat.inj_add, Nat2Z.id by (pose proof (run_requests_nonneg cs); lia).
    eapply EffectLedger.steps_trans; [apply Ht|auto].
Qed.

Lemma new_effect_inv i m p pol :
  EffectLedger.Inv (EffectLedger.of_state (NewStateWithPolicy i m p pol)).
Proof. split; cbn; done. Qed.

Lemma run_call_steps s cs s' :
  run s cs = Ok s' → CallLedger.steps (CallLedger.of_state s) (CallLedger.of_state s').
Proof.
  apply (run_lift CallLedger.of_state CallLedger.steps).
  intros s1 c t H%Apply_sim. apply H.
Qed.
