(* ===== verification/Scenario.v ===== *)
(** Two concrete turns the kernel accepts, and the states they pass through: an
    answered question, and an edit whose journal is committed. The witnesses
    of the kernel's theorems evaluate at these states. *)
From S2P Require Import Prelude.
From S2P Require Import GoStrings.
From S2P Require Import Sha256.
From S2P Require Import Json.
From S2P Require Import ToolResult.
From S2P Require Import Provider.
From S2P Require Import Assembly.
From S2P Require Import TurnState.
From S2P Require Import WorkItem.
From S2P Require Import Invariants.
From S2P Require Import Command.
From S2P Require Import Effects.
From S2P Require Import Validity.
From S2P Require Import TurnSpec.
From S2P Require Import Sampling.
From S2P Require Import Reducer.
From S2P Require Import Frames.
From S2P Require Import Kernel.
From S2P Require Import Runs.

Definition no_usage : UsageState := mkUsageState 1 10 5 0 0 0 true false.
Definition no_context : ContextState := mkContextState "" 0 0 0 false false "".
Definition effect_1 : string := "effect-0000000000000001".
Definition effect_2 : string := "effect-0000000000000002".
Definition effect_3 : string := "effect-0000000000000003".
Definition effect_4 : string := "effect-0000000000000004".

(** ** An answered question *)

Definition answer_start : State := NewStateWithPolicy TurnIntentAnswer "chat" 1 DefaultPolicy.
Definition say (effect sample text : string) : Command :=
  ModelSampleResultReceived
    (mkModelSampleResult effect sample no_usage no_context None text [] false "").
Definition answer_commands : list Command :=
  [ StartTurn; PreparationFinished; ModelSampleRequested "s1"; EffectStarted effect_1 1;
    say effect_1 "s1" "hello"; EvaluateTurnStep "k"; ReleaseProvisionalOutput ].
Definition complete_request : TerminalRequest := mkTerminalRequest "" "" None "" None.
Definition fail_request : TerminalRequest := mkTerminalRequest "internal" "failed" None "" None.

(** ** An edit *)

Definition edit_policy : Policy :=
  mkPolicy true true false false "" "" 2 1 1 0 0 true zero_convergence_policy 0.
Definition edit_start : State := NewStateWithPolicy TurnIntentWorkspaceChange "act" 1 edit_policy.
Definition edit_call : ToolCallState := mkToolCallState "c1" "write_file" "{}" "" 0 0 0 "".
Definition edit_change : ObservedChange := mkObservedChange "a.go" "modified" "".
Definition call_tools (effect sample : string) (calls : list ToolCallState) : Command :=
  ModelSampleResultReceived
    (mkModelSampleResult effect sample no_usage no_context None "" calls false "").
Definition no_observation : WorkItemObservation :=
  mkWorkItemObservation "" "" 0 0 "" "" "" "" "" [] "".
Definition edit_sampling : list Command :=
  [ StartTurn; PreparationFinished; ModelSampleRequested "s1"; EffectStarted effect_1 1 ].
Definition edit_tool : list Command :=
  [ call_tools effect_1 "s1" [edit_call]; EffectStarted effect_2 1 ].
Definition edit_result : Command :=
  ToolResultReceived (mkToolResultFacts effect_2 "c1" false [edit_change] no_observation).
Definition edit_declaration : CompletionCandidate :=
  mkCompletionCandidate "" [] true "complete" "done" "exact" [] "c2" false 1 false [] 0.
Definition edit_finish : list Command :=
  [ WorkspaceReconciled 1 [edit_change]; CompletionEvaluated edit_declaration;
    ReleaseProvisionalOutput; TerminalRequested complete_request ].
Definition edit_commit : list Command :=
  [ EffectStarted effect_3 1; JournalResultReceived effect_3 JournalCommitted ""; FinishTerminal ].

(** The state of a run that succeeds. *)
Definition state_of (r : res kerror State) (d : State) : State :=
  match r with Ok s => s | Err _ => d end.
Definition after (s : State) (cs : list Command) : State := state_of (run s cs) s.

(** A run that succeeds ends in the state after it. *)
Lemma after_Ok s cs : is_ok (run s cs) = true → run s cs = Ok (after s cs).
Proof. unfold after. by destruct (run s cs). Qed.

(** ** The states of the two turns, evaluated once *)
Definition answer_done : State := Eval vm_compute in
  after answer_start (answer_commands ++ [TerminalRequested complete_request; FinishTerminal]).

Definition answer_committing : State := Eval vm_compute in
  after answer_start (answer_commands ++ [TerminalRequested complete_request]).

Definition answer_wedged : State := Eval vm_compute in
  after answer_start (answer_commands ++ [TerminalRequested fail_request]).

Definition edit_waiting : State := Eval vm_compute in after edit_start (edit_sampling ++ edit_tool).
Definition edit_rest : list Command := [edit_result] ++ edit_finish ++ edit_commit.
Definition edit_done : State := Eval vm_compute in after edit_waiting edit_rest.

(** The edit before its declaration. *)
Definition edit_declared : State := Eval vm_compute in
  after edit_waiting [edit_result; WorkspaceReconciled 1 [edit_change]].

(** An answer whose declaration has pending actions and no summary, under a policy
    without repairs. *)
Definition strict_policy : Policy :=
  mkPolicy true false false false "" "" 0 0 0 0 0 false zero_convergence_policy 0.
Definition strict_start : State := NewStateWithPolicy TurnIntentAnswer "chat" 1 strict_policy.
Definition pending_declaration : CompletionCandidate :=
  mkCompletionCandidate "" [] true "complete" "" "exact" ["later"] "c2" false 1 false [] 0.
Definition strict_commands : list Command :=
  [ StartTurn; PreparationFinished; ModelSampleRequested "s1"; EffectStarted effect_1 1;
    say effect_1 "s1" "hello"; CompletionEvaluated pending_declaration;
    DiscardProvisionalOutput "repair" ].
Definition strict_rejected : State := Eval vm_compute in after strict_start strict_commands.

Definition canceled_answer : State := Eval vm_compute in
  after answer_start [StartTurn; PreparationFinished; CancelRequested "stop"].

Lemma edit_waiting_run : run edit_start (edit_sampling ++ edit_tool) = Ok edit_waiting.
Proof. by vm_compute. Qed.
Lemma edit_done_run : run edit_waiting edit_rest = Ok edit_done.
Proof. by vm_compute. Qed.
Lemma edit_waiting_valid : Validate edit_waiting = Ok tt.
Proof. by vm_compute. Qed.
Lemma edit_waiting_reachable : reachable edit_waiting.
Proof. exact (reachable_run _ _ _ _ _ _ edit_waiting_run). Qed.
Lemma edit_waiting_effect : ∃ e, st_PendingEffects edit_waiting !! effect_2 = Some e.
Proof. vm_compute. by eexists. Qed.
Lemma edit_waiting_call : is_Some (st_OpenCalls edit_waiting !! "c1").
Proof. vm_compute. by eexists. Qed.
Lemma edit_done_phase : st_Phase edit_done = PhaseCompleted.
Proof. by vm_compute. Qed.
Lemma strict_rejected_run : run strict_start strict_commands = Ok strict_rejected.
Proof. by vm_compute. Qed.
