(* ===== verification/TurnSafety.v ===== *)
(** What a run of the turn kernel guarantees: the phase graph, the terminal
    transaction, the effect and tool-call ledgers, the observed changes and
    cancellation. Every theorem reads the component steps of [Kernel] along a
    run of [Runs]. *)
From S2P Require Import Prelude.
From S2P Require Import GoStrings.
From S2P Require Import Sha256.
From S2P Require Import Json.
From S2P Require Import ToolResult.
From S2P Require Import Provider.
From S2P Require Import Assembly.
From S2P Require Import TurnState.
From S2P Require Import WorkItem.
From S2P Require Import Invariants.
From S2P Require Import Command.
From S2P Require Import Effects.
From S2P Require Import Validity.
From S2P Require Import TurnSpec.
From S2P Require Import Sampling.
From S2P Require Import Reducer.
From S2P Require Import Frames.
From S2P Require Import Kernel.
From S2P Require Import Runs.
From S2P Require Import Scenario.

(** ** Observations of the state *)

(** The terminal transaction, as far as a run has taken it. *)
Inductive Tx :=
  | TxOpen
  | TxCommitting (d : TerminalDecision) (usage : UsageState) (context : ContextState)
      (output : list string)
  | TxDone (phase : Phase) (d : TerminalDecision) (usage : UsageState) (context : ContextState)
      (output : list string).

Definition tx_of (s : State) : Tx :=
  match st_Phase s, st_PendingTerminal s, st_Terminal s with
  | PhaseCommitting, Some d, _ =>
      TxCommitting d (st_Usage s) (st_Context s) (st_ProvisionalOutput s)
  | p, _, Some d => TxDone p d (st_Usage s) (st_Context s) (st_FinalOutput s)
  | _, _, _ => TxOpen
  end.

(** Prepared once, then published as prepared. *)
Inductive tx_step : Tx → Tx → Prop :=
  | tx_stay x : tx_step x x
  | tx_prepare d u c o : tx_step TxOpen (TxCommitting d u c o)
  | tx_commit d u c o :
      tx_step (TxCommitting d u c o) (TxDone (phaseForTerminal (td_Kind d)) d u c o).

(** ** Helper lemmas *)

Lemma tx_committing s : Valid s → st_Phase s = PhaseCommitting →
  ∃ d, st_PendingTerminal s = Some d ∧
    tx_of s = TxCommitting d (st_Usage s) (st_Context s) (st_ProvisionalOutput s).
Proof.
  intros Hv Hp. destruct (v_committing _ Hv) as (Hc & _). destruct (Hc Hp) as ([d Hd] & _).
  exists d. unfold tx_of. by rewrite Hp, Hd.
Qed.

Lemma tx_open s : Valid s → st_Phase s ≠ PhaseCommitting → Terminal (st_Phase s) = false →
  tx_of s = TxOpen.
Proof.
  intros Hv Hp Ht. destruct (v_committing _ Hv) as (_ & Hc & _). destruct (v_terminal _ Hv) as (_ & H).
  unfold tx_of. rewrite (Hc Hp), (H Ht). by destruct (st_Phase s).
Qed.

Lemma tx_done s : Valid s → Terminal (st_Phase s) = true →
  ∃ d, st_Terminal s = Some d ∧ st_Phase s = phaseForTerminal (td_Kind d) ∧
    tx_of s = TxDone (st_Phase s) d (st_Usage s) (st_Context s) (st_FinalOutput s).
Proof.
  intros Hv Ht. destruct (v_terminal _ Hv) as (Hd & _).
  destruct (Hd Ht) as (d & Hs & _ & _ & _ & _ & _ & _ & _ & Hp & _). exists d.
  split_and!; [done..|]. unfold tx_of. rewrite Hs. by destruct (st_Phase s).
Qed.

Lemma Apply_tx s c t : Apply s c = Ok t → tx_step (tx_of s) (tx_of (tn_State t)).
Proof.
  intros H. pose proof (Apply_sim _ _ _ H) as Hsim. apply Apply_Ok in H as (Hv & Hnt & _ & Hv').
  destruct (sim_terminal _ _ _ Hsim) as [Hpt _ _ _ Hkeep Hinto Hterm|d Hp Hp' Hd _ _ _ _ _
    |d Hp Hd Hp' _ Hd' Ho _ Hu Hc].
  - destruct (decide (st_Phase s = PhaseCommitting)) as [Hp|Hp].
    + destruct (Hkeep Hp) as (Hp' & Hu & Hc & Ho & _).
      destruct (tx_committing _ Hv Hp) as (d & Hd & ->).
      destruct (tx_committing _ Hv' Hp') as (d' & Hd' & ->).
      rewrite Hu, Hc, Ho. replace d' with d by congruence. constructor.
    + rewrite (tx_open s), (tx_open (tn_State t)); try done; [constructor|..].
      * intros ?%Hinto. done.
      * destruct (Terminal (st_Phase (tn_State t))) eqn:E; [|done]. by rewrite Hterm in Hnt.
  - rewrite (tx_open s) by done. destruct (tx_committing _ Hv' Hp') as (? & _ & ->). constructor.
  - destruct (tx_committing _ Hv Hp) as (d0 & Hd0 & ->). simplify_eq.
    assert (Ht' : Terminal (st_Phase (tn_State t)) = true) by (rewrite Hp'; by destruct (td_Kind d)).
    destruct (tx_done _ Hv' Ht') as (d1 & Hd1 & _ & ->). rewrite Hd' in Hd1. injection Hd1 as <-.
    rewrite Hp', Hu, Hc, Ho. constructor.
Qed.

Lemma run_tx s cs s' : run s cs = Ok s' → rtc tx_step (tx_of s) (tx_of s').
Proof. apply (run_lift tx_of (rtc tx_step)). intros. by eapply rtc_once, Apply_tx. Qed.

Lemma tx_committing_inv d u c o x :
  rtc tx_step (TxCommitting d u c o) x →
  x = TxCommitting d u c o ∨ x = TxDone (phaseForTerminal (td_Kind d)) d u c o.
Proof.
  intros H. remember (TxCommitting d u c o) as y eqn:Hy. revert Hy.
  induction H as [|x y z Hxy Hyz IH]; intros ->; [by left|].
  inversion Hxy as [|  |]; subst; [by apply IH|]. right.
  clear IH Hxy. remember (TxDone _ _ _ _ _) as y eqn:Hy. revert Hy.
  induction Hyz as [|a b e Hab _ IH]; intros ->; [done|]. inversion Hab; subst; auto.
Qed.

(** A settled view of a run's effects: what was pending is pending or completed as
    the same effect. *)
Lemma effect_steps_keep n l l' id e :
  EffectLedger.steps n l l' → EffectLedger.seq l + Z.of_nat n < 2 ^ 64 → EffectLedger.Inv l →
  EffectLedger.pending l !! id = Some e ∨ EffectLedger.completed l !! id = Some e →
  ∃ e', (EffectLedger.pending l' !! id = Some e' ∨ EffectLedger.completed l' !! id = Some e') ∧
        EffectLedger.same_effect e e'.
Proof.
  intros H. revert e. induction H as [n l|k n l l1 l2 Hs _ IH]; intros e Hlt Hinv He.
  - exists e. by split.
  - pose proof (EffectLedger.step_seq _ _ _ (EffectLedger.inv_seq _ Hinv) Hs).
    assert (Hinv' : EffectLedger.Inv l1) by (eapply EffectLedger.effect_step_inv; [|done..]; lia).
    assert (∃ e1, (EffectLedger.pending l1 !! id = Some e1 ∨ EffectLedger.completed l1 !! id = Some e1)
                  ∧ EffectLedger.same_effect e e1) as (e1 & He1 & Hsame).
    { destruct He as [He|He];
        [|exists e; split; [right; by eapply EffectLedger.step_settled|done]].
      eapply EffectLedger.step_pending; [|done..]. lia. }
    destruct (IH e1) as (e2 & ? & ?); [lia|done..|]. exists e2. split; [done|].
    by eapply EffectLedger.same_effect_trans.
Qed.

(** The observed changes of a started turn are only appended to. *)
Lemma run_grew s cs s' :
  st_Phase s ≠ PhaseCreated → run s cs = Ok s' →
  ∃ extra k, st_Changes s' = st_Changes s ++ extra ∧ 0 ≤ k ≤ Z.of_nat (length cs) ∧
    (k = 0 ↔ extra = []) ∧
    (k = 0 → st_MutationRevision s' = st_MutationRevision s) ∧
    (0 < k → st_MutationRevision s' = u64 (st_MutationRevision s + k)).
Proof.
  revert s. induction cs as [|c cs IH]; intros s Hp H.
  - injection H as <-. exists [], 0. rewrite app_nil_r. cbn. split_and!; (done || lia).
  - apply run_cons in H as (t & Ht & H).
    assert (Hp' : st_Phase (tn_State t) ≠ PhaseCreated).
    { eapply (run_not_into PhaseCreated s [c]); [done..|]. apply run_cons. by exists t. }
    destruct (IH _ Hp' H) as (extra & k & -> & Hk & Hnil & H0 & H1).
    destruct (sim_mutation _ _ _ (Apply_sim _ _ _ Ht))
      as [[Hr ->]|[(ch & Hch & Hr & -> & _)|(Hc & _)]]; [..|done].
    + exists extra, k. rewrite Hr in *. cbn [length]. split_and!; (done || lia).
    + exists (ch ++ extra), (k + 1). rewrite app_assoc. cbn [length].
      split_and!; [done|lia|lia| |lia|].
      * split; [lia|]. intros [? _]%app_nil. done.
      * intros _. destruct (decide (k = 0)) as [->|].
        -- by rewrite H0, Hr.
        -- rewrite H1, Hr by lia. unfold u64. rewrite Zplus_mod_idemp_l. f_equal. lia.
Qed.

(** The calls of a valid state form a ledger. *)
Lemma valid_calls s : Valid s → CallLedger.Inv (CallLedger.of_state s).
Proof. intros Hv id c Hc. destruct (v_calls _ Hv) as (Ho & _). by destruct (Ho _ _ Hc) as (_ & _ & _ & ?). Qed.

(** ** The phase graph *)

(** C1: every command moves the turn along the phase graph: the events of an
    applied command start at the phase of the state, follow an edge, and end at
    the phase of the next state. *)
Theorem apply_follows_lifecycle s c t :
  Apply s c = Ok t →
  Lifecycle.path (st_Phase s) (tn_Events t) = Some (st_Phase (tn_State t)).
Proof. apply Apply_path. Qed.

Theorem apply_follows_lifecycle_witness :
  ∃ t, Apply answer_start StartTurn = Ok t ∧
    Lifecycle.path PhaseCreated (tn_Events t) = Some (st_Phase (tn_State t)).
Proof.
  destruct (is_ok_Ok (Apply answer_start StartTurn)) as [t E]; [by vm_compute|].
  exists t. split; [done|]. exact (apply_follows_lifecycle answer_start StartTurn t E).
Defined.

(** C2: the terminal transaction is prepared once and published as prepared.
    From a committing state every run either is still committing with the same
    decision, usage, context and provisional output, or has published exactly
    that decision, with that output as the final output. *)
Theorem terminal_transaction s d cs s' :
  Validate s = Ok tt → st_Phase s = PhaseCommitting → st_PendingTerminal s = Some d →
  run s cs = Ok s' →
  (st_Phase s' = PhaseCommitting ∧ st_PendingTerminal s' = Some d ∧
   st_Usage s' = st_Usage s ∧ st_Context s' = st_Context s ∧
   st_ProvisionalOutput s' = st_ProvisionalOutput s) ∨
  (st_Phase s' = phaseForTerminal (td_Kind d) ∧ st_Terminal s' = Some d ∧
   st_Usage s' = st_Usage s ∧ st_Context s' = st_Context s ∧
   st_FinalOutput s' = st_ProvisionalOutput s).
Proof.
  rewrite Validate_Valid. intros Hv Hp Hd H.
  assert (Hv' : Valid s') by by eapply run_valid.
  apply run_tx in H. destruct (tx_committing _ Hv Hp) as (d0 & Hd0 & Htx). simplify_eq.
  rewrite Htx in H. apply tx_committing_inv in H. unfold tx_of in H.
  destruct (st_Phase s') eqn:Hp', (st_PendingTerminal s') as [d1|] eqn:Hd1,
    (st_Terminal s') as [d2|] eqn:Hd2; destruct H as [H|H]; try done; injection H; intros; subst; auto 7.
Qed.

Theorem terminal_transaction_witness :
  let d := mkTerminalDecision TerminalCompleted "" "" None None in
  let s' := after answer_committing [FinishTerminal] in
  (st_Phase s' = PhaseCommitting ∧ st_PendingTerminal s' = Some d ∧
   st_Usage s' = st_Usage answer_committing ∧ st_Context s' = st_Context answer_committing ∧
   st_ProvisionalOutput s' = st_ProvisionalOutput answer_committing) ∨
  (st_Phase s' = phaseForTerminal (td_Kind d) ∧ st_Terminal s' = Some d ∧
   st_Usage s' = st_Usage answer_committing ∧ st_Context s' = st_Context answer_committing ∧
   st_FinalOutput s' = st_ProvisionalOutput answer_committing).
Proof.
  apply (terminal_transaction answer_committing _ [FinishTerminal]).
  1,2,3: by vm_compute. apply after_Ok. by vm_compute.
Defined.

(** a non-success decision prepared while provisional output is still
    retained can never be published: no run leaves the committing phase. The
    output has to be discarded before the terminal request. *)
Theorem retained_output_blocks_failure s d cs s' :
  Validate s = Ok tt → st_Phase s = PhaseCommitting → st_PendingTerminal s = Some d →
  td_Kind d ≠ TerminalCompleted → st_ProvisionalOutput s ≠ [] →
  run s cs = Ok s' → st_Phase s' = PhaseCommitting.
Proof.
  rewrite Validate_Valid. intros Hv Hp Hd Hk Ho H.
  assert (Hv' : Valid s') by by eapply run_valid.
  apply run_tx in H. destruct (tx_committing _ Hv Hp) as (d0 & Hd0 & Htx). simplify_eq.
  rewrite Htx in H. apply tx_committing_inv in H.
  destruct (decide (st_Phase s' = PhaseCommitting)) as [|Hp']; [done|exfalso].
  destruct (Terminal (st_Phase s')) eqn:Ht; [|rewrite (tx_open s') in H by done; by destruct H].
  destruct (v_terminal _ Hv') as (Hterm & _).
  destruct (Hterm Ht) as (d1 & Hd1 & _ & _ & _ & _ & _ & _ & _ & _ & Hout).
  destruct (tx_done _ Hv' Ht) as (d2 & Hd2 & _ & Htx'). rewrite Htx' in H.
  destruct H as [|H]; [done|]. injection H. intros Hf _ _ -> _. simplify_eq.
  apply Ho. rewrite <- Hf. unfold ValidOutcome in Hout. case_match; tauto.
Qed.

Theorem retained_output_blocks_failure_witness :
  st_Phase (after answer_wedged [CancelRequested "stop"]) = PhaseCommitting ∧
  is_ok (Apply answer_wedged FinishTerminal) = false.
Proof.
  split; [|by vm_compute].
  apply (retained_output_blocks_failure answer_wedged
           (mkTerminalDecision TerminalFailed "internal" "failed" None None)
           [CancelRequested "stop"]).
  1,2,3: by vm_compute. 1,2: by vm_compute. apply after_Ok. by vm_compute.
Defined.

(** ** Ledgers *)

(** The effects of a turn form a ledger. In a run that requests fewer than
    2^64 effects every effect has an identity of its own, below the sequence;
    pending effects are live and completed ones settled, under disjoint
    identities. *)
Theorem effect_ledger_invariant intent mode profile policy cs s :
  run (NewStateWithPolicy intent mode profile policy) cs = Ok s →
  run_requests cs < 2 ^ 64 → EffectLedger.Inv (EffectLedger.of_state s).
Proof.
  intros H Hlt. eapply EffectLedger.steps_inv; [by apply run_effect_steps| |apply new_effect_inv].
  rewrite Z2Nat.id by apply run_requests_nonneg. cbn. lia.
Qed.

Theorem effect_ledger_invariant_witness :
  EffectLedger.Inv (EffectLedger.of_state edit_waiting).
Proof.
  apply (effect_ledger_invariant TurnIntentWorkspaceChange "act" 1 edit_policy
           (edit_sampling ++ edit_tool)); [exact edit_waiting_run|by vm_compute].
Defined.

(** C4: no effect is lost or rewritten. Along a run an effect stays the same
    effect (identity, kind, payload, digest, key, call) until it completes; a
    completed effect never changes again; a terminal turn has completed every
    effect it ever had pending. *)
Theorem effects_settle_once intent mode profile policy cs1 cs2 s1 s2 id e :
  run (NewStateWithPolicy intent mode profile policy) cs1 = Ok s1 → run s1 cs2 = Ok s2 →
  run_requests (cs1 ++ cs2) < 2 ^ 64 →
  (st_CompletedEffects s1 !! id = Some e → st_CompletedEffects s2 !! id = Some e) ∧
  (st_PendingEffects s1 !! id = Some e →
     ∃ e', EffectLedger.same_effect e e' ∧
       (st_CompletedEffects s2 !! id = Some e' ∨
        st_PendingEffects s2 !! id = Some e' ∧ Terminal (st_Phase s2) = false)).
Proof.
  intros H1 H2 Hlt. rewrite run_requests_app in Hlt.
  pose proof (run_requests_nonneg cs1). pose proof (run_requests_nonneg cs2).
  destruct (EffectLedger.steps_inv _ _ _ (run_effect_steps _ _ _ H1)) as (Hinv & Hseq & _);
    [cbn; lia|apply new_effect_inv|]. cbn in Hseq.
  pose proof (run_effect_steps _ _ _ H2) as Hsteps.
  assert (Hb : EffectLedger.seq (EffectLedger.of_state s1) + Z.of_nat (Z.to_nat (run_requests cs2))
               < 2 ^ 64) by (cbn; lia).
  split.
  - destruct (EffectLedger.steps_inv _ _ _ Hsteps Hb Hinv) as (_ & _ & Hsub).
    intros He. exact (lookup_weaken _ _ _ _ He Hsub).
  - intros He. destruct (effect_steps_keep _ _ _ id e Hsteps Hb Hinv) as (e' & He' & Hs);
      [by left|]. exists e'. split; [done|].
    destruct He' as [He'|He']; [right|by left]. split; [done|].
    destruct (Terminal (st_Phase s2)) eqn:Ht; [|done]. exfalso.
    assert (Hv : Valid s2).
    { eapply (new_terminal_valid _ _ _ _ (cs1 ++ cs2)); [|done]. apply run_app. eauto. }
    destruct (v_terminal _ Hv) as (Hterm & _).
    destruct (Hterm Ht) as (_ & _ & _ & _ & _ & _ & Hp & _). cbn in He'.
    by rewrite Hp, lookup_empty in He'.
Qed.

Theorem effects_settle_once_witness :
  ∃ e e', st_PendingEffects edit_waiting !! effect_2 = Some e ∧ EffectLedger.same_effect e e' ∧
    (st_CompletedEffects edit_done !! effect_2 = Some e' ∨
     st_PendingEffects edit_done !! effect_2 = Some e' ∧ Terminal (st_Phase edit_done) = false).
Proof.
  destruct edit_waiting_effect as [e He].
  destruct (effects_settle_once TurnIntentWorkspaceChange "act" 1 edit_policy
              (edit_sampling ++ edit_tool) edit_rest edit_waiting edit_done effect_2 e)
    as [_ H]; [exact edit_waiting_run|exact edit_done_run|by vm_compute|].
  destruct (H He) as (e' & Hs & Hc). exists e, e'. exact (conj He (conj Hs Hc)).
Defined.

(** C5: no tool call is lost. Along a run a known call stays known; a closed call
    keeps its result and is never open again; a terminal turn has closed every
    call it ever opened. *)
Theorem tool_calls_close_once s cs s' id :
  Validate s = Ok tt → run s cs = Ok s' →
  (∀ r, st_ClosedCalls s !! id = Some r →
     st_ClosedCalls s' !! id = Some r ∧ st_OpenCalls s' !! id = None) ∧
  (is_Some (st_OpenCalls s !! id) →
     is_Some (st_ClosedCalls s' !! id) ∨
     is_Some (st_OpenCalls s' !! id) ∧ Terminal (st_Phase s') = false).
Proof.
  rewrite Validate_Valid. intros Hv H. pose proof (run_valid _ _ _ Hv H) as Hv'.
  pose proof (run_call_steps _ _ _ H) as Hsteps.
  destruct (CallLedger.call_steps_keep _ _ Hsteps (valid_calls _ Hv)) as (Hinv & Hcl & Hop).
  split.
  - intros r Hr. apply (lookup_weaken _ (st_ClosedCalls s')) in Hr; [|exact Hcl]. split; [exact Hr|].
    destruct (st_OpenCalls s' !! id) as [c|] eqn:E; [|done].
    apply (Hinv id c) in E. cbn in *. congruence.
  - intros Ho. destruct (Hop id Ho) as [?|Ho']; [by left|right]. split; [done|].
    destruct (Terminal (st_Phase s')) eqn:Ht; [|done]. exfalso.
    destruct (v_terminal _ Hv') as (Hterm & _).
    destruct (Hterm Ht) as (_ & _ & Hempty & _). cbn in Ho'.
    rewrite Hempty, lookup_empty in Ho'. by destruct Ho'.
Qed.

Theorem tool_calls_close_once_witness :
  is_Some (st_ClosedCalls edit_done !! "c1") ∨
  is_Some (st_OpenCalls edit_done !! "c1") ∧ Terminal (st_Phase edit_done) = false.
Proof.
  apply (tool_calls_close_once edit_waiting edit_rest edit_done "c1" edit_waiting_valid edit_done_run).
  exact edit_waiting_call.
Defined.

(** ** Observed changes *)

(** the changes of a started turn are append-only under increasing revisions:
    after a run the changes extend the earlier ones, the revision has advanced
    (modulo 2^64) by the number of observations, and it is unchanged exactly
    when nothing was observed. *)
Theorem changes_append_only s cs s' :
  st_Phase s ≠ PhaseCreated → run s cs = Ok s' →
  ∃ extra k, st_Changes s' = st_Changes s ++ extra ∧ 0 ≤ k ≤ Z.of_nat (length cs) ∧
    (k = 0 ↔ extra = []) ∧
    (k = 0 → st_MutationRevision s' = st_MutationRevision s) ∧
    (0 < k → st_MutationRevision s' = u64 (st_MutationRevision s + k)).
Proof. apply run_grew. Qed.

Theorem changes_append_only_witness :
  ∃ extra k, st_Changes edit_done = st_Changes edit_waiting ++ extra ∧
    0 ≤ k ≤ Z.of_nat (length edit_rest) ∧ (k = 0 ↔ extra = []) ∧
    (k = 0 → st_MutationRevision edit_done = st_MutationRevision edit_waiting) ∧
    (0 < k → st_MutationRevision edit_done = u64 (st_MutationRevision edit_waiting + k)).
Proof.
  apply (changes_append_only edit_waiting edit_rest edit_done); [|exact edit_done_run].
  by vm_compute.
Defined.

(** C6: cancellation is sticky and closes admission. Once accepted, its reason
    never changes, and no later command adds a model sample or a tool call. *)
Theorem cancellation_closes_admission s cs s' :
  ca_Accepted (st_Cancellation s) = true → run s cs = Ok s' →
  st_Cancellation s' = st_Cancellation s ∧
  dom (st_SampleLedger s') ⊆ dom (st_SampleLedger s) ∧
  dom (st_OpenCalls s') ⊆ dom (st_OpenCalls s).
Proof.
  revert s. induction cs as [|c cs IH]; intros s Ha H.
  - injection H as <-. done.
  - apply run_cons in H as (t & Ht%Apply_sim & H).
    destruct (sim_cancel _ _ _ Ht) as [Hc|(? & _)]; [|congruence].
    destruct (sim_admission _ _ _ Ht Ha) as (Hs & Ho).
    destruct (IH (tn_State t)) as (? & ? & ?); [by rewrite Hc|done|].
    split_and!; [congruence|by etransitivity..].
Qed.

Theorem cancellation_closes_admission_witness :
  st_Cancellation (after canceled_answer [DiscardProvisionalOutput "stop"])
  = st_Cancellation canceled_answer ∧ is_ok (Apply canceled_answer (ModelSampleRequested "s1")) = false.
Proof.
  split; [|by vm_compute].
  apply (cancellation_closes_admission canceled_answer [DiscardProvisionalOutput "stop"]).
  - by vm_compute.
  - apply after_Ok. by vm_compute.
Defined.

(** ** Completed turns *)

Lemma reachable_verification s : reachable s → st_Verification s = not_evaluated.
Proof.
  induction 1 as [|s c t _ IH Ht%Apply_sim]; [done|].
  destruct (sim_verification _ _ _ Ht) as [H|H]; congruence.
Qed.

Lemma policy_met s : validateCompletionPolicy s = Ok tt →
  workspaceCompletionMissing s = false ∧
  (RequiresCompletion s = true →
     ∃ d, accepted_completion s = Some d ∧ cd_Mutation d = st_MutationRevision s).
Proof.
  unfold validateCompletionPolicy. rewrite then_Ok. intros (Hm%refuse_Ok & H). split; [done|].
  intros Hr. rewrite Hr in H. destruct (accepted_completion s) as [d|]; [|done].
  exists d. split; [done|]. apply require_Ok in H. by apply Z.eqb_eq.
Qed.

(** C3: a turn that reaches the completed phase is finished: nothing is open,
    pending or running; it published some output; a workspace-change turn that
    observed no change has an evidenced no-change declaration; a policy that
    requires a completion has one accepted for the final revision; and the
    journal is committed exactly when there were changes or the policy asks
    for a journal. *)
Theorem completed_turn_is_finished s :
  reachable s → st_Phase s = PhaseCompleted →
  (st_OpenCalls s = ∅ ∧ st_PendingApprovals s = ∅ ∧ st_PendingInput s = None ∧
   st_ActiveSampleID s = "" ∧ st_PendingEffects s = ∅) ∧
  st_FinalOutput s ≠ [] ∧ workspaceCompletionMissing s = false ∧
  (RequiresCompletion s = true →
     ∃ d, accepted_completion s = Some d ∧ cd_Mutation d = st_MutationRevision s) ∧
  st_Journal s = (if (st_MutationRevision s =? 0) && negb (po_JournalRequired (st_Policy s))
                  then JournalNone else JournalCommitted).
Proof.
  intros Hr Hp. assert (Hv : Valid s).
  { inversion Hr as [|s0 c t _ (_ & _ & _ & Hv)%Apply_Ok]; [by subst|by subst]. }
  pose proof (reachable_verification _ Hr) as Hver.
  destruct (v_terminal _ Hv) as (Hterm & _).
  destruct Hterm as (d & Hd & Ho & Ha & Hi & Hs & He & _ & _ & Hk & Hout); [by rewrite Hp|].
  rewrite Hp in Hk. unfold ValidOutcome in Hout. destruct (td_Kind d); [|done..].
  destruct Hout as (_ & Hf & Hpol & Hj). apply policy_met in Hpol as (Hm & Hc).
  split_and!; try done. rewrite Hj. unfold completed_journal. rewrite Hver. cbn.
  by destruct (_ =? 0), (po_JournalRequired _).
Qed.

Theorem completed_turn_is_finished_witness :
  st_Phase edit_done = PhaseCompleted ∧ st_FinalOutput edit_done ≠ [].
Proof.
  split; [exact edit_done_phase|].
  exact (proj1 (proj2 (completed_turn_is_finished edit_done
    (run_reachable _ _ _ edit_waiting_reachable edit_done_run) edit_done_phase))).
Defined.

(** The verification stage is retired: no reachable turn is in the verifying
    phase, and none carries a verification result. *)
Theorem verification_is_retired s :
  reachable s → st_Phase s ≠ PhaseVerifying ∧ st_Verification s = not_evaluated.
Proof.
  intros Hr. split; [|by apply reachable_verification].
  induction Hr as [|s c t _ IH Ht]; [done|].
  eapply (run_not_into PhaseVerifying s [c]); [done..|]. apply run_cons. by exists t.
Qed.

Theorem verification_is_retired_witness :
  st_Phase edit_waiting ≠ PhaseVerifying ∧ st_Verification edit_waiting = not_evaluated.
Proof.
  exact (verification_is_retired edit_waiting edit_waiting_reachable).
Defined.
