(* ===== verification/TurnDecisions.v ===== *)
(** The decisions of the turn kernel: what its validation decides, which
    completion declarations are accepted, how repairs, retries and progress are
    bounded, and where the command matrix and the reducer part. *)
From S2P Require Import Prelude.
From S2P Require Import GoStrings.
From S2P Require Import Sha256.
From S2P Require Import Json.
From S2P Require Import ToolResult.
From S2P Require Import Provider.
From S2P Require Import Assembly.
From S2P Require Import TurnState.
From S2P Require Import WorkItem.
From S2P Require Import Invariants.
From S2P Require Import Command.
From S2P Require Import Effects.
From S2P Require Import Validity.
From S2P Require Import TurnSpec.
From S2P Require Import Sampling.
From S2P Require Import Reducer.
From S2P Require Import Frames.
From S2P Require Import Kernel.
From S2P Require Import Runs.
From S2P Require Import Scenario.

(** ** The command matrix *)

(** The commands whose reducer accepts more phases than the matrix lists. *)
Definition wider_commands : list string :=
  ["input_required"; "approval_required"; "tool_result_received"; "tool_calls_proposed";
   "discard_provisional_output"; "persistence_result_received"].

Definition matrix_phases (c : Command) : list Phase :=
  match contract_of (commandName c) with Some k => con_AllowedPhases k | None => [] end.

(** The command keeps to the phases the matrix lists for it. *)
Definition matrix_bound (c : Command) : bool :=
  negb (bool_decide (matrix_phases c = [])) && bool_decide (commandName c ∉ wider_commands).

(** The phase guard a handler starts with. *)
Ltac phase_guard H :=
  unfold requirePhase in H; apply bind_Ok in H as (? & H%require_Ok & _);
  exact (proj1 (bool_decide_eq_true _) H).

Lemma dispatch_phase (s : State) c t :
  dispatch (mkTransition s [] []) s c = Ok t → matrix_bound c = true →
  st_Phase s ∈ matrix_phases c.
Proof.
  intros H Hm. destruct c; vm_compute in Hm; try discriminate Hm; clear Hm; cbn [dispatch] in H.
  all: repeat match type of H with ?f _ _ = Ok _ => unfold f in H
     | ?f _ _ _ = Ok _ => unfold f in H | ?f _ _ _ _ = Ok _ => unfold f in H
     | ?f _ _ _ _ _ = Ok _ => unfold f in H | ?f _ _ _ _ _ _ = Ok _ => unfold f in H end.
  all: try (phase_guard H).
  - apply bind_Ok in H as (? & _ & H). apply bind_Ok in H as (? & _ & H).
    apply bind_Ok in H as (t1 & Hf & H). unfold or_illegal in Hf.
    destruct (finishEffect _ _ _ _) as [t2|] eqn:Hfin; [|done]. injection Hf as ->.
    apply finishEffect_settles in Hfin as (l & evs & _ & _ & ->).
    apply bind_Ok in H as (t2 & (Hp & _)%applyApprovalResolved_Ok & _). cbn in Hp. rewrite Hp.
    vm_compute. set_solver.
  - apply bind_Ok in H as (? & _ & H). apply bind_Ok in H as (? & _ & H).
    apply bind_Ok in H as (t1 & Hf & H). unfold or_illegal in Hf.
    destruct (finishEffect _ _ _ _) as [t2|] eqn:Hfin; [|done]. injection Hf as ->.
    apply finishEffect_settles in Hfin as (l & evs & _ & _ & ->).
    apply applyInputResolved_Ok in H as (Hp & _). cbn in Hp. rewrite Hp. vm_compute. set_solver.
Qed.

(** the reducer honours the command matrix: a command for which the matrix
    lists phases is applied only in one of them, save for six commands the
    reducer accepts in more phases. *)
Theorem reducer_honours_matrix s c t :
  Apply s c = Ok t → matrix_phases c ≠ [] → commandName c ∉ wider_commands →
  st_Phase s ∈ matrix_phases c.
Proof.
  intros (_ & _ & Hd & _)%Apply_Ok Hm Hn. eapply dispatch_phase; [exact Hd|].
  unfold matrix_bound. by rewrite bool_decide_eq_false_2, bool_decide_eq_true_2.
Qed.

Theorem reducer_honours_matrix_witness :
  st_Phase answer_committing ∈ matrix_phases FinishTerminal.
Proof.
  destruct (is_ok_Ok (Apply answer_committing FinishTerminal)) as [t E]; [by vm_compute|].
  apply (reducer_honours_matrix answer_committing FinishTerminal t E); [by vm_compute|].
  apply (bool_decide_unpack _). by vm_compute.
Defined.

(** The matrix is not the reducer's guard: a reachable turn that executes
    tools has its provisional output discarded, which the matrix lists for the
    sampling phase only. *)
Theorem matrix_is_narrower :
  ∃ s c t, reachable s ∧ Apply s c = Ok t ∧ matrix_phases c ≠ [] ∧
           st_Phase s ∉ matrix_phases c.
Proof.
  exists edit_waiting, (DiscardProvisionalOutput "repair").
  destruct (is_ok_Ok (Apply edit_waiting (DiscardProvisionalOutput "repair"))) as [t E];
    [by vm_compute|].
  exists t. split_and!; [exact edit_waiting_reachable|exact E|by vm_compute|].
  apply (bool_decide_eq_false _). by vm_compute.
Qed.

(** ** Validation *)

(** C22: [Validate] decides the well-formedness of a state, rule by rule, and a run of
    accepted commands never leaves it: the state after a run is well formed, and so
    is every state a fact of the turn records. *)
Theorem validation_decides_valid s :
  (Validate s = Ok tt ↔ Valid s) ∧
  ∀ c cs s', run s (c :: cs) = Ok s' → Valid s ∧ Validate s' = Ok tt.
Proof.
  split; [apply Validate_Valid|]. intros c cs s' H. rewrite Validate_Valid.
  pose proof H as (t & (Hv & _)%Apply_Ok & _)%run_cons. split; [done|]. by eapply run_valid.
Qed.

Theorem validation_decides_valid_witness : Valid edit_start ∧ Validate edit_waiting = Ok tt.
Proof.
  apply (proj2 (validation_decides_valid edit_start) StartTurn (tail (edit_sampling ++ edit_tool))).
  exact edit_waiting_run.
Defined.

(** ** Completion declarations *)

(** What a declaration must meet to be accepted: it is the only call of its batch and
    well formed, declares complete work with a summary and nothing pending, and its change
    claims agree with what was observed. *)
Record Acceptable (s : State) (c : CompletionCandidate) : Prop := {
  ac_alone : ccd_BatchMutated c = false ∧ ccd_BatchSize c = 1 ∧ ccd_DeclarationValid c = true;
  ac_mode : valid_output_mode (ccd_OutputMode c) = true;
  ac_complete : ccd_ToolError c = false ∧ ccd_Status c = "complete" ∧
                blank (ccd_Summary c) = false ∧ ccd_PendingActions c = [];
  ac_no_change : ccd_NoChangeReason c ≠ "" ∨ ccd_NoChangeEvidence c ≠ [] →
    validNoChange s (ccd_NoChangeReason c) (ccd_NoChangeEvidence c) = true;
  ac_changes : st_Intent s = TurnIntentWorkspaceChange → st_MutationRevision s = 0 →
    validNoChange s (ccd_NoChangeReason c) (ccd_NoChangeEvidence c) = true;
  ac_output : ccd_OutputMode c = "preserve_provisional" → st_ProvisionalOutput s ≠ [];
}.

Lemma not_accepted (b : bool) v v' :
  v ≠ AcceptedVerdict → (if b then v else v') = AcceptedVerdict ↔ b = false ∧ v' = AcceptedVerdict.
Proof. intros Hv. destruct b; naive_solver. Qed.

Lemma verdict_accepted s c : completion_verdict s c = AcceptedVerdict ↔ Acceptable s c.
Proof.
  unfold completion_verdict. cbv zeta.
  rewrite !not_accepted by (done || by repeat case_match).
  rewrite !orb_false_iff, !negb_false_iff, Z.eqb_eq, !bool_decide_eq_true.
  split.
  - intros (H1 & H2 & H3 & H4 & H5 & (((H6 & H7) & H8) & H9) & H10 & H11 & H12 & _).
    apply String.eqb_eq in H7. split; try done.
    + intros Hn. destruct (validNoChange _ _ _); [done|exfalso]. bool_prop. rewrite andb_true_r in H10.
      apply orb_false_iff in H10 as [Ha Hc]. bool_prop. tauto.
    + intros Hi Hm. destruct (validNoChange _ _ _); [done|exfalso]. by rewrite Hi, Hm in H11.
    + intros Hp Ho. by rewrite Hp, Ho in H12.
  - intros [(H1 & H2 & H3) H4 (H5 & H6 & H7 & H8) H9 H10 H11].
    rewrite H1, H2, H3, H4, H5, H6, H7, H8. split_and!; try done.
    + destruct (validNoChange _ _ _) eqn:Hn; [by rewrite andb_false_r|]. rewrite andb_true_r. apply orb_false_iff.
      split; [apply negb_false_iff, String.eqb_eq|apply negb_false_iff, bool_decide_eq_true];
        apply dec_stable; intros ?; specialize (H9 ltac:(tauto)); congruence.
    + destruct (validNoChange _ _ _) eqn:Hn; [by rewrite andb_false_r|]. rewrite andb_true_r. apply andb_false_iff.
      destruct (decide (st_Intent s = TurnIntentWorkspaceChange)) as [Hi|]; [|left; by apply bool_decide_eq_false].
      right. apply Z.eqb_neq. intros Hm. specialize (H10 Hi Hm). congruence.
    + destruct (ccd_OutputMode c == "preserve_provisional") eqn:E; [|done].
      apply String.eqb_eq in E. cbn. apply bool_decide_eq_false. by apply H11.
Qed.

Lemma completion_cases s c t :
  Apply s (CompletionEvaluated c) = Ok t →
  ∃ d, st_Completion (tn_State t) = Some d ∧ cd_OutputMode d = ccd_OutputMode c ∧
    match completion_verdict s c with
    | AcceptedVerdict => cd_Accepted d = true ∧
        st_ProvisionalOutput (tn_State t) = st_ProvisionalOutput (accepted_output c s)
    | _ => cd_Accepted d = false ∧ st_ProvisionalOutput (tn_State t) = st_ProvisionalOutput s
    end.
Proof.
  intros (_ & _ & Hd & _)%Apply_Ok. cbn [dispatch] in Hd. unfold applyCompletion in Hd.
  apply bind_Ok in Hd as (_ & _ & Hd). apply bind_Ok in Hd as (_ & _ & Hd). cbv zeta in Hd.
  destruct (completion_verdict s c); injection Hd as <-; eexists; (split; [reflexivity|]); cbn;
    repeat case_match; done.
Qed.

(** C23: a completion declaration is accepted exactly when it is the only, well-formed
    call of its batch, declares complete work with a summary and nothing pending, and
    agrees with the observed changes; an accepted one owns the output, a rejected one
    leaves it. *)
Theorem completion_accepted_iff s c t :
  Apply s (CompletionEvaluated c) = Ok t →
  ∃ d, st_Completion (tn_State t) = Some d ∧ (cd_Accepted d = true ↔ Acceptable s c) ∧
    (cd_Accepted d = true → st_ProvisionalOutput (tn_State t) =
       if ccd_OutputMode c == "preserve_provisional"
       then st_ProvisionalOutput s ++ [newline +:+ newline +:+ trim_space (ccd_Summary c)]
       else [trim_space (ccd_Summary c)]) ∧
    (cd_Accepted d = false → st_ProvisionalOutput (tn_State t) = st_ProvisionalOutput s).
Proof.
  intros (d & Hd & _ & H)%completion_cases. exists d. split; [done|]. rewrite <- verdict_accepted.
  destruct (completion_verdict s c) eqn:E; destruct H as [Ha Ho]; rewrite Ha, Ho;
    split_and!; naive_solver.
Qed.

Theorem completion_accepted_iff_witness :
  ∃ t d, Apply edit_declared (CompletionEvaluated edit_declaration) = Ok t ∧
         st_Completion (tn_State t) = Some d ∧
         (cd_Accepted d = true ↔ Acceptable edit_declared edit_declaration).
Proof.
  destruct (is_ok_Ok (Apply edit_declared (CompletionEvaluated edit_declaration))) as [t E]; [by vm_compute|].
  destruct (completion_accepted_iff edit_declared edit_declaration t E) as (d & Hd & Hacc & _).
  exists t, d. exact (conj E (conj Hd Hacc)).
Defined.

(** A declaration with an unknown output mode is always refused as a command: the
    rejection [applyCompletion] has for it keeps the mode, and the state with it is not
    valid. *)
Theorem invalid_output_mode_is_an_error s c :
  valid_output_mode (ccd_OutputMode c) = false →
  is_ok (Apply s (CompletionEvaluated c)) = false.
Proof.
  intros Hm. destruct (Apply _ _) as [t|] eqn:E; [exfalso|done].
  pose proof E as (_ & _ & _ & Hv)%Apply_Ok.
  apply completion_cases in E as (d & Hd & Hmode & _).
  destruct (v_completion _ Hv d Hd) as (H & _). congruence.
Qed.

Theorem invalid_output_mode_is_an_error_witness :
  is_ok (Apply edit_declared (CompletionEvaluated
    (mkCompletionCandidate "" [] true "complete" "done" "loud" [] "c2" false 1 false [] 0))) = false.
Proof. apply (invalid_output_mode_is_an_error edit_declared). by vm_compute. Defined.

(** A rejected declaration with pending actions and no summary can leave a turn that
    no evaluation moves: convergence takes both over, the state with them is not valid, and
    the command fails whatever its progress key. *)
Theorem evaluation_can_fail_for_ever :
  ∃ s, reachable s ∧ st_Phase s = PhaseSampling ∧ st_ActiveSampleID s = "" ∧
       ∀ key, is_ok (Apply s (EvaluateTurnStep key)) = false.
Proof.
  exists strict_rejected.
  split; [exact (reachable_run _ _ _ _ _ _ strict_rejected_run)|].
  split; [by vm_compute|]. split; [by vm_compute|]. intros key.
  destruct (Apply strict_rejected (EvaluateTurnStep key)) as [t|] eqn:E; [exfalso|done].
  apply Apply_Ok in E as (_ & _ & Hd & Hv). cbn [dispatch] in Hd. unfold applyEvaluateTurnStep in Hd.
  apply bind_Ok in Hd as (_ & _ & Hd). apply bind_Ok in Hd as (_ & _ & Hd).
  assert (Hc : st_Convergence (tn_State t) =
    Some (mkConvergenceState ConvergenceRepairBudget 0 0 RepairCompletion false "" ["later"])).
  { revert Hd. vm_compute. by intros [= <-]. }
  destruct (v_convergence _ Hv _ Hc) as (_ & _ & Hiff & _). cbn in Hiff.
  assert (H : blank "" = true) by by vm_compute. apply Hiff in H. done.
Qed.
