(* ===== verification/Sharing.v ===== *)
(** The one part of a state the reducer shares with its caller: the set of seen
    observations. [applyObserveProgress] works on a copy of [current.Progress], not of the
    clone, so remembering an observation writes into the set of the state the
    command was applied to, even when the command, or its commit, fails afterwards. *)
From S2P Require Import Prelude.
From S2P Require Import GoStrings.
From S2P Require Import TurnState.
From S2P Require Import WorkItem.
From S2P Require Import Invariants.
From S2P Require Import Command.
From S2P Require Import Validity.
From S2P Require Import TurnSpec.
From S2P Require Import Reducer.

(** The key of the observation a command reports. *)
Definition observation_key (current : State) (Signature ResultDigest : string) : string :=
  let resultDigest := trim_space ResultDigest in
  FormatObservationKey (trim_space Signature) (FormatWorkspaceContent (st_WorkItem current))
    (if resultDigest == ""
     then FormatResultDigest (pg_PendingResultDigests (st_Progress current)) else resultDigest).

(** Through the shared pointer; a nil set is not shared. *)
Definition remember_shared (progress : ProgressState) (key : string) : ProgressState :=
  match pg_SeenObservations progress with
  | Some _ => rememberObservation progress key
  | None => progress
  end.

(** The guards [applyObserveProgress] passes before it remembers. *)
Definition observes (current : State) (Signature : string) (CompletedSamples : Z) : bool :=
  is_ok (Validate current) && bool_decide (st_Phase current = PhaseSampling)
  && (st_ActiveSampleID current == "") && negb (trim_space Signature == "")
  && negb (CompletedSamples <? pg_ObservedSamples (st_Progress current)).

(** The caller's state after a command was applied to it. *)
Definition caller_after (current : State) (command : Command) : State :=
  match command with
  | ObserveProgress Signature _ ResultDigest CompletedSamples =>
      if observes current Signature CompletedSamples
      then set_st_Progress
             (remember_shared (st_Progress current) (observation_key current Signature ResultDigest))
             current
      else current
  | _ => current
  end.

(** ** States up to their observations *)

Definition with_seen (o : option ObservationSet) (s : State) : State :=
  set_st_Progress (set_pg_SeenObservations o (st_Progress s)) s.

Definition alike (s s' : State) : Prop := ∃ o, s' = with_seen o s.

Lemma with_seen_same s : with_seen (pg_SeenObservations (st_Progress s)) s = s.
Proof. destruct s as [? ? ? ? ? ? ? ? ? ? ? ? ? ? ? ? ? ? ? ? ? ? ? ? ? ? ? ? ? ? [] ? ? ? ? ? ? ? ?]. done. Qed.

Lemma with_seen_twice o o' s : with_seen o' (with_seen o s) = with_seen o' s.
Proof. done. Qed.

#[export] Instance alike_equivalence : Equivalence alike.
Proof.
  split.
  - intros s. exists (pg_SeenObservations (st_Progress s)). by rewrite with_seen_same.
  - intros s s' [o ->]. exists (pg_SeenObservations (st_Progress s)).
    by rewrite with_seen_twice, with_seen_same.
  - intros s s1 s2 [o ->] [o' ->]. by exists o'.
Qed.

Lemma caller_after_alike s c : alike s (caller_after s c).
Proof.
  destruct c; try reflexivity. cbn. destruct (observes _ _ _); [|reflexivity].
  unfold remember_shared, rememberObservation.
  destruct (pg_SeenObservations (st_Progress s)) eqn:E.
  - destruct (_ || _); [|by eexists]. exists (pg_SeenObservations (st_Progress s)).
    unfold with_seen. by destruct (st_Progress s).
  - exists None. unfold with_seen. rewrite <- E. by destruct (st_Progress s).
Qed.

#[export] Instance valid_proper : Proper (alike ==> iff) Valid.
Proof.
  assert (H : ∀ o s, Valid s → Valid (with_seen o s)).
  { intros o s [? ? ? ? ? ? ? ? ? ? ? ? ? ? ? ? ? ? ? ? ? ?]. by split. }
  intros s s' [o ->]. split; [apply H|].
  intros Hv. rewrite <- (with_seen_same s), <- (with_seen_twice o). by apply H.
Qed.

#[export] Instance ledger_proper : Proper (alike ==> eq) EffectLedger.of_state.
Proof. by intros s s' [o ->]. Qed.

#[export] Instance phase_proper : Proper (alike ==> eq) st_Phase.
Proof. by intros s s' [o ->]. Qed.

Lemma ledger_seq s s' : alike s s' → st_NextEffectSequence s' = st_NextEffectSequence s.
Proof. by intros [o ->]. Qed.
