(* ===== verification/DomainFacts.v ===== *)
(** The durable record of a turn ([coordinator.go], [terminal_envelope.go]): domain
    facts, the state digest, the replay of a fact chain, and the interface of a fact
    store with its laws. *)
From S2P Require Import Prelude.
From S2P Require Import GoStrings.
From S2P Require Import Sha256.
From S2P Require Import TurnState.
From S2P Require Import Invariants.
From S2P Require Import Command.
From S2P Require Import Validity.

(** A fact: the command, one event of its transition and the state after it. A
    command without events records the zero event, [None]. *)
Record DomainFact := mkDomainFact {
  df_TurnID : string;
  df_Sequence : Z;
  df_Command : string;
  df_Event : option Event;
  df_State : State;
  df_StateDigest : string;
}.

(** The facts of one command with the encodings the coordinator computed. *)
Record DomainFactBatch := mkDomainFactBatch {
  fb_TurnID : string;
  fb_ExpectedNext : Z;
  fb_Facts : list DomainFact;
  fb_StateEncoding : string;
  fb_PreviousDigest : string;
  fb_PreviousEncoding : string;
}.

(** A fact store over a state [St]: the interfaces [DomainFactStore] and
    [VerifiedDomainFactStore]; a store that does not implement the second has
    [None] there. Every operation returns its error and the next store. *)
Class DomainFactStore (St : Type) := {
  AppendDomainFacts : string → Z → list DomainFact → St → res error unit * St;
  AppendVerifiedDomainFacts : option (DomainFactBatch → St → res error unit * St);
  LoadDomainFacts : string → St → res error (list DomainFact);
}.

(** [TurnCoordinator.defaultCommit]. *)
Definition defaultCommit {St} `{!DomainFactStore St} (batch : DomainFactBatch) (store : St) :
    res error unit * St :=
  match AppendVerifiedDomainFacts with
  | Some append => append batch store
  | None =>
      AppendDomainFacts (fb_TurnID batch) (fb_ExpectedNext batch) (fb_Facts batch) store
  end.

Section Encoding.
(** [json.Marshal] of a state: its text keeps time zones and nil slices, which
    the model of a state does not, so it is a parameter. *)
Context (marshal : State → res error string).

(** The digest of a state and its encoding. *)
Definition digestValidated (state : State) : res error (string * string) :=
  data ← marshal state;
  Ok (sha256_digest data, data).

Definition Digest (state : State) : res error string :=
  Validate state;;
  digest ← digestValidated state;
  Ok (fst digest).

(** The checks of one fact of a chain. *)
Definition check_fact (turnID : string) (start : Z) (index : nat) (fact : DomainFact) :
    res error unit :=
  require ((df_TurnID fact == turnID)
           && (df_Sequence fact =? u64 (start + Z.of_nat index)))
    (ErrFmt "domain fact sequence is invalid at index %d" [ArgZ (Z.of_nat index)]);;
  match Validate (df_State fact) with
  | Err e => Err (ErrWrap "domain fact state %d: %w" [ArgZ (Z.of_nat index + 1)] e)
  | Ok _ => Ok tt
  end;;
  match Digest (df_State fact) with
  | Ok digest =>
      require (digest == df_StateDigest fact)
        (ErrFmt "domain fact digest mismatch at sequence %d" [ArgZ (df_Sequence fact)])
  | Err _ =>
      Err (ErrFmt "domain fact digest mismatch at sequence %d" [ArgZ (df_Sequence fact)])
  end.

(** The loop over a chain; [index] facts precede [facts]. *)
Fixpoint check_facts (turnID : string) (start : Z) (index : nat) (facts : list DomainFact) :
    res error unit :=
  match facts with
  | [] => Ok tt
  | fact :: facts =>
      check_fact turnID start index fact;;
      check_facts turnID start (S index) facts
  end.

(** The state of the last fact with its digest and encoding. *)
Definition replayDomainFacts (turnID : string) (facts : list DomainFact) :
    res error (State * string * string) :=
  match facts with
  | [] => Err (ErrText "turn coordinator restore has no domain facts")
  | first :: _ =>
      let start := df_Sequence first in
      refuse (start =? 0) (ErrText "domain fact sequence is invalid");;
      check_facts turnID start 0 facts;;
      let tail := List.last facts first in
      match digestValidated (df_State tail) with
      | Ok (digest, encoded) =>
          require (digest == df_StateDigest tail)
            (ErrFmt "restored state diverges from digest at sequence %d: %w"
               [ArgZ (df_Sequence tail)]);;
          Ok (df_State tail, digest, encoded)
      | Err e => Err (ErrWrap "restored state diverges from digest at sequence %d: %w"
                        [ArgZ (df_Sequence tail)] e)
      end
  end.

Definition ValidateDomainFacts (turnID : string) (facts : list DomainFact) : res error unit :=
  replayDomainFacts turnID facts;; Ok tt.

(** ** Chains *)

(** The fact at sequence [seq] of a turn: a valid state under its digest. *)
Definition GoodFact (turnID : string) (seq : Z) (fact : DomainFact) : Prop :=
  df_TurnID fact = turnID ∧ df_Sequence fact = seq ∧ Valid (df_State fact) ∧
  ∃ data, marshal (df_State fact) = Ok data ∧ df_StateDigest fact = sha256_digest data.

(** Consecutive good facts from [start] on. *)
Definition Chain (turnID : string) (start : Z) (facts : list DomainFact) : Prop :=
  ∀ i fact, facts !! i = Some fact → GoodFact turnID (u64 (start + Z.of_nat i)) fact.

Lemma digestValidated_Ok state d data :
  digestValidated state = Ok (d, data) ↔ marshal state = Ok data ∧ d = sha256_digest data.
Proof. unfold digestValidated. rewrite bind_Ok. naive_solver. Qed.

Lemma Digest_Ok state d :
  Digest state = Ok d ↔ Valid state ∧ ∃ data, marshal state = Ok data ∧ d = sha256_digest data.
Proof.
  unfold Digest. rewrite then_Ok, Validate_Valid, bind_Ok. split.
  - intros (? & [d' data] & [? ->]%digestValidated_Ok & [= <-]). eauto.
  - intros (? & data & ? & ->). split; [done|]. exists (sha256_digest data, data).
    by rewrite digestValidated_Ok.
Qed.

Lemma check_fact_Ok turnID start i fact :
  check_fact turnID start i fact = Ok tt ↔ GoodFact turnID (u64 (start + Z.of_nat i)) fact.
Proof.
  unfold check_fact, GoodFact. rewrite then_Ok, require_Ok, andb_true_iff, Z.eqb_eq.
  rewrite String.eqb_eq, then_Ok. destruct (Validate (df_State fact)) as [[]|] eqn:Hv.
  - apply Validate_Valid in Hv. destruct (Digest (df_State fact)) as [d|e] eqn:Hd.
    + apply Digest_Ok in Hd as (_ & data & Hm & ->). rewrite require_Ok, String.eqb_eq. split.
      * intros ([? ?] & _ & <-). eauto 6.
      * intros (? & ? & _ & data' & Hm' & ->). rewrite Hm in Hm'. by injection Hm' as <-.
    + split; [by intros (_ & _ & ?)|]. intros (_ & _ & _ & data & Hm & Hdig).
      enough (Digest (df_State fact) = Ok (df_StateDigest fact)) by congruence.
      apply Digest_Ok. eauto.
  - split; [by intros (_ & ? & _)|]. intros (_ & _ & ?%Validate_Valid & _). congruence.
Qed.

Lemma check_facts_Ok turnID start i facts :
  check_facts turnID start i facts = Ok tt ↔
  ∀ k fact, facts !! k = Some fact → GoodFact turnID (u64 (start + Z.of_nat (i + k))) fact.
Proof.
  revert i. induction facts as [|f facts IH]; intros i; cbn [check_facts].
  - split; [|done]. intros _ k fact. by rewrite lookup_nil.
  - rewrite then_Ok, check_fact_Ok, IH. split.
    + intros [Hf H] [|k] fact Hk; cbn in Hk; [simplify_eq; by rewrite Nat.add_0_r|].
      replace (i + S k)%nat with (S i + k)%nat by lia. auto.
    + intros H. split; [specialize (H 0%nat f eq_refl); by rewrite Nat.add_0_r in H|].
      intros k fact Hk. replace (S i + k)%nat with (i + S k)%nat by lia. by apply H.
Qed.

Lemma go_last_snoc {A} (l : list A) (x d : A) : List.last (l ++ [x]) d = x.
Proof. induction l as [|y l IH]; [done|]. cbn. rewrite IH. by destruct (l ++ [x]) eqn:E; [destruct l|]. Qed.

Lemma replay_Ok turnID facts s d data :
  replayDomainFacts turnID facts = Ok (s, d, data) ↔
  ∃ first tail, head facts = Some first ∧ last facts = Some tail ∧ df_Sequence first ≠ 0 ∧
    Chain turnID (df_Sequence first) facts ∧ s = df_State tail ∧ marshal s = Ok data ∧
    d = df_StateDigest tail.
Proof.
  destruct facts as [|first l]; [naive_solver|]. cbn [replayDomainFacts head].
  destruct (exists_last (l := first :: l)) as (l' & tail & Hl); [done|].
  rewrite then_Ok, refuse_Ok, Z.eqb_neq, then_Ok, Hl, go_last_snoc, last_app.
  rewrite (check_facts_Ok turnID (df_Sequence first) 0). cbn [last].
  split.
  - intros (Hs & Hc & H). destruct (digestValidated _) as [[d' data']|] eqn:Hd; [|done].
    apply digestValidated_Ok in Hd as (Hm & ->). apply then_Ok in H as (Hr & [= <- <- <-]).
    apply require_Ok, String.eqb_eq in Hr. exists first, tail. split_and!; try done.
  - intros (f & t & [= <-] & [= <-] & Hs & Hc & -> & Hm & ->). split_and!; [done..|].
    destruct (Hc (length l') tail) as (_ & _ & _ & data' & Hm' & Hd).
    { by rewrite lookup_app_r, Nat.sub_diag by lia. }
    rewrite Hm in Hm'. injection Hm' as <-.
    rewrite (proj2 (digestValidated_Ok _ (sha256_digest data) data)) by done.
    rewrite then_Ok, require_Ok, String.eqb_eq. by rewrite Hd.
Qed.

(** A chain grows by good facts at the next sequences. *)
Lemma Chain_app turnID start l1 l2 :
  Chain turnID start (l1 ++ l2) ↔
  Chain turnID start l1 ∧ Chain turnID (start + Z.of_nat (length l1)) l2.
Proof.
  unfold Chain. split.
  - intros H. split; intros i f Hi.
    + apply H. rewrite lookup_app_l by by eapply lookup_lt_Some. done.
    + replace (start + Z.of_nat (length l1) + Z.of_nat i)
        with (start + Z.of_nat (length l1 + i)) by lia.
      apply H. rewrite lookup_app_r by lia. by replace (length l1 + i - length l1)%nat with i by lia.
  - intros [H1 H2] i f [Hi|[Hle Hi]]%lookup_app_Some; [by apply H1|].
    specialize (H2 _ _ Hi).
    by replace (start + Z.of_nat (length l1) + Z.of_nat (i - length l1))
      with (start + Z.of_nat i) in H2 by lia.
Qed.

End Encoding.

(** ** The laws of a store *)

(** What the coordinator relies on in a commit: it extends the facts of its turn and
    of no other when it succeeds, and leaves every turn's facts when it fails. *)
Record LawfulCommit {St} `{!DomainFactStore St} (commit : DomainFactBatch → St → res error unit * St) :
    Prop := {
  commit_appends batch (store store' : St) facts :
    commit batch store = (Ok tt, store') →
    LoadDomainFacts (fb_TurnID batch) store = Ok facts →
    LoadDomainFacts (fb_TurnID batch) store' = Ok (facts ++ fb_Facts batch);
  commit_other batch (store store' : St) r turn :
    commit batch store = (r, store') → turn ≠ fb_TurnID batch →
    LoadDomainFacts turn store' = LoadDomainFacts turn store;
  commit_fails batch (store store' : St) e turn :
    commit batch store = (Err e, store') →
    LoadDomainFacts turn store' = LoadDomainFacts turn store;
}.

(** A store whose own append is lawful. *)
Class DomainFactStoreLaws (St : Type) `{!DomainFactStore St} : Prop :=
  default_lawful : LawfulCommit (St := St) defaultCommit.
