(* ===== verification/Coordinator.v ===== *)
(** The turn coordinator ([coordinator.go]): it applies a command, persists the
    facts, publishes the state and hands the effects to a dispatcher; a restored
    coordinator resumes from the stored facts. *)
From S2P Require Import Prelude.
From S2P Require Import GoStrings.
From S2P Require Import Sha256.
From S2P Require Import TurnState.
From S2P Require Import Invariants.
From S2P Require Import Command.
From S2P Require Import Effects.
From S2P Require Import Validity.
From S2P Require Import Reducer.
From S2P Require Import Kernel.
From S2P Require Import Sharing.
From S2P Require Import DomainFacts.

(** ** Programs over a world *)

(** The errors a coordinator returns: a plain error, a kernel error, the fault
    around a persistence error, and a wrapped error. *)
Inductive cerror :=
  | CError (e : error)
  | CKernel (e : kerror)
  | CPersistence (cause : error)
  | CWrap (format : string) (args : list arg) (inner : cerror).

(** How a call ends: with a value, an error, blocked on a lock its own goroutine
    holds, or (in the model only) out of fuel. *)
Inductive outcome (A : Type) :=
  | Val (a : A)
  | Fail (e : cerror)
  | Blocked
  | OutOfFuel.
Arguments Val {A} a.
Arguments Fail {A} e.
Arguments Blocked {A}.
Arguments OutOfFuel {A}.

Definition Prog (W A : Type) : Type := W → outcome A * W.

Definition ret {W A} (a : A) : Prog W A := λ w, (Val a, w).
Definition fail {W A} (e : cerror) : Prog W A := λ w, (Fail e, w).
Definition bind {W A B} (m : Prog W A) (k : A → Prog W B) : Prog W B := λ w,
  match m w with
  | (Val a, w') => k a w'
  | (Fail e, w') => (Fail e, w')
  | (Blocked, w') => (Blocked, w')
  | (OutOfFuel, w') => (OutOfFuel, w')
  end.

(** The loop [for _, x := range l { if err := f(x); err != nil { return err } }]. *)
Fixpoint forP {W A} (f : A → Prog W unit) (l : list A) : Prog W unit :=
  match l with
  | [] => ret tt
  | x :: l => bind (f x) (λ _, forP f l)
  end.

(** A program that keeps a property of the world, however it ends. *)
Definition keeps {W A} (P : W → Prop) (m : Prog W A) : Prop := ∀ w, P w → P (snd (m w)).

Lemma keeps_bind {W A B} (P : W → Prop) (m : Prog W A) (k : A → Prog W B) :
  keeps P m → (∀ a, keeps P (k a)) → keeps P (bind m k).
Proof.
  intros Hm Hk w Hw. specialize (Hm w Hw). unfold bind.
  destruct (m w) as [[a|e| |] w'] eqn:E; cbn in *; try done. by apply Hk.
Qed.

Lemma keeps_forP {W A} (P : W → Prop) (f : A → Prog W unit) l :
  (∀ x, x ∈ l → keeps P (f x)) → keeps P (forP f l).
Proof.
  induction l as [|x l IH]; intros H; cbn; [by intros w Hw|].
  apply keeps_bind; [apply H; by left|]. intros _. apply IH. intros y Hy. apply H. by right.
Qed.

(** ** The coordinator *)

(** [nextFact], the digest and the encoding of the last committed state, and what a
    registered observer has received. *)
Record TurnCoordinator := mkTurnCoordinator {
  co_turnID : string;
  co_state : State;
  co_nextFact : Z;
  co_lastDigest : string;
  co_lastEncoded : string;
  co_observed : option (list (list DomainFact));
}.

(** The coordinator with the store and the dispatcher it was built with. *)
Record World (St D : Type) := mkWorld {
  w_coordinator : TurnCoordinator;
  w_store : St;
  w_dispatcher : D;
}.
Arguments mkWorld {St D} _ _ _.
Arguments w_coordinator {St D} _.
Arguments w_store {St D} _.
Arguments w_dispatcher {St D} _.

(** [DomainFactCommit]. *)
Definition DomainFactCommit (St : Type) : Type := DomainFactBatch → St → res error unit * St.

(** The interface [EffectDispatcher]: it receives an effect and the function that
    submits a result command to the coordinator. *)
Class EffectDispatcher (St D : Type) :=
  Dispatch : Effect → (Command → Prog (World St D) unit) → Prog (World St D) unit.

(** A dispatcher reaches the coordinator and the store through [submit] only. *)
Class EffectDispatcherLaws (St D : Type) `{!EffectDispatcher St D} : Prop :=
  dispatch_keeps (P : TurnCoordinator → St → Prop) effect submit :
    (∀ c, keeps (λ w, P (w_coordinator w) (w_store w)) (submit c)) →
    keeps (λ w : World St D, P (w_coordinator w) (w_store w)) (Dispatch effect submit).

(** The facts of a transition: one per event, one in all when there is no event. *)
Definition transition_facts (turnID : string) (next : Z) (command : Command) (digest : string)
    (t : Transition) : list DomainFact :=
  match tn_Events t with
  | [] => [mkDomainFact turnID next (commandName command) None (tn_State t) digest]
  | events =>
      imap (λ index event, mkDomainFact turnID (u64 (next + Z.of_nat index))
                             (commandName command) (Some event) (tn_State t) digest) events
  end.

(** The coordinator when the command is refused or its facts are not persisted: its
    state is the one the reducer was given, with what the reducer wrote into it. *)
Definition refused (command : Command) (c : TurnCoordinator) : TurnCoordinator :=
  mkTurnCoordinator (co_turnID c) (caller_after (co_state c) command) (co_nextFact c)
    (co_lastDigest c) (co_lastEncoded c) (co_observed c).

Section Coordinator.
Context {St D : Type} `{!DomainFactStore St} `{!EffectDispatcher St D}.
Context (marshal : State → res error string).
Notation W := (World St D).

(** Applies, encodes, persists, and only then publishes. *)
Definition transition (command : Command) (commit : option (DomainFactCommit St)) :
    Prog W (list Effect) := λ w,
  let c := w_coordinator w in
  match Apply (co_state c) command with
  | Err e => (Fail (CKernel e), mkWorld (refused command c) (w_store w) (w_dispatcher w))
  | Ok t =>
      match digestValidated marshal (tn_State t) with
      | Err e => (Fail (CError e), mkWorld (refused command c) (w_store w) (w_dispatcher w))
      | Ok (digest, encoded) =>
          let facts := transition_facts (co_turnID c) (co_nextFact c) command digest t in
          let first := co_nextFact c =? 1 in
          let batch := mkDomainFactBatch (co_turnID c) (co_nextFact c) facts encoded
                         (if first then "" else co_lastDigest c)
                         (if first then "" else co_lastEncoded c) in
          match default defaultCommit commit batch (w_store w) with
          | (Err e, store) =>
              (Fail (CPersistence e), mkWorld (refused command c) store (w_dispatcher w))
          | (Ok _, store) =>
              (Val (tn_Effects t),
               mkWorld (mkTurnCoordinator (co_turnID c) (tn_State t)
                          (u64 (co_nextFact c + Z.of_nat (length facts))) digest encoded
                          ((λ l, l ++ [facts]) <$> co_observed c))
                 store (w_dispatcher w))
          end
      end
  end.

(** The dispatcher may submit results, which is the recursion the fuel bounds. *)
Fixpoint SubmitWithCommit (fuel : nat) (command : Command)
    (commit : option (DomainFactCommit St)) : Prog W unit :=
  match fuel with
  | O => λ w, (OutOfFuel, w)
  | S fuel =>
      bind (transition command commit) (λ effects,
        forP (λ effect, Dispatch effect (λ result, SubmitWithCommit fuel result None)) effects)
  end.

Definition Submit (fuel : nat) (command : Command) : Prog W unit :=
  SubmitWithCommit fuel command None.

Definition NewTurnCoordinator (turnID : string) (state : State) (store : St) (d : D) :
    res error W :=
  refuse (turnID == "") (ErrText "turn coordinator turn id is empty");;
  refuse (st_ProfileRevision state =? 0)
    (ErrText "turn coordinator requires a frozen profile revision");;
  Validate state;;
  facts ← LoadDomainFacts turnID store;
  require (bool_decide (length facts = 0%nat))
    (ErrText "turn coordinator requires RestoreTurnCoordinator for existing facts");;
  Ok (mkWorld (mkTurnCoordinator turnID state 1 "" "" None) store d).

(** The first loop of a restore: a running effect goes back to requested. *)
Definition requeue_running (fuel : nat) (restored : State) (id : string) : Prog W unit :=
  match st_PendingEffects restored !! id with
  | Some effect =>
      if bool_decide (ef_Status effect = EffectRunning) then λ w,
        match Submit fuel (EffectRequeued id) w with
        | (Fail e, w) => (Fail (CWrap "requeue running effect %q: %w" [ArgS id] e), w)
        | r => r
        end
      else ret tt
  | None => ret tt
  end.

(** The second loop: every pending effect is dispatched again. *)
Definition redispatch (fuel : nat) (restored : State) (id : string) : Prog W unit :=
  match st_PendingEffects restored !! id with
  | Some effect => Dispatch effect (Submit fuel)
  | None => ret tt
  end.

Definition resume (fuel : nat) (restored : State) : Prog W unit :=
  bind (forP (requeue_running fuel restored) (sortedEffectIDs (st_PendingEffects restored)))
    (λ _ w,
       let restored := co_state (w_coordinator w) in
       forP (redispatch fuel restored) (sortedEffectIDs (st_PendingEffects restored)) w).

(** The world after a restore, when the facts replay. *)
Definition RestoreTurnCoordinator (fuel : nat) (turnID : string) (store : St) (d : D) :
    outcome unit * option W :=
  if turnID == "" then
    (Fail (CError (ErrText "turn coordinator restore dependencies are incomplete")), None)
  else
  match (facts ← LoadDomainFacts turnID store;
         replayed ← replayDomainFacts marshal turnID facts; Ok (facts, replayed)) with
  | Err e => (Fail (CError e), None)
  | Ok (facts, (restored, lastDigest, lastEncoded)) =>
      let next := u64 (default 0 (df_Sequence <$> last facts) + 1) in
      let '(o, w) := resume fuel restored
        (mkWorld (mkTurnCoordinator turnID restored next lastDigest lastEncoded None) store d) in
      (o, Some w)
  end.

Definition Snapshot (w : W) : State := co_state (w_coordinator w).

Definition LastDigest (w : W) : string * bool :=
  let d := co_lastDigest (w_coordinator w) in (d, negb (d == "")).
End Coordinator.
