(* ===== verification/Dispatcher.v ===== *)
(** The effect dispatchers ([effect_dispatcher.go] and the synchronous one of
    [coordinator.go]): the registry of routed effects with its lock, and the
    operations that start, retry, requeue, resolve and abort them. *)
From S2P Require Import Prelude.
From S2P Require Import GoStrings.
From S2P Require Import TurnState.
From S2P Require Import Command.
From S2P Require Import Effects.
From S2P Require Import Reducer.
From S2P Require Import DomainFacts.
From S2P Require Import Coordinator.

(** ** Synchronous dispatch *)

Definition ErrEffectResultIdentity : error := ErrText "effect result identity mismatch".

(** The effect a result command answers. *)
Definition resultEffectID (command : Command) : string :=
  match command with
  | EffectResultReceived EffectID _ _ => EffectID
  | PersistenceResultReceived EffectID _ _ => EffectID
  | ApprovalResultReceived c => apr_EffectID c
  | InputResultReceived EffectID _ _ _ => EffectID
  | ToolResultReceived c => trr_EffectID c
  | ModelSampleResultReceived c => msr_EffectID c
  | JournalResultReceived EffectID _ _ => EffectID
  | _ => ""
  end.

(** Executors are code outside the kernel: a result, which may be nil, or an error. *)
Record SynchronousEffectDispatcher := mkSynchronousEffectDispatcher {
  sd_Executors : EffectKind → option (Effect → res string (option Command));
}.

(** The result command of an effect, checked against its identity. *)
Definition execute (d : SynchronousEffectDispatcher) (effect : Effect) : res error Command :=
  match sd_Executors d (ef_Kind effect) with
  | None => Err (ErrFmt "no executor for effect kind %q" [])
  | Some executor =>
      let result := match executor effect with
                    | Ok result => result
                    | Err message => Some (EffectResultReceived (ef_ID effect) false message)
                    end in
      match result with
      | None => Err (ErrText "effect executor returned no result command")
      | Some result =>
          require (resultEffectID result == ef_ID effect) ErrEffectResultIdentity;;
          Ok result
      end
  end.

Definition synchronous_dispatch {St} : EffectDispatcher St SynchronousEffectDispatcher :=
  λ effect submit w,
    match execute (w_dispatcher w) effect with
    | Err e => (Fail (CError e), w)
    | Ok result => submit result w
    end.
#[export] Existing Instance synchronous_dispatch.

#[export] Instance synchronous_laws {St} :
  EffectDispatcherLaws St SynchronousEffectDispatcher.
Proof.
  intros P effect submit Hs w Hw. unfold Dispatch, synchronous_dispatch.
  destruct (execute _ _); [by apply Hs|done].
Qed.

(** ** The durable registry *)

Definition C2RoutedEffect (kind : EffectKind) : bool :=
  match kind with
  | EffectExecuteTool | EffectAwaitApproval | EffectAwaitInput => true
  | _ => false
  end.

Definition C3RoutedEffect (kind : EffectKind) : bool :=
  match kind with
  | EffectSampleProvider | EffectRunVerification => true
  | _ => false
  end.

Definition C4RoutedEffect (kind : EffectKind) : bool :=
  match kind with
  | EffectCommitJournal | EffectSuspendJournal | EffectRollbackJournal => true
  | _ => false
  end.

Definition RoutedEffect (kind : EffectKind) : bool :=
  C2RoutedEffect kind || C3RoutedEffect kind || C4RoutedEffect kind.

(** An entry of the registry. Its [submit] is always the coordinator's [Submit], which
    the operations below take instead. *)
Record routedEffect := mkRoutedEffect {
  rt_effect : Effect;
  rt_started : bool;
  rt_result : option Command;
  rt_resolving : bool;
}.
Definition eta_routedEffect (s : routedEffect) : routedEffect :=
  mkRoutedEffect (rt_effect s) (rt_started s) (rt_result s) (rt_resolving s).
Definition set_rt_effect : Effect → routedEffect → routedEffect.
Proof. field_setter eta_routedEffect rt_effect. Defined.
Definition set_rt_started : bool → routedEffect → routedEffect.
Proof. field_setter eta_routedEffect rt_started. Defined.
Definition set_rt_result : option Command → routedEffect → routedEffect.
Proof. field_setter eta_routedEffect rt_result. Defined.
Definition set_rt_resolving : bool → routedEffect → routedEffect.
Proof. field_setter eta_routedEffect rt_resolving. Defined.

(** [mu] and [routed]: the mutex is held by the goroutine the model follows. *)
Record DurableEffectDispatcher := mkDurableEffectDispatcher {
  dd_locked : bool;
  dd_routed : gmap string routedEffect;
}.

Definition NewDurableEffectDispatcher : DurableEffectDispatcher :=
  mkDurableEffectDispatcher false ∅.

(** The world of the production kernel. *)
Notation RoutedWorld St := (World St DurableEffectDispatcher).

Section Registry.
Context {St : Type}.
Notation W := (RoutedWorld St).

Definition routed (w : W) : gmap string routedEffect := dd_routed (w_dispatcher w).

Definition with_dispatcher (f : DurableEffectDispatcher → DurableEffectDispatcher) (w : W) : W :=
  mkWorld (w_coordinator w) (w_store w) (f (w_dispatcher w)).

Definition set_locked (b : bool) (w : W) : W :=
  with_dispatcher (λ d, mkDurableEffectDispatcher b (dd_routed d)) w.

Definition set_routed (m : gmap string routedEffect) (w : W) : W :=
  with_dispatcher (λ d, mkDurableEffectDispatcher (dd_locked d) m) w.

(** [d.mu.Lock(); defer d.mu.Unlock()]: locking a mutex twice blocks for ever. *)
Definition locked {A} (m : Prog W A) : Prog W A := λ w,
  if dd_locked (w_dispatcher w) then (Blocked, w) else
  match m (set_locked true w) with
  | (Blocked, w') => (Blocked, w')
  | (o, w') => (o, set_locked false w')
  end.

(** Writes through the entry's pointer; a removed entry is no longer seen. *)
Definition update_entry (id : string) (f : routedEffect → routedEffect) (w : W) : W :=
  set_routed (alter f id (routed w)) w.

Definition sorted_ids (w : W) : list string := sort_strings (map_to_list (routed w)).*1.

Definition durable_dispatch : EffectDispatcher St DurableEffectDispatcher :=
  λ effect _,
    if RoutedEffect (ef_Kind effect) then
      locked (λ w,
        if bool_decide (is_Some (routed w !! ef_ID effect))
        then (Fail (CError (ErrFmt "effect %q was dispatched twice" [ArgS (ef_ID effect)])), w)
        else (Val tt, set_routed (<[ef_ID effect := mkRoutedEffect effect false None false]>
                                    (routed w)) w))
    else fail (CError (ErrFmt "no durable route for effect kind %q" [])).
#[export] Existing Instance durable_dispatch.

(** The first entry, by identity, of a kind and (unless empty) a call. *)
Definition entry_matches (kind : EffectKind) (callID : string) (m : gmap string routedEffect)
    (id : string) : bool :=
  match m !! id with
  | Some entry => bool_decide (ef_Kind (rt_effect entry) = kind)
                  && ((callID == "") || (ef_CallID (rt_effect entry) == callID))
  | None => false
  end.

Definition findLocked (kind : EffectKind) (callID : string) (w : W) :
    res error (string * routedEffect) :=
  match filter (λ id, entry_matches kind callID (routed w) id = true) (sorted_ids w) with
  | id :: _ => match routed w !! id with
               | Some entry => Ok (id, entry)
               | None => Err (ErrFmt "no routed effect for kind=%q call_id=%q" [ArgS callID])
               end
  | [] => Err (ErrFmt "no routed effect for kind=%q call_id=%q" [ArgS callID])
  end.

(** [entry, err := d.findLocked(kind, callID)], then the rest. *)
Definition with_entry {A} (kind : EffectKind) (callID : string)
    (k : string → routedEffect → Prog W A) : Prog W A := λ w,
  match findLocked kind callID w with
  | Err e => (Fail (CError e), w)
  | Ok (id, entry) => k id entry w
  end.

Definition Routed (kind : EffectKind) (callID : string) : Prog W (Effect * bool) :=
  locked (with_entry kind callID (λ _ entry, ret (rt_effect entry, rt_started entry))).

Definition PendingRouted (kind : EffectKind) : Prog W (list Effect) :=
  locked (λ w,
    (Val (filter (λ e, kind = EffectNone ∨ ef_Kind e = kind)
            (omap (λ id, rt_effect <$> routed w !! id) (sorted_ids w))), w)).

Section Operations.
(** [entry.submit], the coordinator's [Submit]. *)
Context (submit : Command → Prog W unit).

Definition Start (kind : EffectKind) (callID : string) : Prog W Effect :=
  locked (with_entry kind callID (λ id entry,
    let effect := rt_effect entry in
    if rt_started entry
    then fail (CError (ErrFmt "effect %q is already started" [ArgS (ef_ID effect)])) else λ w,
    let attempt := u32 (ef_Attempt effect + 1) in
    let w := update_entry id (set_rt_started true) w in
    match submit (EffectStarted (ef_ID effect) attempt) w with
    | (Val _, w) =>
        let effect := effect |> set_ef_Status EffectRunning |> set_ef_Attempt attempt
                             |> set_ef_Error "" in
        (Val effect, update_entry id (set_rt_effect effect) w)
    | (Fail e, w) => (Fail e, update_entry id (set_rt_started false) w)
    | (Blocked, w) => (Blocked, w)
    | (OutOfFuel, w) => (OutOfFuel, w)
    end)).

(** The entry goes back to requested once [submit] accepted the command. *)
Definition back_to_requested (id : string) (command : Command) : Prog W unit :=
  bind (submit command) (λ _ w,
    (Val tt, update_entry id (λ entry,
               entry |> set_rt_started false
                     |> set_rt_effect (set_ef_Status EffectRequested (rt_effect entry))) w)).

Definition ScheduleRetry (kind : EffectKind) (callID : string) (command : ProviderRetry) :
    Prog W unit :=
  locked (with_entry kind callID (λ id entry,
    let effect := rt_effect entry in
    if negb (rt_started entry) || negb (bool_decide (ef_Status effect = EffectRunning))
       || negb (prr_EffectID command == ef_ID effect)
       || negb (prr_Attempt command =? ef_Attempt effect)
    then fail (CError (ErrFmt "effect %q cannot schedule retry" [ArgS (ef_ID effect)]))
    else back_to_requested id (ProviderRetryRequested command))).

Definition Requeue (kind : EffectKind) (callID : string) : Prog W unit :=
  locked (with_entry kind callID (λ id entry,
    let effect := rt_effect entry in
    if negb (rt_started entry) || negb (bool_decide (ef_Status effect = EffectRunning))
    then fail (CError (ErrFmt "effect %q cannot be requeued" [ArgS (ef_ID effect)]))
    else back_to_requested id (EffectRequeued (ef_ID effect)))).

(** A sample may be resolved before it is started. *)
Definition resolves_unstarted (command : Command) (entry : routedEffect) : bool :=
  match command with
  | ModelSampleResultReceived _ =>
      bool_decide (ef_Kind (rt_effect entry) = EffectSampleProvider)
      && bool_decide (ef_Status (rt_effect entry) = EffectRequested)
  | _ => false
  end.

(** The critical section before the submission: the result to submit. *)
Definition claim_result (effectID : string) (command : Command) : Prog W Command :=
  locked (λ w,
    match routed w !! effectID with
    | None => (Fail (CError (ErrFmt "effect %q is not routed" [ArgS effectID])), w)
    | Some entry =>
        if negb (rt_started entry) && negb (resolves_unstarted command entry)
        then (Fail (CError (ErrFmt "effect %q has not started" [ArgS effectID])), w) else
        let result := default command (rt_result entry) in
        let w := update_entry effectID (set_rt_result (Some result)) w in
        if rt_resolving entry
        then (Fail (CError (ErrFmt "effect %q result is already resolving" [ArgS effectID])), w)
        else (Val result, update_entry effectID (set_rt_resolving true) w)
    end).

(** The critical section after the submission was accepted. *)
Definition settle_result (effectID : string) (result : Command) : Prog W unit :=
  locked (λ w,
    let w := update_entry effectID (set_rt_resolving false) w in
    match result with
    | JournalResultReceived _ _ message =>
        if message == "" then (Val tt, set_routed (delete effectID (routed w)) w) else
        (Val tt, update_entry effectID (λ entry,
           entry |> set_rt_result None |> set_rt_started false
                 |> set_rt_effect (rt_effect entry |> set_ef_Status EffectRequested
                                                   |> set_ef_Error message)) w)
    | _ => (Val tt, set_routed (delete effectID (routed w)) w)
    end).

(** [over] is the caller's submit function, when it has one. *)
Definition ResolveWith (command : Command) (over : option (Command → Prog W unit)) :
    Prog W unit :=
  let effectID := resultEffectID command in
  if effectID == "" then fail (CError ErrEffectResultIdentity) else
  bind (claim_result effectID command) (λ result w,
    match default submit over result w with
    | (Val _, w) => settle_result effectID result w
    | (Fail e, w) =>
        locked (λ w, (Fail e, update_entry effectID (set_rt_resolving false) w)) w
    | (Blocked, w) => (Blocked, w)
    | (OutOfFuel, w) => (OutOfFuel, w)
    end).

Definition Resolve (command : Command) : Prog W unit := ResolveWith command None.

(** One effect of an abort. *)
Definition abort_effect (kind : EffectKind) (callID reason : string) (effect : Effect) :
    Prog W unit :=
  if negb (callID == "") && negb (ef_CallID effect == callID) then ret tt else
  bind (if bool_decide (ef_Status effect = EffectRequested)
        then bind (Start kind (ef_CallID effect)) (λ _, ret tt) else ret tt) (λ _,
  Resolve (EffectResultReceived (ef_ID effect) false reason)).

Definition AbortEffects (kind : EffectKind) (callID reason : string) : Prog W unit :=
  if reason == "" then fail (CError (ErrText "effect abort reason is empty")) else
  bind (PendingRouted kind) (forP (abort_effect kind callID reason)).
End Operations.
End Registry.
