(* ===== verification/Issued.v ===== *)
(** The effects a command hands to the dispatcher: every effect that becomes pending
    is in the transition's effect list, under the next identities of the sequence,
    and nothing else about the pending effects changes but what the command says. *)
From S2P Require Import Prelude.
From S2P Require Import GoStrings.
From S2P Require Import Json.
From S2P Require Import TurnState.
From S2P Require Import WorkItem.
From S2P Require Import Invariants.
From S2P Require Import Command.
From S2P Require Import Effects.
From S2P Require Import Validity.
From S2P Require Import TurnSpec.
From S2P Require Import Sampling.
From S2P Require Import Reducer.
From S2P Require Import Frames.
From S2P Require Import Kernel.
From S2P Require Import Dispatcher.

(** The commands that rewrite one pending effect, and how. *)
Definition rewrite_of (c : Command) : option (string * (Effect → Effect)) :=
  match c with
  | EffectStarted id attempt =>
      Some (id, λ e, e |> set_ef_Status EffectRunning |> set_ef_Attempt attempt |> set_ef_Error "")
  | EffectRequeued id => Some (id, set_ef_Status EffectRequested)
  | ProviderRetryRequested c => Some (prr_EffectID c, set_ef_Status EffectRequested)
  | JournalResultReceived id _ message =>
      if message == "" then None
      else Some (id, λ e, e |> set_ef_Status EffectRequested |> set_ef_Error message)
  | _ => None
  end.

(** [k] identities after sequence number [n], and the number they end at. *)
Fixpoint issue (n : Z) (k : nat) : list string :=
  match k with
  | O => []
  | S k => issue n k ++ [effect_id (u64 (n + Z.of_nat (S k)))]
  end.

Definition issue_end (n : Z) (k : nat) : Z :=
  match k with O => n | S _ => u64 (n + Z.of_nat k) end.

(** Relative to the pending effects [P] and the sequence number [n] before, with at
    most [k] effects. *)
Record Emits (P : gmap string Effect) (n : Z) (k : nat) (t : Transition) : Prop := {
  em_len : (length (tn_Effects t) ≤ k)%nat;
  em_pending id e :
    st_PendingEffects (tn_State t) !! id = Some e →
    P !! id = Some e ∨ e ∈ tn_Effects t ∧ ef_ID e = id;
  em_ids : ef_ID <$> tn_Effects t = issue n (length (tn_Effects t));
  em_seq : st_NextEffectSequence (tn_State t) = issue_end n (length (tn_Effects t));
  em_new : Forall (λ e, RoutedEffect (ef_Kind e) = true ∧ ef_Status e = EffectRequested)
             (tn_Effects t);
}.

Lemma issue_end_next n k : u64 (issue_end n k + 1) = u64 (n + Z.of_nat (S k)).
Proof.
  destruct k as [|k]; cbn [issue_end]; [done|]. unfold u64. rewrite Zplus_mod_idemp_l. f_equal. lia.
Qed.

(** ** The primitives *)

(** A property of transitions, under a bound on its effects, that the primitives of
    the handlers keep. *)
Class Closed (I : nat → Transition → Prop) : Prop := {
  cl_le k k' t : I k t → (k ≤ k')%nat → I k' t;
  cl_same k t t' :
    st_PendingEffects (tn_State t') = st_PendingEffects (tn_State t) →
    st_CompletedEffects (tn_State t') = st_CompletedEffects (tn_State t) →
    st_NextEffectSequence (tn_State t') = st_NextEffectSequence (tn_State t) →
    tn_Effects t' = tn_Effects t → I k t → I k t';
  cl_request k kind payload key callID t :
    RoutedEffect kind = true → (1 ≤ k)%nat → I (k - 1)%nat t →
    I k (requestEffect kind payload key callID t);
  cl_settles k t t' : only_settles t t' → I k t → I k t';
}.

Lemma settles_sub l l' : settles l l' → l'.1 ⊆ l.1.
Proof.
  induction 1 as [|l l1 l2 Hs _ IH]; [done|]. etransitivity; [exact IH|].
  destruct Hs. cbn. apply delete_subseteq.
Qed.

Lemma settles_completed l l' id :
  settles l l' → is_Some (l.2 !! id) → is_Some (l'.2 !! id).
Proof.
  induction 1 as [|l l1 l2 Hs _ IH]; [done|]. intros Hid. apply IH. destruct Hs as [? ? id' ? ? ? _].
  cbn in *. destruct (decide (id = id')) as [->|];
    [by rewrite lookup_insert_eq|by rewrite lookup_insert_ne].
Qed.

#[export] Instance emits_closed P n : Closed (Emits P n).
Proof.
  split.
  - intros k k' t [H0 H1 H2 H3 H4] Hle. split; try done. lia.
  - intros k t t' Hp _ Hn He [H0 H1 H2 H3 H4]. split; rewrite ?Hp, ?Hn, ?He; done.
  - intros k kind payload key callID t Hk Hk1 [H0 H1 H2 H3 H4]. unfold requestEffect. split; cbn.
    + rewrite length_app. cbn. lia.
    + intros id e [[<- <-]|[_ He]]%lookup_insert_Some.
      * right. split; [set_solver|done].
      * destruct (H1 _ _ He) as [?|[? ?]]; [by left|right]. split; [set_solver|done].
    + rewrite fmap_app, H2, length_app. cbn. rewrite Nat.add_1_r. cbn. do 3 f_equal.
      by rewrite H3, issue_end_next.
    + rewrite H3, length_app, issue_end_next, Nat.add_1_r. done.
    + apply Forall_app. split; [done|]. by repeat constructor.
  - intros k t t' (l & evs & Hl & _ & ->) [H0 H1 H2 H3 H4]. apply settles_sub in Hl.
    split; cbn; try done. intros id e He. apply H1. by eapply lookup_weaken.
Qed.

(** The effect [id] is completed. *)
Definition Completes (id : string) (k : nat) (t : Transition) : Prop :=
  is_Some (st_CompletedEffects (tn_State t) !! id).

#[export] Instance completes_closed id : Closed (Completes id).
Proof.
  unfold Completes. split.
  - done.
  - by intros k t t' _ -> _ _.
  - done.
  - intros k t t' (l & evs & Hl & _ & ->). cbn. apply (settles_completed _ _ id Hl).
Qed.

(** Every effect the transition hands out is still on the books. *)
Definition on_books (l : gmap string Effect * gmap string Effect) (id : string) : Prop :=
  is_Some (l.1 !! id) ∨ is_Some (l.2 !! id).

Definition Accounted (k : nat) (t : Transition) : Prop :=
  ∀ e, e ∈ tn_Effects t →
    on_books (st_PendingEffects (tn_State t), st_CompletedEffects (tn_State t)) (ef_ID e).

Lemma settles_on_books l l' id : settles l l' → on_books l id → on_books l' id.
Proof.
  induction 1 as [|l l1 l2 Hs _ IH]; [done|]. intros Hid. apply IH. clear IH.
  destruct Hs as [P C id' e success message He]. unfold on_books in *; cbn in *.
  destruct (decide (id = id')) as [->|];
    [right; by rewrite lookup_insert_eq|by rewrite lookup_delete_ne, lookup_insert_ne by done].
Qed.

#[export] Instance accounted_closed : Closed Accounted.
Proof.
  unfold Accounted. split.
  - done.
  - by intros k t t' -> -> _ ->.
  - intros k kind payload key callID t _ _ H e. unfold requestEffect; cbn.
    intros [He| ->%list_elem_of_singleton]%elem_of_app; unfold on_books; cbn.
    + destruct (H e He) as [Hp|Hc]; [left|by right]. cbn in Hp.
      by apply lookup_insert_is_Some'; right.
    + left. by rewrite lookup_insert_eq.
  - intros k t t' (l & evs & Hl & _ & ->) H e He. cbn in *.
    exact (settles_on_books _ _ _ Hl (H e He)).
Qed.

Lemma finish_completes id b msg t t' :
  finishEffect id b msg t = Ok t' → Completes id 0 t'.
Proof.
  intros (e & _ & _ & _ & ->)%finishEffect_Ok. unfold Completes. cbn. by rewrite lookup_insert_eq.
Qed.

Section Primitives.
Context (I : nat → Transition → Prop) {HI : Closed I} (k : nat).
Notation emits := (I k).

Lemma emits_state f t :
  st_PendingEffects (f (tn_State t)) = st_PendingEffects (tn_State t) →
  st_CompletedEffects (f (tn_State t)) = st_CompletedEffects (tn_State t) →
  st_NextEffectSequence (f (tn_State t)) = st_NextEffectSequence (tn_State t) →
  emits t → emits (with_state f t).
Proof. intros. by eapply cl_same. Qed.

Lemma emits_emit e t : emits t → emits (emit e t).
Proof. by apply cl_same. Qed.
Lemma emits_move p t : emits t → emits (move p t).
Proof. by apply cl_same. Qed.

(** ** Programs of handlers *)

Definition emits_res {E} (m : res E Transition) : Prop := ∀ t', m = Ok t' → emits t'.

Lemma emits_ok {E} t : emits t → emits_res (Ok t : res E Transition).
Proof. by intros ? ? [= <-]. Qed.
Lemma emits_err {E} (e : E) : emits_res (Err e).
Proof. done. Qed.
Lemma emits_guard {E A} (m : res E A) f : (∀ a, emits_res (f a)) → emits_res (m ≫= f).
Proof. intros Hk t' (a & _ & H)%bind_Ok. by eapply Hk. Qed.
Lemma emits_bind {E} (m : res E Transition) f :
  emits_res m → (∀ t, emits t → emits_res (f t)) → emits_res (m ≫= f).
Proof. intros Hm Hk t' (t & Ht & H)%bind_Ok. eapply Hk; eauto. Qed.
Lemma emits_or_illegal s c (m : res error Transition) :
  emits_res m → emits_res (or_illegal s c m).
Proof. intros Hm t'. unfold or_illegal. destruct m; [|done]. intros [= <-]. by apply Hm. Qed.
Lemma emits_finish id b msg t : emits t → emits_res (finishEffect id b msg t).
Proof. intros Ht t' H%finishEffect_settles. by eapply cl_settles. Qed.

Lemma emits_foldl {A} (f : Transition → A → Transition) l t :
  (∀ t x, emits t → emits (f t x)) → emits t → emits (foldl f t l).
Proof. intros Hf. revert t. induction l as [|x l IH]; intros t Ht; cbn; auto. Qed.

Lemma emits_foldM {E A B} (f : A * Transition → B → res E (A * Transition)) l a t acc :
  (∀ a t x acc, emits t → f (a, t) x = Ok acc → emits acc.2) → emits t →
  foldM f l (a, t) = Ok acc → emits acc.2.
Proof.
  intros Hf Ht H.
  apply (foldM_ind (λ acc, emits acc.2) f l (a, t) acc) in H; [done|done|].
  intros [a1 t1] x b' _ H1 H2. by eapply Hf.
Qed.
End Primitives.
Arguments emits_res I k {E} m.

(** One construct of a handler at a time. *)
Ltac emits1 :=
  lazymatch goal with
  | H : emits_res ?I ?k ?m |- emits_res ?I ?k ?m => exact H
  | H : ?I _ ?t |- ?I _ ?t => apply (cl_le _ _ _ H); lia
  | |- ?I _ (emit _ _) => apply (emits_emit I)
  | |- ?I _ (move _ _) => apply (emits_move I)
  | |- ?I _ (with_state _ _) =>
      apply (emits_state I); [cbn; reflexivity|cbn; reflexivity|cbn; reflexivity|]
  | |- ?I _ (requestEffect _ _ _ _ _) => apply (cl_request (I := I)); [done|lia|]
  | |- ?I _ (closeEffectByIdentity _ _ _ _ ?t) =>
      apply (cl_settles (I := I) _ t); [apply closeEffectByIdentity_settles|]
  | |- ?I _ (closeEffectByCall _ _ _ _ ?t) =>
      apply (cl_settles (I := I) _ t); [apply closeEffectByCall_settles|]
  | |- ?I _ (closeFirstEffectByKind _ _ _ ?t) =>
      apply (cl_settles (I := I) _ t); [apply closeFirstEffectByKind_settles|]
  | |- ?I _ (closeEffectsByKind _ _ _ ?t) =>
      apply (cl_settles (I := I) _ t); [apply closeEffectsByKind_settles|]
  | |- emits_res _ _ (Ok _) => apply emits_ok
  | |- emits_res _ _ (Err _) => apply emits_err
  | |- emits_res _ _ (finishEffect _ _ _ _) => apply emits_finish; [exact _|]
  | |- emits_res _ _ (or_illegal _ _ _) => apply emits_or_illegal
  | |- emits_res _ _ (@mbind _ _ Transition _ _ _) => apply emits_bind; [|intros ? ?]
  | |- emits_res _ _ (@mbind _ _ _ _ _ _) => apply emits_guard; intros ?
  | |- emits_res _ _ (if ?b then _ else _) => destruct b
  | |- emits_res _ _ (match ?b with _ => _ end) => destruct b
  | |- ?I _ (if ?b then _ else _) => destruct b
  | |- ?I _ (match ?b with _ => _ end) => destruct b
  end.
Ltac emits := repeat (emits1; cbv zeta).

Section Handlers.
Context (I : nat → Transition → Prop) {HI : Closed I} (k : nat) (s : State).
Notation emits := (I k).
Notation holds := emits_res.
Notation emits_res := (emits_res I k).

Lemma emits_beginConvergence c t : emits t → emits (beginConvergence c t).
Proof. intros Ht. unfold beginConvergence. emits. Qed.

Lemma emits_spendRepairBudget kind key limit t :
  emits t → emits_res (spendRepairBudget kind key limit t).
Proof. intros Ht. unfold spendRepairBudget. emits. Qed.

Lemma emits_spend key kind limit action t : emits t → emits_res (spend key kind limit action t).
Proof.
  intros Ht. unfold spend. destruct (limit =? 0); [apply emits_ok; by apply emits_beginConvergence|].
  pose proof (emits_spendRepairBudget kind key limit t Ht) as Hs.
  destruct (spendRepairBudget _ _ _ _) as [t1|[]]; try apply emits_err.
  - specialize (Hs _ eq_refl). emits.
  - apply emits_ok. by apply emits_beginConvergence.
Qed.

Lemma emits_finalize_step c t : emits t → emits_res (finalize_step t s c).
Proof.
  intros Ht. unfold finalize_step. destruct (negb _); [emits|]. cbv zeta. case_match; [|emits].
  apply emits_bind; [apply emits_spendRepairBudget|intros ? ?]; emits.
Qed.

Lemma emits_evaluate key t : emits t → emits_res (applyEvaluateTurnStep t s key).
Proof.
  intros Ht. unfold applyEvaluateTurnStep. do 2 (apply emits_guard; intros ?). cbv zeta.
  assert (Ht' : emits (if st_UnresolvedToolFailure s && st_RecoveryToolSucceeded s
     then with_state clear_tool_failure (with_state (set_st_NextAction StepActionNone) t)
     else with_state (set_st_NextAction StepActionNone) t)) by emits.
  revert Ht'. generalize (if st_UnresolvedToolFailure s && st_RecoveryToolSucceeded s
     then with_state clear_tool_failure (with_state (set_st_NextAction StepActionNone) t)
     else with_state (set_st_NextAction StepActionNone) t). intros t1 Ht1.
  generalize (if st_UnresolvedToolFailure s && st_RecoveryToolSucceeded s
     then clear_tool_failure s else s). intros s1.
  destruct (bool_decide _); [emits|]. destruct (st_Convergence s1).
  { unfold finalize_step. destruct (negb _); [emits|]. cbv zeta. case_match; [|emits].
    apply emits_bind; [apply emits_spendRepairBudget|intros ? ?]; emits. }
  repeat case_match; try by apply emits_spend.
  - apply emits_bind; [by apply emits_spend|intros ? ?]. emits.
  - apply emits_bind; [by apply emits_spend|intros ? ?]. emits.
  - emits.
Qed.

Lemma emits_proposals cur command calls seen t acc k0 :
  I k0 t → foldM (propose_call cur command) calls (seen, t) = Ok acc →
  I (k0 + length calls) acc.2.
Proof.
  revert seen t k0. induction calls as [|call calls IH]; intros seen t k0 Ht H; cbn in H.
  - injection H as <-. cbn. emits.
  - apply bind_Ok in H as ([seen1 t1] & H1 & H). replace (k0 + length (call :: calls))%nat
      with (S k0 + length calls)%nat by (cbn; lia). eapply IH; [|exact H].
    unfold propose_call in H1. inv_ok. injection H1 as _ <-. emits.
Qed.

Lemma emits_toolcalls calls t cur :
  (length calls ≤ k)%nat → I (k - length calls) t → emits_res (applyToolCalls t cur calls).
Proof.
  intros Hk Ht. unfold applyToolCalls. cbv zeta.
  repeat (apply emits_guard; intros [];
          lazymatch goal with |- context [foldM] => idtac | _ => fail end).
  intros t' ([seen t1] & Hf & H)%bind_Ok.
  apply (emits_proposals _ _ _ _ _ _ (k - length calls)) in Hf; [|by apply (emits_state I)].
  apply Ok_inj in H as <-. cbn [snd] in *. emits.
Qed.

Lemma record_text_ledger c x :
  st_PendingEffects (record_text s c x) = st_PendingEffects x ∧
  st_CompletedEffects (record_text s c x) = st_CompletedEffects x ∧
  st_NextEffectSequence (record_text s c x) = st_NextEffectSequence x.
Proof. unfold record_text. by repeat case_match. Qed.

Lemma note_outcome_ledger b x :
  st_PendingEffects (note_tool_outcome s b x) = st_PendingEffects x ∧
  st_CompletedEffects (note_tool_outcome s b x) = st_CompletedEffects x ∧
  st_NextEffectSequence (note_tool_outcome s b x) = st_NextEffectSequence x.
Proof. unfold note_tool_outcome. by repeat case_match. Qed.

Lemma note_digest_ledger d x :
  st_PendingEffects (note_result_digest d x) = st_PendingEffects x ∧
  st_CompletedEffects (note_result_digest d x) = st_CompletedEffects x ∧
  st_NextEffectSequence (note_result_digest d x) = st_NextEffectSequence x.
Proof. unfold note_result_digest. cbv zeta. by case_match. Qed.

Lemma emits_sample_result c t :
  (length (msr_Calls c) ≤ k)%nat →
  holds I (k - length (msr_Calls c))
    (finishEffect (msr_EffectID c) (msr_Error c == "") (msr_Error c) t) →
  emits_res (applyModelSampleResult t s c).
Proof.
  intros Hk Ht. set (k0 := (k - length (msr_Calls c))%nat) in *.
  assert (Hk0 : (k0 ≤ k)%nat) by lia. unfold applyModelSampleResult. cbv zeta. do 3 (apply emits_guard; intros ?).
  case_match; [|emits]. apply emits_guard. intros ?.
  intros t' (t1 & Ht1 & H')%bind_Ok. revert t' H'.
  assert (Ht1' : I k0 t1).
  { revert Ht1. by apply (emits_or_illegal I k0 s). }
  assert (Ht2 : I k0 (t1 |> with_state (record_sample s c)
                          |> emit (event_sample EventSampleFinished "" (msr_SampleID c))))
    by (unfold record_sample, record_usage; emits).
  case_match; [|by apply emits_ok; emits]. unfold sample_output. cbv zeta.
  assert (Ht3 : I k0 (with_state (record_text s c) (t1 |> with_state (record_sample s c)
                          |> emit (event_sample EventSampleFinished "" (msr_SampleID c))))).
  { apply (emits_state I); [apply record_text_ledger..|exact Ht2]. }
  destruct (msr_Calls c) as [|call calls]; [|by apply emits_toolcalls].
  apply emits_ok. apply (emits_state I); [done|done|done|]. emits.
Qed.

Lemma emits_tool_result c t :
  emits_res (finishEffect (trr_EffectID c) true "" t) → emits_res (applyToolResult t s c).
Proof.
  intros Ht. unfold applyToolResult. cbv zeta. do 3 (apply emits_guard; intros ?).
  case_match; [|emits]. case_match; [|emits]. apply emits_guard. intros ?.
  apply emits_bind; [emits|]. intros t1 Ht1. apply emits_ok.
  assert (Hm : ∀ t2, emits t2 → emits (after_tool t2)).
  { intros t2 H2. rewrite after_tool_move. emits. }
  apply Hm. clear Hm. apply (emits_state I); [apply note_digest_ledger..|].
  edestruct applyWorkItemObservation_frame as [item ->]. apply (emits_state I); [done|done|done|].
  unfold record_changes. case_match; cbv zeta.
  all: try (apply (emits_emit I), (emits_state I); [done|done|done|]).
  all: apply (emits_emit I), (emits_state I); [apply note_outcome_ledger..|].
  all: assert (Ht2 : emits (if input_bound s (trr_CallID c) then retire_input s t1 else t1))
    by (unfold retire_input; emits).
  all: revert Ht2; generalize (if input_bound s (trr_CallID c) then retire_input s t1 else t1); intros t2 Ht2.
  all: case_match; [|emits]; unfold drop_approvals.
  all: apply emits_foldl; [|emits]; intros t3 [request approval] Ht3; emits.
Qed.

Lemma emits_abort reason t : emits t → emits_res (applyAbortOpenCalls t s reason).
Proof.
  intros Ht. unfold applyAbortOpenCalls. cbv zeta. do 3 (apply emits_guard; intros ?). emits.
  apply emits_foldl; [|done]. intros t1 id Ht1. unfold abort_call. cbv zeta. emits.
Qed.

Lemma emits_rejection ids result t :
  emits t → emits_res (applyToolBatchAdmissionRejection t s ids result).
Proof.
  intros Ht. unfold applyToolBatchAdmissionRejection. cbv zeta.
  do 2 (apply emits_guard; intros ?). intros t' (acc & Hf & [= <-])%bind_Ok.
  eapply (emits_foldM I k) in Hf; [exact Hf| |exact Ht].
  intros seen t1 id acc' Ht1 Hr. unfold reject_call in Hr. inv_case. cbn. emits.
Qed.

Lemma emits_retired t : emits t → emits_res (retireVerification t).
Proof.
  intros Ht. unfold retireVerification. destruct (retire_effects t) as [t1|] eqn:E; [|emits].
  apply retire_effects_settles in E. pose proof (cl_settles _ _ _ E Ht).
  cbv zeta. apply emits_ok. assert (emits (with_state retire_state t1)) by by apply (emits_state I).
  emits.
Qed.

Lemma emits_terminal_requested c t :
  (1 ≤ k)%nat → I (k - 1) t → emits_res (applyTerminalRequested t s c).
Proof.
  intros Hk Ht. unfold applyTerminalRequested. cbv zeta. do 6 (apply emits_guard; intros ?).
  intros t' ([d t1] & Hs & H)%bind_Ok.
  assert (Ht1 : I (k - 1) t1).
  { destruct (td_Kind (terminal_decision c));
      [apply bind_Ok in Hs as (? & _ & Hs); apply bind_Ok in Hs as (? & _ & Hs);
       by injection Hs as _ <-|..].
    all: apply settle_failure_Ok in Hs as (_ & _ & conv & ->); by apply (emits_state I). }
  apply Ok_inj in H as <-. destruct (_ || _); [|emits]. apply (cl_request (I := I)); [|done|emits].
  unfold terminalJournalOutcome. by repeat case_match.
Qed.

Lemma emits_approval_resolved request t cur :
  emits t → emits_res (applyApprovalResolved t cur request).
Proof. intros Ht. unfold applyApprovalResolved. cbv zeta. emits. Qed.

Lemma emits_cancel reason t cur : emits t → emits_res (applyCancelRequested t cur reason).
Proof. intros Ht. unfold applyCancelRequested. cbv zeta. emits. Qed.

Lemma emits_approval_result c t :
  emits_res (finishEffect (apr_EffectID c) (apr_Accepted c) (apr_Error c) t) →
  emits_res (applyApprovalResult t s c).
Proof.
  intros Ht. unfold applyApprovalResult. cbv zeta. do 2 (apply emits_guard; intros ?).
  apply emits_bind; [emits|]. intros t1 Ht1. apply emits_bind; [by apply emits_approval_resolved|].
  intros t2 Ht2. case_match; [by apply emits_cancel|by apply emits_ok].
Qed.

Lemma emits_input_resolved request t cur : emits t → emits_res (applyInputResolved t cur request).
Proof. intros Ht. unfold applyInputResolved. cbv zeta. emits. Qed.

Lemma emits_input_result eid request b msg t :
  emits_res (finishEffect eid b msg t) → emits_res (applyInputResult t s eid request b msg).
Proof.
  intros Ht. unfold applyInputResult. cbv zeta. do 2 (apply emits_guard; intros ?).
  apply emits_bind; [emits|]. intros t1 Ht1. by apply emits_input_resolved.
Qed.

Lemma emits_repair kind key limit t : emits t → emits_res (applyRepairRequested t s kind key limit).
Proof.
  intros Ht. unfold applyRepairRequested. cbv zeta. do 4 (apply emits_guard; intros ?).
  by apply emits_spendRepairBudget.
Qed.

Lemma emits_observe sig identity digest samples t :
  emits t → emits_res (applyObserveProgress t s sig identity digest samples).
Proof.
  intros Ht. unfold applyObserveProgress. cbv zeta. do 4 (apply emits_guard; intros ?).
  apply emits_ok. case_match; [apply emits_beginConvergence|]; by apply (emits_state I).
Qed.

Lemma emits_convergence c t : emits t → emits_res (applyConvergenceRequested t s c).
Proof.
  intros Ht. unfold applyConvergenceRequested. cbv zeta. do 3 (apply emits_guard; intros ?).
  by apply emits_ok, emits_beginConvergence.
Qed.

Lemma emits_reconciled m l t : emits t → emits_res (applyWorkspaceReconciled t s m l).
Proof.
  intros Ht. unfold applyWorkspaceReconciled. cbv zeta. do 4 (apply emits_guard; intros ?).
  apply emits_ok. apply (emits_state I); [done|done|done|]. apply (emits_state I); [by case_match..|done].
Qed.

Lemma emits_completion c t : emits t → emits_res (applyCompletion t s c).
Proof.
  intros Ht. unfold applyCompletion. cbv zeta. do 2 (apply emits_guard; intros ?).
  destruct (completion_verdict s c); apply emits_ok, (emits_emit I), (emits_state I); try done.
  all: by apply (emits_state I).
Qed.

Lemma emits_effect_result eid b msg t :
  emits_res (finishEffect eid b msg t) → emits_res (applyEffectResult t s eid b msg).
Proof. intros Ht. unfold applyEffectResult. emits. Qed.
Lemma emits_persistence_result eid b msg t :
  emits_res (finishEffect eid b msg t) → emits_res (applyPersistenceResult t s eid b msg).
Proof. intros Ht. unfold applyPersistenceResult. emits. Qed.

Lemma emits_journal_result eid status msg t :
  msg = "" → emits_res (finishEffect eid true "" t) → emits_res (applyJournalResult t s eid status msg).
Proof.
  intros -> Ht. unfold applyJournalResult. cbv zeta. apply emits_guard. intros ?.
  case_match; [|emits]. apply emits_guard. intros ?. case_match; [|emits].
  destruct (terminalJournalOutcome _ _). do 2 (apply emits_guard; intros ?).
  lazymatch goal with |- context [if ?b then _ else _] => change b with false; cbv iota end. emits.
Qed.

Lemma emits_dispatch c t :
  rewrite_of c = None → (command_requests c ≤ k)%nat →
  I (k - command_requests c) t → emits_res (dispatch t s c).
Proof.
  intros Hc Hk Ht. assert (Htk : emits t) by (apply (cl_le _ _ _ Ht); lia).
  destruct c; try discriminate Hc; cbn [dispatch command_requests] in *.
  all: try first
    [ apply emits_sample_result; [done|]; by apply (emits_finish I) | by apply emits_evaluate | by apply emits_toolcalls
    | apply emits_tool_result; by apply (emits_finish I) | by apply emits_rejection | by apply emits_abort
    | by apply emits_terminal_requested | by apply emits_retired 
    | apply emits_approval_result; by apply (emits_finish I)
    | apply emits_input_result; by apply (emits_finish I) | by apply emits_repair | by apply emits_observe
    | by apply emits_convergence | by apply emits_reconciled | by apply emits_completion
    | apply emits_effect_result; by apply (emits_finish I)
    | apply emits_persistence_result; by apply (emits_finish I)
    | apply emits_journal_result; [cbn in Hc; by case_match; bool_prop|by apply (emits_finish I)] ].
  all: repeat match goal with |- emits_res (?f _ _) => unfold f | |- emits_res (?f _ _ _) => unfold f
     | |- emits_res (?f _ _ _ _) => unfold f | |- emits_res (?f _ _ _ _ _) => unfold f
     | |- emits_res (?f _ _ _ _ _ _) => unfold f end; cbv zeta.
  all: clear Htk; emits.
Qed.
End Handlers.

(** ** Applied commands *)

Lemma emits_start s :
  Emits (st_PendingEffects s) (st_NextEffectSequence s) 0 (mkTransition s [] []).
Proof. split; cbn; auto. Qed.

Lemma Apply_emits s c t :
  Apply s c = Ok t → rewrite_of c = None →
  Emits (st_PendingEffects s) (st_NextEffectSequence s) (command_requests c) t.
Proof.
  intros (_ & _ & Hd & _)%Apply_Ok Hc. eapply emits_dispatch; [exact _|exact Hc|done| |exact Hd].
  rewrite Nat.sub_diag. apply emits_start.
Qed.

Lemma Apply_accounted s c t : Apply s c = Ok t → rewrite_of c = None → Accounted 0 t.
Proof.
  intros (_ & _ & Hd & _)%Apply_Ok Hc.
  apply (emits_dispatch Accounted (command_requests c) s c (mkTransition s [] [])); [done..| |done].
  intros e He. by apply elem_of_nil in He.
Qed.

(** A result command that is applied completes its effect. *)
Lemma result_completes s c t :
  Apply s c = Ok t → resultEffectID c ≠ "" → rewrite_of c = None →
  is_Some (st_CompletedEffects (tn_State t) !! resultEffectID c).
Proof.
  intros (_ & _ & Hd & _)%Apply_Ok Hid Hc.
  assert (Hf : ∀ id b msg t0 k, emits_res (Completes id) k (finishEffect id b msg t0)).
  { intros id b msg t0 k t' H. apply (cl_le 0 k); [by eapply finish_completes|lia]. }
  destruct c; try done; cbn [dispatch resultEffectID] in *;
    change (Completes (resultEffectID (ltac:(match type of Hc with rewrite_of ?c = _ => exact c end)))
              (command_requests (ltac:(match type of Hc with rewrite_of ?c = _ => exact c end))) t);
    cbn [resultEffectID command_requests]; revert Hd.
  - apply (emits_sample_result (Completes _)); [done|apply Hf].
  - apply (emits_approval_result (Completes _)), Hf.
  - apply (emits_input_result (Completes _)), Hf.
  - apply (emits_tool_result (Completes _)), Hf.
  - apply (emits_effect_result (Completes _)), Hf.
  - apply (emits_persistence_result (Completes _)), Hf.
  - apply (emits_journal_result (Completes _)); [cbn in Hc; by case_match; bool_prop|apply Hf].
Qed.

(** A rewriting command requests nothing and rewrites its effect only. *)
Lemma Apply_rewrites s c t id f :
  Apply s c = Ok t → rewrite_of c = Some (id, f) →
  tn_Effects t = [] ∧ st_NextEffectSequence (tn_State t) = st_NextEffectSequence s ∧
  st_CompletedEffects (tn_State t) = st_CompletedEffects s ∧
  ∃ e, st_PendingEffects s !! id = Some e ∧
       st_PendingEffects (tn_State t) = <[id := f e]> (st_PendingEffects s).
Proof.
  intros (_ & _ & Hd & _)%Apply_Ok Hc. destruct c; try discriminate Hc; cbn in Hc;
    [injection Hc as <- <-..|case_match; [done|]; injection Hc as <- <-]; cbn [dispatch] in Hd.
  - unfold applyProviderRetry in Hd. handler Hd. split_and!; [reflexivity..|]. eauto.
  - unfold applyEffectStarted in Hd. handler Hd; (split_and!; [reflexivity..|]; eauto).
  - unfold applyEffectRequeued in Hd. handler Hd; (split_and!; [reflexivity..|]; eauto).
  - unfold applyJournalResult in Hd. handler Hd; try congruence; (split_and!; [reflexivity..|]; eauto).
Qed.

Lemma issue_lookup n k j : 1 ≤ j ≤ Z.of_nat k → effect_id (u64 (n + j)) ∈ issue n k.
Proof.
  induction k as [|k IH]; [lia|]. intros Hj. cbn [issue]. apply elem_of_app.
  destruct (decide (j = Z.of_nat (S k))) as [->|]; [right; by left|left; apply IH; lia].
Qed.

Lemma elem_of_issue n k id :
  id ∈ issue n k → ∃ j, 1 ≤ j ≤ Z.of_nat k ∧ id = effect_id (u64 (n + j)).
Proof.
  induction k as [|k IH]; cbn [issue]; [by intros ?%elem_of_nil|].
  intros [(j & ? & ->)%IH| ->%list_elem_of_singleton]%elem_of_app; eexists; (split; [|done]); lia.
Qed.

(** Issued identities are distinct and new, as long as the sequence does not wrap. *)
Lemma issue_fresh n k id :
  is_u64 n → n + Z.of_nat k < 2 ^ 64 → id ∈ issue n k → ¬ EffectLedger.issued n id.
Proof.
  intros Hn Hk (j & Hj & ->)%elem_of_issue (i & Hi & Heq).
  rewrite u64_small in Heq by (unfold is_u64 in *; lia).
  apply EffectLedger.effect_id_inj in Heq; unfold is_u64 in *; lia.
Qed.

Lemma issue_NoDup n k : is_u64 n → n + Z.of_nat k < 2 ^ 64 → NoDup (issue n k).
Proof.
  intros Hn. induction k as [|k IH]; intros Hk; cbn [issue]; [constructor|].
  apply NoDup_app. split; [apply IH; lia|]. split; [|apply NoDup_singleton].
  intros id (j & Hj & ->)%elem_of_issue Heq%list_elem_of_singleton.
  rewrite !u64_small in Heq by (unfold is_u64 in *; lia).
  apply EffectLedger.effect_id_inj in Heq; unfold is_u64 in *; lia.
Qed.

Lemma issue_end_small n k :
  is_u64 n → n + Z.of_nat k < 2 ^ 64 → issue_end n k = n + Z.of_nat k.
Proof.
  intros Hn Hk. destruct k as [|k]; cbn [issue_end]; [lia|].
  apply u64_small. unfold is_u64 in *. lia.
Qed.

(** A command issues no more effects than it can request. *)
Lemma Apply_issues s c t :
  Apply s c = Ok t → st_NextEffectSequence s + Z.of_nat (command_requests c) < 2 ^ 64 →
  EffectLedger.Inv (EffectLedger.of_state s) →
  EffectLedger.Inv (EffectLedger.of_state (tn_State t)) ∧
  st_NextEffectSequence (tn_State t) ≤ st_NextEffectSequence s + Z.of_nat (command_requests c).
Proof.
  intros H%Apply_sim Hlt Hinv.
  by destruct (EffectLedger.steps_inv _ _ _ (sim_effects _ _ _ H) Hlt Hinv) as (? & ? & _).
Qed.
