(* ===== verification/Routing.v ===== *)
(** The registry follows the kernel: calls on the dispatcher never block, every
    pending effect of the published state is routed with its status and attempt, and
    a result is submitted until the kernel accepted it. *)
From S2P Require Import Prelude.
From S2P Require Import GoStrings.
From S2P Require Import TurnState.
From S2P Require Import Invariants.
From S2P Require Import Command.
From S2P Require Import Effects.
From S2P Require Import Validity.
From S2P Require Import TurnSpec.
From S2P Require Import Reducer.
From S2P Require Import Frames.
From S2P Require Import Kernel.
From S2P Require Import Runs.
From S2P Require Import TurnSafety.
From S2P Require Import Sharing.
From S2P Require Import DomainFacts.
From S2P Require Import Coordinator.
From S2P Require Import Dispatcher.
From S2P Require Import Issued.

#[export] Instance durable_laws {St} : EffectDispatcherLaws St DurableEffectDispatcher.
Proof.
  intros P effect submit _ [c store [l r]] Hw. unfold Dispatch, durable_dispatch, locked.
  destruct (RoutedEffect _); [|done]. cbn. destruct l; [done|]. cbn. by destruct (bool_decide _).
Qed.

Section Routing.
Context {St : Type} `{!DomainFactStore St}.
Context (marshal : State → res error string) (fuel : nat).
Notation W := (RoutedWorld St).
Notation submit := (Submit marshal (S fuel) : Command → Prog W unit).
Notation submit_with := (SubmitWithCommit marshal (S fuel) : Command → option (DomainFactCommit St) → Prog W unit).
Notation world c store l r := (mkWorld c store (mkDurableEffectDispatcher l r) : W).
Notation state_of w := (co_state (w_coordinator w)).

(** ** Submissions *)

Definition route (m : gmap string routedEffect) (e : Effect) : gmap string routedEffect :=
  <[ef_ID e := mkRoutedEffect e false None false]> m.

(** New effects of routed kinds are all registered. *)
Lemma dispatch_all (f : Command → Prog W unit) effects c store r :
  Forall (λ e, RoutedEffect (ef_Kind e) = true) effects → NoDup (ef_ID <$> effects) →
  (∀ e, e ∈ effects → r !! ef_ID e = None) →
  forP (λ e, Dispatch e f) effects (world c store false r)
  = (Val tt, world c store false (foldl route r effects)).
Proof.
  revert r. induction effects as [|e effects IH]; intros r Hk Hnd Hr; [done|].
  apply Forall_cons in Hk as [Hk Hks]. apply NoDup_cons in Hnd as [Hne Hnd]. cbn [forP].
  unfold bind, Dispatch at 1, durable_dispatch. rewrite Hk. unfold locked. cbn.
  unfold routed. cbn. rewrite (Hr e) by (by left). cbn. apply IH; [done|done|].
  intros e' He'. unfold route. rewrite lookup_insert_ne; [apply Hr; by right|].
  intros Heq. apply Hne. rewrite Heq. by apply list_elem_of_fmap_2.
Qed.

(** What a transition does: it fails and leaves the published state but for what it
    remembers, or publishes. *)
Lemma transition_cases c commit (w : W) :
  (∃ e store, transition marshal c commit w =
     (Fail e, mkWorld (refused c (w_coordinator w)) store (w_dispatcher w))) ∨
  (∃ t c' store, Apply (state_of w) c = Ok t ∧ co_state c' = tn_State t ∧
     transition marshal c commit w = (Val (tn_Effects t), mkWorld c' store (w_dispatcher w))).
Proof.
  destruct w as [co store d]. unfold transition. cbn [w_coordinator w_store w_dispatcher].
  destruct (Apply _ c) as [t|e] eqn:Ht; [|left; by exists (CKernel e), store].
  destruct (digestValidated _ _) as [[digest data]|e]; [|left; by exists (CError e), store].
  cbv zeta. destruct (default _ _ _ _) as [[[]|e] store'];
    [right|left; by exists (CPersistence e), store'].
  eexists t, _, store'. split_and!; [done| |reflexivity]; done.
Qed.

(** What a submission does: it fails and leaves the registry, or it publishes the
    transition and dispatches its effects. *)
Lemma submit_cases c commit (w : W) :
  (∃ e store, submit_with c commit w =
     (Fail e, mkWorld (refused c (w_coordinator w)) store (w_dispatcher w))) ∨
  (∃ t c' store, Apply (state_of w) c = Ok t ∧ co_state c' = tn_State t ∧
     submit_with c commit w =
       forP (λ e, Dispatch e (λ r, SubmitWithCommit marshal fuel r None))
         (tn_Effects t) (mkWorld c' store (w_dispatcher w))).
Proof.
  cbn [SubmitWithCommit]. unfold bind.
  destruct (transition_cases c commit w) as [(e & store & ->)|(t & c' & store & Ht & Hs & ->)];
    [left; eauto|right]. by exists t, c', store.
Qed.

Lemma refused_rewrites c id f co : rewrite_of c = Some (id, f) → refused c co = co.
Proof. intros Hc. destruct co. by destruct c. Qed.

(** A rewriting command touches nothing but its effect and the store, whoever holds
    the lock. *)
Lemma submit_rewrites c id f (w : W) :
  rewrite_of c = Some (id, f) →
  (∃ e store, submit c w = (Fail e, mkWorld (w_coordinator w) store (w_dispatcher w))) ∨
  (∃ t c' store, Apply (state_of w) c = Ok t ∧ co_state c' = tn_State t ∧
     submit c w = (Val tt, mkWorld c' store (w_dispatcher w))).
Proof.
  intros Hc. unfold Submit.
  destruct (submit_cases c None w) as [(e & store & E)|(t & c' & store & Ht & Hs & Heq)].
  { left. exists e, store. by rewrite E, (refused_rewrites _ _ _ _ Hc). }
  right.
  destruct (Apply_rewrites _ _ _ _ _ Ht Hc) as (Hemp & _). rewrite Hemp in Heq.
  by exists t, c', store.
Qed.

(** ** The registry invariant *)

(** The most effects one command may request. *)
Context (K : nat).

(** Every entry is of an effect the turn issued; a retained result answers it. While a
    result is being submitted, its entry alone is resolving. *)
Definition entry_ok (busy : option string) (s : State) (id : string) (entry : routedEffect) : Prop :=
  ef_ID (rt_effect entry) = id ∧ RoutedEffect (ef_Kind (rt_effect entry)) = true ∧
  on_books (st_PendingEffects s, st_CompletedEffects s) id ∧
  rt_resolving entry = bool_decide (busy = Some id) ∧
  (∀ r, rt_result entry = Some r → resultEffectID r = id ∧ (command_requests r ≤ K)%nat).

(** The entry shows a pending effect as the kernel has it. *)
Definition shows (entry : routedEffect) (e : Effect) : Prop :=
  rt_effect entry = e ∧ rt_started entry = bool_decide (ef_Status e = EffectRunning).

Record Follows (busy : option string) (s : State) (r : gmap string routedEffect) : Prop := {
  fo_ledger : EffectLedger.Inv (EffectLedger.of_state s);
  fo_entries id entry : r !! id = Some entry → entry_ok busy s id entry;
  fo_pending id e : st_PendingEffects s !! id = Some e →
    ∃ entry, r !! id = Some entry ∧ shows entry e;
  fo_busy id : busy = Some id → is_Some (r !! id);
}.

(** The lock is free and the registry follows the kernel. *)
Definition Routes (busy : option string) (w : W) : Prop :=
  dd_locked (w_dispatcher w) = false ∧ Follows busy (state_of w) (routed w).

(** An identity once issued stays pending or completed. *)
Lemma Apply_keeps_effects s c t id :
  Apply s c = Ok t → st_NextEffectSequence s + Z.of_nat (command_requests c) < 2 ^ 64 →
  EffectLedger.Inv (EffectLedger.of_state s) →
  on_books (st_PendingEffects s, st_CompletedEffects s) id →
  on_books (st_PendingEffects (tn_State t), st_CompletedEffects (tn_State t)) id.
Proof.
  unfold on_books. cbn. intros H%Apply_sim Hlt Hinv Hid. pose proof (sim_effects _ _ _ H) as Hs.
  assert (∃ e, st_PendingEffects s !! id = Some e ∨ st_CompletedEffects s !! id = Some e) as [e He]
    by (destruct Hid as [[e ?]|[e ?]]; eauto).
  destruct (effect_steps_keep _ _ _ id e Hs Hlt Hinv He) as (e' & [He'|He'] & _); [left|right]; eauto.
Qed.

Lemma foldl_route_lookup effects r id entry :
  foldl route r effects !! id = Some entry →
  r !! id = Some entry ∨ ∃ e, e ∈ effects ∧ ef_ID e = id ∧ entry = mkRoutedEffect e false None false.
Proof.
  revert r. induction effects as [|e effects IH]; intros r H; [by left|]. cbn in H.
  destruct (IH _ H) as [Hr|(e' & ? & ? & ?)].
  - unfold route in Hr. apply lookup_insert_Some in Hr as [[<- <-]|[_ ?]]; [right|by left].
    exists e. split; [by left|done].
  - right. exists e'. split; [by right|done].
Qed.

Lemma foldl_route_keeps effects r id :
  id ∉ ef_ID <$> effects → foldl route r effects !! id = r !! id.
Proof.
  revert r. induction effects as [|e effects IH]; intros r Hid; [done|]. cbn in *.
  rewrite IH by set_solver. unfold route. rewrite lookup_insert_ne; [done|set_solver].
Qed.

Lemma foldl_route_new effects r e :
  NoDup (ef_ID <$> effects) → e ∈ effects →
  foldl route r effects !! ef_ID e = Some (mkRoutedEffect e false None false).
Proof.
  revert r. induction effects as [|e' effects IH]; intros r Hnd He; [by apply elem_of_nil in He|].
  cbn in *. apply NoDup_cons in Hnd as [Hne Hnd]. apply elem_of_cons in He as [->|He]; [|by apply IH].
  rewrite foldl_route_keeps by done. unfold route. by rewrite lookup_insert_eq.
Qed.

(** A published transition whose effects are registered. *)
Lemma follows_apply busy s c t r :
  Apply s c = Ok t → rewrite_of c = None →
  st_NextEffectSequence s + Z.of_nat (command_requests c) < 2 ^ 64 → Follows busy s r →
  Forall (λ e, RoutedEffect (ef_Kind e) = true) (tn_Effects t) ∧
  NoDup (ef_ID <$> tn_Effects t) ∧ (∀ e, e ∈ tn_Effects t → r !! ef_ID e = None) ∧
  Follows busy (tn_State t) (foldl route r (tn_Effects t)).
Proof.
  intros Ht Hc Hlt [Hinv Hent Hpend Hbusy].
  pose proof (Apply_emits _ _ _ Ht Hc) as [Hlen Hem Hids Hseq Hnew].
  pose proof (Apply_issues _ _ _ Ht Hlt Hinv) as (Hinv' & _).
  pose proof (EffectLedger.inv_seq _ Hinv) as Hu. cbn in Hu.
  assert (Hnd : NoDup (ef_ID <$> tn_Effects t)) by (rewrite Hids; apply issue_NoDup; [done|lia]).
  assert (Hfresh : ∀ e, e ∈ tn_Effects t → r !! ef_ID e = None).
  { intros e He. destruct (r !! ef_ID e) as [entry|] eqn:E; [exfalso|done].
    apply Hent in E as (_ & _ & Hk & _).
    apply (issue_fresh (st_NextEffectSequence s) (length (tn_Effects t)) (ef_ID e)); [done|lia| |].
    - rewrite <- Hids. by apply list_elem_of_fmap_2.
    - destruct Hinv as [_ Hp Hco _]. unfold on_books in Hk. cbn in *. destruct Hk as [[x Hx]|[x Hx]];
        [by apply Hp in Hx as (_ & ? & _)|by apply Hco in Hx as (_ & ? & _)]. }
  assert (Hold : ∀ id, is_Some (r !! id) → foldl route r (tn_Effects t) !! id = r !! id).
  { intros id [x Hx]. apply foldl_route_keeps. intros (e' & -> & He')%list_elem_of_fmap.
    apply Hfresh in He'. congruence. }
  split_and!; [eapply Forall_impl; [exact Hnew|by intros ? [? _]]|done|done|]. split; [done|..].
  - intros id entry [Hr|(e & He & <- & ->)]%foldl_route_lookup.
    + destruct (Hent _ _ Hr) as (? & ? & ? & ? & ?). split_and!; try done.
      by eapply Apply_keeps_effects.
    + rewrite Forall_forall in Hnew. destruct (Hnew _ He) as (Hk & _).
      split_and!; cbn; try done; [by apply (Apply_accounted _ _ _ Ht Hc)|].
      symmetry. apply bool_decide_eq_false. intros Hb%Hbusy. rewrite Hfresh in Hb by done.
      by destruct Hb.
  - intros id e He. destruct (Hem _ _ He) as [Hp|[Hin <-]].
    + destruct (Hpend _ _ Hp) as (entry & Hr & Hsh). exists entry. split; [|done].
      rewrite Hold; [done|by rewrite Hr].
    + exists (mkRoutedEffect e false None false). rewrite foldl_route_new by done.
      split; [done|]. rewrite Forall_forall in Hnew. destruct (Hnew _ Hin) as (_ & Hst).
      unfold shows. cbn. by rewrite Hst.
  - intros id Hid. rewrite Hold; by apply Hbusy.
Qed.

(** A published rewrite of one effect, shown by its entry. *)
Lemma follows_rewrite busy s c id f t r entry entry' :
  Apply s c = Ok t → rewrite_of c = Some (id, f) → st_NextEffectSequence s + 1 < 2 ^ 64 →
  Follows busy s r → r !! id = Some entry →
  (∀ e, shows entry e → shows entry' (f e)) →
  ef_ID (rt_effect entry') = ef_ID (rt_effect entry) →
  ef_Kind (rt_effect entry') = ef_Kind (rt_effect entry) →
  rt_resolving entry' = rt_resolving entry →
  rt_result entry' = rt_result entry ∨ rt_result entry' = None →
  Follows busy (tn_State t) (<[id := entry']> r).
Proof.
  intros Ht Hc Hlt [Hinv Hent Hpend Hbusy] Hid Hsh Hi Hk Hr Hres.
  destruct (Apply_rewrites _ _ _ _ _ Ht Hc) as (_ & Hseq & Hcomp & e & He & Hp).
  assert (H1 : command_requests c = 1%nat) by by destruct c.
  destruct (Apply_issues _ _ _ Ht ltac:(rewrite H1; lia) Hinv) as (Hinv' & _).
  assert (Hbooks : ∀ id', on_books (st_PendingEffects s, st_CompletedEffects s) id' →
            on_books (st_PendingEffects (tn_State t), st_CompletedEffects (tn_State t)) id').
  { intros id'. apply (Apply_keeps_effects _ _ _ _ Ht); [rewrite H1; lia|done]. }
  split; [done|..].
  - intros id' x [[<- <-]|[Hne Hx]]%lookup_insert_Some.
    + destruct (Hent _ _ Hid) as (? & ? & ? & ? & Hx). unfold entry_ok.
      rewrite Hi, Hk, Hr. split_and!; auto. intros x Hx'. destruct Hres as [Hres|Hres];
        rewrite Hres in Hx'; [by apply Hx|done].
    + destruct (Hent _ _ Hx) as (? & ? & ? & ? & ?). split_and!; auto.
  - rewrite Hp. intros id' e' [[<- <-]|[Hne He']]%lookup_insert_Some.
    + exists entry'. rewrite lookup_insert_eq. split; [done|]. apply Hsh.
      destruct (Hpend _ _ He) as (y & Hy & ?). by rewrite Hid in Hy; injection Hy as <-.
    + destruct (Hpend _ _ He') as (y & Hy & ?). exists y. by rewrite lookup_insert_ne.
  - intros id' Hid'%Hbusy. by apply lookup_insert_is_Some'; right.
Qed.

(** The registry does not see what a refused command remembers. *)
Lemma follows_refused busy c co r :
  Follows busy (co_state co) r → Follows busy (co_state (refused c co)) r.
Proof.
  destruct (caller_after_alike (co_state co) c) as [o E]. unfold refused. cbn. rewrite E.
  intros [H1 H2 H3 H4]. by split.
Qed.
End Routing.
