(* ===== verification/Calls.v ===== *)
(** The calls on a coordinator with the durable dispatcher, each within the turn's
    effect sequence: a call ends, leaves the lock free and the registry faithful, and
    issues a bounded number of effects. *)
From S2P Require Import Prelude.
From S2P Require Import GoStrings.
From S2P Require Import TurnState.
From S2P Require Import Invariants.
From S2P Require Import Command.
From S2P Require Import Effects.
From S2P Require Import Validity.
From S2P Require Import TurnSpec.
From S2P Require Import Reducer.
From S2P Require Import Kernel.
From S2P Require Import Sharing.
From S2P Require Import DomainFacts.
From S2P Require Import Coordinator.
From S2P Require Import Dispatcher.
From S2P Require Import Issued.
From S2P Require Import Routing.

Lemma alter_Some {A} (f : A → A) id x (m : gmap string A) :
  m !! id = Some x → alter f id m = <[id := f x]> m.
Proof.
  intros H. apply map_eq. intros i. destruct (decide (id = i)) as [<-|].
  - by rewrite lookup_alter_eq, lookup_insert_eq, H.
  - by rewrite lookup_alter_ne, lookup_insert_ne.
Qed.

Lemma omap_length {A B} (f : A → option B) l : (length (omap f l) ≤ length l)%nat.
Proof. induction l as [|x l IH]; cbn; [lia|]. destruct (f x); cbn; lia. Qed.

Lemma elem_of_sorted_ids {St} (w : RoutedWorld St) id :
  id ∈ sorted_ids w ↔ is_Some (routed w !! id).
Proof.
  unfold sorted_ids. rewrite elem_of_sort_strings, list_elem_of_fmap. split.
  - intros ([i x] & -> & H%elem_of_map_to_list). eauto.
  - intros [x H]. exists (id, x). by rewrite elem_of_map_to_list.
Qed.

Lemma findLocked_Ok {St} kind callID (w : RoutedWorld St) id entry :
  findLocked kind callID w = Ok (id, entry) →
  routed w !! id = Some entry ∧ ef_Kind (rt_effect entry) = kind ∧
  (callID = "" ∨ ef_CallID (rt_effect entry) = callID).
Proof.
  unfold findLocked. destruct (filter _ _) as [|id' l] eqn:E; [done|].
  destruct (routed w !! id') as [x|] eqn:Hx; [|done]. intros [= <- <-].
  assert (Hm : id' ∈ filter (λ id, entry_matches kind callID (routed w) id = true) (sorted_ids w))
    by (rewrite E; by left).
  apply list_elem_of_filter in Hm as (Hm & _). unfold entry_matches in Hm. rewrite Hx in Hm.
  apply andb_true_iff in Hm as (Hk%bool_decide_eq_true & Hc). split_and!; [done..|].
  apply orb_true_iff in Hc as [?%String.eqb_eq|?%String.eqb_eq]; auto.
Qed.

Section Calls.
Context {St : Type} `{!DomainFactStore St}.
Context (marshal : State → res error string) (fuel : nat).
Context (K : nat) (HK : (1 ≤ K)%nat).
Notation W := (RoutedWorld St).
Notation submit := (Submit marshal (S fuel) : Command → Prog W unit).
Notation submit_with :=
  (SubmitWithCommit marshal (S fuel) : Command → option (DomainFactCommit St) → Prog W unit).
Notation state_of w := (co_state (w_coordinator w)).
Notation seq_of w := (st_NextEffectSequence (co_state (w_coordinator w))).
Notation routes := (Routes (St := St) K).

(** ** Calls within the sequence *)

(** The call came back. *)
Definition ends {A} (o : outcome A) : Prop :=
  match o with Val _ | Fail _ => True | Blocked | OutOfFuel => False end.

(** From [P], with room for [n] commands, [m] comes back in [Q] and issues no more. *)
Definition within {A} (n : nat) (P : W → Prop) (m : Prog W A) (Q : outcome A → W → Prop) : Prop :=
  ∀ w, P w → seq_of w + Z.of_nat (n * K) < 2 ^ 64 →
  ∃ o w', m w = (o, w') ∧ ends o ∧ seq_of w' ≤ seq_of w + Z.of_nat (n * K) ∧ Q o w'.

Lemma within_ret {A} n P (a : A) (Q : outcome A → W → Prop) :
  (∀ w, P w → Q (Val a) w) → within n P (ret a) Q.
Proof. intros H w Hw _. exists (Val a), w. split_and!; [done|done|lia|auto]. Qed.

Lemma within_fail {A} n P e (Q : outcome A → W → Prop) :
  (∀ w, P w → Q (Fail e) w) → within n P (fail e) Q.
Proof. intros H w Hw _. exists (Fail e), w. split_and!; [done|done|lia|auto]. Qed.

Lemma within_bind {A B} n n' P (m : Prog W A) (k : A → Prog W B) R Q :
  within n P m R → (∀ a, within n' (R (Val a)) (k a) Q) →
  (∀ e w, R (Fail e) w → Q (Fail e) w) → within (n + n') P (bind m k) Q.
Proof.
  intros Hm Hk Hf w Hw Hs. destruct (Hm w Hw) as (o & w1 & E & Ho & Hs1 & HR); [lia|].
  unfold bind. rewrite E. destruct o as [a|e| |]; try done.
  - destruct (Hk a w1 HR) as (o & w2 & E2 & Ho2 & Hs2 & HQ); [lia|].
    exists o, w2. split_and!; try done. lia.
  - exists (Fail e), w1. split_and!; [done|done|lia|auto].
Qed.

Lemma within_le {A} n n' P (m : Prog W A) Q : (n ≤ n')%nat → within n P m Q → within n' P m Q.
Proof.
  intros Hn Hm w Hw Hs. assert (n * K ≤ n' * K)%nat by (apply Nat.mul_le_mono_r; lia).
  destruct (Hm w Hw) as (o & w1 & E & Ho & Hs1 & HQ); [lia|].
  exists o, w1. split_and!; try done. lia.
Qed.

Lemma within_weaken {A} n (P P' : W → Prop) (m : Prog W A) (Q Q' : outcome A → W → Prop) :
  (∀ w, P' w → P w) → (∀ o w, Q o w → Q' o w) → within n P m Q → within n P' m Q'.
Proof.
  intros HP HQ Hm w Hw Hs. destruct (Hm w (HP _ Hw) Hs) as (o & w1 & ? & ? & ? & ?).
  exists o, w1. split_and!; auto.
Qed.

Lemma within_forP {A} P (f : A → Prog W unit) l :
  (∀ x, x ∈ l → within 1 P (f x) (λ _, P)) → within (length l) P (forP f l) (λ _, P).
Proof.
  induction l as [|x l IH]; intros H; cbn [forP length]; [by apply within_ret|].
  apply (within_bind 1 (length l) P (f x) _ (λ _, P)); [apply H; by left|intros _|done].
  apply IH. intros y Hy. apply H. by right.
Qed.

(** ** Submissions *)

(** The command was applied and its state published. *)
Definition applied (c : Command) (w : W) : Prop :=
  ∃ s t, Apply s c = Ok t ∧ state_of w = tn_State t.

Lemma within_submit busy c commit d :
  rewrite_of c = None → (command_requests c ≤ K)%nat →
  within 1 (λ w, routes busy w ∧ w_dispatcher w = d) (submit_with c commit)
    (λ o w, routes busy w ∧
            match o with Val _ => applied c w | _ => w_dispatcher w = d end).
Proof.
  intros Hc Hr [co store [l r]] [[Hl Hf] Hd] Hs. cbn in Hl, Hf, Hs, Hd. subst l d.
  destruct (submit_cases marshal fuel c commit (mkWorld co store (mkDurableEffectDispatcher false r)))
    as [(e & store' & ->)|(t & co' & store' & Ht & Hst & ->)]; cbn [w_coordinator w_dispatcher] in *.
  { do 2 eexists. split; [reflexivity|]. unfold Routes, routed. cbn [w_coordinator w_dispatcher].
    pose proof (follows_refused K busy c co r Hf) as Hf'.
    pose proof (ledger_seq _ _ (caller_after_alike (co_state co) c)) as Hseq. cbn in Hseq |- *.
    split_and!; [done|lia|done..]. }
  assert (Hlt : st_NextEffectSequence (co_state co) + Z.of_nat (command_requests c) < 2 ^ 64) by lia.
  destruct (follows_apply K _ _ _ _ _ Ht Hc Hlt Hf) as (Hk & Hnd & Hfr & Hf').
  rewrite dispatch_all by done.
  destruct (Apply_issues _ _ _ Ht Hlt (fo_ledger _ _ _ _ Hf)) as (_ & Hs').
  do 2 eexists. split; [reflexivity|]. unfold Routes, routed, applied. cbn. rewrite Hst.
  split_and!; [done|lia|done|done|eauto].
Qed.

(** A rewriting command, and the entry that shows it afterwards. *)
Lemma within_rewrite busy c id f co store r entry (entry' : routedEffect) b :
  rewrite_of c = Some (id, f) → Follows K busy (co_state co) r → r !! id = Some entry →
  st_NextEffectSequence (co_state co) + Z.of_nat (1 * K) < 2 ^ 64 →
  (∀ e, shows entry e → shows entry' (f e)) →
  ef_ID (rt_effect entry') = ef_ID (rt_effect entry) →
  ef_Kind (rt_effect entry') = ef_Kind (rt_effect entry) →
  rt_resolving entry' = rt_resolving entry →
  rt_result entry' = rt_result entry ∨ rt_result entry' = None →
  ∀ m, let w := mkWorld co store (mkDurableEffectDispatcher b m) in
  (∃ e store', submit c w = (Fail e, mkWorld co store' (mkDurableEffectDispatcher b m))) ∨
  (∃ co' store', submit c w = (Val tt, mkWorld co' store' (mkDurableEffectDispatcher b m)) ∧
     st_NextEffectSequence (co_state co') = st_NextEffectSequence (co_state co) ∧
     Follows K busy (co_state co') (<[id := entry']> r)).
Proof.
  intros Hc Hf Hid Hs Hsh Hi Hk Hr Hres m w.
  destruct (submit_rewrites marshal fuel c id f w Hc) as [(e & store' & ->)|(t & co' & store' & Ht & Hst & ->)];
    [left; eauto|right].
  destruct (Apply_rewrites _ _ _ _ _ Ht Hc) as (_ & Hseq & _).
  exists co', store'. split; [done|]. rewrite Hst. split; [done|].
  subst w. cbn in *. eapply follows_rewrite; try done. lia.
Qed.

(** ** The registry's operations *)

(** An operation on the first entry of a kind and call, under the lock. *)
Lemma within_entry {A} busy kind callID (k : string → routedEffect → Prog W A) :
  (∀ id entry co store r, r !! id = Some entry → Follows K busy (co_state co) r →
     st_NextEffectSequence (co_state co) + Z.of_nat (1 * K) < 2 ^ 64 →
     ∃ o co' store' r', k id entry (mkWorld co store (mkDurableEffectDispatcher true r))
       = (o, mkWorld co' store' (mkDurableEffectDispatcher true r')) ∧ ends o ∧
       st_NextEffectSequence (co_state co') = st_NextEffectSequence (co_state co) ∧
       Follows K busy (co_state co') r') →
  within 1 (routes busy) (locked (with_entry kind callID k)) (λ _, routes busy).
Proof.
  intros Hk [co store [l r]] [Hl Hf] Hs. cbn in Hl, Hf, Hs. subst l.
  unfold locked, with_entry, set_locked, with_dispatcher.
  cbn [w_coordinator w_store w_dispatcher dd_locked dd_routed].
  destruct (findLocked _ _ _) as [[id entry]|e] eqn:E.
  - apply findLocked_Ok in E as (Hid & _). cbn in Hid.
    destruct (Hk id entry co store r Hid Hf Hs) as (o & co' & store' & r' & -> & Ho & Hs' & Hf').
    exists o, (mkWorld co' store' (mkDurableEffectDispatcher false r')).
    split; [by destruct o|]. unfold Routes, routed. cbn. split_and!; [done|lia|done|done].
  - do 2 eexists. split; [reflexivity|]. unfold Routes, routed. cbn. split_and!; [done|lia|done|done].
Qed.

Lemma within_routed busy kind callID :
  within 1 (routes busy) (Routed kind callID) (λ _, routes busy).
Proof. apply within_entry. intros id entry co store r Hid Hf Hs. by do 4 eexists. Qed.

Lemma restore_started (r : gmap string routedEffect) id (entry : routedEffect) :
  r !! id = Some entry → rt_started entry = false →
  alter (set_rt_started false) id (alter (set_rt_started true) id r) = r.
Proof.
  intros Hid Hst. rewrite (alter_Some _ _ _ _ Hid).
  rewrite (alter_Some _ _ (set_rt_started true entry)) by apply lookup_insert_eq.
  rewrite insert_insert_eq. apply insert_id. rewrite Hid. f_equal. destruct entry. cbn in *. by subst.
Qed.

Lemma within_start busy kind callID :
  within 1 (routes busy) (Start submit kind callID) (λ _, routes busy).
Proof.
  apply within_entry. intros id entry co store r Hid Hf Hs. cbv zeta.
  destruct (rt_started entry) eqn:Hst; [by do 4 eexists|].
  destruct (fo_entries _ _ _ _ Hf _ _ Hid) as (Hi & _). unfold update_entry, set_routed, with_dispatcher, routed.
  cbn [w_coordinator w_store w_dispatcher dd_locked dd_routed].
  set (attempt := u32 (ef_Attempt (rt_effect entry) + 1)).
  set (f := λ e, e |> set_ef_Status EffectRunning |> set_ef_Attempt attempt |> set_ef_Error "").
  set (entry' := entry |> set_rt_started true |> set_rt_effect (f (rt_effect entry))).
  destruct (within_rewrite busy (EffectStarted (ef_ID (rt_effect entry)) attempt) id f co store r entry entry' true
    ltac:(cbn; by rewrite Hi) Hf Hid Hs) with (m := alter (set_rt_started true) id r)
    as [(e & store' & ->)|(co' & store' & -> & Hs' & Hf')]; try done.
  - intros e [<- _]. done.
  - by left.
  - do 4 eexists. split; [reflexivity|]. cbn. split_and!; [done|done|]. by rewrite (restore_started _ _ entry).
  - do 4 eexists. split; [reflexivity|]. cbn. split_and!; [done|done|].
    rewrite (alter_Some _ _ _ _ Hid).
    rewrite (alter_Some _ _ (set_rt_started true entry)) by apply lookup_insert_eq.
    by rewrite insert_insert_eq.
Qed.

Lemma within_back busy id entry c :
  rewrite_of c = Some (id, set_ef_Status EffectRequested) →
  ∀ co store r, r !! id = Some entry → Follows K busy (co_state co) r →
  st_NextEffectSequence (co_state co) + Z.of_nat (1 * K) < 2 ^ 64 →
  ∃ o co' store' r', back_to_requested submit id c (mkWorld co store (mkDurableEffectDispatcher true r))
    = (o, mkWorld co' store' (mkDurableEffectDispatcher true r')) ∧ ends o ∧
    st_NextEffectSequence (co_state co') = st_NextEffectSequence (co_state co) ∧
    Follows K busy (co_state co') r'.
Proof.
  intros Hc co store r Hid Hf Hs. unfold back_to_requested, bind.
  set (g := λ entry, entry |> set_rt_started false
                |> set_rt_effect (set_ef_Status EffectRequested (rt_effect entry))).
  destruct (within_rewrite busy c id _ co store r entry (g entry) true Hc Hf Hid Hs) with (m := r)
    as [(e & store' & ->)|(co' & store' & -> & Hs' & Hf')]; try done.
  - intros e [<- _]. done.
  - by left.
  - by do 4 eexists.
  - do 4 eexists. split; [reflexivity|]. cbn. split_and!; [done|done|].
    by rewrite (alter_Some _ _ _ _ Hid).
Qed.

Lemma within_retry busy kind callID c :
  within 1 (routes busy) (ScheduleRetry submit kind callID c) (λ _, routes busy).
Proof.
  apply within_entry. intros id entry co store r Hid Hf Hs. cbv zeta.
  destruct (_ || negb (prr_Attempt c =? _)) eqn:E; [by do 4 eexists|].
  apply (within_back busy id entry); [|done..]. cbn. do 2 f_equal.
  destruct (fo_entries _ _ _ _ Hf _ _ Hid) as (<- & _).
  rewrite !orb_false_iff, !negb_false_iff in E. destruct E as ((_ & H) & _).
  by apply String.eqb_eq in H.
Qed.

Lemma within_requeue busy kind callID :
  within 1 (routes busy) (Requeue submit kind callID) (λ _, routes busy).
Proof.
  apply within_entry. intros id entry co store r Hid Hf Hs. cbv zeta.
  destruct (_ || negb (bool_decide _)) eqn:E; [by do 4 eexists|].
  apply (within_back busy id entry); [|done..]. cbn. by destruct (fo_entries _ _ _ _ Hf _ _ Hid) as (<- & _).
Qed.
(** ** Resolving *)

(** An entry that takes or releases the submission of its result. *)
Lemma follows_set busy busy' s r id (entry entry' : routedEffect) :
  Follows K busy s r → r !! id = Some entry →
  rt_effect entry' = rt_effect entry → rt_started entry' = rt_started entry →
  rt_resolving entry' = bool_decide (busy' = Some id) →
  (∀ c, rt_result entry' = Some c → resultEffectID c = id ∧ (command_requests c ≤ K)%nat) →
  busy = None ∨ busy = Some id → busy' = None ∨ busy' = Some id →
  Follows K busy' s (<[id := entry']> r).
Proof.
  intros [Hinv Hent Hpend _] Hid He Hst Hr Hres Hb Hb'. split; [done|..].
  - intros id' x [[<- <-]|[Hne Hx]]%lookup_insert_Some.
    + destruct (Hent _ _ Hid) as (? & ? & ? & _ & _). unfold entry_ok. by rewrite He.
    + destruct (Hent _ _ Hx) as (? & ? & ? & Hres' & ?). split_and!; try done. rewrite Hres'.
      rewrite !bool_decide_eq_false_2; [done|..]; destruct Hb, Hb'; congruence.
  - intros id' e H. destruct (Hpend _ _ H) as (x & Hx & Hsh).
    destruct (decide (id = id')) as [<-|]; [|exists x; by rewrite lookup_insert_ne].
    rewrite Hid in Hx. injection Hx as <-. exists entry'. rewrite lookup_insert_eq.
    unfold shows in *. by rewrite He, Hst.
  - intros id' Hb2. exists entry'. destruct Hb'; [congruence|]. replace id' with id by congruence.
    by rewrite lookup_insert_eq.
Qed.

Lemma follows_delete s r id :
  Follows K (Some id) s r → st_PendingEffects s !! id = None → Follows K None s (delete id r).
Proof.
  intros [Hinv Hent Hpend _] Hid. split; [done|..|done].
  - intros id' x [Hne Hx]%lookup_delete_Some. destruct (Hent _ _ Hx) as (? & ? & ? & Hr & ?).
    split_and!; try done. rewrite Hr. rewrite bool_decide_eq_false_2 by congruence. done.
  - intros id' e He. destruct (Hpend _ _ He) as (x & Hx & ?). exists x.
    rewrite lookup_delete_ne by congruence. done.
Qed.

(** The entry of [id] retains [result]. *)
Definition retains (id : string) (result : Command) (w : W) : Prop :=
  ∃ entry, routed w !! id = Some entry ∧ rt_result entry = Some result.

Lemma within_claim id command x :
  resultEffectID command = id → (command_requests command ≤ K)%nat →
  within 0 (λ w, routes None w ∧ routed w !! id = x) (claim_result id command) (λ o w,
    match o with
    | Val result =>
        routes (Some id) w ∧ resultEffectID result = id ∧ (command_requests result ≤ K)%nat ∧
        retains id result w ∧ ∃ entry, x = Some entry ∧ result = default command (rt_result entry)
    | _ => routes None w ∧ ∀ entry, x = Some entry →
             rt_started entry = false ∧ resolves_unstarted command entry = false
    end).
Proof.
  intros Hc Hr [co store [l r]] [[Hl Hf] Hx] Hs. cbn in Hl, Hf, Hs, Hx. subst l.
  unfold claim_result, locked, set_locked, update_entry, set_routed, with_dispatcher, routed.
  cbn [w_coordinator w_store w_dispatcher dd_locked dd_routed].
  rewrite Hx. destruct x as [entry|];
    [|do 2 eexists; split; [reflexivity|]; unfold Routes, routed; cbn; split_and!; (done || lia)].
  rename Hx into Hid. destruct (_ && _) eqn:Hu.
  { do 2 eexists; split; [reflexivity|]; unfold Routes, routed; cbn; split_and!; [done|lia|done|done|].
    intros entry' [= <-]. apply andb_true_iff in Hu as (?%negb_true_iff & ?%negb_true_iff). done. }
  destruct (fo_entries _ _ _ _ Hf _ _ Hid) as (_ & _ & _ & Hres & Hret).
  rewrite bool_decide_eq_false_2 in Hres by done. rewrite Hres.
  set (result := default command (rt_result entry)).
  assert (resultEffectID result = id ∧ (command_requests result ≤ K)%nat) as [H1 H2]
    by (unfold result; destruct (rt_result entry) as [y|]; [by apply Hret|done]).
  do 2 eexists. split; [reflexivity|]. unfold Routes, routed, retains. cbn.
  rewrite (alter_Some _ _ _ _ Hid), (alter_Some _ _ _ _ (lookup_insert_eq _ _ _)), insert_insert_eq.
  rewrite lookup_insert_eq. split_and!; try done; [lia| |by eexists|by eexists].
  eapply (follows_set None (Some id)); try done; [| |by left|by right].
  - by rewrite bool_decide_eq_true_2.
  - by intros c [= <-].
Qed.

(** What a resolution leaves of the entry: a settled effect is gone and completed, a
    failed journal operation is requested again, and a refused result is retained. *)
Definition resolution (id : string) (result : Command) (o : outcome unit) (w : W) : Prop :=
  match o, result with
  | Val _, JournalResultReceived _ _ (String _ _ as message) =>
      ∃ entry, routed w !! id = Some entry ∧ rt_result entry = None ∧ rt_started entry = false ∧
        ef_Status (rt_effect entry) = EffectRequested ∧ ef_Error (rt_effect entry) = message
  | Val _, _ => routed w !! id = None ∧ is_Some (st_CompletedEffects (state_of w) !! id)
  | _, _ => retains id result w
  end.

(** The submission of a claimed result and the critical section after it. *)
Definition finish_result (id : string) (result : Command) : Prog W unit := λ w,
  match submit result w with
  | (Val _, w) => settle_result id result w
  | (Fail e, w) => locked (λ w, (Fail e, update_entry id (set_rt_resolving false) w)) w
  | (Blocked, w) => (Blocked, w)
  | (OutOfFuel, w) => (OutOfFuel, w)
  end.

(** A refused result: the entry stays, and may be resolved again. *)
Lemma release_refused id result e co store r entry :
  Follows K (Some id) (co_state co) r → r !! id = Some entry → rt_result entry = Some result →
  let w' := mkWorld co store
              (mkDurableEffectDispatcher false (<[id := set_rt_resolving false entry]> r)) in
  locked (λ w, (Fail e, update_entry id (set_rt_resolving false) w))
    (mkWorld co store (mkDurableEffectDispatcher false r)) = (Fail e : outcome unit, w') ∧
  routes None w' ∧ retains id result w'.
Proof.
  intros Hf Hid Hr. unfold locked, set_locked, update_entry, set_routed, with_dispatcher, routed.
  cbn [w_coordinator w_store w_dispatcher dd_locked dd_routed].
  rewrite (alter_Some _ _ _ _ Hid). split; [done|]. unfold Routes, retains, routed. cbn.
  rewrite lookup_insert_eq. split_and!; [done| |by eexists].
  apply (follows_set (Some id) None _ _ _ entry); try done; [|by right|by left].
  by destruct (fo_entries _ _ _ _ Hf _ _ Hid) as (_ & _ & _ & _ & ?).
Qed.

(** A settled effect leaves the registry. *)
Lemma release_settled id co store r :
  Follows K (Some id) (co_state co) r → is_Some (st_CompletedEffects (co_state co) !! id) →
  let w' := mkWorld co store (mkDurableEffectDispatcher false (delete id r)) in
  routes None w' ∧ routed w' !! id = None ∧ is_Some (st_CompletedEffects (state_of w') !! id).
Proof.
  intros Hf [x Hx] w'. unfold w', Routes, routed. cbn. rewrite lookup_delete_eq.
  split_and!; [done| |done|by eexists]. apply follows_delete; [done|].
  destruct (st_PendingEffects (co_state co) !! id) as [e|] eqn:He; [exfalso|done].
  exact (proj1 (map_disjoint_spec _ _) (EffectLedger.inv_disjoint _ (fo_ledger _ _ _ _ Hf)) id e x He Hx).
Qed.

(** A failed journal operation is requested again. *)
Lemma finish_journal id status message co store r entry :
  message ≠ "" → Follows K (Some id) (co_state co) r → r !! id = Some entry →
  rt_result entry = Some (JournalResultReceived id status message) →
  st_NextEffectSequence (co_state co) + Z.of_nat (1 * K) < 2 ^ 64 →
  ∃ o w', finish_result id (JournalResultReceived id status message)
            (mkWorld co store (mkDurableEffectDispatcher false r)) = (o, w') ∧ ends o ∧
    seq_of w' = st_NextEffectSequence (co_state co) ∧ routes None w' ∧
    resolution id (JournalResultReceived id status message) o w'.
Proof.
  intros Hm Hf Hid Hr Hs. set (result := JournalResultReceived id status message) in *.
  set (f := λ e, e |> set_ef_Status EffectRequested |> set_ef_Error message).
  set (entry1 := entry |> set_rt_result None |> set_rt_started false
                       |> set_rt_effect (f (rt_effect entry))).
  assert (Hc : rewrite_of result = Some (id, f)) by (cbn; by rewrite (proj2 (String.eqb_neq _ _) Hm)).
  unfold finish_result.
  destruct (within_rewrite (Some id) result id f co store r entry entry1 false Hc Hf Hid Hs) with (m := r)
    as [(e & store' & ->)|(co' & store' & -> & Hs' & Hf')]; try done.
  - intros e [<- _]. done.
  - by right.
  - destruct (release_refused id result e co store' r entry Hf Hid Hr) as (-> & ? & ?). by do 2 eexists.
  - unfold settle_result, locked, set_locked, update_entry, set_routed, with_dispatcher, routed.
    cbn [w_coordinator w_store w_dispatcher dd_locked dd_routed]. unfold result.
    rewrite (proj2 (String.eqb_neq _ _) Hm).
    rewrite (alter_Some _ _ _ _ Hid), (alter_Some _ _ _ _ (lookup_insert_eq _ _ _)), insert_insert_eq.
    do 2 eexists. split; [reflexivity|]. unfold Routes, routed. cbn.
    split_and!; [done|done|done| |].
    + rewrite <- (insert_insert_eq r id _ entry1).
      apply (follows_set (Some id) None _ _ _ entry1); try done; [by rewrite lookup_insert_eq|by right|by left].
    + destruct message; [done|]. eexists. by rewrite lookup_insert_eq.
Qed.

Lemma within_finish id result :
  resultEffectID result = id → id ≠ "" → (command_requests result ≤ K)%nat →
  within 1 (λ w, routes (Some id) w ∧ retains id result w) (finish_result id result)
    (λ o w, routes None w ∧ resolution id result o w).
Proof.
  intros Hid Hne Hk [co store [l r]] [[Hl Hf] (entry & He & Hr)] Hs. cbn in Hl, Hf, He. subst l.
  destruct (rewrite_of result) as [[id' f]|] eqn:Hc.
  - destruct result; try discriminate Hc; cbn in Hid; try (by destruct Hne). subst EffectID.
    cbn in Hc. destruct (Error == "") eqn:Hm; [done|]. apply String.eqb_neq in Hm.
    destruct (finish_journal id Status Error co store r entry) as (o & w' & ? & ? & ? & ? & ?);
      try done. exists o, w'. split_and!; try done. cbn in *. lia.
  - unfold finish_result.
    set (w := mkWorld co store (mkDurableEffectDispatcher false r)).
    destruct (within_submit (Some id) result None (w_dispatcher w) Hc Hk w) as
      (o & [co' store' d'] & E & Ho & Hs' & [Hl' Hf'] & HQ); [done|done|].
    cbn in Hl', Hf', HQ. unfold Submit. rewrite E. destruct o as [[]|e| |]; try done.
    + destruct d' as [l' r']. cbn in Hl', Hf'. subst l'. destruct HQ as (s0 & t & Ht & Hst).
      assert (Hcomp : is_Some (st_CompletedEffects (co_state co') !! id)).
      { cbn in Hst. rewrite Hst, <- Hid. by eapply result_completes; [exact Ht|rewrite Hid|]. }
      destruct (release_settled id co' store' r' Hf' Hcomp) as (HR & Hgone & Hc').
      eexists (Val tt), (mkWorld co' store' (mkDurableEffectDispatcher false (delete id r'))).
      split; [|split_and!; [done|done|done|]].
      * unfold settle_result, locked, set_locked, update_entry, set_routed, with_dispatcher, routed.
        cbn [w_coordinator w_store w_dispatcher dd_locked dd_routed]. rewrite delete_alter_eq.
        destruct result; try done. cbn in Hc. by destruct (Error == "").
      * destruct result; try done. cbn in Hc. destruct Error; done.
    + subst d'. destruct (release_refused id result e co' store' r entry Hf' He Hr) as (-> & ? & ?).
      do 2 eexists. split; [reflexivity|]. done.
Qed.
(** Resolving an effect: the claimed result decides what is left. *)
Lemma within_resolve command x :
  (command_requests command ≤ K)%nat →
  within 1 (λ w, routes None w ∧ routed w !! resultEffectID command = x) (Resolve submit command)
    (λ o w, routes None w ∧ ∀ entry, x = Some entry → resultEffectID command ≠ "" →
       rt_started entry = true ∨ resolves_unstarted command entry = true →
       resolution (resultEffectID command) (default command (rt_result entry)) o w).
Proof.
  intros Hk. unfold Resolve, ResolveWith. set (id := resultEffectID command).
  destruct (id == "") eqn:Hne.
  { apply String.eqb_eq in Hne. apply within_fail. intros w [Hw _]. split; [done|]. by intros. }
  apply String.eqb_neq in Hne.
  apply (within_bind 0 1 _ _ _ _ _ (within_claim id command x eq_refl Hk)).
  - intros result w (HR & Hid & Hk' & Hret & entry & -> & Hdef) Hs.
    destruct (within_finish id result Hid Hne Hk' w (conj HR Hret) Hs) as (o & w' & E & ? & ? & ? & ?).
    exists o, w'. split_and!; try done. intros entry' [= <-] _ _. by rewrite <- Hdef.
  - intros e w (HR & Hx). split; [done|]. intros entry He _ Hst.
    destruct (Hx _ He) as [H1 H2]. destruct Hst; congruence.
Qed.

(** ** Aborting *)

Lemma PendingRouted_Val kind (w : W) :
  dd_locked (w_dispatcher w) = false →
  ∃ l, PendingRouted kind w = (Val l, w) ∧ (length l ≤ size (routed w))%nat ∧
       ∀ e, e ∈ l → ∃ id entry, routed w !! id = Some entry ∧ rt_effect entry = e ∧
                      (kind = EffectNone ∨ ef_Kind e = kind).
Proof.
  destruct w as [co store [l r]]. cbn. intros ->. eexists. split; [reflexivity|]. cbn. split.
  - etransitivity; [apply length_filter|]. etransitivity; [apply omap_length|].
    unfold sorted_ids, routed. cbn. rewrite sort_strings_Permutation.
    by rewrite length_fmap, length_map_to_list.
  - intros e (Hk & He)%list_elem_of_filter. apply list_elem_of_omap in He as (id & _ & He).
    apply fmap_Some in He as (entry & He & ->). unfold routed in He. cbn in He. eauto 6.
Qed.

Lemma within_abort_effect kind callID reason e :
  within 2 (routes None) (abort_effect submit kind callID reason e) (λ _, routes None).
Proof.
  unfold abort_effect. destruct (_ && _); [by apply within_ret|].
  apply (within_bind 1 1 _ _ _ (λ _, routes None)); [|intros _|done].
  - case_bool_decide; [|by apply within_ret].
    apply (within_bind 1 0 _ _ _ (λ _, routes None)); [apply within_start|intros _; by apply within_ret|done].
  - intros w Hw Hs. destruct (within_resolve (EffectResultReceived (ef_ID e) false reason) _ HK w
      (conj Hw eq_refl) Hs) as (o & w' & ? & ? & ? & ? & _). exists o, w'. done.
Qed.

Lemma abort_ends kind callID reason w :
  routes None w → seq_of w + Z.of_nat (2 * size (routed w) * K) < 2 ^ 64 →
  ∃ o w', AbortEffects submit kind callID reason w = (o, w') ∧ ends o ∧ routes None w'.
Proof.
  intros Hw Hs. unfold AbortEffects. destruct (reason == ""); [by do 2 eexists|].
  destruct (PendingRouted_Val kind w) as (l & Hl & Hlen & _); [apply Hw|].
  unfold bind. rewrite Hl.
  assert (Hf : within (2 * length l) (routes None) (forP (abort_effect submit kind callID reason) l)
                 (λ _, routes None)).
  { clear -HK. induction l as [|e l IH]; cbn [forP length]; [by apply within_ret|].
    replace (2 * S (length l))%nat with (2 + 2 * length l)%nat by lia.
    apply (within_bind 2 (2 * length l) _ _ _ (λ _, routes None)); [apply within_abort_effect|done|done]. }
  destruct (Hf w Hw) as (o & w' & ? & ? & _ & ?); [|by exists o, w'].
  assert (2 * length l * K ≤ 2 * size (routed w) * K)%nat by (apply Nat.mul_le_mono_r; lia). lia.
Qed.

(** ** All calls *)

(** What the runtime calls; the values a call returns do not matter here. *)
Inductive call :=
  | CallSubmit (c : Command) (commit : option (DomainFactCommit St))
  | CallRouted (kind : EffectKind) (callID : string)
  | CallPending (kind : EffectKind)
  | CallStart (kind : EffectKind) (callID : string)
  | CallRetry (kind : EffectKind) (callID : string) (c : ProviderRetry)
  | CallRequeue (kind : EffectKind) (callID : string)
  | CallResolve (c : Command)
  | CallAbort (kind : EffectKind) (callID reason : string).

Definition void {A} (m : Prog W A) : Prog W unit := bind m (λ _, ret tt).

Definition perform (c : call) : Prog W unit :=
  match c with
  | CallSubmit c commit => submit_with c commit
  | CallRouted kind callID => void (Routed kind callID)
  | CallPending kind => void (PendingRouted kind)
  | CallStart kind callID => void (Start submit kind callID)
  | CallRetry kind callID c => ScheduleRetry submit kind callID c
  | CallRequeue kind callID => Requeue submit kind callID
  | CallResolve c => Resolve submit c
  | CallAbort kind callID reason => AbortEffects submit kind callID reason
  end.

(** Effects are started and retried through the dispatcher, and a command requests
    at most [K] of them. *)
Definition legal (c : call) : Prop :=
  match c with
  | CallSubmit c _ => rewrite_of c = None ∧ (command_requests c ≤ K)%nat
  | CallResolve c => (command_requests c ≤ K)%nat
  | _ => True
  end.

(** Commands a call may submit. *)
Definition cost (c : call) (w : W) : nat :=
  match c with CallAbort _ _ _ => 2 * size (routed w) | _ => 1 end.

Definition room (c : call) (w : W) : Prop := seq_of w + Z.of_nat (cost c w * K) < 2 ^ 64.

#[export] Instance room_dec c w : Decision (room c w).
Proof. unfold room. exact _. Defined.

(** Legal calls, one after the other. *)
Inductive calls : list call → W → W → Prop :=
  | calls_nil w : calls [] w w
  | calls_cons c cs w o w1 w2 :
      legal c → room c w → perform c w = (o, w1) → calls cs w1 w2 → calls (c :: cs) w w2.

Lemma perform_ends c w :
  routes None w → legal c → room c w →
  ∃ o w', perform c w = (o, w') ∧ ends o ∧ routes None w'.
Proof.
  assert (Hv : ∀ A (m : Prog W A), within 1 (routes None) m (λ _, routes None) →
            within 1 (routes None) (void m) (λ _, routes None)).
  { intros A m Hm. by apply (within_bind 1 0 _ m _ (λ _, routes None));
      [|intros _; apply within_ret|]. }
  assert (Hw : ∀ m : Prog W unit, within 1 (routes None) m (λ _, routes None) → routes None w →
            room (CallPending EffectNone) w → ∃ o w', m w = (o, w') ∧ ends o ∧ routes None w').
  { intros m Hm Hr Hs. destruct (Hm w Hr Hs) as (o & w' & ? & ? & _ & ?). by exists o, w'. }
  intros HR Hl Hs. destruct c as [c commit|kind id|kind|kind id|kind id c|kind id|c|kind id reason];
    cbn [perform].
  - destruct Hl as [Hc Hk]. destruct (within_submit None c commit _ Hc Hk w (conj HR eq_refl) Hs)
      as (o & w' & ? & ? & _ & ? & _). by exists o, w'.
  - by apply Hw; [apply Hv, within_routed|..].
  - destruct (PendingRouted_Val kind w) as (l & Hl' & _); [apply HR|].
    unfold void, bind. rewrite Hl'. by do 2 eexists.
  - by apply Hw; [apply Hv, within_start|..].
  - by apply Hw; [apply within_retry|..].
  - by apply Hw; [apply within_requeue|..].
  - destruct (within_resolve c _ Hl w (conj HR eq_refl) Hs) as (o & w' & ? & ? & _ & ? & _).
    by exists o, w'.
  - by apply abort_ends.
Qed.

Lemma calls_routes cs w w' : calls cs w w' → routes None w → routes None w'.
Proof.
  induction 1 as [|c cs w o w1 w2 Hl Hr Hp _ IH]; [done|]. intros HR. apply IH.
  destruct (perform_ends c w HR Hl Hr) as (o' & w' & Hp' & _ & HR'). congruence.
Qed.
End Calls.
