(* ===== verification/Restart.v ===== *)
(** A restart: the restored coordinator puts the running effects back to requested and
    routes every pending effect once. *)
From S2P Require Import Prelude.
From S2P Require Import GoStrings.
From S2P Require Import TurnState.
From S2P Require Import Invariants.
From S2P Require Import Command.
From S2P Require Import Effects.
From S2P Require Import Validity.
From S2P Require Import TurnSpec.
From S2P Require Import Reducer.
From S2P Require Import Kernel.
From S2P Require Import DomainFacts.
From S2P Require Import Coordinator.
From S2P Require Import Dispatcher.
From S2P Require Import Issued.
From S2P Require Import Routing.

Section Restart.
Context {St : Type} `{!DomainFactStore St}.
Context (marshal : State → res error string) (fuel : nat).
Notation W := (RoutedWorld St).
Notation submit := (Submit marshal (S fuel) : Command → Prog W unit).
Notation state_of w := (co_state (w_coordinator w)).

(** A pending effect after the restart. *)
Definition requested : Effect → Effect := set_ef_Status EffectRequested.

Lemma requested_id e : ef_Status e = EffectRequested → requested e = e.
Proof. destruct e. cbn. by intros ->. Qed.

(** The first loop, after the identities of [done]. *)
Record Requeued (P : gmap string Effect) (finished : list string) (s s' : State) : Prop := {
  rq_ledger : EffectLedger.Inv (EffectLedger.of_state s');
  rq_seq : st_NextEffectSequence s' = st_NextEffectSequence s;
  rq_pending id : st_PendingEffects s' !! id =
    if decide (id ∈ finished) then requested <$> P !! id else P !! id;
}.

Lemma requeue_loop s ids finished (w : W) :
  st_NextEffectSequence s + 1 < 2 ^ 64 → NoDup (finished ++ ids) →
  Requeued (st_PendingEffects s) finished s (state_of w) →
  ∃ o w', forP (requeue_running marshal (S fuel) s) ids w = (o, w') ∧
    w_dispatcher w' = w_dispatcher w ∧
    ((∃ e, o = Fail e) ∨
     o = Val tt ∧ Requeued (st_PendingEffects s) (finished ++ ids) s (state_of w')).
Proof.
  intros Hs. revert finished w. induction ids as [|id ids IH]; intros finished w Hnd Hw; cbn [forP].
  { do 2 eexists. split; [reflexivity|]. split; [done|]. right. by rewrite app_nil_r. }
  assert (Hid : id ∉ finished) by (apply NoDup_app in Hnd as (_ & H & _); intros Hin; apply (H _ Hin); by left).
  replace (finished ++ id :: ids) with ((finished ++ [id]) ++ ids) in * by by rewrite <- app_assoc.
  destruct Hw as [Hinv Hseq Hp]. pose proof (Hp id) as Hpid. rewrite decide_False in Hpid by done.
  assert (Hdone : ∀ s', EffectLedger.Inv (EffectLedger.of_state s') →
    st_NextEffectSequence s' = st_NextEffectSequence s →
    st_PendingEffects s' !! id = requested <$> st_PendingEffects s !! id →
    (∀ id', id ≠ id' → st_PendingEffects s' !! id' = st_PendingEffects (state_of w) !! id') →
    Requeued (st_PendingEffects s) (finished ++ [id]) s s').
  { intros s' Hi' Hs' Hp' Hne. split; [done|done|]. intros id'. destruct (decide (id = id')) as [<-|].
    - rewrite decide_True by set_solver. done.
    - rewrite Hne, Hp by done. repeat case_decide; set_solver. }
  unfold bind, requeue_running at 1. destruct (st_PendingEffects s !! id) as [e|] eqn:He.
  - case_bool_decide as Hst.
    + unfold Submit. destruct (submit_rewrites marshal fuel (EffectRequeued id) id _ w eq_refl)
        as [(e' & store & E)|(t & c' & store & Ht & Hco & E)]; unfold Submit in E; rewrite E.
      { do 2 eexists. split; [reflexivity|]. split; [done|]. left. eauto. }
      destruct (Apply_rewrites _ _ _ _ _ Ht eq_refl) as (_ & Hseq' & _ & e' & He' & Hp').
      destruct (Apply_issues _ _ _ Ht ltac:(cbn; lia) Hinv) as (Hinv' & _).
      apply (IH _ (mkWorld c' store (w_dispatcher w))); [done|]. cbn. rewrite Hco. rewrite Hpid in He'. injection He' as <-.
      apply Hdone; [done|lia|by rewrite Hp', lookup_insert_eq|].
      intros id' Hne. by rewrite Hp', lookup_insert_ne.
    + apply IH; [done|]. apply Hdone; [done|done| |done]. rewrite Hpid. cbn. f_equal. symmetry.
      apply requested_id. destruct (EffectLedger.inv_pending _ Hinv id e Hpid) as (_ & _ & [?|?]); done.
  - apply IH; [done|]. by apply Hdone.
Qed.

(** The second loop: what it routes when it succeeds. *)
Lemma redispatch_loop s ids c store r (w' : W) :
  (∀ id e, st_PendingEffects s !! id = Some e → ef_ID e = id) → NoDup ids →
  (∀ id, id ∈ ids → r !! id = None) →
  forP (redispatch marshal (S fuel) s) ids (mkWorld c store (mkDurableEffectDispatcher false r))
    = (Val tt, w') →
  ∃ r', w' = mkWorld c store (mkDurableEffectDispatcher false r') ∧
    (∀ id e, id ∈ ids → st_PendingEffects s !! id = Some e → RoutedEffect (ef_Kind e) = true) ∧
    ∀ id, r' !! id = if decide (id ∈ ids)
                     then (λ e, mkRoutedEffect e false None false) <$> st_PendingEffects s !! id
                     else r !! id.
Proof.
  intros Hk. revert r. induction ids as [|id ids IH]; intros r Hnd Hr H; cbn [forP] in H.
  { injection H as <-. exists r. split_and!; [done| |done]. by intros id e ?%elem_of_nil. }
  apply NoDup_cons in Hnd as [Hid Hnd]. unfold bind, redispatch at 1 in H.
  destruct (st_PendingEffects s !! id) as [e|] eqn:He.
  - unfold Dispatch, durable_dispatch in H. destruct (RoutedEffect (ef_Kind e)) eqn:Hroute; [|done].
    unfold locked, set_locked, set_routed, with_dispatcher, routed in H.
    cbn [w_coordinator w_store w_dispatcher dd_locked dd_routed] in H.
    rewrite (Hk _ _ He), (Hr id) in H by by left. cbn in H.
    destruct (IH (<[id := mkRoutedEffect e false None false]> r)) as (r' & -> & Hkinds & Hr'); [done| |exact H|].
    { intros id' Hin. rewrite lookup_insert_ne; [apply Hr; by right|congruence]. }
    exists r'. split_and!; [done| |].
    + intros id' e' [->|Hin]%elem_of_cons He'; [by simplify_eq|eauto].
    + intros id'. rewrite Hr'. destruct (decide (id = id')) as [<-|Hne].
      * rewrite decide_False, decide_True, lookup_insert_eq, He by (done || by left). done.
      * rewrite lookup_insert_ne by done. repeat case_decide; set_solver.
  - cbn in H. destruct (IH r) as (r' & -> & Hkinds & Hr'); [done| |exact H|].
    { intros id' Hin. apply Hr. by right. }
    exists r'. split_and!; [done| |].
    + intros id' e' [->|Hin]%elem_of_cons He'; [congruence|eauto].
    + intros id'. rewrite Hr'. destruct (decide (id = id')) as [<-|Hne].
      * rewrite decide_False, decide_True, He, Hr by (done || by left). done.
      * repeat case_decide; set_solver.
Qed.

Lemma sortedEffectIDs_NoDup (P : gmap string Effect) : NoDup (sortedEffectIDs P).
Proof. unfold sortedEffectIDs. rewrite sort_strings_Permutation. apply NoDup_fst_map_to_list. Qed.

Lemma elem_of_sortedEffectIDs (P : gmap string Effect) id :
  id ∈ sortedEffectIDs P ↔ is_Some (P !! id).
Proof.
  unfold sortedEffectIDs. rewrite elem_of_sort_strings, list_elem_of_fmap. split.
  - intros ([i x] & -> & H%elem_of_map_to_list). eauto.
  - intros [x H]. exists (id, x). by rewrite elem_of_map_to_list.
Qed.

(** A resume ends; when it succeeds, every stored pending effect is requested and
    routed, unstarted, and the registry holds nothing else. *)
Lemma resume_cases K s c store :
  co_state c = s → st_NextEffectSequence s + 1 < 2 ^ 64 →
  EffectLedger.Inv (EffectLedger.of_state s) →
  ∃ o w', resume marshal (S fuel) s (mkWorld c store NewDurableEffectDispatcher) = (o, w') ∧
    (o = Val tt →
     Routes K None w' ∧ st_PendingEffects (state_of w') = requested <$> st_PendingEffects s ∧
     routed w' = (λ e, mkRoutedEffect (requested e) false None false) <$> st_PendingEffects s).
Proof.
  intros Hc Hs Hinv. unfold resume, bind.
  destruct (requeue_loop s (sortedEffectIDs (st_PendingEffects s)) []
    (mkWorld c store NewDurableEffectDispatcher)) as (o & [c1 store1 d1] & -> & Hd & [[e ->]|[-> Hq]]).
  - done.
  - apply sortedEffectIDs_NoDup.
  - cbn. rewrite Hc. split; [done|done|]. intros id. by rewrite decide_False by apply not_elem_of_nil.
  - by do 2 eexists.
  - cbn in Hd, Hq. subst d1. destruct Hq as [Hinv' Hseq Hp]. cbn [w_coordinator w_store w_dispatcher].
    assert (Hp' : st_PendingEffects (co_state c1) = requested <$> st_PendingEffects s).
    { apply map_eq. intros id. rewrite Hp, lookup_fmap. case_decide as Hin; [done|].
      rewrite elem_of_sortedEffectIDs in Hin. by destruct (st_PendingEffects s !! id); [destruct Hin|]. }
    destruct (forP _ _ _) as [o w'] eqn:E. exists o, w'. split; [done|]. intros ->.
    destruct (redispatch_loop _ _ _ _ ∅ _ (λ id e He, proj1 (EffectLedger.inv_pending _ Hinv' id e He))
      (sortedEffectIDs_NoDup _) (λ id _, lookup_empty id) E) as (r & -> & Hk & Hr).
    assert (Hr' : r = (λ e, mkRoutedEffect (requested e) false None false) <$> st_PendingEffects s).
    { apply map_eq. intros id. rewrite Hr, Hp', !lookup_fmap. case_decide as Hin.
      - by destruct (st_PendingEffects s !! id).
      - rewrite lookup_empty. destruct (st_PendingEffects s !! id) as [e|] eqn:He; [|done].
        destruct Hin. apply elem_of_sortedEffectIDs. exists (requested e).
        by rewrite lookup_fmap, He. }
    unfold routed. cbn. split_and!; [|done|done]. split; [done|]. cbn. split; [done|..|done].
    + intros id x Hx. subst r. unfold routed in Hx. cbn in Hx.
      rewrite lookup_fmap in Hx. apply fmap_Some in Hx as (e & He & ->).
      assert (He' : st_PendingEffects (co_state c1) !! id = Some (requested e))
        by by rewrite Hp', lookup_fmap, He.
      unfold entry_ok. cbn. split_and!; try done.
      * apply (EffectLedger.inv_pending _ Hinv' id _ He').
      * apply (Hk id (requested e)); [|done]. apply elem_of_sortedEffectIDs. eauto.
      * left. cbn. eauto.
    + intros id e He. rewrite Hp', lookup_fmap in He. apply fmap_Some in He as (e0 & He & ->).
      exists (mkRoutedEffect (requested e0) false None false). unfold routed. cbn.
      by rewrite Hr', lookup_fmap, He.
Qed.
End Restart.
