(* ===== verification/Durability.v ===== *)
(** What the coordinator makes durable: the stored facts are the history of the
    kernel's run, a restore resumes the committed state, and histories survive any
    interleaving of submissions, failures, crashes and restarts. *)
From S2P Require Import Prelude.
From S2P Require Import GoStrings.
From S2P Require Import Sha256.
From S2P Require Import TurnState.
From S2P Require Import Invariants.
From S2P Require Import Command.
From S2P Require Import Effects.
From S2P Require Import Validity.
From S2P Require Import Reducer.
From S2P Require Import Kernel.
From S2P Require Import Runs.
From S2P Require Import Sharing.
From S2P Require Import DomainFacts.
From S2P Require Import Coordinator.

Section Durability.
Context {St D : Type} `{!DomainFactStore St} `{!DomainFactStoreLaws St}.
Context `{!EffectDispatcher St D} `{!EffectDispatcherLaws St D}.
Context (marshal : State → res error string).
Notation W := (World St D).

(** ** Histories *)

(** What happens to the coordinator's state: a command is accepted, or refused (by the
    kernel, or because its facts were not persisted). *)
Inductive happening :=
  | Accepted (c : Command)
  | Refused (c : Command).

Definition accepted (log : list happening) : list Command :=
  omap (λ h, match h with Accepted c => Some c | Refused _ => None end) log.

(** No observation of progress was refused. *)
Definition observation (c : Command) : bool :=
  match c with ObserveProgress _ _ _ _ => true | _ => false end.
Definition undisturbed (log : list happening) : Prop := ∀ c, Refused c ∈ log → observation c = false.

(** [History turnID s0 facts s log]: the facts record, command by command, the accepted
    commands of the log, from [s0] to [s]; a refused one leaves only what it
    remembered. *)
Inductive History (turnID : string) (s0 : State) :
    list DomainFact → State → list happening → Prop :=
  | history_start : History turnID s0 [] s0 []
  | history_step facts s log c t data :
      History turnID s0 facts s log → Apply s c = Ok t → marshal (tn_State t) = Ok data →
      History turnID s0
        (facts ++ transition_facts turnID (u64 (Z.of_nat (length facts) + 1)) c
                    (sha256_digest data) t)
        (tn_State t) (log ++ [Accepted c])
  | history_refused facts s log c :
      History turnID s0 facts s log →
      History turnID s0 facts (caller_after s c) (log ++ [Refused c]).

Lemma accepted_app l l' : accepted (l ++ l') = accepted l ++ accepted l'.
Proof. apply omap_app. Qed.

Lemma history_run turnID s0 facts s log :
  History turnID s0 facts s log → undisturbed log → run s0 (accepted log) = Ok s.
Proof.
  induction 1 as [|facts s log c t data _ IH Ht Hm|facts s log c _ IH]; intros Hq; [done|..];
    rewrite accepted_app; cbn.
  - apply run_app. exists s. split; [|apply run_cons; by exists t].
    apply IH. intros c' Hc'. apply Hq, elem_of_app. by left.
  - rewrite app_nil_r. rewrite IH by (intros c' Hc'; apply Hq, elem_of_app; by left).
    assert (Hc : observation c = false) by (apply Hq, elem_of_app; right; by left). by destruct c.
Qed.

Lemma transition_facts_ne turnID next c d t : transition_facts turnID next c d t ≠ [].
Proof. unfold transition_facts. by destruct (tn_Events t). Qed.

Lemma transition_facts_lookup turnID next c d t i f :
  is_u64 next → transition_facts turnID next c d t !! i = Some f →
  df_TurnID f = turnID ∧ df_Sequence f = u64 (next + Z.of_nat i) ∧
  df_Command f = commandName c ∧ df_State f = tn_State t ∧ df_StateDigest f = d.
Proof.
  unfold transition_facts. intros Hn. destruct (tn_Events t) as [|e es].
  - destruct i as [|i]; [|done]. intros [= <-]. cbn. by rewrite Z.add_0_r, u64_small.
  - rewrite list_lookup_imap. intros (e' & _ & ->)%fmap_Some. done.
Qed.

Lemma transition_facts_chain turnID n c t data :
  Valid (tn_State t) → marshal (tn_State t) = Ok data →
  Chain marshal turnID (n + 1) (transition_facts turnID (u64 (n + 1)) c (sha256_digest data) t).
Proof.
  intros Hv Hm i f (Ht & Hs & _ & Hst & Hd)%transition_facts_lookup; [|apply u64_range].
  split_and!; [done| |by rewrite Hst|].
  - rewrite Hs. unfold u64. by rewrite Zplus_mod_idemp_l.
  - exists data. by rewrite Hst.
Qed.

(** A history is a chain from sequence 1 whose tail is the last published state. *)
Lemma history_chain turnID s0 facts s log :
  History turnID s0 facts s log → Chain marshal turnID 1 facts.
Proof.
  induction 1 as [|facts s log c t data _ IH Ht Hm|]; [by intros i f| |done].
  apply Chain_app. split; [done|]. rewrite Z.add_comm.
  apply transition_facts_chain; [|done]. by apply Apply_Ok in Ht as (_ & _ & _ & ?).
Qed.

Lemma transition_facts_last turnID n c d t :
  ∃ f, last (transition_facts turnID (u64 n) c d t) = Some f ∧ df_State f = tn_State t ∧
       df_StateDigest f = d.
Proof.
  destruct (exists_last (transition_facts_ne turnID (u64 n) c d t)) as (l & f & Hl).
  exists f. rewrite Hl, last_snoc. split; [done|].
  destruct (transition_facts_lookup turnID (u64 n) c d t (length l) f) as (_ & _ & _ & ? & ?);
    [apply u64_range|by rewrite Hl, lookup_app_r, Nat.sub_diag by lia|done].
Qed.

(** The history up to the last published state. *)
Lemma history_tail turnID s0 facts s log :
  History turnID s0 facts s log → facts ≠ [] →
  ∃ tail data log', last facts = Some tail ∧ History turnID s0 facts (df_State tail) log' ∧
    alike (df_State tail) s ∧ marshal (df_State tail) = Ok data ∧
    df_StateDigest tail = sha256_digest data.
Proof.
  induction 1 as [|facts s log c t data H _ Ht Hm|facts s log c H IH]; intros Hne; [done|..].
  - destruct (transition_facts_last turnID (Z.of_nat (length facts) + 1) c (sha256_digest data) t)
      as (f & Hf & Hs & Hd).
    exists f, data, (log ++ [Accepted c]). rewrite last_app, Hf, Hs, Hd.
    split_and!; [done|by eapply history_step|done|done|done].
  - destruct (IH Hne) as (tail & data & log' & ? & ? & Ha & ? & ?). exists tail, data, log'.
    split_and!; try done. etransitivity; [exact Ha|apply caller_after_alike].
Qed.

(** Every fact of a history names its command and carries a digest. *)
Lemma transition_facts_named turnID next c d t :
  d ≠ "" → Forall (λ f, df_Command f ≠ "" ∧ df_StateDigest f ≠ "")
             (transition_facts turnID next c d t).
Proof.
  intros Hd. assert (Hc : commandName c ≠ "") by by destruct c.
  unfold transition_facts. destruct (tn_Events t) as [|e es]; [by repeat constructor|].
  apply Forall_lookup. intros i f Hf. rewrite list_lookup_imap in Hf.
  by apply fmap_Some in Hf as (e' & _ & ->).
Qed.

Lemma history_named turnID s0 facts s cs :
  History turnID s0 facts s cs → Forall (λ f, df_Command f ≠ "" ∧ df_StateDigest f ≠ "") facts.
Proof.
  induction 1 as [|facts s log c t data _ IH _ _|]; [constructor| |done]. apply Forall_app.
  split; [done|]. by apply transition_facts_named.
Qed.

(** ** The coordinator and its store agree *)

(** The store holds the history of the coordinator's state, and the coordinator is
    ready to write the next fact. *)
Definition Consistent (turnID : string) (s0 : State) (c : TurnCoordinator) (store : St) : Prop :=
  co_turnID c = turnID ∧ ∃ facts log,
    LoadDomainFacts turnID store = Ok facts ∧ History turnID s0 facts (co_state c) log ∧
    co_nextFact c = u64 (Z.of_nat (length facts) + 1) ∧
    (∀ tail, last facts = Some tail → marshal (df_State tail) = Ok (co_lastEncoded c) ∧
             co_lastDigest c = sha256_digest (co_lastEncoded c)).

Notation consistent turnID s0 := (λ w : W, Consistent turnID s0 (w_coordinator w) (w_store w)).

Lemma refused_consistent turnID s0 command c (store store' : St) :
  Consistent turnID s0 c store → LoadDomainFacts turnID store' = LoadDomainFacts turnID store →
  Consistent turnID s0 (refused command c) store'.
Proof.
  intros (Ht & facts & log & Hl & Hh & ?) Hs. split; [done|].
  exists facts, (log ++ [Refused command]). rewrite Hs.
  split_and!; [done|by apply history_refused|tauto..].
Qed.

Lemma transition_keeps turnID s0 command (commit : option (DomainFactCommit St)) :
  LawfulCommit (default defaultCommit commit) →
  keeps (consistent turnID s0) (transition marshal command commit).
Proof.
  intros Hlaw [c store d] Hw. unfold transition.
  cbn [w_coordinator w_store w_dispatcher] in *.
  destruct (Apply (co_state c) command) as [t|e] eqn:Ht; [|by apply (refused_consistent _ _ _ _ store)].
  destruct (digestValidated marshal (tn_State t)) as [[digest data]|e] eqn:Hd;
    [|by apply (refused_consistent _ _ _ _ store)].
  apply digestValidated_Ok in Hd as (Hm & ->). cbv zeta.
  destruct (default _ _ _ store) as [[[]|e] store'] eqn:Hc; cbn [snd w_coordinator w_store].
  - destruct Hw as (<- & facts & log & Hl & Hh & Hn & _).
    pose proof (commit_appends _ Hlaw _ _ _ _ Hc Hl) as Hl'. cbn in Hl'. rewrite Hn in Hl'.
    split; [done|]. eexists _, (log ++ [Accepted command]). split; [exact Hl'|].
    split; [by apply history_step with (s := co_state c)|]. cbn. split.
    + rewrite length_app, Hn, Nat2Z.inj_add. unfold u64. rewrite Zplus_mod_idemp_l. f_equal. lia.
    + intros tail. destruct (transition_facts_last (co_turnID c) (Z.of_nat (length facts) + 1)
        command (sha256_digest data) t) as (f & Hf & Hs & _).
      rewrite last_app, Hf. intros [= <-]. by rewrite Hs.
  - apply (refused_consistent _ _ _ _ store); [done|]. apply (commit_fails _ Hlaw _ _ _ _ _ Hc).
Qed.

Lemma submit_keeps turnID s0 fuel command (commit : option (DomainFactCommit St)) :
  LawfulCommit (default defaultCommit commit) →
  keeps (consistent turnID s0) (SubmitWithCommit marshal fuel command commit).
Proof.
  revert command commit. induction fuel as [|fuel IH]; intros command commit Hlaw; [by intros w|].
  cbn [SubmitWithCommit]. apply keeps_bind; [by apply transition_keeps|]. intros effects.
  apply keeps_forP. intros effect _.
  apply (dispatch_keeps (Consistent turnID s0)). intros c. by apply IH, default_lawful.
Qed.

Lemma new_consistent turnID s0 store (d : D) (w : W) :
  NewTurnCoordinator turnID s0 store d = Ok w →
  Consistent turnID s0 (w_coordinator w) (w_store w) ∧ Valid s0.
Proof.
  unfold NewTurnCoordinator. rewrite !then_Ok, Validate_Valid, bind_Ok.
  intros (_ & _ & Hv & facts & Hl & H). apply then_Ok in H as (H%require_Ok & [= <-]).
  apply bool_decide_eq_true, nil_length_inv in H as ->. split; [|done]. cbn.
  split; [done|]. exists [], []. split_and!; [done|constructor|done|done].
Qed.

(** Replaying the stored facts gives the last published state, its digest and its
    encoding; the coordinator's own state is alike. *)
Lemma consistent_replay turnID s0 c store facts :
  Consistent turnID s0 c store → LoadDomainFacts turnID store = Ok facts → facts ≠ [] →
  ∃ s log, replayDomainFacts marshal turnID facts = Ok (s, co_lastDigest c, co_lastEncoded c) ∧
    alike s (co_state c) ∧ History turnID s0 facts s log ∧
    (∀ tail, last facts = Some tail → df_State tail = s) ∧
    co_nextFact c = u64 (default 0 (df_Sequence <$> last facts) + 1).
Proof.
  intros (_ & facts' & log & Hl & Hh & Hn & He) Hl' Hne. rewrite Hl in Hl'. injection Hl' as <-.
  destruct (history_tail _ _ _ _ _ Hh Hne) as (tail & data & log' & Ht & Hh' & Ha & Hm & Hd).
  destruct (He _ Ht) as (Hm' & Hd'). rewrite Hm in Hm'. injection Hm' as ->.
  pose proof (history_chain _ _ _ _ _ Hh) as Hc.
  exists (df_State tail), log'. split_and!; [|done|done|intros tail'; rewrite Ht; congruence|].
  - destruct facts' as [|first l]; [done|]. apply replay_Ok. exists first, tail.
    destruct (Hc 0%nat first eq_refl) as (_ & Hs1 & _). rewrite Hs1.
    split_and!; try done. congruence.
  - rewrite Ht. cbn. rewrite Hn. rewrite last_lookup in Ht. destruct (Hc _ _ Ht) as (_ & -> & _).
    unfold u64. rewrite Zplus_mod_idemp_l. f_equal. destruct facts'; [done|]. cbn. lia.
Qed.

Lemma forP_submit_keeps turnID s0 (f : string → Prog W unit) l :
  (∀ id, keeps (consistent turnID s0) (f id)) → keeps (consistent turnID s0) (forP f l).
Proof. intros H. apply keeps_forP. auto. Qed.

Lemma resume_keeps turnID s0 fuel restored :
  keeps (consistent turnID s0) (resume marshal fuel restored).
Proof.
  assert (Hsub : ∀ c, keeps (consistent turnID s0) (Submit marshal fuel c)).
  { intros c. apply submit_keeps, default_lawful. }
  unfold resume. apply keeps_bind.
  - apply forP_submit_keeps. intros id w Hw. unfold requeue_running.
    repeat case_match; try done; cbn; specialize (Hsub (EffectRequeued id) w Hw);
      by match goal with H : _ = (_, ?x) |- _ => rewrite H in Hsub end.
  - intros _ w Hw. refine (forP_submit_keeps turnID s0 _ _ _ w Hw). intros id. unfold redispatch.
    case_match; [|by intros w']. by apply (dispatch_keeps (Consistent turnID s0)).
Qed.

Lemma restore_consistent turnID s0 c store fuel (d : D) o (w' : W) :
  Consistent turnID s0 c store →
  RestoreTurnCoordinator marshal fuel turnID store d = (o, Some w') →
  Consistent turnID s0 (w_coordinator w') (w_store w').
Proof.
  intros Hc H. unfold RestoreTurnCoordinator in H. case_match; [done|].
  case_match eqn:Hr; [|done]. apply bind_Ok in Hr as (facts & Hl & Hr).
  apply bind_Ok in Hr as (rep & Hr & [= <-]). destruct rep as [[restored ld] le].
  assert (Hne : facts ≠ []) by by destruct facts.
  destruct (consistent_replay _ _ _ _ _ Hc Hl Hne) as (s & log & Hr' & _ & Hh & Hs & Hn).
  rewrite Hr' in Hr. injection Hr as <- <- <-. cbv zeta in H. rewrite <- Hn in H.
  destruct (resume _ _ _ _) as [o' w1] eqn:E. injection H as _ <-.
  change w1 with (snd (o', w1)). rewrite <- E. apply resume_keeps. cbn.
  destruct Hc as (Ht & facts' & log' & Hl' & _ & Hn' & He). rewrite Hl' in Hl. injection Hl as ->.
  split; [done|]. exists facts, log. done.
Qed.

(** ** Lives of a turn *)

(** Everything that happens to a turn: it is created, commands are submitted, a
    process stops after any of the coordinator's transitions, and another one
    restores the turn from the store with a dispatcher of its own. *)
Inductive lifetime (turnID : string) (s0 : State) : W → Prop :=
  | life_new store (d : D) w :
      NewTurnCoordinator turnID s0 store d = Ok w → lifetime turnID s0 w
  | life_submit w fuel command (commit : option (DomainFactCommit St)) :
      lifetime turnID s0 w → LawfulCommit (default defaultCommit commit) →
      lifetime turnID s0 (snd (SubmitWithCommit marshal fuel command commit w))
  | life_transition w command (commit : option (DomainFactCommit St)) :
      lifetime turnID s0 w → LawfulCommit (default defaultCommit commit) →
      lifetime turnID s0 (snd (transition marshal command commit w))
  | life_restart w fuel (d : D) o w' :
      lifetime turnID s0 w →
      RestoreTurnCoordinator marshal fuel turnID (w_store w) d = (o, Some w') →
      lifetime turnID s0 w'.

Lemma lifetime_consistent turnID s0 (w : W) :
  lifetime turnID s0 w → Consistent turnID s0 (w_coordinator w) (w_store w).
Proof.
  induction 1 as [store d w H|w fuel c commit _ IH Hlaw|w c commit _ IH Hlaw
    |w fuel d o w' _ IH H].
  - by eapply new_consistent.
  - by apply submit_keeps.
  - by apply transition_keeps.
  - by eapply restore_consistent.
Qed.

(** ** Other turns *)

(** A coordinator writes facts of its own turn only. *)
Definition Isolated (turnID other : string) (facts : res error (list DomainFact))
    (c : TurnCoordinator) (store : St) : Prop :=
  co_turnID c = turnID ∧ LoadDomainFacts other store = facts.

Lemma submit_isolated turnID other facts fuel command (commit : option (DomainFactCommit St)) :
  turnID ≠ other → LawfulCommit (default defaultCommit commit) →
  keeps (λ w : W, Isolated turnID other facts (w_coordinator w) (w_store w))
    (SubmitWithCommit marshal fuel command commit).
Proof.
  intros Hne. revert command commit.
  induction fuel as [|fuel IH]; intros command commit Hlaw; [by intros w|].
  cbn [SubmitWithCommit]. apply keeps_bind.
  - intros [c store d] [<- <-]. unfold transition. cbn in *. repeat case_match; try done;
      (split; [done|]); cbn; by eapply (commit_other _ Hlaw).
  - intros effects. apply keeps_forP. intros effect _.
    apply (dispatch_keeps (Isolated turnID other facts)). intros c. by apply IH, default_lawful.
Qed.
End Durability.
