(* ===== verification/EnvelopeStore.v ===== *)
(** The terminal envelope and its in-memory reference store ([terminal_envelope.go],
    [measurement.go]): domain facts, the atomic terminal commit and the projection
    outbox. The store's defensive copies go through JSON; here a copy is the value
    itself. *)
From S2P Require Import Prelude.
From S2P Require Import GoStrings.
From S2P Require Import Sha256.
From S2P Require Import Json.
From S2P Require Import Provider.
From S2P Require Import TurnState.
From S2P Require Import Invariants.
From S2P Require Import Command.
From S2P Require Import Validity.
From S2P Require Import DomainFacts.

#[export] Instance DeadlineMetadata_eq_dec : EqDecision DeadlineMetadata.
Proof. solve_decision. Defined.
#[export] Instance FaultMetadata_eq_dec : EqDecision FaultMetadata.
Proof. solve_decision. Defined.
#[export] Instance ConvergenceState_eq_dec : EqDecision ConvergenceState.
Proof. solve_decision. Defined.
#[export] Instance TerminalDecision_eq_dec : EqDecision TerminalDecision.
Proof. solve_decision. Defined.

(** ** Measurement *)

Definition TerminalMeasurementVersion : Z := 1.

Record DurationMeasurement := mkDurationMeasurement {
  dm_Recorded : bool;
  dm_Milliseconds : Z;
}.

Record TerminalLatencyMeasurement := mkTerminalLatencyMeasurement {
  lm_Turn : DurationMeasurement;
  lm_FirstOutput : DurationMeasurement;
  lm_Provider : DurationMeasurement;
  lm_Tool : DurationMeasurement;
  lm_ApprovalWait : DurationMeasurement;
  lm_Verification : DurationMeasurement;
  lm_Persistence : DurationMeasurement;
}.

Definition zero_latency : TerminalLatencyMeasurement :=
  let z := mkDurationMeasurement false 0 in mkTerminalLatencyMeasurement z z z z z z z.

Record TerminalMeasurementSnapshot := mkTerminalMeasurementSnapshot {
  tm_Version : Z;
  tm_FrozenAt : Time;
  tm_Latency : TerminalLatencyMeasurement;
  tm_Usage : UsageState;
  tm_UsageRecorded : bool;
  tm_UsageDigest : string;
  tm_Digest : string;
}.

Definition with_digests (usage digest : string) (s : TerminalMeasurementSnapshot) :
    TerminalMeasurementSnapshot :=
  mkTerminalMeasurementSnapshot (tm_Version s) (tm_FrozenAt s) (tm_Latency s) (tm_Usage s)
    (tm_UsageRecorded s) usage digest.

Definition Recorded (s : TerminalMeasurementSnapshot) : bool :=
  dm_Recorded (lm_Turn (tm_Latency s)) && tm_UsageRecorded s.

(** The range over the named durations; Go leaves its order open, and any order
    refuses the same snapshots. *)
Definition durations (l : TerminalLatencyMeasurement) : list (string * DurationMeasurement) :=
  [("turn", lm_Turn l); ("first_output", lm_FirstOutput l); ("provider", lm_Provider l);
   ("tool", lm_Tool l); ("approval_wait", lm_ApprovalWait l);
   ("verification", lm_Verification l); ("persistence", lm_Persistence l)].

Definition check_duration (d : string * DurationMeasurement) : res error unit :=
  refuse (dm_Milliseconds (snd d) <? 0)
    (ErrFmt "terminal measurement %s duration is negative" [ArgS (fst d)]);;
  refuse (negb (dm_Recorded (snd d)) && negb (dm_Milliseconds (snd d) =? 0))
    (ErrFmt "terminal measurement %s is unrecorded with a value" [ArgS (fst d)]).

(** The struct [terminalUsageDigest] marshals; its fields are numbers and booleans. *)
Definition json_usage (u : UsageState) : json :=
  JObj (omit_int "calls" (ug_Calls u)
        ++ [("input_tokens", JInt (ug_InputTokens u)); ("output_tokens", JInt (ug_OutputTokens u))]
        ++ omit_int "reasoning_tokens" (ug_ReasoningTokens u)
        ++ omit_int "cached_tokens" (ug_CachedTokens u)
        ++ omit_int "cost_microunits" (ug_CostMicrounits u)
        ++ [("cost_known", JBool (ug_CostKnown u)); ("frozen", JBool (ug_Frozen u))]).

Definition terminalUsageDigest (usage : UsageState) (recorded : bool) : string :=
  sha256_digest (encode (JObj [("recorded", JBool recorded); ("usage", json_usage usage)])).

(** ** Envelopes *)

Record OperationCommitFact := mkOperationCommitFact {
  oc_OperationID : string;
  oc_Status : string;
  oc_Receipt : string;
}.

Record ProjectionOutboxEntry := mkProjectionOutboxEntry {
  ox_ID : string;
  ox_EventID : string;
  ox_OperationID : string;
  ox_ThreadID : string;
  ox_TurnID : string;
  ox_ItemID : string;
  ox_Kind : string;
  ox_Payload : string;
}.

(** The fields of [protocol.ExecutionReceiptData] a store reads; the others are
    carried as one text. *)
Record ExecutionReceiptData := mkExecutionReceiptData {
  er_MeasurementDigest : string;
  er_UsageDigest : string;
  er_MeasurementRecorded : bool;
  er_InputTokens : Z;
  er_OutputTokens : Z;
  er_ReasoningTokens : Z;
  er_CachedTokens : Z;
  er_CostMicrounits : Z;
  er_CostKnown : bool;
  er_Others : string;
}.

Record TerminalEnvelope := mkTerminalEnvelope {
  te_TurnID : string;
  te_EffectID : string;
  te_FrozenState : State;
  te_DomainFacts : list DomainFact;
  te_Measurement : TerminalMeasurementSnapshot;
  te_Receipt : option ExecutionReceiptData;
  te_SessionDelta : string;
  te_FinalOutput : list string;
  te_TerminalEvent : option Event;
  te_OperationCommit : OperationCommitFact;
  te_Outbox : list ProjectionOutboxEntry;
}.

Record TerminalCommitMarker := mkTerminalCommitMarker {
  mk_TurnID : string;
  mk_EffectID : string;
  mk_Digest : string;
  mk_CommittedAt : Time;
}.

Record PendingTerminalProjection := mkPendingTerminalProjection {
  pp_Envelope : TerminalEnvelope;
  pp_Entries : list ProjectionOutboxEntry;
}.

Inductive TerminalEnvelopeStage :=
  | StageDomainFacts | StageMeasurement | StageReceipt | StageSessionDelta | StageFinalOutput
  | StageTerminalEvent | StageOperationCommit | StageOutbox | StageCommitMarker.

Definition stages : list TerminalEnvelopeStage :=
  [StageDomainFacts; StageMeasurement; StageReceipt; StageSessionDelta; StageFinalOutput;
   StageTerminalEvent; StageOperationCommit; StageOutbox; StageCommitMarker].

Definition ErrTerminalEnvelopeConflict : error := ErrText "terminal envelope conflict".
Definition ErrTerminalEnvelopeMissing : error := ErrText "terminal envelope missing".

(** [json.Marshal] of the values whose text depends on time zones, nil slices or raw
    messages: parameters of the store. *)
Record Encodings := mkEncodings {
  marshal_state : State → res error string;
  marshal_fact : DomainFact → string;
  marshal_measurement : TerminalMeasurementSnapshot → res error string;
  marshal_envelope : TerminalEnvelope → res error string;
}.

Section Store.
Context (enc : Encodings).

Definition terminalMeasurementDigest (s : TerminalMeasurementSnapshot) : res error string :=
  encoded ← marshal_measurement enc (with_digests (tm_UsageDigest s) "" s);
  Ok (sha256_digest encoded).

Definition ValidateTerminalMeasurement (s : TerminalMeasurementSnapshot) : res error unit :=
  require (tm_Version s =? TerminalMeasurementVersion)
    (ErrFmt "terminal measurement version must be %d" [ArgZ TerminalMeasurementVersion]);;
  refuse (time_zero (tm_FrozenAt s)) (ErrText "terminal measurement frozen_at is required");;
  iterM check_duration (durations (tm_Latency s));;
  refuse (tm_UsageRecorded s && negb (ug_Frozen (tm_Usage s)))
    (ErrText "terminal measurement usage is not frozen");;
  require (tm_UsageDigest s == terminalUsageDigest (tm_Usage s) (tm_UsageRecorded s))
    (ErrText "terminal measurement usage digest mismatch");;
  expected ← terminalMeasurementDigest s;
  require (tm_Digest s == expected) (ErrText "terminal measurement digest mismatch").

Definition NewTerminalMeasurementSnapshot (frozenAt : Time)
    (latency : option TerminalLatencyMeasurement) (usage : UsageState) (usageRecorded : bool) :
    res error TerminalMeasurementSnapshot :=
  let snapshot :=
    mkTerminalMeasurementSnapshot TerminalMeasurementVersion frozenAt
      (default zero_latency latency) usage usageRecorded
      (terminalUsageDigest usage usageRecorded) "" in
  digest ← terminalMeasurementDigest snapshot;
  let snapshot := with_digests (tm_UsageDigest snapshot) digest snapshot in
  ValidateTerminalMeasurement snapshot;;
  Ok snapshot.

(** One outbox entry; [seen] holds the identifiers before it. *)
Definition check_outbox (turnID : string) (seen : list string) (e : ProjectionOutboxEntry) :
    res error (list string) :=
  refuse ((ox_ID e == "") || (ox_Kind e == "") || (ox_Payload e == "") || (ox_EventID e == "")
          || (ox_OperationID e == "") || (ox_ThreadID e == "")
          || negb (ox_TurnID e == turnID) || (ox_ItemID e == "")
          || bool_decide (ox_ID e ∈ seen))
    (ErrText "terminal envelope outbox is invalid");;
  Ok (ox_ID e :: seen).

Definition check_envelope_fact (turnID : string) (start : Z) (p : nat * DomainFact) :
    res error unit :=
  require ((df_TurnID (snd p) == turnID)
           && (df_Sequence (snd p) =? u64 (start + Z.of_nat (fst p)))
           && negb (df_Command (snd p) == "") && negb (df_StateDigest (snd p) == ""))
    (ErrFmt "invalid domain fact at index %d" [ArgZ (Z.of_nat (fst p))]).

(** The receipt agrees with the measurement. *)
Definition check_receipt (r : ExecutionReceiptData) (m : TerminalMeasurementSnapshot) :
    res error unit :=
  require ((er_MeasurementDigest r == tm_Digest m) && (er_UsageDigest r == tm_UsageDigest m)
           && Bool.eqb (er_MeasurementRecorded r) (Recorded m))
    (ErrText "terminal envelope receipt disagrees with measurement");;
  let u := tm_Usage m in
  refuse (tm_UsageRecorded m
          && negb ((er_InputTokens r =? ug_InputTokens u) && (er_OutputTokens r =? ug_OutputTokens u)
                   && (er_ReasoningTokens r =? ug_ReasoningTokens u)
                   && (er_CachedTokens r =? ug_CachedTokens u)
                   && (er_CostMicrounits r =? ug_CostMicrounits u)
                   && Bool.eqb (er_CostKnown r) (ug_CostKnown u)))
    (ErrText "terminal envelope receipt usage disagrees with measurement").

(** The event names the frozen decision. *)
Definition terminal_event_agrees (e : TerminalEnvelope) : bool :=
  match te_TerminalEvent e with
  | Some ev => bool_decide (ev_Kind ev = EventTerminalCommitted)
               && bool_decide (is_Some (ev_Terminal ev))
               && bool_decide (ev_Terminal ev = st_Terminal (te_FrozenState e))
  | None => false
  end.

Definition validateTerminalEnvelope (e : TerminalEnvelope) : res error string :=
  refuse (blank (te_TurnID e) || blank (te_EffectID e))
    (ErrText "terminal envelope identity is incomplete");;
  match Validate (te_FrozenState e) with
  | Err cause => Err (ErrWrap "terminal envelope state: %w" [] cause)
  | Ok _ => Ok tt
  end;;
  require (Terminal (st_Phase (te_FrozenState e))
           && bool_decide (is_Some (st_Terminal (te_FrozenState e))))
    (ErrText "terminal envelope state is not terminal");;
  match te_Receipt e with
  | None => Err (ErrText "terminal envelope receipt is missing")
  | Some receipt =>
      match ValidateTerminalMeasurement (te_Measurement e) with
      | Err cause => Err (ErrWrap "terminal envelope measurement: %w" [] cause)
      | Ok _ => check_receipt receipt (te_Measurement e)
      end
  end;;
  refuse (negb (te_SessionDelta e == "") && bool_decide (parse (te_SessionDelta e) = None))
    (ErrText "terminal envelope session delta is invalid");;
  refuse ((oc_OperationID (te_OperationCommit e) == "")
          || negb (oc_Status (te_OperationCommit e) == "committed"))
    (ErrText "terminal envelope operation commit is invalid");;
  require (terminal_event_agrees e)
    (ErrText "terminal envelope event disagrees with frozen state");;
  require (bool_decide (te_FinalOutput e = st_FinalOutput (te_FrozenState e)))
    (ErrText "terminal envelope output disagrees with frozen state");;
  match te_DomainFacts e with
  | [] => Err (ErrText "terminal envelope has no domain facts")
  | first :: _ =>
      refuse (df_Sequence first =? 0) (ErrText "domain fact sequence is invalid");;
      iterM (check_envelope_fact (te_TurnID e) (df_Sequence first))
        (imap (λ i f, (i, f)) (te_DomainFacts e))
  end;;
  foldM (check_outbox (te_TurnID e)) (te_Outbox e) [];;
  encoded ← marshal_envelope enc e;
  Ok (sha256_digest encoded).

(** ** The store *)

(** [now] is the clock's current reading, [inject] the fault injector. *)
Record MemoryTerminalEnvelopeStore := mkMemoryStore {
  ms_now : Time;
  ms_inject : option (TerminalEnvelopeStage → res error unit);
  ms_facts : gmap string (list DomainFact);
  ms_envelopes : gmap string TerminalEnvelope;
  ms_markers : gmap string TerminalCommitMarker;
  ms_published : gmap string (gset string);
}.

Definition NewMemoryTerminalEnvelopeStore (now : Time)
    (inject : option (TerminalEnvelopeStage → res error unit)) : MemoryTerminalEnvelopeStore :=
  mkMemoryStore now inject ∅ ∅ ∅ ∅.

Definition facts_of (s : MemoryTerminalEnvelopeStore) (turnID : string) : list DomainFact :=
  default [] (ms_facts s !! turnID).

(** One fact of an append; [p] carries its index in the whole log. *)
Definition check_append (turnID : string) (p : nat * DomainFact) : res error unit :=
  let '(index, fact) := p in
  require ((df_TurnID fact == turnID) && (df_Sequence fact =? u64 (Z.of_nat index + 1))
           && negb (df_Command fact == "") && negb (df_StateDigest fact == ""))
    (ErrFmt "invalid domain fact at index %d" [ArgZ (Z.of_nat index)]);;
  match Validate (df_State fact) with
  | Err e => Err (ErrWrap "invalid domain fact state at index %d: %w" [ArgZ (Z.of_nat index)] e)
  | Ok _ => Ok tt
  end;;
  match Digest (marshal_state enc) (df_State fact) with
  | Ok digest =>
      require (digest == df_StateDigest fact)
        (ErrFmt "domain fact digest mismatch at index %d" [ArgZ (Z.of_nat index)])
  | Err _ => Err (ErrFmt "domain fact digest mismatch at index %d" [ArgZ (Z.of_nat index)])
  end.

(** The log after an append that is accepted. *)
Definition appended (turnID : string) (expectedNext : Z) (facts : list DomainFact)
    (s : MemoryTerminalEnvelopeStore) : res error (list DomainFact) :=
  refuse (blank turnID || bool_decide (facts = [])) (ErrText "domain fact append is empty");;
  refuse (bool_decide (is_Some (ms_markers s !! turnID)))
    (ErrText "terminal turn rejects new domain facts");;
  let current := facts_of s turnID in
  require (expectedNext =? u64 (Z.of_nat (length current) + 1))
    (ErrFmt "domain fact sequence conflict: got %d want %d"
       [ArgZ expectedNext; ArgZ (Z.of_nat (length current) + 1)]);;
  let next := current ++ facts in
  iterM (check_append turnID) (imap (λ i f, (i, f)) next);;
  Ok next.

Definition MemoryAppendDomainFacts (turnID : string) (expectedNext : Z) (facts : list DomainFact)
    (s : MemoryTerminalEnvelopeStore) : res error unit * MemoryTerminalEnvelopeStore :=
  match appended turnID expectedNext facts s with
  | Err e => (Err e, s)
  | Ok next =>
      (Ok tt, mkMemoryStore (ms_now s) (ms_inject s) (<[turnID := next]> (ms_facts s))
                (ms_envelopes s) (ms_markers s) (ms_published s))
  end.

(** The store reads its own log and implements no verified append. *)
Definition memory_store : DomainFactStore MemoryTerminalEnvelopeStore := {|
  AppendDomainFacts := MemoryAppendDomainFacts;
  AppendVerifiedDomainFacts := None;
  LoadDomainFacts turnID s := Ok (facts_of s turnID);
|}.
#[export] Existing Instance memory_store.

(** The stored facts are the first facts of the envelope, text for text. *)
Fixpoint facts_prefix (existing facts : list DomainFact) : bool :=
  match existing, facts with
  | [], _ => true
  | f :: existing, g :: facts =>
      (marshal_fact enc f == marshal_fact enc g) && facts_prefix existing facts
  | _ :: _, [] => false
  end.

Definition run_stage (inject : option (TerminalEnvelopeStage → res error unit))
    (stage : TerminalEnvelopeStage) : res error unit :=
  match inject with
  | None => Ok tt
  | Some f => match f stage with
              | Err e => Err (ErrWrap "terminal envelope %s: %w" [] e)
              | Ok _ => Ok tt
              end
  end.

(** The marker of an accepted envelope, and whether it was committed before. *)
Definition terminal_marker (e : TerminalEnvelope) (s : MemoryTerminalEnvelopeStore) :
    res error (TerminalCommitMarker * bool) :=
  digest ← validateTerminalEnvelope e;
  match ms_markers s !! te_TurnID e with
  | Some marker =>
      require ((mk_Digest marker == digest) && (mk_EffectID marker == te_EffectID e))
        ErrTerminalEnvelopeConflict;;
      Ok (marker, true)
  | None =>
      require (facts_prefix (facts_of s (te_TurnID e)) (te_DomainFacts e))
        ErrTerminalEnvelopeConflict;;
      iterM (run_stage (ms_inject s)) stages;;
      Ok (mkTerminalCommitMarker (te_TurnID e) (te_EffectID e) digest (ms_now s), false)
  end.

Definition CommitTerminal (e : TerminalEnvelope) (s : MemoryTerminalEnvelopeStore) :
    res error TerminalCommitMarker * MemoryTerminalEnvelopeStore :=
  match terminal_marker e s with
  | Err cause => (Err cause, s)
  | Ok (marker, true) => (Ok marker, s)
  | Ok (marker, false) =>
      (Ok marker,
       mkMemoryStore (ms_now s) (ms_inject s)
         (<[te_TurnID e := te_DomainFacts e]> (ms_facts s))
         (<[te_TurnID e := e]> (ms_envelopes s))
         (<[te_TurnID e := marker]> (ms_markers s))
         (<[te_TurnID e := ∅]> (ms_published s)))
  end.

Definition zero_marker : TerminalCommitMarker := mkTerminalCommitMarker "" "" "" 0.

Definition LoadTerminal (turnID : string) (s : MemoryTerminalEnvelopeStore) :
    res error (TerminalEnvelope * TerminalCommitMarker) :=
  match ms_envelopes s !! turnID with
  | None => Err ErrTerminalEnvelopeMissing
  | Some e => Ok (e, default zero_marker (ms_markers s !! turnID))
  end.

(** The entries of an envelope that are not published. *)
Definition unpublished (s : MemoryTerminalEnvelopeStore) (turnID : string)
    (e : TerminalEnvelope) : list ProjectionOutboxEntry :=
  filter (λ x, ox_ID x ∉ default ∅ (ms_published s !! turnID)) (te_Outbox e).

Definition PendingOutbox (turnID : string) (s : MemoryTerminalEnvelopeStore) :
    res error (list ProjectionOutboxEntry) :=
  match ms_envelopes s !! turnID with
  | None => Err ErrTerminalEnvelopeMissing
  | Some e => Ok (unpublished s turnID e)
  end.

Definition projection_of (s : MemoryTerminalEnvelopeStore) (turnID : string) :
    option PendingTerminalProjection :=
  e ← ms_envelopes s !! turnID;
  match unpublished s turnID e with
  | [] => None
  | pending => Some (mkPendingTerminalProjection e pending)
  end.

Definition PendingTerminalProjections (s : MemoryTerminalEnvelopeStore) :
    list PendingTerminalProjection :=
  omap (projection_of s) (sort_strings (map_to_list (ms_envelopes s)).*1).

(** Unknown entries are refused before any is marked. *)
Definition MarkOutboxPublished (turnID : string) (entryIDs : list string)
    (s : MemoryTerminalEnvelopeStore) : res error unit * MemoryTerminalEnvelopeStore :=
  match ms_envelopes s !! turnID with
  | None => (Err ErrTerminalEnvelopeMissing, s)
  | Some e =>
      match iterM (λ id, require (bool_decide (id ∈ ox_ID <$> te_Outbox e))
                           (ErrFmt "unknown outbox entry %q" [ArgS id])) entryIDs with
      | Err cause => (Err cause, s)
      | Ok _ =>
          (Ok tt,
           mkMemoryStore (ms_now s) (ms_inject s) (ms_facts s) (ms_envelopes s) (ms_markers s)
             (<[turnID := list_to_set entryIDs ∪ default ∅ (ms_published s !! turnID)]>
                (ms_published s)))
      end
  end.

(** [HasTerminalFacts]. *)
Definition HasTerminalFacts {St} `{!DomainFactStore St} (store : St) (turnID : string) : bool :=
  if turnID == "" then false else
  match LoadDomainFacts turnID store with
  | Ok facts => match last facts with
                | Some f => Terminal (st_Phase (df_State f))
                | None => false
                end
  | Err _ => false
  end.
End Store.
