(* ===== verification/StoreLaws.v ===== *)
(** The reference store keeps its contract: it is a lawful fact store, a committed
    terminal envelope is never replaced, a commit happens whole or not at all, and
    the outbox is published entry by entry. *)
From S2P Require Import Prelude.
From S2P Require Import GoStrings.
From S2P Require Import Sha256.
From S2P Require Import TurnState.
From S2P Require Import Invariants.
From S2P Require Import Command.
From S2P Require Import Validity.
From S2P Require Import DomainFacts.
From S2P Require Import EnvelopeStore.

Section Laws.
Context (enc : Encodings).
Notation Store := MemoryTerminalEnvelopeStore.
#[local] Existing Instance memory_store.

Lemma iterM_imap {A} (f : nat * A → res error unit) (l : list A) :
  iterM f (imap (λ i x, (i, x)) l) = Ok tt ↔ ∀ i x, l !! i = Some x → f (i, x) = Ok tt.
Proof.
  rewrite iterM_Ok, Forall_lookup. split; intros H i x Hi.
  - apply (H i). rewrite list_lookup_imap, Hi. done.
  - rewrite list_lookup_imap in Hi. apply fmap_Some in Hi as (y & Hy & ->). eauto.
Qed.

(** A named good fact is what an append checks. *)
Lemma check_append_Ok turnID i f :
  check_append enc turnID (i, f) = Ok tt ↔
  GoodFact (marshal_state enc) turnID (u64 (Z.of_nat i + 1)) f ∧
  df_Command f ≠ "" ∧ df_StateDigest f ≠ "".
Proof.
  pose proof (check_fact_Ok (marshal_state enc) turnID 1 i f) as Hc.
  rewrite Z.add_comm in Hc. rewrite <- Hc. clear Hc. unfold check_append, check_fact.
  rewrite (Z.add_comm (Z.of_nat i)).
  rewrite !then_Ok, !require_Ok, !andb_true_iff, !negb_true_iff, !Z.eqb_eq.
  repeat rewrite String.eqb_eq. repeat rewrite String.eqb_neq.
  destruct (Validate (df_State f)) as [[]|]; [|naive_solver].
  destruct (Digest _ _); [rewrite !require_Ok|]; naive_solver.
Qed.

Lemma appended_Ok turnID next facts (s : Store) l :
  appended enc turnID next facts s = Ok l ↔
  blank turnID = false ∧ facts ≠ [] ∧ ms_markers s !! turnID = None ∧
  next = u64 (Z.of_nat (length (facts_of s turnID)) + 1) ∧ l = facts_of s turnID ++ facts ∧
  Chain (marshal_state enc) turnID 1 l ∧
  Forall (λ f, df_Command f ≠ "" ∧ df_StateDigest f ≠ "") l.
Proof.
  unfold appended.
  rewrite !then_Ok, !refuse_Ok, orb_false_iff, !bool_decide_eq_false, require_Ok, Z.eqb_eq.
  rewrite iterM_imap, <- eq_None_not_Some, Forall_lookup. unfold Chain. setoid_rewrite check_append_Ok.
  setoid_rewrite (Z.add_comm 1). split.
  - intros ([? ?] & ? & ? & Hall & [= <-]). split_and!; try done; intros i f Hi; by destruct (Hall i f Hi).
  - intros (? & ? & ? & ? & -> & H1 & H2). split_and!; try done.
    intros i f Hi. split; [by apply H1|by eapply H2].
Qed.

#[export] Instance memory_store_laws : DomainFactStoreLaws Store (DomainFactStore0 := memory_store enc).
Proof.
  unfold DomainFactStoreLaws. set (M := memory_store enc).
  assert (Hdef : ∀ batch s, defaultCommit batch s =
    MemoryAppendDomainFacts enc (fb_TurnID batch) (fb_ExpectedNext batch) (fb_Facts batch) s) by done.
  split; intros batch s s' x; rewrite Hdef; unfold MemoryAppendDomainFacts;
    destruct (appended _ _ _ _ _) as [l|e] eqn:E.
  - intros [= <-] [= <-]. cbn. apply appended_Ok in E as (_ & _ & _ & _ & -> & _).
    unfold facts_of. cbn. by rewrite lookup_insert_eq.
  - done.
  - intros turn [= <- <-] Hne. cbn. unfold facts_of. cbn. by rewrite lookup_insert_ne.
  - intros turn [= <- <-] Hne. done.
  - done.
  - by intros turn [= <- <-].
Qed.

(** An append of the next good facts of an open turn is accepted. *)
Lemma append_accepted turnID (s : Store) facts :
  blank turnID = false → facts ≠ [] → ms_markers s !! turnID = None →
  Chain (marshal_state enc) turnID 1 (facts_of s turnID ++ facts) →
  Forall (λ f, df_Command f ≠ "" ∧ df_StateDigest f ≠ "") (facts_of s turnID ++ facts) →
  ∃ s', MemoryAppendDomainFacts enc turnID (u64 (Z.of_nat (length (facts_of s turnID)) + 1))
          facts s = (Ok tt, s') ∧
        facts_of s' turnID = facts_of s turnID ++ facts ∧ ms_markers s' = ms_markers s.
Proof.
  intros Hb Hne Hm Hc Hd. unfold MemoryAppendDomainFacts.
  rewrite (proj2 (appended_Ok _ _ _ _ (facts_of s turnID ++ facts))) by done.
  eexists. split; [done|]. split; [|done]. unfold facts_of. cbn. by rewrite lookup_insert_eq.
Qed.

(** ** Steps of the store *)

(** Any call, and the clock and the fault injector changing between calls. *)
Inductive store_step : Store → Store → Prop :=
  | step_append turnID next facts s r s' :
      MemoryAppendDomainFacts enc turnID next facts s = (r, s') → store_step s s'
  | step_commit e s r s' : CommitTerminal enc e s = (r, s') → store_step s s'
  | step_publish turnID ids s r s' : MarkOutboxPublished turnID ids s = (r, s') → store_step s s'
  | step_environment now inject s :
      store_step s (mkMemoryStore now inject (ms_facts s) (ms_envelopes s) (ms_markers s)
                      (ms_published s)).

(** A committed turn: marker, envelope, log and published identifiers agree. *)
Record Committed (s : Store) (turnID : string) (e : TerminalEnvelope) (m : TerminalCommitMarker) :
    Prop := {
  cm_envelope : ms_envelopes s !! turnID = Some e;
  cm_marker : ms_markers s !! turnID = Some m;
  cm_facts : ms_facts s !! turnID = Some (te_DomainFacts e);
  cm_turn : te_TurnID e = turnID;
  cm_valid : validateTerminalEnvelope enc e = Ok (mk_Digest m);
  cm_effect : mk_EffectID m = te_EffectID e;
  cm_published : ∃ p, ms_published s !! turnID = Some p ∧ p ⊆ list_to_set (ox_ID <$> te_Outbox e);
}.

(** Every turn of a store is open or committed. *)
Definition StoreInv (s : Store) : Prop :=
  ∀ turnID, (ms_envelopes s !! turnID = None ∧ ms_markers s !! turnID = None ∧
             ms_published s !! turnID = None) ∨
            ∃ e m, Committed s turnID e m.

Definition published_of (s : Store) (turnID : string) : gset string :=
  default ∅ (ms_published s !! turnID).

Lemma committed_step s s' turnID e m :
  store_step s s' → Committed s turnID e m →
  Committed s' turnID e m ∧ published_of s turnID ⊆ published_of s' turnID.
Proof.
  intros Hs [He Hm Hf Ht Hv Hef (p & Hp & Hsub)].
  destruct Hs as [turn next facts s r s' H|e' s r s' H|turn ids s r s' H|now inject s].
  - unfold MemoryAppendDomainFacts in H. destruct (appended _ _ _ _ _) eqn:E; injection H as _ <-;
      [|split; [by econstructor; eauto|done]].
    apply appended_Ok in E as (_ & _ & Hn & _). split; [|done]. econstructor; eauto. cbn.
    rewrite lookup_insert_ne; [done|]. intros ->. congruence.
  - unfold CommitTerminal in H. destruct (terminal_marker _ _ _) as [[m' []]|] eqn:E;
      injection H as _ <-; try (split; [by econstructor; eauto|done]).
    unfold terminal_marker in E. apply bind_Ok in E as (d & _ & E).
    destruct (ms_markers s !! te_TurnID e') eqn:E'; [by inv_ok|].
    assert (te_TurnID e' ≠ turnID) by (intros Heq; rewrite Heq in E'; congruence).
    unfold published_of. cbn. rewrite lookup_insert_ne by done. split; [|done].
    econstructor; cbn; rewrite ?lookup_insert_ne by done; eauto.
  - unfold MarkOutboxPublished in H.
    destruct (ms_envelopes s !! turn) as [e'|] eqn:E';
      [|injection H as _ <-; split; [by econstructor; eauto|done]].
    destruct (iterM _ _) eqn:Ei; injection H as _ <-; [|split; [by econstructor; eauto|done]].
    apply iterM_Ok in Ei. unfold published_of. cbn. destruct (decide (turn = turnID)) as [->|].
    + rewrite lookup_insert_eq. cbn. split; [|set_solver]. econstructor; eauto. cbn.
      rewrite lookup_insert_eq. eexists. split; [done|]. rewrite Hp. cbn.
      intros x [Hx%elem_of_list_to_set|Hx]%elem_of_union; [|by apply Hsub]. apply elem_of_list_to_set.
      rewrite Forall_forall in Ei. specialize (Ei x Hx). apply require_Ok, bool_decide_eq_true in Ei.
      congruence.
    + rewrite lookup_insert_ne by done. split; [|done].
      econstructor; eauto. cbn. rewrite lookup_insert_ne; eauto.
  - split; [by econstructor; eauto|done].
Qed.

Lemma committed_steps s s' turnID e m :
  rtc store_step s s' → Committed s turnID e m →
  Committed s' turnID e m ∧ published_of s turnID ⊆ published_of s' turnID.
Proof.
  induction 1 as [|s s1 s2 Hs _ IH]; intros Hc; [done|].
  destruct (committed_step _ _ _ _ _ Hs Hc) as [Hc1 ?]. destruct (IH Hc1). split; [done|set_solver].
Qed.

Lemma new_store_inv now inject : StoreInv (NewMemoryTerminalEnvelopeStore now inject).
Proof. intros turnID. left. done. Qed.

Lemma terminal_marker_new e (s : Store) m :
  terminal_marker enc e s = Ok (m, false) →
  validateTerminalEnvelope enc e = Ok (mk_Digest m) ∧ mk_EffectID m = te_EffectID e ∧
  ms_markers s !! te_TurnID e = None ∧
  facts_prefix enc (facts_of s (te_TurnID e)) (te_DomainFacts e) = true.
Proof.
  unfold terminal_marker. intros (d & Hd & H)%bind_Ok. destruct (_ !! _) as [m'|]; [by inv_ok|].
  rewrite !then_Ok, require_Ok in H. destruct H as (Hp & _ & [= <-]). done.
Qed.

Lemma commit_committed e (s s' : Store) m :
  StoreInv s → CommitTerminal enc e s = (Ok m, s') →
  ∃ e', Committed s' (te_TurnID e) e' m ∧
    validateTerminalEnvelope enc e' = validateTerminalEnvelope enc e ∧
    te_EffectID e' = te_EffectID e.
Proof.
  intros Hinv H. unfold CommitTerminal in H.
  destruct (terminal_marker _ _ _) as [[m' []]|] eqn:E; [|injection H as <- <-|done].
  - injection H as <- <-. unfold terminal_marker in E. apply bind_Ok in E as (d & Hd & E).
    destruct (ms_markers s !! te_TurnID e) as [m''|] eqn:Hm;
      [|by apply then_Ok in E as (_ & (_ & E)%then_Ok)].
    apply then_Ok in E as (Hr%require_Ok & [= <-]). apply andb_true_iff in Hr as [Hr1 Hr2].
    apply String.eqb_eq in Hr1, Hr2. destruct (Hinv (te_TurnID e)) as [(_ & Hn & _)|(e' & m1 & Hc)];
      [congruence|]. pose proof (cm_marker _ _ _ _ Hc) as Hm1.
    rewrite Hm in Hm1. injection Hm1 as <-. exists e'. split; [done|].
    rewrite Hd, (cm_valid _ _ _ _ Hc), <- (cm_effect _ _ _ _ Hc). by subst.
  - apply terminal_marker_new in E as (Hv & Hef & _). exists e. split; [|done].
    split; cbn; rewrite ?lookup_insert_eq; try done. exists ∅. split; [done|set_solver].
Qed.

Lemma store_step_inv s s' : store_step s s' → StoreInv s → StoreInv s'.
Proof.
  intros Hs Hinv turnID. destruct (Hinv turnID) as [(He & Hm & Hp)|(e & m & Hc)];
    [|right; exists e, m; by eapply committed_step].
  destruct Hs as [turn next facts s r s' H|e' s r s' H|turn ids s r s' H|now inject s];
    [..|left; done].
  - unfold MemoryAppendDomainFacts in H. left.
    destruct (appended _ _ _ _ _); by injection H as _ <-.
  - unfold CommitTerminal in H. destruct (terminal_marker _ _ _) as [[m' b]|] eqn:E;
      [|injection H as _ <-; left; done].
    destruct (decide (te_TurnID e' = turnID)) as [<-|].
    + assert (Hok : ∃ s2, CommitTerminal enc e' s = (Ok m', s2) ∧ s' = s2).
      { unfold CommitTerminal. rewrite E. destruct b; injection H as _ <-; eauto. }
      destruct Hok as (s2 & Hok & ->).
      destruct (commit_committed _ _ _ _ Hinv Hok) as (e2 & Hc & _). right. eauto.
    + left. destruct b; injection H as _ <-; [done|]. cbn. by rewrite !lookup_insert_ne.
  - unfold MarkOutboxPublished in H. left.
    destruct (ms_envelopes s !! turn) as [e'|] eqn:E'; [|by injection H as _ <-].
    destruct (iterM _ _); injection H as _ <-; [|done]. cbn.
    rewrite lookup_insert_ne; [done|]. congruence.
Qed.

Lemma store_steps_inv s s' : rtc store_step s s' → StoreInv s → StoreInv s'.
Proof. induction 1; eauto using store_step_inv. Qed.

(** ** The outbox *)

Lemma outbox_NoDup e d : validateTerminalEnvelope enc e = Ok d → NoDup (ox_ID <$> te_Outbox e).
Proof.
  unfold validateTerminalEnvelope. intros H. repeat (apply run_Ok in H as [? H]).
  match goal with Hf : ∃ a, foldM _ _ _ = Ok a |- _ =>
    apply (foldM_seen (check_outbox (te_TurnID e)) ox_ID
             (λ x, check_outbox (te_TurnID e) [] x = Ok [ox_ID x])) in Hf; [by apply Hf|] end.
  intros seen x r. unfold check_outbox. rewrite !then_Ok, !refuse_Ok, !orb_false_iff.
  rewrite !bool_decide_eq_false. split; [intros (? & [= <-])|intros ((? & _) & ? & ->)];
    split_and!; try tauto; set_solver.
Qed.

Lemma mark_accepts turnID e ids (s : Store) :
  ms_envelopes s !! turnID = Some e →
  is_ok (fst (MarkOutboxPublished turnID ids s)) = bool_decide (ids ⊆ ox_ID <$> te_Outbox e).
Proof.
  intros He. unfold MarkOutboxPublished. rewrite He.
  destruct (iterM _ _) as [[]|x] eqn:Ei; cbn; symmetry.
  - apply bool_decide_eq_true. apply iterM_Ok in Ei. intros x Hx.
    rewrite Forall_forall in Ei. by apply Ei, require_Ok, bool_decide_eq_true in Hx.
  - apply bool_decide_eq_false. intros Hsub.
    enough (Hok : iterM (λ id, require (bool_decide (id ∈ ox_ID <$> te_Outbox e))
      (ErrFmt "unknown outbox entry %q" [ArgS id])) ids = Ok tt) by congruence.
    apply iterM_Ok, Forall_forall. intros y Hy. apply require_Ok, bool_decide_eq_true. by apply Hsub.
Qed.

(** Marking known entries removes exactly them from what is pending. *)
Lemma mark_pending turnID e ids (s s' : Store) :
  ms_envelopes s !! turnID = Some e → MarkOutboxPublished turnID ids s = (Ok tt, s') →
  PendingOutbox turnID s' = Ok (filter (λ x, ox_ID x ∉ ids) (unpublished s turnID e)).
Proof.
  intros He. unfold MarkOutboxPublished, PendingOutbox. rewrite He.
  destruct (iterM _ _) as [[]|]; [|done]. intros [= <-]. cbn. rewrite He. f_equal.
  unfold unpublished. cbn. rewrite lookup_insert_eq. cbn.
  rewrite list_filter_filter. apply list_filter_iff. intros x. set_solver.
Qed.

Lemma projection_of_Some (s : Store) turnID p :
  projection_of s turnID = Some p →
  ms_envelopes s !! turnID = Some (pp_Envelope p) ∧ pp_Entries p ≠ [] ∧
  PendingOutbox turnID s = Ok (pp_Entries p).
Proof.
  unfold projection_of, PendingOutbox. destruct (ms_envelopes s !! turnID) as [e|]; [|done]. cbn.
  destruct (unpublished s turnID e) eqn:E; [done|]. by intros [= <-].
Qed.

(** The projections list the turns with something pending. *)
Lemma elem_of_projections (s : Store) p :
  p ∈ PendingTerminalProjections s ↔
  ∃ turnID, ms_envelopes s !! turnID = Some (pp_Envelope p) ∧ pp_Entries p ≠ [] ∧
            PendingOutbox turnID s = Ok (pp_Entries p).
Proof.
  unfold PendingTerminalProjections. rewrite list_elem_of_omap. split.
  - intros (id & _ & Hp%projection_of_Some). eauto.
  - intros (id & He & Hne & Hp). exists id. split.
    + rewrite elem_of_sort_strings. apply list_elem_of_fmap. exists (id, pp_Envelope p).
      by rewrite elem_of_map_to_list.
    + unfold projection_of, PendingOutbox in *. rewrite He in *. cbn. injection Hp as Hp.
      rewrite Hp. destruct (pp_Entries p) eqn:E; [done|]. rewrite <- E. by destruct p.
Qed.
End Laws.
