(* ===== verification/Episode.v ===== *)
(** A concrete turn with a coordinator, the reference store and the durable
    dispatcher: the worlds at which the theorems about durability are evaluated. *)
From S2P Require Import Prelude.
From S2P Require Import GoStrings.
From S2P Require Import Sha256.
From S2P Require Import Json.
From S2P Require Import Provider.
From S2P Require Import TurnState.
From S2P Require Import Invariants.
From S2P Require Import Command.
From S2P Require Import Effects.
From S2P Require Import Validity.
From S2P Require Import TurnSpec.
From S2P Require Import Reducer.
From S2P Require Import Kernel.
From S2P Require Import Runs.
From S2P Require Import Scenario.
From S2P Require Import DomainFacts.
From S2P Require Import Coordinator.
From S2P Require Import Dispatcher.
From S2P Require Import Issued.
From S2P Require Import Routing.
From S2P Require Import Calls.
From S2P Require Import Durability.
From S2P Require Import EnvelopeStore.
From S2P Require Import StoreLaws.

(** Encodings that tell apart the values of the episode. *)
Definition plain : Encodings := {|
  marshal_state s := Ok (encode (JArr (JInt <$>
    [st_NextEffectSequence s; Z.of_nat (size (st_PendingEffects s));
     Z.of_nat (size (st_CompletedEffects s)); Z.of_nat (length (st_FinalOutput s))])));
  marshal_fact f := df_Command f +:+ df_StateDigest f;
  marshal_measurement m := Ok (tm_UsageDigest m +:+ encode (JInt (tm_FrozenAt m)));
  marshal_envelope e := Ok (te_TurnID e +:+ te_EffectID e +:+ te_SessionDelta e);
|}.

Notation Desk := (RoutedWorld MemoryTerminalEnvelopeStore).
#[export] Existing Instance memory_store.
#[export] Instance plain_store : DomainFactStore MemoryTerminalEnvelopeStore := memory_store plain.
#[export] Instance plain_laws : DomainFactStoreLaws MemoryTerminalEnvelopeStore := memory_store_laws plain.

Definition empty_store : MemoryTerminalEnvelopeStore := NewMemoryTerminalEnvelopeStore 7 None.

(** The world before the first command. *)
Definition desk_new : Desk :=
  mkWorld (mkTurnCoordinator "t1" answer_start 1 "" "" None) empty_store
    NewDurableEffectDispatcher.

Definition submit_plain (c : Command) : Prog Desk unit := Submit (marshal_state plain) 1 c.
Definition submit_all (cs : list Command) (w : Desk) : Desk := foldl (λ w c, snd (submit_plain c w)) w cs.

(** A requested sample, routed and not started. *)
Definition desk_commands : list Command := [StartTurn; PreparationFinished; ModelSampleRequested "s1"].
Definition desk_waiting : Desk := Eval vm_compute in submit_all desk_commands desk_new.

(** The sample started. *)
Definition desk_running : Desk := Eval vm_compute in
  snd (Start submit_plain EffectSampleProvider "" desk_waiting).

Definition hello : Command := say effect_1 "s1" "hello".
(** A result the kernel refuses, retained by the registry. *)
Definition bad_hello : Command := say effect_1 "s2" "hello".
Definition desk_refused : Desk := Eval vm_compute in snd (Resolve submit_plain bad_hello desk_running).
Definition desk_answered : Desk := Eval vm_compute in snd (Resolve submit_plain hello desk_running).

Lemma desk_new_Ok :
  NewTurnCoordinator "t1" answer_start empty_store NewDurableEffectDispatcher = Ok desk_new.
Proof. by vm_compute. Qed.

(** The same world by calls. *)
Definition desk_calls : list (call (St := MemoryTerminalEnvelopeStore)) :=
  ((λ c, CallSubmit c None) <$> desk_commands) ++ [CallStart EffectSampleProvider ""].

Lemma desk_new_routes : Routes 4 None desk_new.
Proof.
  split; [done|]. split; [exact (new_effect_inv _ _ _ _)|..|done].
  - by intros id entry H.
  - intros id e H. by vm_compute in H.
Qed.

Notation do_call := (perform (marshal_state plain) 0).

Fixpoint roomy (cs : list (call (St := MemoryTerminalEnvelopeStore))) (w : Desk) : bool :=
  match cs with
  | [] => true
  | c :: cs => bool_decide (room 4 c w) && roomy cs (snd (do_call c w))
  end.

Lemma roomy_calls cs (w : Desk) :
  Forall (legal 4) cs → roomy cs w = true →
  calls (marshal_state plain) 0 4 cs w (foldl (λ w c, snd (do_call c w)) w cs).
Proof.
  revert w. induction cs as [|c cs IH]; intros w Hl Hr; [constructor|].
  cbn [roomy foldl] in Hr |- *. apply Forall_cons in Hl as [Hc Hl]. apply andb_true_iff in Hr as [Hroom%bool_decide_eq_true Hr].
  destruct (do_call c w) as [o w1] eqn:E. cbn [snd] in *.
  eapply calls_cons; [done|done|exact E|by apply IH].
Qed.

Lemma desk_calls_running : calls (marshal_state plain) 0 4 desk_calls desk_new desk_running.
Proof.
  replace desk_running with (foldl (λ w c, snd (do_call c w)) desk_new desk_calls) by (by vm_compute).
  apply roomy_calls; [|by vm_compute].
  repeat (constructor; [split; [done|cbn; lia]|]). constructor; [done|constructor].
Qed.

Lemma desk_running_routes : Routes 4 None desk_running.
Proof. exact (calls_routes (marshal_state plain) 0 4 ltac:(lia) _ _ _ desk_calls_running desk_new_routes). Qed.

Lemma desk_running_entry : ∃ entry, routed desk_running !! effect_1 = Some entry ∧
  rt_started entry = true ∧ rt_result entry = None.
Proof. eexists. split; [vm_compute; reflexivity|split; reflexivity]. Qed.

Lemma desk_running_effect : ∃ e, st_PendingEffects (co_state (w_coordinator desk_running)) !! effect_1 = Some e ∧
  ef_Status e = EffectRunning.
Proof. eexists. split; [vm_compute; reflexivity|reflexivity]. Qed.

(** The kernel refuses the result of a sample it does not know. *)
Lemma desk_refuses : ∃ e, fst (Resolve submit_plain bad_hello desk_running) = Fail e.
Proof. eexists. vm_compute. reflexivity. Qed.

Lemma desk_replays : ∃ digest data,
  replayDomainFacts (marshal_state plain) "t1" (facts_of (w_store desk_running) "t1")
  = Ok (co_state (w_coordinator desk_running), digest, data).
Proof. do 2 eexists. vm_compute. reflexivity. Qed.

Lemma desk_restores : ∃ w', RestoreTurnCoordinator (marshal_state plain) 1 "t1" (w_store desk_running)
  NewDurableEffectDispatcher = (Val tt, Some w').
Proof. eexists. vm_compute. reflexivity. Qed.

(** Every world of the episode is a moment of the turn's life. *)
Lemma desk_life cs :
  lifetime (marshal_state plain) "t1" answer_start (submit_all cs desk_new).
Proof.
  assert (H : lifetime (marshal_state plain) "t1" answer_start desk_new)
    by exact (life_new _ _ _ _ _ _ desk_new_Ok).
  revert H. generalize desk_new. induction cs as [|c cs IH]; intros w Hw; [done|]. cbn.
  apply IH. exact (life_submit _ _ _ w 1 c None Hw default_lawful).
Qed.

Lemma desk_waiting_life : lifetime (marshal_state plain) "t1" answer_start desk_waiting.
Proof.
  replace desk_waiting with (submit_all desk_commands desk_new) by (by vm_compute).
  exact (desk_life desk_commands).
Qed.

(** ** A refused observation *)

Definition observe_as (signature : string) (samples : Z) : Command :=
  ObserveProgress signature "" "" samples.
(** One observation is on record. *)
Definition desk_observed : Desk := Eval vm_compute in
  submit_all [observe_as "first" 1] desk_answered.
(** The store fails the commit of the next. *)
Definition failing_commit : DomainFactCommit MemoryTerminalEnvelopeStore :=
  λ _ store, (Err (ErrText "disk"), store).
Definition desk_disturbed : Desk :=
  snd (transition (marshal_state plain) (observe_as "second" 2) (Some failing_commit) desk_observed).

Lemma failing_commit_fails c (w : Desk) :
  ∃ e, transition (marshal_state plain) c (Some failing_commit) w
       = (Fail e, mkWorld (refused c (w_coordinator w)) (w_store w) (w_dispatcher w)).
Proof.
  destruct w as [co store d]. unfold transition. cbn [w_coordinator w_store w_dispatcher].
  destruct (Apply _ c); [|by eexists]. destruct (digestValidated _ _) as [[? ?]|]; by eexists.
Qed.

(** The samples without progress after a command. *)
Definition stalled (r : res kerror Transition) : Z :=
  match r with Ok t => pg_NoProgressSamples (st_Progress (tn_State t)) | Err _ => -1 end.

Lemma desk_stalls :
  stalled (Apply (co_state (w_coordinator desk_observed)) (observe_as "second" 2)) = 0 ∧
  stalled (Apply (co_state (w_coordinator desk_disturbed)) (observe_as "second" 2)) = 1.
Proof. split; vm_compute; reflexivity. Qed.

Lemma failing_commit_lawful : LawfulCommit failing_commit.
Proof. by split; unfold failing_commit; intros; simplify_eq. Qed.

(** ** The end of the episode *)

(** The answer is released and the terminal decision prepared. *)
Definition desk_ending : Desk := Eval vm_compute in
  submit_all [EvaluateTurnStep "k"; ReleaseProvisionalOutput; TerminalRequested complete_request]
    desk_answered.
(** The turn finished with the store's own append. *)
Definition desk_finished : Desk := Eval vm_compute in submit_all [FinishTerminal] desk_ending.

Definition ending_usage : UsageState := st_Usage (co_state (w_coordinator desk_finished)).
Definition ending_measurement : TerminalMeasurementSnapshot := Eval vm_compute in
  match NewTerminalMeasurementSnapshot plain 9 None ending_usage true with
  | Ok m => m
  | Err _ => mkTerminalMeasurementSnapshot 0 0 zero_latency ending_usage false "" ""
  end.
Definition ending_entry (id : string) : ProjectionOutboxEntry :=
  mkProjectionOutboxEntry id "ev" "op" "th" "t1" "it" "item" "{}".
Definition ending_receipt : ExecutionReceiptData :=
  mkExecutionReceiptData (tm_Digest ending_measurement) (tm_UsageDigest ending_measurement)
    (Recorded ending_measurement) (ug_InputTokens ending_usage) (ug_OutputTokens ending_usage)
    (ug_ReasoningTokens ending_usage) (ug_CachedTokens ending_usage)
    (ug_CostMicrounits ending_usage) (ug_CostKnown ending_usage) "".

(** The envelope of the finished turn, under an effect identity. *)
Definition ending (effect : string) : TerminalEnvelope :=
  let s := co_state (w_coordinator desk_finished) in
  mkTerminalEnvelope "t1" effect s (facts_of (w_store desk_finished) "t1") ending_measurement
    (Some ending_receipt) "" (st_FinalOutput s)
    (Some (mkEvent EventTerminalCommitted None None "" "" "" 0 (st_Terminal s)))
    (mkOperationCommitFact "op" "committed" "") [ending_entry "a"; ending_entry "b"].

(** Its commit over the facts stored before the last command. *)
Definition store_committed : MemoryTerminalEnvelopeStore := Eval vm_compute in
  snd (CommitTerminal plain (ending "terminal") (w_store desk_ending)).
Definition marker_committed : TerminalCommitMarker := Eval vm_compute in
  match CommitTerminal plain (ending "terminal") (w_store desk_ending) with
  | (Ok m, _) => m
  | _ => zero_marker
  end.

Lemma ending_commits :
  CommitTerminal plain (ending "terminal") (w_store desk_ending) = (Ok marker_committed, store_committed).
Proof. vm_compute. reflexivity. Qed.

(** No turn of the store is terminal before the commit. *)
Lemma desk_ending_open : StoreInv plain (w_store desk_ending).
Proof. intros turnID. left. by split_and!. Qed.

(** The same store with a fault at the outbox stage. *)
Definition failing_store : MemoryTerminalEnvelopeStore :=
  let s := w_store desk_ending in
  mkMemoryStore (ms_now s) (Some (λ stage, match stage with StageOutbox => Err (ErrText "disk") | _ => Ok tt end))
    (ms_facts s) (ms_envelopes s) (ms_markers s) (ms_published s).

Lemma failing_store_open : StoreInv plain failing_store.
Proof. intros turnID. left. by split_and!. Qed.

Lemma store_committed_turn : ∃ e, Committed plain store_committed "t1" e marker_committed ∧
  te_Outbox e = [ending_entry "a"; ending_entry "b"].
Proof.
  exists (ending "terminal"). split; [|reflexivity].
  destruct (commit_committed plain (ending "terminal") _ _ _ desk_ending_open ending_commits) as (e & Hc & _).
  assert (He : ms_envelopes store_committed !! "t1" = Some (ending "terminal")) by (vm_compute; reflexivity).
  change (te_TurnID (ending "terminal")) with "t1" in Hc.
  pose proof (cm_envelope _ _ _ _ _ Hc) as He'. rewrite He in He'. injection He' as <-. exact Hc.
Qed.
