(* ===== verification/TurnDurability.v ===== *)
(** What survives a failure: the stored facts are the history of the kernel, a restart
    resumes the committed state, the registry follows the kernel, and a terminal
    envelope is committed once and published completely. *)
From S2P Require Import Prelude.
From S2P Require Import GoStrings.
From S2P Require Import Sha256.
From S2P Require Import Json.
From S2P Require Import Provider.
From S2P Require Import TurnState.
From S2P Require Import Invariants.
From S2P Require Import Command.
From S2P Require Import Effects.
From S2P Require Import Validity.
From S2P Require Import TurnSpec.
From S2P Require Import Reducer.
From S2P Require Import Kernel.
From S2P Require Import Runs.
From S2P Require Import Scenario.
From S2P Require Import Sharing.
From S2P Require Import DomainFacts.
From S2P Require Import Coordinator.
From S2P Require Import Dispatcher.
From S2P Require Import Issued.
From S2P Require Import Routing.
From S2P Require Import Calls.
From S2P Require Import Restart.
From S2P Require Import Durability.
From S2P Require Import EnvelopeStore.
From S2P Require Import StoreLaws.
From S2P Require Import Episode.

Notation state_of w := (co_state (w_coordinator w)).

(** ** The history of a turn *)

Section History.
Context {St D : Type} `{!DomainFactStore St} `{!DomainFactStoreLaws St}.
Context `{!EffectDispatcher St D} `{!EffectDispatcherLaws St D}.
Context (marshal : State → res error string).

(** C12: whatever happens to a turn (submissions that succeed or fail, commits of the
    caller's own, a crash after any transition, restarts with other dispatchers), the
    store holds exactly the facts of the accepted commands from the turn's first state on,
    numbered from one, each applied to the state the one before left but for the
    observations refused commands remembered; without such, the published state is that
    of a kernel run. *)
Theorem stored_facts_are_history turnID s0 (w : World St D) :
  lifetime marshal turnID s0 w →
  ∃ facts log, LoadDomainFacts turnID (w_store w) = Ok facts ∧
    History marshal turnID s0 facts (state_of w) log ∧
    co_nextFact (w_coordinator w) = u64 (Z.of_nat (length facts) + 1) ∧
    (undisturbed log → run s0 (accepted log) = Ok (state_of w)).
Proof.
  intros H. destruct (lifetime_consistent marshal _ _ _ H) as (_ & facts & log & Hl & Hh & Hn & _).
  exists facts, log. split_and!; [done..|by eapply history_run].
Qed.

(** C13: a restart resumes the committed state: from the stored facts of any moment of
    the turn's life the coordinator is restored with the last published state, the next fact
    number, the digest and the encoding the stopped one had, before it resumes the
    effects; the state the stopped one held differs at most in remembered observations. *)
Theorem restart_resumes_committed_state turnID s0 (w : World St D) fuel d facts :
  lifetime marshal turnID s0 w → turnID ≠ "" →
  LoadDomainFacts turnID (w_store w) = Ok facts → facts ≠ [] →
  let c := w_coordinator w in
  ∃ s, alike s (co_state c) ∧ df_State <$> last facts = Some s ∧
  replayDomainFacts marshal turnID facts = Ok (s, co_lastDigest c, co_lastEncoded c) ∧
  RestoreTurnCoordinator marshal fuel turnID (w_store w) d =
    let '(o, w') := resume marshal fuel s
      (mkWorld (mkTurnCoordinator turnID s (co_nextFact c) (co_lastDigest c)
                  (co_lastEncoded c) None) (w_store w) d) in (o, Some w').
Proof.
  intros H Hid Hl Hne. pose proof (lifetime_consistent marshal _ _ _ H) as Hc.
  destruct (consistent_replay marshal _ _ _ _ _ Hc Hl Hne) as (s & log & Hr & Ha & _ & Hs & Hn).
  exists s. split; [exact Ha|]. split.
  { destruct (last facts) as [tail|] eqn:E; [by rewrite <- (Hs _ eq_refl)|].
    by apply last_None in E. }
  split; [exact Hr|].
  unfold RestoreTurnCoordinator. apply String.eqb_neq in Hid. rewrite Hid, Hl.
  change (Ok ?x ≫= ?f) with (f x). cbv beta. rewrite Hr. change (Ok ?x ≫= ?f) with (f x).
  cbv iota beta zeta. by rewrite <- Hn.
Qed.

(** C14: a transition is atomic: either it fails, no stored fact of any turn changes and the
    coordinator keeps everything but what an observation of progress remembered, or the
    command was applied, its facts are appended to the turn's own log and no other, the
    next state is published and its effects are handed out. *)
Theorem transition_is_atomic command (commit : option (DomainFactCommit St)) (w w' : World St D) o facts :
  LawfulCommit (default defaultCommit commit) →
  transition marshal command commit w = (o, w') →
  LoadDomainFacts (co_turnID (w_coordinator w)) (w_store w) = Ok facts →
  (∃ e, o = Fail e ∧ w_coordinator w' = refused command (w_coordinator w) ∧
        alike (state_of w) (state_of w') ∧ (observation command = false → state_of w' = state_of w) ∧
        ∀ turn, LoadDomainFacts turn (w_store w') = LoadDomainFacts turn (w_store w)) ∨
  (∃ t data, Apply (state_of w) command = Ok t ∧ marshal (tn_State t) = Ok data ∧
     o = Val (tn_Effects t) ∧ state_of w' = tn_State t ∧
     LoadDomainFacts (co_turnID (w_coordinator w)) (w_store w') =
       Ok (facts ++ transition_facts (co_turnID (w_coordinator w)) (co_nextFact (w_coordinator w))
                      command (sha256_digest data) t) ∧
     ∀ turn, turn ≠ co_turnID (w_coordinator w) →
       LoadDomainFacts turn (w_store w') = LoadDomainFacts turn (w_store w)).
Proof.
  intros Hlaw H Hl.
  assert (Hq : observation command = false → caller_after (state_of w) command = state_of w)
    by (intros Ho; by destruct command).
  pose proof (caller_after_alike (state_of w) command) as Ha. unfold transition in H.
  destruct (Apply _ _) as [t|e] eqn:Ht; [|injection H as <- <-; left; by eexists].
  destruct (digestValidated _ _) as [[digest data]|e] eqn:Hd; [|injection H as <- <-; left; by eexists].
  apply digestValidated_Ok in Hd as (Hm & ->). cbv zeta in H.
  destruct (default _ _ _ _) as [[[]|e] store] eqn:Hc; injection H as <- <-.
  - right. exists t, data. split_and!; [done..| |].
    + exact (commit_appends _ Hlaw _ _ _ _ Hc Hl).
    + intros turn Hne. exact (commit_other _ Hlaw _ _ _ _ _ Hc Hne).
  - left. eexists. split_and!; [done..|]. intros turn. exact (commit_fails _ Hlaw _ _ _ _ turn Hc).
Qed.
End History.

Theorem stored_facts_are_history_witness :
  ∃ log, History (marshal_state plain) "t1" answer_start
           (facts_of (w_store desk_waiting) "t1") (state_of desk_waiting) log.
Proof.
  destruct (stored_facts_are_history (marshal_state plain) "t1" answer_start desk_waiting desk_waiting_life)
    as (facts & log & Hl & Hh & _).
  exists log. assert (E : facts_of (w_store desk_waiting) "t1" = facts) by exact (Ok_inj _ _ Hl).
  rewrite E. exact Hh.
Defined.

Theorem restart_resumes_committed_state_witness :
  ∃ s d e, replayDomainFacts (marshal_state plain) "t1" (facts_of (w_store desk_waiting) "t1")
           = Ok (s, d, e) ∧ alike s (state_of desk_waiting).
Proof.
  edestruct (restart_resumes_committed_state (marshal_state plain) "t1" answer_start
    desk_waiting 1 NewDurableEffectDispatcher (facts_of (w_store desk_waiting) "t1") desk_waiting_life)
    as (s & Ha & _ & Hr & _); [done|reflexivity|by vm_compute|].
  exists s, (co_lastDigest (w_coordinator desk_waiting)), (co_lastEncoded (w_coordinator desk_waiting)).
  exact (conj Hr Ha).
Defined.

Theorem transition_is_atomic_witness :
  ∃ o (w' : Desk), transition (marshal_state plain) StartTurn None desk_new = (o, w') ∧
    ((∃ e, o = Fail e) ∨ ∃ t, Apply answer_start StartTurn = Ok t ∧ o = Val (tn_Effects t)).
Proof.
  destruct (transition (marshal_state plain) StartTurn None desk_new) as [o w'] eqn:E.
  exists o, w'. split; [reflexivity|].
  destruct (transition_is_atomic (marshal_state plain) StartTurn None desk_new w' o [] default_lawful E eq_refl)
    as [(e & He & _)|(t & data & Ht & _ & Ho & _)];
    [left; exists e; exact He|right; exists t; exact (conj Ht Ho)].
Defined.

(** a refused observation is not forgotten: there is a world in which the store fails
    the commit of an observation of progress, and the same command submitted again counts
    as a stall, where the first time it was progress. *)
Theorem refused_observation_disturbs :
  ∃ (w w' : Desk) c e t t',
    transition (marshal_state plain) c (Some failing_commit) w = (Fail e, w') ∧
    w_store w' = w_store w ∧
    Apply (state_of w) c = Ok t ∧ Apply (state_of w') c = Ok t' ∧
    pg_NoProgressSamples (st_Progress (tn_State t)) = 0 ∧
    pg_NoProgressSamples (st_Progress (tn_State t')) = 1.
Proof.
  destruct (failing_commit_fails (observe_as "second" 2) desk_observed) as [e He].
  exists desk_observed, desk_disturbed, (observe_as "second" 2), e.
  destruct (is_ok_Ok (Apply (state_of desk_observed) (observe_as "second" 2))) as [t E]; [by vm_compute|].
  destruct (is_ok_Ok (Apply (state_of desk_disturbed) (observe_as "second" 2))) as [t' E']; [by vm_compute|].
  exists t, t'. unfold desk_disturbed in *. rewrite He in *. split; [reflexivity|].
  split; [reflexivity|]. split; [exact E|]. split; [exact E'|].
  pose proof desk_stalls as [H H']. unfold desk_disturbed in H'. rewrite He in H'.
  rewrite E in H. rewrite E' in H'. exact (conj H H').
Qed.

(** With the reference store a turn is never stopped by its own log: as long as no
    terminal envelope is committed, every command the kernel accepts at any moment of the
    turn's life is persisted and published, if its state can be encoded. *)
Theorem reference_store_accepts {D} `{!EffectDispatcher MemoryTerminalEnvelopeStore D}
    `{!EffectDispatcherLaws MemoryTerminalEnvelopeStore D} enc turnID s0
    (w : World MemoryTerminalEnvelopeStore D) c t data :
  lifetime (DomainFactStore0 := memory_store enc) (marshal_state enc) turnID s0 w →
  blank turnID = false → ms_markers (w_store w) !! turnID = None →
  Apply (state_of w) c = Ok t → marshal_state enc (tn_State t) = Ok data →
  ∃ w', transition (DomainFactStore0 := memory_store enc) (marshal_state enc) c None w
        = (Val (tn_Effects t), w') ∧ state_of w' = tn_State t ∧
        facts_of (w_store w') turnID = facts_of (w_store w) turnID ++
          transition_facts turnID (co_nextFact (w_coordinator w)) c (sha256_digest data) t.
Proof.
  intros H Hb Hm Ht Hd. pose proof (memory_store_laws enc) as Hlaws.
  destruct (lifetime_consistent (DomainFactStore0 := memory_store enc) _ _ _ _ H)
    as (Hid & facts & cs & Hl & Hh & Hn & _).
  cbn in Hl. injection Hl as <-. set (facts := facts_of (w_store w) turnID) in *.
  pose proof (history_step _ turnID s0 facts _ cs c t data Hh Ht Hd) as Hh'. rewrite <- Hn in Hh'.
  destruct (append_accepted enc turnID (w_store w)
    (transition_facts turnID (co_nextFact (w_coordinator w)) c (sha256_digest data) t)) as (s' & Ha & Hf & _).
  - done.
  - apply transition_facts_ne.
  - done.
  - by eapply history_chain.
  - by eapply history_named.
  - unfold transition. rewrite Ht, (proj2 (digestValidated_Ok _ _ _ _) (conj Hd eq_refl)). cbv zeta.
    lazymatch goal with |- context [default defaultCommit None ?b ?s] =>
      change (default defaultCommit None b s) with
        (MemoryAppendDomainFacts enc (fb_TurnID b) (fb_ExpectedNext b) (fb_Facts b) s) end.
    cbn [fb_TurnID fb_ExpectedNext fb_Facts]. rewrite Hid. unfold facts in Hn. rewrite <- Hn in Ha.
    rewrite Ha.
    eexists. split; [reflexivity|]. done.
Qed.

Theorem reference_store_accepts_witness :
  ∃ t (w' : Desk), transition (marshal_state plain) (CancelRequested "stop") None desk_waiting
                   = (Val (tn_Effects t), w') ∧ state_of w' = tn_State t.
Proof.
  destruct (is_ok_Ok (Apply (state_of desk_waiting) (CancelRequested "stop"))) as [t E]; [by vm_compute|].
  exists t. edestruct (reference_store_accepts plain "t1" answer_start desk_waiting (CancelRequested "stop") t)
    as (w' & H1 & H2 & _); [exact desk_waiting_life|by vm_compute|by vm_compute|exact E|reflexivity|].
  exists w'. split; [exact H1|exact H2].
Defined.

(** C15: what replays is exactly a chain: a log is accepted if and only if it is not empty,
    does not start at zero, numbers its facts consecutively, and every fact is of this
    turn with a valid state under its own digest; what a crash leaves, any non-empty prefix
    of an accepted log, is accepted, and replays to its last state. *)
Theorem replay_accepts_chains marshal turnID facts :
  (ValidateDomainFacts marshal turnID facts = Ok tt ↔
   ∃ first, head facts = Some first ∧ df_Sequence first ≠ 0 ∧
            Chain marshal turnID (df_Sequence first) facts) ∧
  (∀ prefix rest tail, facts = prefix ++ rest → last prefix = Some tail →
     ValidateDomainFacts marshal turnID facts = Ok tt →
     ∃ data, replayDomainFacts marshal turnID prefix = Ok (df_State tail, df_StateDigest tail, data)).
Proof.
  assert (Hv : ∀ l, ValidateDomainFacts marshal turnID l = Ok tt ↔
    ∃ first, head l = Some first ∧ df_Sequence first ≠ 0 ∧ Chain marshal turnID (df_Sequence first) l).
  { intros l. unfold ValidateDomainFacts. rewrite bind_Ok. split.
    - intros ([[s d] data] & (f & t & ? & _ & ? & ? & _)%replay_Ok & _). by exists f.
    - intros (f & Hf & Hs & Hc). destruct l as [|f' l]; [done|].
      destruct (exists_last (l := f' :: l)) as (l' & tail & Hl); [done|].
      destruct (Hc (length l') tail) as (_ & _ & _ & data & Hm & Hd).
      { by rewrite Hl, lookup_app_r, Nat.sub_diag by lia. }
      exists (df_State tail, df_StateDigest tail, data). split; [|done]. apply replay_Ok.
      exists f, tail. rewrite Hl, last_snoc, <- Hl. done. }
  split; [apply Hv|]. intros prefix rest tail -> Hlast (first & Hf & Hs & Hc)%Hv.
  apply Chain_app in Hc as [Hc _].
  rewrite last_lookup in Hlast. destruct (Hc _ _ Hlast) as (_ & _ & _ & data & Hm & _). exists data.
  apply replay_Ok. exists first, tail. rewrite last_lookup. split_and!; try done.
  by destruct prefix.
Qed.

(** ** The registry of effects *)

(** C16: the registry follows the kernel: after any legal calls from a world whose
    registry follows it, the lock is free, every pending effect of the published state is
    routed and its entry shows the same effect with the same status and attempt, and
    every entry is of an effect the turn issued. *)
Theorem registry_follows_kernel {St} `{!DomainFactStore St} marshal fuel K (HK : (1 ≤ K)%nat)
    cs (w w' : RoutedWorld St) :
  Routes K None w → calls marshal fuel K cs w w' →
  dd_locked (w_dispatcher w') = false ∧
  (∀ id e, st_PendingEffects (state_of w') !! id = Some e →
     ∃ entry, routed w' !! id = Some entry ∧ rt_effect entry = e ∧
       (rt_started entry = true ↔ ef_Status e = EffectRunning)) ∧
  (∀ id entry, routed w' !! id = Some entry →
     ef_ID (rt_effect entry) = id ∧ RoutedEffect (ef_Kind (rt_effect entry)) = true ∧
     (is_Some (st_PendingEffects (state_of w') !! id) ∨
      is_Some (st_CompletedEffects (state_of w') !! id))).
Proof.
  intros HR Hc. destruct (calls_routes marshal fuel K HK _ _ _ Hc HR) as (Hl & Hf).
  split_and!; [done|intros id e He|intros id entry Hid].
  - destruct (fo_pending _ _ _ _ Hf id e He) as (entry & Hr & Hs1 & Hs2). exists entry.
    split_and!; [done..|]. rewrite Hs2, bool_decide_eq_true. done.
  - by destruct (fo_entries _ _ _ _ Hf id entry Hid) as (? & ? & ? & _).
Qed.

Theorem registry_follows_kernel_witness :
  ∃ entry, routed desk_running !! effect_1 = Some entry ∧ rt_started entry = true.
Proof.
  destruct (registry_follows_kernel (marshal_state plain) 0 4 ltac:(lia) desk_calls desk_new desk_running
    desk_new_routes desk_calls_running) as (_ & Hp & _).
  destruct desk_running_effect as (e & He & Hst). destruct (Hp _ _ He) as (entry & Hr & _ & Hs).
  exists entry. split; [exact Hr|by apply Hs].
Defined.

(** C17: calls come back: with a registry that follows the kernel no call ever blocks on
    the dispatcher's lock, although operations submit commands while they hold it, and
    one level of nested submission is enough for every legal call. *)
Theorem calls_come_back {St} `{!DomainFactStore St} marshal fuel K (HK : (1 ≤ K)%nat)
    cs c (w w' : RoutedWorld St) :
  Routes K None w → calls marshal fuel K cs w w' → legal K c → room K c w' →
  ∃ w'', perform marshal fuel c w' = (Val tt, w'') ∨ ∃ e, perform marshal fuel c w' = (Fail e, w'').
Proof.
  intros HR Hc Hl Hr. pose proof (calls_routes marshal fuel K HK _ _ _ Hc HR) as HR'.
  destruct (perform_ends marshal fuel K HK c w' HR' Hl Hr) as (o & w'' & -> & Ho & _).
  exists w''. destruct o as [[]|e| |]; [by left|right; by exists e|done|done].
Qed.

Theorem calls_come_back_witness :
  ∃ w, perform (marshal_state plain) 0 (CallResolve bad_hello) desk_running = (Val tt, w) ∨
       ∃ e, perform (marshal_state plain) 0 (CallResolve bad_hello) desk_running = (Fail e, w).
Proof.
  apply (calls_come_back (marshal_state plain) 0 4 ltac:(lia) desk_calls (CallResolve bad_hello)
    desk_new desk_running desk_new_routes desk_calls_running); [cbn; lia|by vm_compute].
Defined.

(** C18: resolving a started effect submits the first result it was given, whatever the
    call brings. An accepted result completes the effect in the kernel and removes the
    entry; a failed journal operation is requested again with its error; a refused result
    is retained for the next call. *)
Theorem resolve_outcome {St} `{!DomainFactStore St} marshal fuel K (HK : (1 ≤ K)%nat)
    command (w : RoutedWorld St) entry o w' :
  Routes K None w → (command_requests command ≤ K)%nat →
  st_NextEffectSequence (state_of w) + Z.of_nat K < 2 ^ 64 →
  resultEffectID command ≠ "" → routed w !! resultEffectID command = Some entry →
  rt_started entry = true → Resolve (Submit marshal (S fuel)) command w = (o, w') →
  Routes K None w' ∧
  resolution (resultEffectID command) (default command (rt_result entry)) o w'.
Proof.
  intros HR Hk Hs Hne He Hst Hres.
  destruct (within_resolve marshal fuel K HK command _ Hk w (conj HR eq_refl)) as (o' & w1 & E & _ & _ & HR' & H).
  { rewrite Nat.mul_1_l. exact Hs. }
  rewrite E in Hres. injection Hres as <- <-. split; [exact HR'|]. apply H; [done|done|by left].
Qed.

Theorem resolve_outcome_witness :
  ∃ e w, Resolve submit_plain bad_hello desk_running = (Fail e, w) ∧ retains effect_1 bad_hello w.
Proof.
  destruct desk_refuses as [e He]. destruct (Resolve submit_plain bad_hello desk_running) as [o w] eqn:E.
  cbn [fst] in He. subst o. exists e, w. split; [reflexivity|].
  destruct desk_running_entry as (entry & Hentry & Hst & Hr).
  destruct (resolve_outcome (marshal_state plain) 0 4 ltac:(lia) bad_hello desk_running entry (Fail e) w
    desk_running_routes) as [_ H]; [cbn; lia|by vm_compute|discriminate|exact Hentry|exact Hst|exact E|].
  rewrite Hr in H. exact H.
Defined.

(** C19: a successful restart routes every pending effect once, unstarted and requested
    again with its attempt and payload, and nothing else: the running effects of the
    stopped process are put back. *)
Theorem restart_routes_pending {St} `{!DomainFactStore St} marshal fuel K turnID (store : St)
    facts s digest data (w : RoutedWorld St) :
  LoadDomainFacts turnID store = Ok facts →
  replayDomainFacts marshal turnID facts = Ok (s, digest, data) →
  EffectLedger.Inv (EffectLedger.of_state s) → st_NextEffectSequence s + 1 < 2 ^ 64 →
  RestoreTurnCoordinator marshal (S fuel) turnID store NewDurableEffectDispatcher = (Val tt, Some w) →
  Routes K None w ∧
  st_PendingEffects (state_of w) = set_ef_Status EffectRequested <$> st_PendingEffects s ∧
  routed w = (λ e, mkRoutedEffect (set_ef_Status EffectRequested e) false None false)
               <$> st_PendingEffects s.
Proof.
  intros Hl Hr Hinv Hs. unfold RestoreTurnCoordinator. destruct (turnID == ""); [done|].
  rewrite Hl. change (Ok ?x ≫= ?f) with (f x). cbv beta. rewrite Hr.
  change (Ok ?x ≫= ?f) with (f x). cbv iota beta zeta. intros H.
  destruct (resume_cases marshal fuel K s (mkTurnCoordinator turnID s
    (u64 (default 0 (df_Sequence <$> last facts) + 1)) digest data None) store eq_refl Hs Hinv)
    as (o & w' & Hres & HQ).
  rewrite Hres in H. injection H as -> ->. by apply HQ.
Qed.

Theorem restart_routes_pending_witness :
  ∃ w : Desk, routed w !! effect_1 ≠ None ∧ Routes 4 None w.
Proof.
  destruct desk_restores as [w E]. destruct desk_replays as (digest & data & Hr). exists w.
  destruct (restart_routes_pending (marshal_state plain) 0 4 "t1" (w_store desk_running)
    (facts_of (w_store desk_running) "t1") (state_of desk_running) digest data w) as (HR & _ & Hw);
    [reflexivity|exact Hr|exact (fo_ledger _ _ _ _ (proj2 desk_running_routes))|by vm_compute|exact E|].
  split; [|exact HR]. rewrite Hw, lookup_fmap. destruct desk_running_effect as (e & -> & _). discriminate.
Defined.

(** ** The terminal envelope *)

(** C20: a terminal commit is final: after it, and after any later calls of the store, the
    turn loads the committed envelope with the same marker and facts, the same
    envelope commits again with the same marker and changes nothing, any other is refused as a
    conflict, and no fact is appended to the turn. *)
Theorem terminal_commit_is_final enc e s s1 s2 m :
  StoreInv enc s → CommitTerminal enc e s = (Ok m, s1) → rtc (store_step enc) s1 s2 →
  (∃ e', LoadTerminal (te_TurnID e) s2 = Ok (e', m) ∧ facts_of s2 (te_TurnID e) = te_DomainFacts e' ∧
     validateTerminalEnvelope enc e' = Ok (mk_Digest m)) ∧
  CommitTerminal enc e s2 = (Ok m, s2) ∧
  (∀ e2 digest, te_TurnID e2 = te_TurnID e → validateTerminalEnvelope enc e2 = Ok digest →
     digest ≠ mk_Digest m ∨ te_EffectID e2 ≠ mk_EffectID m →
     CommitTerminal enc e2 s2 = (Err ErrTerminalEnvelopeConflict, s2)) ∧
  (∀ next facts, ∃ cause,
     MemoryAppendDomainFacts enc (te_TurnID e) next facts s2 = (Err cause, s2)).
Proof.
  intros Hinv Hc Hs. destruct (commit_committed _ _ _ _ _ Hinv Hc) as (e' & Hcom & Hv & Hid).
  destruct (committed_steps _ _ _ _ _ _ Hs Hcom) as [[He Hm Hf Ht Hv' Hef _] _].
  split_and!.
  - exists e'. unfold LoadTerminal, facts_of. by rewrite He, Hm, Hf.
  - unfold CommitTerminal, terminal_marker. rewrite <- Hv, Hv'. change (Ok ?x ≫= ?f) with (f x).
    cbv beta. rewrite Hm, Hef, Hid. rewrite !String.eqb_refl. done.
  - intros e2 digest Ht2 Hv2 Hne. unfold CommitTerminal, terminal_marker. rewrite Hv2.
    change (Ok ?x ≫= ?f) with (f x). cbv beta. rewrite Ht2, Hm.
    destruct (_ && _) eqn:E; [|done]. apply andb_true_iff in E as (H1%String.eqb_eq & H2%String.eqb_eq).
    by destruct Hne.
  - intros next facts. unfold MemoryAppendDomainFacts.
    destruct (appended _ _ _ _ _) as [l|cause] eqn:E; [|by exists cause].
    apply appended_Ok in E as (_ & _ & Hn & _). congruence.
Qed.

Theorem terminal_commit_is_final_witness :
  CommitTerminal plain (ending "terminal") store_committed = (Ok marker_committed, store_committed) ∧
  CommitTerminal plain (ending "other") store_committed = (Err ErrTerminalEnvelopeConflict, store_committed).
Proof.
  destruct (terminal_commit_is_final plain (ending "terminal") (w_store desk_ending) store_committed
    store_committed marker_committed desk_ending_open ending_commits) as (_ & Hsame & Hother & _);
    [reflexivity|]. split; [exact Hsame|].
  destruct (is_ok_Ok (validateTerminalEnvelope plain (ending "other"))) as [d E]; [by vm_compute|].
  apply (Hother (ending "other") d eq_refl E). right. by vm_compute.
Defined.

(** C21: a terminal commit is atomic: whatever fault is injected at whatever stage, it
    either fails and leaves the whole store as it was, or the envelope, its facts and
    its marker are stored together and no other turn changes; a fault of any stage makes a
    first commit fail. *)
Theorem terminal_commit_is_atomic enc e s r s' :
  StoreInv enc s → CommitTerminal enc e s = (r, s') →
  ((∃ cause, r = Err cause ∧ s' = s) ∨
   (∃ m e', r = Ok m ∧ Committed enc s' (te_TurnID e) e' m ∧
      ∀ turn, turn ≠ te_TurnID e →
        facts_of s' turn = facts_of s turn ∧ LoadTerminal turn s' = LoadTerminal turn s)) ∧
  (∀ f stage cause, ms_inject s = Some f → f stage = Err cause →
     ms_markers s !! te_TurnID e = None → is_ok r = false).
Proof.
  intros Hinv Hc. split.
  - destruct r as [m|cause].
    + right. destruct (commit_committed _ _ _ _ _ Hinv Hc) as (e' & Hcom & _). exists m, e'.
      split_and!; [done..|]. intros turn Hne. unfold CommitTerminal in Hc.
      destruct (terminal_marker _ _ _) as [[m' []]|]; injection Hc as _ <-; try done.
      unfold facts_of, LoadTerminal. cbn. by rewrite !lookup_insert_ne.
    + left. exists cause. split; [done|]. unfold CommitTerminal in Hc.
      by destruct (terminal_marker _ _ _) as [[m' []]|]; injection Hc.
  - intros f stage cause Hi Hf Hm. destruct r as [m|]; [exfalso|done]. unfold CommitTerminal in Hc.
    destruct (terminal_marker _ _ _) as [[m' b]|] eqn:E; [|done]. unfold terminal_marker in E.
    apply bind_Ok in E as (d & _ & E). rewrite Hm, !then_Ok, Hi, iterM_Ok, Forall_forall in E.
    destruct E as (_ & Hall & _). specialize (Hall stage ltac:(destruct stage; set_solver)).
    cbn in Hall. by rewrite Hf in Hall.
Qed.

Theorem terminal_commit_is_atomic_witness :
  ∃ cause, CommitTerminal plain (ending "terminal") failing_store = (Err cause, failing_store).
Proof.
  destruct (CommitTerminal plain (ending "terminal") failing_store) as [r s'] eqn:E.
  pose proof (terminal_commit_is_atomic plain (ending "terminal") failing_store r s' failing_store_open E) as H.
  destruct H as [[(cause & Hr & Hs)|(m & e' & Hr & _)] Hfault].
  - exists cause. exact (f_equal2 pair Hr Hs).
  - specialize (Hfault _ StageOutbox (ErrText "disk") eq_refl eq_refl eq_refl).
    rewrite Hr in Hfault. discriminate Hfault.
Defined.

(** The outbox of a committed turn is published entry by entry, all or nothing: a call
    that names an unknown entry is refused and changes nothing, any other leaves pending
    exactly the entries it does not name, in order, and no later call of the store
    brings an entry back. *)
Theorem outbox_published_once enc turnID e m ids s r s' s2 :
  Committed enc s turnID e m → MarkOutboxPublished turnID ids s = (r, s') →
  rtc (store_step enc) s' s2 →
  (is_ok r = true ↔ ids ⊆ ox_ID <$> te_Outbox e) ∧ (is_ok r = false → s' = s) ∧
  (is_ok r = true →
     PendingOutbox turnID s' = Ok (filter (λ x, ox_ID x ∉ ids) (unpublished s turnID e)) ∧
     ∃ later, PendingOutbox turnID s2 = Ok later ∧
       ∀ x, x ∈ later → x ∈ unpublished s turnID e ∧ ox_ID x ∉ ids).
Proof.
  intros Hc Hmark Hsteps. pose proof (cm_envelope _ _ _ _ _ Hc) as He.
  pose proof (mark_accepts turnID e ids s He) as Hacc. rewrite Hmark in Hacc. cbn in Hacc.
  rewrite Hacc. split; [by rewrite bool_decide_eq_true|]. rewrite <- Hacc. split.
  - unfold MarkOutboxPublished in Hmark. rewrite He in Hmark.
    destruct (iterM _ _); injection Hmark as <- <-; done.
  - destruct r as [[]|]; [intros _|done]. pose proof (mark_pending _ _ _ _ _ He Hmark) as Hp.
    split; [exact Hp|].
    destruct (committed_step _ _ _ _ _ _ (step_publish enc _ _ _ _ _ Hmark) Hc) as [Hc1 _].
    destruct (committed_steps _ _ _ _ _ _ Hsteps Hc1) as [Hc2 Hsub].
    exists (unpublished s2 turnID e). unfold PendingOutbox at 1.
    rewrite (cm_envelope _ _ _ _ _ Hc2). split; [done|]. intros x Hx.
    assert (Hx' : x ∈ unpublished s' turnID e).
    { apply list_elem_of_filter in Hx as [Hn Hx]. apply list_elem_of_filter. split; [|done].
      intros Hin. apply Hn. by apply Hsub. }
    unfold PendingOutbox in Hp. rewrite (cm_envelope _ _ _ _ _ Hc1) in Hp. injection Hp as Hp.
    rewrite Hp in Hx'. apply list_elem_of_filter in Hx' as [? ?]. done.
Qed.

Theorem outbox_published_once_witness :
  ∃ s', MarkOutboxPublished "t1" ["a"] store_committed = (Ok tt, s') ∧
        PendingOutbox "t1" s' = Ok [ending_entry "b"].
Proof.
  destruct store_committed_turn as (e & Hc & Ho).
  destruct (MarkOutboxPublished "t1" ["a"] store_committed) as [r s'] eqn:E.
  destruct (outbox_published_once plain "t1" e marker_committed ["a"] store_committed r s' s' Hc E)
    as (Hok & _ & Hp); [reflexivity|]. rewrite Ho in Hok.
  assert (Hr : is_ok r = true) by (apply Hok; intros x ->%list_elem_of_singleton; by left). exists s'.
  destruct (Hp Hr) as [HP _]. split; [by destruct r as [[]|]|].
  rewrite HP. unfold unpublished. rewrite Ho. by vm_compute.
Defined.
