(* ===== verification/Paths.v ===== *)
(** [path], [path/filepath] on Unix and the rest of [strings] that the security
    packages use: lexical cleaning, joining and relating of slash-separated
    paths, and [path.Match]. *)
From S2P Require Import Prelude.
From S2P Require Import GoStrings.
From S2P Require Import Json.

(** ** strings *)

Definition slash : ascii := "/"%char.
Arguments slash : simpl never.

(** [strings.Split(s, "/")]: one element more than there are slashes. *)
Fixpoint split_slash (s : string) : list string :=
  match s with
  | EmptyString => [""]
  | String a s =>
      if Ascii.eqb a slash then "" :: split_slash s else
      match split_slash s with
      | x :: l => String a x :: l
      | [] => [String a ""]
      end
  end.

Fixpoint trim_slashes_left (s : string) : string :=
  match s with
  | String a s' => if Ascii.eqb a slash then trim_slashes_left s' else s
  | EmptyString => s
  end.

Fixpoint trim_slashes_right (s : string) : string :=
  match s with
  | String a s =>
      match trim_slashes_right s with
      | EmptyString => if Ascii.eqb a slash then "" else String a ""
      | t => String a t
      end
  | EmptyString => ""
  end.

(** [strings.Trim(s, "/")]. *)
Definition trim_slashes (s : string) : string := trim_slashes_right (trim_slashes_left s).

Definition has_suffix (s suf : string) : bool := has_prefix (string_rev s) (string_rev suf).

Fixpoint drop_bytes (n : nat) (s : string) : string :=
  match n, s with
  | S n, String _ s => drop_bytes n s
  | _, _ => s
  end.

Definition trim_prefix (s pre : string) : string :=
  if has_prefix s pre then drop_bytes (String.length pre) s else s.

Definition trim_suffix (s suf : string) : string :=
  if has_suffix s suf then String.substring 0 (String.length s - String.length suf) s else s.

(** [strings.Contains(s, string(a))]. *)
Definition has_byte (s : string) (a : ascii) : bool :=
  existsb (Ascii.eqb a) (String.list_ascii_of_string s).

(** [strings.EqualFold(s, t)] for an ASCII [t]. *)
Definition equal_fold (s t : string) : bool := same_field t s.

(** ** filepath *)

(** [filepath.IsAbs] on Unix. *)
Definition is_abs (s : string) : bool := has_prefix s "/".

(** One path element met by [filepath.Clean]; the output is kept reversed. *)
Definition clean_step (rooted : bool) (out : list string) (segment : string) : list string :=
  if (segment == "") || (segment == ".") then out
  else if segment == ".." then
    match out with
    | [] => if rooted then [] else [".."]
    | top :: rest => if top == ".." then ".." :: out else rest
    end
  else segment :: out.

(** The elements of the cleaned path. *)
Definition clean_segments (s : string) : list string :=
  rev (foldl (clean_step (is_abs s)) [] (split_slash s)).

Definition unsplit (rooted : bool) (segments : list string) : string :=
  if rooted then "/" +:+ join "/" segments
  else match segments with [] => "." | _ => join "/" segments end.

(** [filepath.Clean]. *)
Definition clean (s : string) : string := unsplit (is_abs s) (clean_segments s).

(** [filepath.Join(a, b)]: empty elements are ignored. *)
Definition path_join (a b : string) : string :=
  if a == "" then (if b == "" then "" else clean b)
  else clean (if b == "" then a else a +:+ "/" +:+ b).

(** [filepath.Rel] of two absolute paths, which always succeeds. *)
Fixpoint rel_segments (base target : list string) : list string :=
  match base, target with
  | b :: base', t :: target' =>
      if b == t then rel_segments base' target' else replicate (length base) ".." ++ target
  | _, _ => replicate (length base) ".." ++ target
  end.

Definition rel_abs (base target : string) : string :=
  unsplit false (rel_segments (clean_segments base) (clean_segments target)).

(** [filepath.Base]. *)
Definition base_name (s : string) : string :=
  if s == "" then "."
  else match rev (filter (λ x, (x != "") = true) (split_slash s)) with
       | [] => "/"
       | x :: _ => x
       end.

(** ** path.Match *)

(** A rune of a text with the bytes that spell it; [None] is an invalid byte. *)
Definition rune : Type := option Z * list Z.

Fixpoint decode_runes (fuel : nat) (l : list Z) : list rune :=
  match fuel, l with
  | S fuel, _ :: _ =>
      let '(r, w) := decode_rune l in (r, take w l) :: decode_runes fuel (drop w l)
  | _, _ => []
  end.

Definition runes (s : string) : list rune := let l := bytes s in decode_runes (length l) l.

(** What a pattern asks of a name between two stars. *)
Inductive token :=
  | TLit (b : Z)
  | TAny
  | TClass (negated : bool) (ranges : list (Z * Z)).

(** Where the parser of a chunk stands. *)
Inductive parsing :=
  | Plain
  | Escaped
  | ClassOpen
  | ClassLo (negated : bool) (ranges : list (Z * Z))
  | ClassLoEsc (negated : bool) (ranges : list (Z * Z))
  | ClassDash (negated : bool) (ranges : list (Z * Z)) (lo : Z)
  | ClassHi (negated : bool) (ranges : list (Z * Z)) (lo : Z)
  | ClassHiEsc (negated : bool) (ranges : list (Z * Z)) (lo : Z).

Definition literal (r : rune) : list token := TLit <$> r.2.

(** The syntax check of [matchChunk]: the tokens of a chunk, or [ErrBadPattern]. *)
Fixpoint tokens (st : parsing) (l : list rune) : option (list token) :=
  match l with
  | [] => match st with Plain => Some [] | _ => None end
  | r :: l =>
      let c := default (-1) r.1 in
      let lo neg ranges :=
        if (c =? 45) || (c =? 93) || (c =? -1) then None
        else if c =? 92 then tokens (ClassLoEsc neg ranges) l
        else tokens (ClassDash neg ranges c) l in
      match st with
      | Plain =>
          if c =? 91 then tokens ClassOpen l
          else if c =? 63 then (TAny ::.) <$> tokens Plain l
          else if c =? 92 then tokens Escaped l
          else (literal r ++.) <$> tokens Plain l
      | Escaped => (literal r ++.) <$> tokens Plain l
      | ClassOpen => if c =? 94 then tokens (ClassLo true []) l else lo false []
      | ClassLo neg ranges =>
          if (c =? 93) && bool_decide (ranges ≠ [])
          then (TClass neg ranges ::.) <$> tokens Plain l
          else lo neg ranges
      | ClassLoEsc neg ranges => if c =? -1 then None else tokens (ClassDash neg ranges c) l
      | ClassDash neg ranges x =>
          if c =? 45 then tokens (ClassHi neg ranges x) l
          else if c =? 93 then (TClass neg (ranges ++ [(x, x)]) ::.) <$> tokens Plain l
          else lo neg (ranges ++ [(x, x)])
      | ClassHi neg ranges x =>
          if (c =? 45) || (c =? 93) || (c =? -1) then None
          else if c =? 92 then tokens (ClassHiEsc neg ranges x) l
          else tokens (ClassLo neg (ranges ++ [(x, c)])) l
      | ClassHiEsc neg ranges x =>
          if c =? -1 then None else tokens (ClassLo neg (ranges ++ [(x, c)])) l
      end
  end.

(** [matchChunk] on a well-formed chunk: what is left of the name. *)
Fixpoint run_tokens (ts : list token) (s : list Z) : option (list Z) :=
  match ts with
  | [] => Some s
  | t :: ts =>
      match s with
      | [] => None
      | b :: s' =>
          let '(r, w) := decode_rune s in
          match t with
          | TLit c => if b =? c then run_tokens ts s' else None
          | TAny => if b =? 47 then None else run_tokens ts (drop w s)
          | TClass negated ranges =>
              let r := default 0xFFFD r in
              let hit := existsb (λ '(lo, hi), (lo <=? r) && (r <=? hi)) ranges in
              if Bool.eqb hit negated then None else run_tokens ts (drop w s)
          end
      end
  end.

(** [scanChunk] repeated: the chunks of a pattern, each with the flag that a
    star precedes it. [cur] is the chunk read so far, reversed. *)
Fixpoint scan_chunks (p : list rune) (star : bool) (cur : list rune) (inrange : bool) :
    list (bool * list rune) :=
  match p with
  | [] => if star || bool_decide (cur ≠ []) then [(star, rev cur)] else []
  | r :: p =>
      let c := default (-1) r.1 in
      if c =? 42 then
        match cur with
        | [] => scan_chunks p true [] inrange
        | _ => if inrange then scan_chunks p star (r :: cur) inrange
               else (star, rev cur) :: scan_chunks p true [] false
        end
      else if c =? 92 then
        match p with
        | [] => [(star, rev (r :: cur))]
        | e :: p => scan_chunks p star (e :: r :: cur) inrange
        end
      else if c =? 91 then scan_chunks p star (r :: cur) true
      else if c =? 93 then scan_chunks p star (r :: cur) false
      else scan_chunks p star (r :: cur) inrange
  end.

(** The loop that lets a star skip bytes of the name, but no slash. *)
Fixpoint skip_match (ts : list token) (last : bool) (name : list Z) : option (list Z) :=
  match name with
  | [] => None
  | b :: name =>
      if b =? 47 then None else
      match run_tokens ts name with
      | Some t => if last && bool_decide (t ≠ []) then skip_match ts last name else Some t
      | None => skip_match ts last name
      end
  end.

Fixpoint match_chunks (chunks : list (bool * list token)) (name : list Z) : bool :=
  match chunks with
  | [] => bool_decide (name = [])
  | (star, ts) :: rest =>
      let last := bool_decide (rest = []) in
      if star && bool_decide (ts = []) then negb (existsb (Z.eqb 47) name)
      else
        let here := match run_tokens ts name with
                    | Some t => if last && bool_decide (t ≠ []) then None else Some t
                    | None => None
                    end in
        match here, (if star then skip_match ts last name else None) with
        | Some t, _ => match_chunks rest t
        | None, Some t => match_chunks rest t
        | None, None => false
        end
  end.

(** The chunks with their tokens; [None] is [ErrBadPattern], which
    [path.Match] reports whatever the name is. *)
Definition parse_glob (p : list rune) : option (list (bool * list token)) :=
  mapM (λ '(star, chunk), (star,.) <$> tokens Plain chunk) (scan_chunks p false [] false).

(** [path.Match]; [None] is [ErrBadPattern]. *)
Definition path_match (pattern name : string) : option bool :=
  (λ chunks, match_chunks chunks (bytes name)) <$> parse_glob (runes pattern).

Example glob_examples :
  path_match "*.go" "main.go" = Some true ∧ path_match "a?c" "abc" = Some true
  ∧ path_match "[a-c]x" "bx" = Some true ∧ path_match "[^a-c]x" "bx" = Some false
  ∧ path_match "\*" "*" = Some true ∧ path_match "\*" "x" = Some false
  ∧ path_match "a*b*c" "axxbyybzzc" = Some true ∧ path_match "a[" "a" = None
  ∧ path_match "a*[]b" "zz" = None ∧ path_match "*" "" = Some true.
Proof. by vm_compute. Qed.

Example path_examples :
  clean "a/../../b//./c/" = "../b/c" ∧ clean "/../a" = "/a" ∧ clean "" = "."
  ∧ path_join "/w" "../x" = "/x" ∧ rel_abs "/w/a" "/w/b/c" = "../b/c" ∧ rel_abs "/w" "/w" = "."
  ∧ rel_abs "/" "/a" = "a" ∧ base_name "/usr/bin/" = "bin" ∧ base_name "/" = "/".
Proof. by vm_compute. Qed.

(** ** Facts *)

Lemma split_slash_cons s : ∃ x l, split_slash s = x :: l.
Proof. induction s as [|a s (x & l & IH)]; cbn; [eauto|]. destruct (Ascii.eqb a slash); rewrite ?IH; eauto. Qed.

Lemma append_cons a s t : String a s +:+ t = String a (s +:+ t).
Proof. done. Qed.

Lemma split_slash_app s t :
  split_slash (s +:+ String slash t) = split_slash s ++ split_slash t.
Proof.
  induction s as [|a s IH]; [done|]. rewrite append_cons; cbn.
  destruct (Ascii.eqb a slash); [by rewrite IH|].
  destruct (split_slash_cons s) as (x & l & E). by rewrite IH, E.
Qed.

(** A path element has no slash. *)
Definition no_slash (s : string) : Prop := has_byte s slash = false.

Lemma split_no_slash s : no_slash s → split_slash s = [s].
Proof.
  unfold no_slash, has_byte. induction s as [|a s IH]; cbn; [done|].
  intros [Ha Hs]%orb_false_iff. rewrite Ascii.eqb_sym, Ha, IH by done. done.
Qed.

Lemma split_slash_no_slash s : Forall no_slash (split_slash s).
Proof.
  unfold no_slash, has_byte. induction s as [|a s IH]; cbn; [by repeat constructor|].
  destruct (Ascii.eqb a slash) eqn:Ha; [by constructor|].
  destruct (split_slash_cons s) as (x & l & E). rewrite E in *. inversion_clear IH.
  constructor; [cbn|done]. by rewrite Ascii.eqb_sym, Ha.
Qed.

Lemma join_slash_cons x y l : join "/" (x :: y :: l) = x +:+ String slash (join "/" (y :: l)).
Proof. done. Qed.

Lemma split_join l : Forall no_slash l → l ≠ [] → split_slash (join "/" l) = l.
Proof.
  induction l as [|x [|y l] IH]; [done|..]; intros Hl _; inversion_clear Hl as [|? ? Hx Hl'].
  - cbn. by apply split_no_slash.
  - rewrite join_slash_cons, split_slash_app, split_no_slash by done. by rewrite IH.
Qed.

Lemma split_trim_left s : ∃ n, split_slash s = replicate n "" ++ split_slash (trim_slashes_left s).
Proof.
  induction s as [|a s [n IH]]; cbn; [by exists O|].
  destruct (Ascii.eqb a slash) eqn:E; [|exists O; cbn; by rewrite E].
  exists (S n). cbn. by rewrite IH.
Qed.

Lemma split_trim_right s : ∃ n, split_slash s = split_slash (trim_slashes_right s) ++ replicate n "".
Proof.
  induction s as [|a s [n IH]]; cbn; [by exists O|].
  destruct (trim_slashes_right s) as [|b t] eqn:Et; cbn in IH.
  - destruct (Ascii.eqb a slash) eqn:E; rewrite IH; cbn; rewrite ?E; [by exists (S n)|by exists n].
  - exists n. cbn. destruct (Ascii.eqb b slash) eqn:Eb; rewrite IH.
    + by destruct (Ascii.eqb a slash).
    + destruct (split_slash_cons t) as (x & l & ->). cbn.
      destruct (Ascii.eqb a slash); done.
Qed.

(** Elements that survive cleaning, apart from leading [..]. *)
Definition element (s : string) : bool := (s != "") && (s != ".").

Lemma filter_element_empty n : filter (λ x, element x = true) (replicate n "") = [].
Proof. by induction n. Qed.

Lemma filter_trim s :
  filter (λ x, element x = true) (split_slash (trim_slashes s))
  = filter (λ x, element x = true) (split_slash s).
Proof.
  unfold trim_slashes. destruct (split_trim_left s) as [n ->].
  destruct (split_trim_right (trim_slashes_left s)) as [m ->].
  rewrite !filter_app, !filter_element_empty. cbn. by rewrite app_nil_r.
Qed.

Definition elements_ok (l : list string) : Prop :=
  Forall (λ x, element x = true ∧ no_slash x) l.

Lemma filter_elements l : elements_ok l → filter (λ x, element x = true) l = l.
Proof.
  induction 1 as [|x l [Hx _] _ IH]; [done|]. by rewrite filter_cons_True, IH.
Qed.

Lemma clean_step_ok rooted out s :
  no_slash s → elements_ok out → elements_ok (clean_step rooted out s).
Proof.
  intros Hs Hout. unfold clean_step.
  destruct ((s == "") || (s == ".")) eqn:E; [done|].
  destruct (s == "..") eqn:E2.
  - destruct out as [|top rest]; [destruct rooted; by repeat constructor|].
    destruct (top == ".."); [by constructor|]. by inversion_clear Hout.
  - constructor; [|done]. split; [|done]. unfold element.
    apply orb_false_iff in E as [-> ->]. done.
Qed.

Lemma clean_segments_ok s : elements_ok (clean_segments s).
Proof.
  apply Forall_rev. assert (H : elements_ok []) by constructor. revert H.
  generalize (@nil string). pose proof (split_slash_no_slash s) as Hl.
  induction Hl as [|x l Hx _ IH]; intros out Hout; cbn; [done|].
  apply IH. by apply clean_step_ok.
Qed.

(** Splitting what [unsplit] joined. *)
Lemma filter_unsplit rooted l :
  elements_ok l → filter (λ x, element x = true) (split_slash (unsplit rooted l)) = l.
Proof.
  intros Hl. assert (Hj : filter (λ x, element x = true) (split_slash (join "/" l)) = l).
  { destruct l as [|x l]; [done|]. rewrite split_join; [by apply filter_elements| |done].
    eapply Forall_impl; [exact Hl|]. by intros ? []. }
  unfold unsplit. destruct rooted; [|by destruct l].
  change ("/" +:+ join "/" l) with ("" +:+ String slash (join "/" l)).
  rewrite split_slash_app, filter_app. exact Hj.
Qed.

Lemma split_clean s : filter (λ x, element x = true) (split_slash (clean s)) = clean_segments s.
Proof. apply filter_unsplit, clean_segments_ok. Qed.

Lemma is_abs_cons a s : is_abs (String a s) = Ascii.eqb a slash.
Proof.
  change (is_abs (String a s)) with (if ascii_dec slash a then String.prefix "" s else false).
  destruct (ascii_dec slash a) as [<-|Hn]; [by destruct s|].
  symmetry. apply Ascii.eqb_neq. congruence.
Qed.

(** Cleaning keeps whether a path is absolute. *)
Lemma is_abs_join x l : no_slash x → x ≠ "" → is_abs (join "/" (x :: l)) = false.
Proof.
  intros Hx Hne. destruct x as [|a x]; [done|].
  assert (∃ t, join "/" (String a x :: l) = String a t) as [t ->].
  { destruct l as [|y l]; [by eexists|]. rewrite join_slash_cons, append_cons. by eexists. }
  unfold no_slash, has_byte in Hx. cbn in Hx. apply orb_false_iff in Hx as [Hx _].
  by rewrite is_abs_cons, Ascii.eqb_sym.
Qed.

Lemma is_abs_clean s : is_abs (clean s) = is_abs s.
Proof.
  unfold clean, unsplit. destruct (is_abs s); [by destruct (join "/" (clean_segments s))|].
  pose proof (clean_segments_ok s) as Hs. destruct (clean_segments s) as [|x l]; [done|].
  inversion_clear Hs as [|? ? [Hx Hn] _]. apply is_abs_join; [done|].
  intros ->. done.
Qed.

(** Cleaned paths: [..] only in front, and never of an absolute path. *)
Definition plain (s : string) : Prop := element s = true ∧ no_slash s ∧ s ≠ "..".

Definition normal (rooted : bool) (l : list string) : Prop :=
  ∃ n names, l = replicate n ".." ++ names ∧ Forall plain names ∧ (rooted = true → n = O).

Lemma replicate_snoc {A} n (x : A) : replicate n x ++ [x] = x :: replicate n x.
Proof. induction n as [|n IH]; cbn; [done|]. by rewrite IH. Qed.

Lemma clean_step_plain rooted out s : plain s → clean_step rooted out s = s :: out.
Proof.
  intros ([? ?]%andb_true_iff & _ & ?). unfold clean_step.
  destruct (s == ""), (s == "."); try done. cbn.
  by destruct (String.eqb_spec s "..").
Qed.

Lemma clean_step_normal rooted out s :
  no_slash s → normal rooted (rev out) → normal rooted (rev (clean_step rooted out s)).
Proof.
  intros Hs (n & names & E & Hn & Hr).
  destruct (element s) eqn:He.
  2:{ unfold clean_step. unfold element in He. apply andb_false_iff in He.
      replace ((s == "") || (s == ".")) with true; [by exists n, names|].
      destruct (s == ""), (s == "."); naive_solver. }
  destruct (String.eqb_spec s "..") as [->|Hd].
  2:{ rewrite clean_step_plain by done. cbn. exists n, (names ++ [s]). rewrite E, app_assoc.
      split_and!; [done| |done]. apply Forall_app. split; [done|]. by repeat constructor. }
  unfold clean_step. cbn. destruct out as [|top rest]; cbn in E.
  { destruct rooted; [by exists O, []|]. by exists 1%nat, []. }
  destruct names as [|x names _] using rev_ind.
  - rewrite app_nil_r in E. destruct n as [|n]; [by destruct (rev rest)|].
    change (replicate (S n) "..") with (".." :: replicate n "..") in E.
    rewrite <- replicate_snoc in E. apply app_inj_tail in E as [E ->]. cbn.
    destruct rooted; [by specialize (Hr eq_refl)|].
    exists (S (S n)), []. rewrite E. split_and!; [|done..].
    rewrite app_nil_r, replicate_snoc. cbn. by rewrite replicate_snoc.
  - rewrite app_assoc in E. apply app_inj_tail in E as [E ->].
    apply Forall_app in Hn as [Hn Hx]. inversion_clear Hx as [|? ? (_ & _ & Hx')].
    destruct (String.eqb_spec x ".."); [done|]. by exists n, names.
Qed.

Lemma clean_segments_normal s : normal (is_abs s) (clean_segments s).
Proof.
  unfold clean_segments. generalize (is_abs s). intros rooted.
  assert (H : normal rooted (rev [])) by (by exists O, []). revert H.
  generalize (@nil string). pose proof (split_slash_no_slash s) as Hl.
  induction Hl as [|x l Hx _ IH]; intros out Hout; cbn; [done|].
  apply IH. by apply clean_step_normal.
Qed.

(** Cleaning reads the elements only. *)
Lemma foldl_elements rooted l out :
  foldl (clean_step rooted) out l
  = foldl (clean_step rooted) out (filter (λ x, element x = true) l).
Proof.
  revert out. induction l as [|x l IH]; intros out; [done|]. rewrite filter_cons.
  destruct (decide (element x = true)) as [He|He]; cbn; [apply IH|].
  rewrite <- IH. f_equal. unfold clean_step, element in *.
  destruct (x == ""), (x == "."); cbn in *; done.
Qed.

Lemma foldl_plain rooted names out :
  Forall plain names → foldl (clean_step rooted) out names = rev names ++ out.
Proof.
  intros H. revert out. induction H as [|x l Hx _ IH]; intros out; cbn; [done|].
  rewrite clean_step_plain, IH by done. by rewrite <- app_assoc.
Qed.

Lemma foldl_dots n m :
  foldl (clean_step false) (replicate m "..") (replicate n "..") = replicate (n + m) "..".
Proof.
  revert m. induction n as [|n IH]; intros m; [done|].
  change (foldl (clean_step false) (clean_step false (replicate m "..") "..") (replicate n "..")
          = replicate (S n + m) "..").
  replace (clean_step false (replicate m "..") "..") with (replicate (S m) "..") by (by destruct m).
  rewrite IH. f_equal. lia.
Qed.

Lemma foldl_normal rooted l : normal rooted l → foldl (clean_step rooted) [] l = rev l.
Proof.
  intros (n & names & -> & Hn & Hr). rewrite foldl_app.
  assert (foldl (clean_step rooted) [] (replicate n "..") = replicate n "..") as ->.
  { destruct rooted; [by rewrite Hr by done|].
    etransitivity; [exact (foldl_dots n 0)|]. by rewrite Nat.add_0_r. }
  rewrite foldl_plain by done. rewrite rev_app_distr. f_equal.
  clear. induction n as [|n IH]; cbn; [done|]. by rewrite <- IH, replicate_snoc.
Qed.

Lemma clean_segments_elements s :
  clean_segments s = rev (foldl (clean_step (is_abs s)) [] (filter (λ x, element x = true) (split_slash s))).
Proof. unfold clean_segments. by rewrite foldl_elements. Qed.

(** Cleaning is idempotent. *)
Lemma clean_segments_clean s : clean_segments (clean s) = clean_segments s.
Proof.
  rewrite clean_segments_elements, split_clean, is_abs_clean.
  rewrite foldl_normal by apply clean_segments_normal. apply rev_involutive.
Qed.

(** A path below another one. *)
Definition below (names : list string) : string := join "/" names.

Lemma clean_segments_join value names :
  value ≠ "" → Forall plain names →
  clean_segments (path_join value (below names)) = clean_segments value ++ names
  ∧ is_abs (path_join value (below names)) = is_abs value.
Proof.
  intros Hv Hn. unfold path_join. destruct (String.eqb_spec value "") as [|_]; [done|].
  destruct names as [|x names].
  { cbn. rewrite clean_segments_clean, is_abs_clean, app_nil_r. done. }
  destruct (String.eqb_spec (below (x :: names)) "") as [E|_].
  { inversion_clear Hn as [|? ? (Hx & _ & _) _]. exfalso. unfold below in E.
    destruct names; [cbn in E; by subst|]. rewrite join_slash_cons in E.
    destruct x; [done|]. by rewrite append_cons in E. }
  rewrite clean_segments_clean, is_abs_clean.
  assert (Ha : is_abs (value +:+ "/" +:+ below (x :: names)) = is_abs value).
  { destruct value as [|a v]; [done|]. by rewrite append_cons, !is_abs_cons. }
  split; [|done]. unfold clean_segments. rewrite Ha.
  change ("/" +:+ below (x :: names)) with (String slash (below (x :: names))).
  rewrite split_slash_app, foldl_app. unfold below.
  rewrite split_join; [|by eapply Forall_impl; [exact Hn|]; intros ? (_ & ? & _)|done].
  rewrite foldl_plain by done. by rewrite rev_app_distr, rev_involutive.
Qed.
