(* ===== verification/PathPattern.v ===== *)
(** Path rules of the security policy ([internal/security/policy/pathpattern.go])
    and the protected locations of the workspace
    ([internal/security/pathpolicy]). *)
From S2P Require Import Prelude.
From S2P Require Import GoStrings.
From S2P Require Import Json.
From S2P Require Import Paths.

(** [net/url] is used for one question, whether [url.Parse] accepts a text as
    an absolute URL with a host; its grammar is not modelled. *)
Class UrlSyntax : Type := url_absolute : string → bool.

(** Case mapping of texts that need not be ASCII ([strings.ToUpper], [ToLower],
    [EqualFold]); the Unicode tables behind it are not modelled. *)
Class Unicode : Type := {
  to_upper : string → string;
  to_lower : string → string;
  fold_equal : string → string → bool;
}.

(** ** PathPattern *)

Record PathPattern := mkPathPattern { pp_absolute : bool; pp_segments : list string }.

Definition pathWildcards : string := "*?[\{}".

Definition IsPathPattern `{UrlSyntax} (resource : string) : bool :=
  if url_absolute resource then false
  else has_byte resource slash || has_byte resource "\"%char || (resource == ".")
       || negb (has_byte resource ":"%char).

(** The scan of a segment for brace alternation and for [**] inside it. *)
Fixpoint check_segment (segment : string) (l : list rune) (escaped inClass star : bool) :
    res error unit :=
  match l with
  | [] => Ok tt
  | r :: l =>
      let char := default (-1) r.1 in
      if escaped then check_segment segment l false inClass false
      else if char =? 92 then check_segment segment l true inClass false
      else
        let inClass := if char =? 91 then true else inClass in
        let inClass := if char =? 93 then false else inClass in
        refuse (negb inClass && ((char =? 123) || (char =? 125)))
          (ErrText "brace alternation is unsupported");;
        refuse (negb inClass && (char =? 42) && star)
          (ErrFmt "%q: ** must be a whole path segment" [ArgS segment]);;
        check_segment segment l false inClass (negb inClass && (char =? 42))
  end.

(** One turn of the loop of [CompilePathPattern] over the segments. *)
Definition compile_segment (compiled : PathPattern) (segment : string) : res error PathPattern :=
  if (segment == "") || (segment == ".") then Ok compiled
  else
    (if segment == "**" then Ok tt
     else match path_match segment "" with
          | None => Err (ErrWrap "%q: %w" [ArgS segment] (ErrText "syntax error in pattern"))
          | Some _ => check_segment segment (runes segment) false false false
          end);;
    Ok (mkPathPattern (pp_absolute compiled) (pp_segments compiled ++ [segment])).

Definition CompilePathPattern (pattern : string) : res error PathPattern :=
  refuse (blank pattern) (ErrText "path pattern is empty");;
  foldM compile_segment (split_slash (trim_slashes pattern)) (mkPathPattern (is_abs pattern) []).

(** [range] over a string yields runes; an invalid byte yields U+FFFD. *)
Definition EscapePathPattern (literal : string) : string :=
  fold_right (λ r s,
    (if match r.1 with
        | Some c => existsb (Z.eqb c) (bytes pathWildcards)
        | None => false
        end then "\" else "")
    +:+ of_bytes (match r.1 with Some _ => r.2 | None => rune_error end) +:+ s)
    "" (runes literal).

Fixpoint suffixes {A} (l : list A) : list (list A) :=
  l :: match l with [] => [] | _ :: l => suffixes l end.

Fixpoint matchPrefix (pattern segments : list string) (tree : bool) : bool :=
  match pattern with
  | [] => true
  | p :: pattern =>
      if tree && bool_decide (segments = []) then true
      else if p == "**" then existsb (λ rest, matchPrefix pattern rest tree) (suffixes segments)
      else match segments with
           | [] => false
           | s :: segments =>
               match path_match p s with
               | Some true => matchPrefix pattern segments tree
               | _ => false
               end
           end
  end.

Definition pattern_match (p : PathPattern) (value : string) (tree : bool) : bool :=
  let value := clean value in
  if Bool.eqb (is_abs value) (pp_absolute p)
  then matchPrefix (pp_segments p)
         (filter (λ x, element x = true) (split_slash (trim_slashes value))) tree
  else false.

Definition Match (p : PathPattern) (value : string) : bool := pattern_match p value false.
Definition IntersectsTree (p : PathPattern) (value : string) : bool := pattern_match p value true.

Definition validateRuleResource `{UrlSyntax} (resource : string) : res error unit :=
  if (resource == "") || (resource == "*") || negb (IsPathPattern resource) then Ok tt
  else CompilePathPattern resource;; Ok tt.

(** ** The control plane *)

Definition controlPlaneNames : list string := [".agents"; ".codex"; ".git"; ".qcode"; ".qcode-worktree"].

(** The canonical control-plane name a component spells. *)
Definition ControlPlaneName (component : string) : option string :=
  list_find (λ name, equal_fold component name = true) controlPlaneNames ≫= λ x, Some x.2.

Record ControlPlaneClassification := mkClassification { cp_Root : string; cp_Relative : string }.

(** A classifier is its canonical workspace root. *)
Definition ControlPlaneWithin (root : string) : res error string :=
  if negb (is_abs root) || (clean root != root)
  then Err (ErrFmt "control-plane workspace %q is not a canonical absolute path" [ArgS root])
  else Ok root.

Definition outside (relative : string) : bool := (relative == "..") || has_prefix relative "../".

Definition pathComponents (relative : string) : list string :=
  if (relative == ".") || (relative == "") then [] else split_slash (clean relative).

(** [Classify]: the classification and whether the path is protected. *)
Definition Classify (workspace path : string) : res error (ControlPlaneClassification * bool) :=
  let absolute := clean (if is_abs path then path else path_join workspace path) in
  let relative := rel_abs workspace absolute in
  if outside relative then Err (ErrFmt "path %q is outside workspace" [ArgS path])
  else match omap ControlPlaneName (pathComponents relative) with
       | name :: _ => Ok (mkClassification name relative, true)
       | [] => Ok (mkClassification "" relative, false)
       end.

Definition ErrProtectedPath : error := ErrText "security control-plane path is protected".

Definition CheckWrite (workspace path : string) (tree : bool) : res error unit :=
  '(classification, protected) ← Classify workspace path;
  let relative := cp_Relative classification in
  refuse protected (ErrWrap "%w: %s (%s)" [ArgS (cp_Root classification); ArgS relative] ErrProtectedPath);;
  refuse (tree && ((relative == ".") || (relative == "")))
    (ErrWrap "%w: unbounded workspace tree write %s" [ArgS relative] ErrProtectedPath).

(** ** Credential locations *)

Inductive Anchor := AnchorHome | AnchorAnywhere.

Record CredentialLocation := mkCredentialLocation {
  cl_Anchor : Anchor;
  cl_Segments : list string;
  cl_Owner : string;
}.

Definition credentialLocations : list CredentialLocation := [
  mkCredentialLocation AnchorAnywhere [".ssh"] "OpenSSH";
  mkCredentialLocation AnchorAnywhere [".gnupg"] "GnuPG";
  mkCredentialLocation AnchorAnywhere ["keychains"] "macOS Keychain Services";
  mkCredentialLocation AnchorAnywhere ["credentials"] "generic credential directory";
  mkCredentialLocation AnchorAnywhere ["secrets"] "generic secret directory";
  mkCredentialLocation AnchorAnywhere [".kube"] "kubectl";
  mkCredentialLocation AnchorAnywhere [".docker"] "Docker CLI";
  mkCredentialLocation AnchorAnywhere [".azure"] "Azure CLI";
  mkCredentialLocation AnchorAnywhere [".gcloud"] "Google Cloud SDK (legacy location)";
  mkCredentialLocation AnchorAnywhere [".config"; "gh"] "GitHub CLI";
  mkCredentialLocation AnchorHome [".aws"] "AWS CLI";
  mkCredentialLocation AnchorHome ["Library"; "Keychains"] "macOS Keychain Services"].

Definition NetrcFile : string := ".netrc".

Definition credentialFileNames : list string :=
  [".git-credentials"; NetrcFile; ".netrc.gpg"; ".npmrc"; ".wgetrc";
   "id_rsa"; "id_ed25519"; "id_ecdsa"; "id_dsa"].

Definition IsCredentialFileName (base : string) : bool :=
  existsb (equal_fold base) credentialFileNames.

Definition splitSegments (path : string) : list string :=
  filter (λ x, element x = true) (split_slash (clean path)).

Fixpoint hasPrefixFold_loop `{Unicode} (segments prefix : list string) : bool :=
  match prefix, segments with
  | [], _ => true
  | segment :: prefix, s :: segments =>
      fold_equal s segment && hasPrefixFold_loop segments prefix
  | _ :: _, [] => false
  end.

Definition hasPrefixFold `{Unicode} (segments prefix : list string) : bool :=
  if bool_decide (prefix = []) || (length segments <? length prefix)%nat then false
  else hasPrefixFold_loop segments prefix.

Definition containsRun `{Unicode} (segments run : list string) : bool :=
  existsb (λ rest, (length run <=? length rest)%nat && hasPrefixFold rest run) (suffixes segments).

Definition InCredentialLocation `{Unicode} (path home : string) : bool :=
  let segments := splitSegments path in
  existsb (λ location,
    match cl_Anchor location with
    | AnchorAnywhere => containsRun segments (cl_Segments location)
    | AnchorHome =>
        if home == "" then false
        else hasPrefixFold segments (splitSegments home ++ cl_Segments location)
    end) credentialLocations.

Definition HomeCredentialRoots (home : string) : list string :=
  if home == "" then []
  else (λ location, join "/" (home :: cl_Segments location) |> clean) <$> credentialLocations.

Example control_plane_examples :
  CheckWrite "/w" "src/a.go" false = Ok tt
  ∧ is_ok (CheckWrite "/w" "sub/.GIT/config" false) = false
  ∧ is_ok (CheckWrite "/w" "../x" false) = false
  ∧ is_ok (CheckWrite "/w" "/w" true) = false ∧ CheckWrite "/w" "/w/sub" true = Ok tt.
Proof. by vm_compute. Qed.

Example pattern_examples :
  let m p v := match CompilePathPattern p with Ok p => Match p v | Err _ => false end in
  let t p v := match CompilePathPattern p with Ok p => IntersectsTree p v | Err _ => false end in
  m "secrets" "secrets/a/b" = true ∧ m "**/.env" "a/b/.env" = true ∧ m "*.go" "a/x.go" = false
  ∧ t "secrets/keys" "secrets" = true ∧ m "secrets/keys" "secrets" = false
  ∧ is_ok (CompilePathPattern "a/{b,c}") = false ∧ is_ok (CompilePathPattern "a**") = false
  ∧ EscapePathPattern "a*b" = "a\*b".
Proof. by vm_compute. Qed.

(** ** Facts *)

(** The elements a value is matched by are those of its cleaned path. *)
Lemma pattern_match_clean p value tree :
  pattern_match p value tree
  = Bool.eqb (is_abs value) (pp_absolute p) && matchPrefix (pp_segments p) (clean_segments value) tree.
Proof.
  unfold pattern_match. rewrite is_abs_clean, filter_trim, split_clean.
  by destruct (Bool.eqb _ _).
Qed.

Lemma elem_of_suffixes {A} (l k : list A) : k ∈ suffixes l ↔ ∃ a, l = a ++ k.
Proof.
  induction l as [|x l IH]; cbn.
  - rewrite list_elem_of_singleton. split; [by exists []|]. intros [[] ?]; naive_solver.
  - rewrite elem_of_cons, IH. split.
    + intros [->|[a ->]]; [by exists []|by exists (x :: a)].
    + intros [[|y a] E]; cbn in E; [by left|]. injection E as -> ->. right. by exists a.
Qed.

(** ** What a pattern means *)

(** [covers pattern path]: the pattern spells exactly these path elements. *)
Inductive covers : list string → list string → Prop :=
  | cov_nil : covers [] []
  | cov_segment p s pattern segments :
      p ≠ "**" → path_match p s = Some true → covers pattern segments →
      covers (p :: pattern) (s :: segments)
  | cov_skip pattern segments : covers pattern segments → covers ("**" :: pattern) segments
  | cov_take s pattern segments :
      covers ("**" :: pattern) segments → covers ("**" :: pattern) (s :: segments).

(** A pattern covers a path when it spells the path or an ancestor of it. *)
Definition covers_ancestor (pattern path : list string) : Prop :=
  ∃ ancestor rest, path = ancestor ++ rest ∧ covers pattern ancestor.

Lemma covers_star pattern segments :
  covers ("**" :: pattern) segments ↔ ∃ a b, segments = a ++ b ∧ covers pattern b.
Proof.
  split.
  - remember ("**" :: pattern) as p eqn:E. induction 1; simplify_eq.
    + by exists [], segments.
    + destruct IHcovers as (a & b & -> & ?); [done|]. by exists (s :: a), b.
  - intros (a & b & -> & H). induction a as [|x a IH]; cbn; by constructor.
Qed.

Lemma covers_cons_inv p pattern segments :
  covers (p :: pattern) segments → p ≠ "**" →
  ∃ s rest, segments = s :: rest ∧ path_match p s = Some true ∧ covers pattern rest.
Proof. inversion 1; naive_solver. Qed.

Lemma matchPrefix_star pattern segments tree :
  (tree && bool_decide (segments = [])) = false →
  matchPrefix ("**" :: pattern) segments tree = true
  ↔ ∃ a b, segments = a ++ b ∧ matchPrefix pattern b tree = true.
Proof.
  intros Ht. cbn. rewrite Ht, existsb_exists. split.
  - intros (b & [a ->]%list_elem_of_In%elem_of_suffixes & H). by exists a, b.
  - intros (a & b & -> & H). exists b. split; [|done].
    apply list_elem_of_In, elem_of_suffixes. by exists a.
Qed.

Lemma matchPrefix_covers pattern segments :
  matchPrefix pattern segments false = true ↔ covers_ancestor pattern segments.
Proof.
  unfold covers_ancestor. revert segments.
  induction pattern as [|p pattern IH]; intros segments.
  { cbn. split; [|done]. intros _. exists [], segments. split; [done|constructor]. }
  destruct (decide (p = "**")) as [->|Hp].
  - rewrite matchPrefix_star by done. split.
    + intros (a & b & -> & (c & d & -> & Hc)%IH). exists (a ++ c), d.
      rewrite <- app_assoc. split; [done|]. apply covers_star. by exists a, c.
    + intros (c & d & -> & (a & b & -> & Hb)%covers_star). exists a, (b ++ d).
      rewrite <- app_assoc. split; [done|]. apply IH. by exists b, d.
  - cbn. destruct (String.eqb_spec p "**") as [|_]; [done|]. split.
    + destruct segments as [|s segments]; [done|].
      destruct (path_match p s) as [[|]|] eqn:Em; try done.
      intros (a & b & -> & Ha)%IH. exists (s :: a), b. split; [done|]. by constructor.
    + intros (a & b & -> & (s & rest & -> & Em & Hc)%covers_cons_inv); [|done].
      cbn. rewrite Em. apply IH. by exists rest, b.
Qed.

(** A pattern element that some path element satisfies. *)
Definition satisfiable (p : string) : Prop :=
  p = "**" ∨ (p ≠ "**" ∧ ∃ n, plain n ∧ path_match p n = Some true).

Lemma satisfiable_covers pattern :
  Forall satisfiable pattern → ∃ names, Forall plain names ∧ covers pattern names.
Proof.
  induction 1 as [|p pattern [->|(Hp & n & Hn & Em)] _ (names & Hl & Hc)].
  - exists []. split; constructor.
  - exists names. split; [done|by apply cov_skip].
  - exists (n :: names). split; [by constructor|by apply cov_segment].
Qed.

(** The search of a whole tree: some path below it is covered. *)
Lemma matchPrefix_tree pattern segments names :
  matchPrefix pattern (segments ++ names) false = true → matchPrefix pattern segments true = true.
Proof.
  revert segments. induction pattern as [|p pattern IH]; intros segments H; [done|].
  destruct segments as [|s segments]; [done|].
  destruct (decide (p = "**")) as [->|Hp].
  - apply matchPrefix_star; [done|]. apply matchPrefix_star in H as (a & b & E & Hb); [|done].
    destruct (decide (length a ≤ length (s :: segments))%nat) as [Hl|Hl].
    + pose proof (app_eq_inv _ _ _ _ E) as [(k & E1 & ->)|(k & -> & E2)].
      * exists a, k. split; [done|]. by eapply IH.
      * exists (s :: segments), []. rewrite app_nil_r. split; [done|].
        rewrite length_app in Hl. destruct k; [|cbn in Hl; lia]. cbn in E2. subst.
        by apply IH.
    + exists (s :: segments), []. rewrite app_nil_r. split; [done|].
      by destruct pattern.
  - cbn in *. destruct (String.eqb_spec p "**") as [|_]; [done|].
    destruct (path_match p s) as [[|]|]; try done. by apply IH.
Qed.

Lemma matchPrefix_reach pattern segments :
  Forall satisfiable pattern → matchPrefix pattern segments true = true →
  ∃ names, Forall plain names ∧ matchPrefix pattern (segments ++ names) false = true.
Proof.
  revert segments. induction pattern as [|p pattern IH]; intros segments Hs H.
  { exists []. by split; [constructor|]. }
  destruct segments as [|s segments].
  { destruct (satisfiable_covers _ Hs) as (names & Hl & Hc). exists names. split; [done|].
    apply matchPrefix_covers. exists names, []. by rewrite app_nil_r. }
  inversion_clear Hs as [|? ? Hp Hs']. destruct (decide (p = "**")) as [->|Hn].
  - apply matchPrefix_star in H as (a & b & -> & Hb); [|done].
    destruct (IH b Hs' Hb) as (names & Hl & Hm). exists names. split; [done|].
    apply matchPrefix_star; [done|]. exists a, (b ++ names). by rewrite app_assoc.
  - cbn in *. destruct (String.eqb_spec p "**") as [|_]; [done|].
    destruct (path_match p s) as [[|]|]; try done. by apply IH.
Qed.

Lemma IntersectsTree_below p value names :
  value ≠ "" → Forall plain names → Match p (path_join value (below names)) = true →
  IntersectsTree p value = true.
Proof.
  unfold Match, IntersectsTree. intros Hv Hl Hm.
  destruct (clean_segments_join value names) as [E Ea]; [done..|].
  rewrite pattern_match_clean, E, Ea in Hm. apply andb_true_iff in Hm as [Ha Hm].
  rewrite pattern_match_clean, andb_true_iff. split; [done|]. by eapply matchPrefix_tree.
Qed.

Lemma IntersectsTree_Match p value : Match p value = true → IntersectsTree p value = true.
Proof.
  unfold Match, IntersectsTree. rewrite !pattern_match_clean, !andb_true_iff. intros [Ha Hm].
  split; [done|]. apply (matchPrefix_tree _ _ []). by rewrite app_nil_r.
Qed.

(** C25: a path rule covers whole subtrees, and a directory granted as a tree
    cannot escape from it. A compiled pattern matches a value exactly when both
    are absolute or both relative and some leading run of the value's cleaned
    elements (the value itself or an ancestor directory) is spelled by the
    pattern, each element by a wildcard of [path.Match] and each [**] by any
    number of elements. The tree test against a directory succeeds exactly when
    some path in it, existing or yet to be created, matches the pattern,
    provided that every element of the pattern can be satisfied. *)
Theorem path_rules_cover_subtrees p value :
  (Match p value = true
   ↔ is_abs value = pp_absolute p ∧ covers_ancestor (pp_segments p) (clean_segments value))
  ∧ (value ≠ "" → Forall satisfiable (pp_segments p) →
     IntersectsTree p value = true
     ↔ ∃ names, Forall plain names ∧ Match p (path_join value (below names)) = true).
Proof.
  unfold Match, IntersectsTree. split.
  { rewrite pattern_match_clean, andb_true_iff, Bool.eqb_true_iff. by rewrite matchPrefix_covers. }
  intros Hv Hs. rewrite pattern_match_clean, andb_true_iff. split.
  - intros [Ha (names & Hl & Hm)%matchPrefix_reach]; [|done]. exists names. split; [done|].
    destruct (clean_segments_join value names) as [E Ea]; [done..|].
    by rewrite pattern_match_clean, E, Ea, Ha.
  - intros (names & Hl & Hm). rewrite <- andb_true_iff, <- pattern_match_clean.
    by apply (IntersectsTree_below p value names).
Qed.

Theorem path_rules_cover_subtrees_witness :
  let p := mkPathPattern false ["secrets"; "*.pem"] in
  CompilePathPattern "secrets/*.pem" = Ok p ∧ Match p "secrets" = false
  ∧ (IntersectsTree p "secrets" = true
     ↔ ∃ names, Forall plain names ∧ Match p (path_join "secrets" (below names)) = true).
Proof.
  split; [by vm_compute|]. split; [by vm_compute|].
  destruct (path_rules_cover_subtrees (mkPathPattern false ["secrets"; "*.pem"]) "secrets") as [_ H].
  apply H; [done|].
  repeat apply Forall_cons_2; [..|apply Forall_nil_2]; right; (split; [done|]).
  - exists "secrets". split; [by repeat split|by vm_compute].
  - exists "a.pem". split; [by repeat split|by vm_compute].
Defined.
