(* ===== verification/Netpolicy.v ===== *)
(** Network endpoints and the reach of addresses ([internal/security/netpolicy]).
    An address is its 32- or 128-bit value; zones are dropped, as
    [ClassifyAddr] does first. *)
From S2P Require Import Prelude.
From S2P Require Import GoStrings.
From S2P Require Import Json.
From S2P Require Import Paths.
From S2P Require Import PathPattern.

(** ** net/netip *)

Inductive Addr :=
  | V4 (z : Z)
  | V6 (z : Z).

Definition addr_ok (a : Addr) : Prop :=
  match a with V4 z => 0 ≤ z < 2 ^ 32 | V6 z => 0 ≤ z < 2 ^ 128 end.

Record Prefix := mkPrefix { px_addr : Addr; px_bits : Z }.

(** [Prefix.Contains]: an address of the other family is never contained. *)
Definition prefix_contains (p : Prefix) (a : Addr) : bool :=
  match px_addr p, a with
  | V4 n, V4 z => Z.shiftr n (32 - px_bits p) =? Z.shiftr z (32 - px_bits p)
  | V6 n, V6 z => Z.shiftr n (128 - px_bits p) =? Z.shiftr z (128 - px_bits p)
  | _, _ => false
  end.

(** The four decimal fields of an IPv4 text: at most 255, no leading zero. *)
Definition v4_field (l : list Z) : option Z :=
  match l with
  | [] => None
  | 48 :: _ :: _ => None
  | _ => if forallb is_digit l && (digits_value l <=? 255) then Some (digits_value l) else None
  end.

Fixpoint split_at (sep : Z) (l : list Z) : list (list Z) :=
  match l with
  | [] => [[]]
  | b :: l =>
      if b =? sep then [] :: split_at sep l else
      match split_at sep l with
      | x :: r => (b :: x) :: r
      | [] => [[b]]
      end
  end.

Definition parse_ipv4 (l : list Z) : option Z :=
  match split_at 46 l with
  | [a; b; c; d] =>
      a ← v4_field a; b ← v4_field b; c ← v4_field c; d ← v4_field d;
      Some (a * 2 ^ 24 + b * 2 ^ 16 + c * 2 ^ 8 + d)
  | _ => None
  end.

Fixpoint span_hex (l : list Z) : list Z * list Z :=
  match l with
  | b :: l' => match hex_value b with
               | Some v => let '(d, r) := span_hex l' in (v :: d, r)
               | None => ([], l)
               end
  | [] => ([], [])
  end.

(** The loop of [parseIPv6]: [words] are the 16-bit groups read, [ell] the
    position of the ellipsis. At most eight groups are read. *)
Fixpoint v6_groups (fuel : nat) (words : list Z) (ell : option nat) (l : list Z) :
    option (list Z * option nat * list Z) :=
  match fuel with
  | O => Some (words, ell, l)
  | S fuel =>
      let '(digits, rest) := span_hex l in
      if (4 <? length digits)%nat || (length digits =? 0)%nat then None else
      match rest with
      | 46 :: _ =>
          if (match ell with None => negb (length words =? 6)%nat | Some _ => false end)
             || (6 <? length words)%nat then None
          else v ← parse_ipv4 l; Some (words ++ [v / 2 ^ 16; v mod 2 ^ 16], ell, [])
      | _ =>
          let words := words ++ [foldl (λ a d, a * 16 + d) 0 digits] in
          match rest with
          | [] => Some (words, ell, [])
          | 58 :: [] => None
          | 58 :: 58 :: rest =>
              match ell with
              | Some _ => None
              | None =>
                  match rest with
                  | [] => Some (words, Some (length words), [])
                  | _ => v6_groups fuel words (Some (length words)) rest
                  end
              end
          | 58 :: rest => v6_groups fuel words ell rest
          | _ => None
          end
      end
  end.

Definition words_value (words : list Z) : Z := foldl (λ a w, a * 2 ^ 16 + w) 0 words.

Definition expand_ellipsis (words : list Z) (ell : option nat) : option Z :=
  if (length words <? 8)%nat then
    e ← ell;
    Some (words_value (take e words ++ replicate (8 - length words) 0 ++ drop e words))
  else match ell with Some _ => None | None => Some (words_value words) end.

Definition parse_ipv6 (l : list Z) : option Z :=
  l ← match split_at 37 l with
      | [l] => Some l
      | l :: zone => if bool_decide (zone = [[]]) then None else Some l
      | [] => None
      end;
  '(words, ell, rest) ←
    match l with
    | [58; 58] => Some ([], Some O, [])
    | 58 :: 58 :: l => v6_groups 8 [] (Some O) l
    | _ => v6_groups 8 [] None l
    end;
  match rest with [] => expand_ellipsis words ell | _ => None end.

(** [netip.ParseAddr]: the first of [.], [:] and [%] decides the family. *)
Definition ParseAddr (s : string) : option Addr :=
  let l := bytes s in
  match list_find (λ b, ((b =? 46) || (b =? 58) || (b =? 37)) = true) l with
  | Some (_, 46) => V4 <$> parse_ipv4 l
  | Some (_, 58) => V6 <$> parse_ipv6 l
  | _ => None
  end.

(** [netip.MustParsePrefix] on the constants of the package. *)
Definition MustParsePrefix (s : string) : Prefix :=
  match split_slash s with
  | [a; bits] => mkPrefix (default (V4 0) (ParseAddr a)) (digits_value (bytes bits))
  | _ => mkPrefix (V4 0) 0
  end.

Example parse_addr_examples :
  ParseAddr "127.0.0.1" = Some (V4 0x7F000001) ∧ ParseAddr "01.0.0.1" = None
  ∧ ParseAddr "256.0.0.1" = None ∧ ParseAddr "::1" = Some (V6 1) ∧ ParseAddr "::" = Some (V6 0)
  ∧ ParseAddr "::ffff:10.0.0.1" = Some (V6 0xFFFF0A000001)
  ∧ ParseAddr "fe80::1%eth0" = Some (V6 (0xFE80 * 2 ^ 112 + 1)) ∧ ParseAddr "1::2::3" = None
  ∧ ParseAddr "1:2:3:4:5:6:7:8" = Some (V6 (words_value [1; 2; 3; 4; 5; 6; 7; 8]))
  ∧ ParseAddr "1:2:3:4:5:6:7::8" = None ∧ ParseAddr "localhost" = None ∧ ParseAddr "1:" = None.
Proof. by vm_compute. Qed.

(** ** Reach *)

Inductive Reach := HostLocal | Private | Reserved | Public.

#[export] Instance Reach_eq_dec : EqDecision Reach.
Proof. solve_decision. Defined.

Definition mustPrefixes (values : list string) : list Prefix := MustParsePrefix <$> values.

Definition nonPublicIPv4 : list Prefix := Eval vm_compute in mustPrefixes
  ["0.0.0.0/8"; "10.0.0.0/8"; "100.64.0.0/10"; "127.0.0.0/8"; "169.254.0.0/16";
   "172.16.0.0/12"; "192.0.0.0/24"; "192.0.2.0/24"; "192.88.99.0/24"; "192.168.0.0/16";
   "198.18.0.0/15"; "198.51.100.0/24"; "203.0.113.0/24"; "224.0.0.0/4"; "240.0.0.0/4"].
Definition globalUnicastIPv6 : Prefix := Eval vm_compute in MustParsePrefix "2000::/3".
Definition nonPublicIPv6 : list Prefix := Eval vm_compute in
  mustPrefixes ["2001::/23"; "2001:db8::/32"; "3fff::/20"].
Definition hostLocalIPv4 : list Prefix := Eval vm_compute in
  mustPrefixes ["0.0.0.0/8"; "127.0.0.0/8"; "169.254.0.0/16"; "224.0.0.0/24"].
Definition privateBlocks : list Prefix := Eval vm_compute in
  mustPrefixes ["10.0.0.0/8"; "100.64.0.0/10"; "172.16.0.0/12"; "192.168.0.0/16"; "fc00::/7"].
Definition nat64WellKnown : Prefix := Eval vm_compute in MustParsePrefix "64:ff9b::/96".
Definition sixToFour : Prefix := Eval vm_compute in MustParsePrefix "2002::/16".

Definition containsAddr (prefixes : list Prefix) (addr : Addr) : bool :=
  existsb (λ p, prefix_contains p addr) prefixes.

Definition nonPublic (addr : Addr) : bool :=
  match addr with
  | V4 _ => containsAddr nonPublicIPv4 addr
  | V6 _ => negb (prefix_contains globalUnicastIPv6 addr) || containsAddr nonPublicIPv6 addr
  end.

(** The first 16 bits of an IPv6 address. *)
Definition v6_head (z : Z) : Z := Z.shiftr z 112.

Definition hostLocal (addr : Addr) : bool :=
  match addr with
  | V4 _ => containsAddr hostLocalIPv4 addr
  | V6 z =>
      (z =? 0) || (z =? 1)
      || (Z.land (v6_head z) 0xFFC0 =? 0xFE80)
      || (Z.land (v6_head z) 0xFF0F =? 0xFF02)
      || (Z.land (v6_head z) 0xFF0F =? 0xFF01)
  end.

(** [Addr.Unmap] *)
Definition unmap (addr : Addr) : Addr :=
  match addr with
  | V6 z => if Z.shiftr z 32 =? 0xFFFF then V4 (z mod 2 ^ 32) else addr
  | V4 _ => addr
  end.

Definition routedAddr (addr : Addr) : Addr :=
  match unmap addr with
  | V4 z => V4 z
  | V6 z as addr =>
      if prefix_contains nat64WellKnown addr then V4 (z mod 2 ^ 32)
      else if prefix_contains sixToFour addr then V4 (Z.shiftr z 80 mod 2 ^ 32)
      else if (Z.shiftr z 32 =? 0) && negb (z =? 0) && negb (z =? 1) then V4 (z mod 2 ^ 32)
      else addr
  end.

(** [ClassifyAddr]; [None] is the invalid address. *)
Definition ClassifyAddr (addr : option Addr) : Reach :=
  match addr with
  | None => HostLocal
  | Some addr =>
      let addr := routedAddr addr in
      if hostLocal addr then HostLocal
      else if containsAddr privateBlocks addr then Private
      else if nonPublic addr then Reserved
      else Public
  end.

Definition bytes_value (l : list Z) : Z := foldl (λ a b, a * 256 + b) 0 l.

(** [Classify] on a [net.IP]: 4 or 16 bytes. *)
Definition Classify (ip : list Z) : Reach :=
  ClassifyAddr
    (if (length ip =? 4)%nat then Some (V4 (bytes_value ip))
     else if (length ip =? 16)%nat then Some (V6 (bytes_value ip))
     else None).

(** [NormalizeHost]. *)
Definition bracket (a : ascii) : bool := Ascii.eqb a "["%char || Ascii.eqb a "]"%char.
Fixpoint trim_brackets_left (s : string) : string :=
  match s with
  | String a s' => if bracket a then trim_brackets_left s' else s
  | EmptyString => s
  end.
Definition trim_brackets (s : string) : string :=
  string_rev (trim_brackets_left (string_rev (trim_brackets_left s))).

Definition NormalizeHost `{Unicode} (host : string) : string :=
  to_lower (trim_suffix (trim_brackets (trim_space host)) ".").

Definition NamesHostLocal `{Unicode} (host : string) : bool :=
  let host := NormalizeHost host in
  if (host == "localhost") || has_suffix host ".localhost" then true
  else match ParseAddr host with
       | Some addr => bool_decide (ClassifyAddr (Some addr) = HostLocal)
       | None => false
       end.

(** ** Targets *)

Record Target := mkTarget { tg_Scheme : string; tg_Host : string; tg_Port : Z }.

(** [net.JoinHostPort]. *)
Definition join_host_port (host port : string) : string :=
  if has_byte host ":"%char then "[" +:+ host +:+ "]:" +:+ port else host +:+ ":" +:+ port.

Definition Target_Key (t : Target) : string :=
  tg_Scheme t +:+ "://" +:+ join_host_port (tg_Host t) (itoa (tg_Port t)).

Definition CanCarryData `{Unicode} (t : Target) (methods : list string) : bool :=
  if (tg_Scheme t != "http") || bool_decide (methods = []) then true
  else existsb (λ m, negb (contains ["GET"; "HEAD"; "OPTIONS"] (to_upper m))) methods.

Definition DefaultPort `{Unicode} (scheme : string) : option Z :=
  let scheme := to_lower scheme in
  if scheme == "http" then Some 80 else if scheme == "https" then Some 443 else None.

(** [strconv.ParseUint(raw, 10, 16)], refusing zero. *)
Definition ParsePort (raw : string) : res error Z :=
  let l := bytes raw in
  if bool_decide (l = []) || negb (forallb is_digit l) || (65535 <? digits_value l)
     || (digits_value l =? 0)
  then Err (ErrText "network port is invalid")
  else Ok (digits_value l).

Definition NormalizeMethods `{Unicode} (methods : list string) : res error (list string) :=
  out ← foldM (λ out method,
    let method := to_upper (trim_space method) in
    if method == "" then Ok out
    else if existsb (has_byte method) [" "%char; ascii_of_N 9; ascii_of_N 13; ascii_of_N 10]
    then Err (ErrText "network method is invalid")
    else Ok (out ++ [method])) methods [];
  Ok (compact (sort_strings out)).

Example reach_examples :
  let reach s := ClassifyAddr (ParseAddr s) in
  reach "8.8.8.8" = Public ∧ reach "169.254.169.254" = HostLocal
  ∧ reach "::ffff:127.0.0.1" = HostLocal ∧ reach "64:ff9b::a00:1" = Private
  ∧ reach "2002:7f00:1::" = HostLocal ∧ reach "fd00::1" = Private ∧ reach "ff05::1" = Reserved
  ∧ reach "2001:4860:4860::8888" = Public ∧ reach "2001:db8::1" = Reserved.
Proof. by vm_compute. Qed.

(** ** Facts *)

(** Every address of [p] is one of [q]. *)
Definition prefix_within (p q : Prefix) : bool :=
  (0 <=? px_bits q) && (px_bits q <=? px_bits p)
  && match px_addr p, px_addr q with
     | V4 n, V4 m => (px_bits p <=? 32) && (Z.shiftr n (32 - px_bits q) =? Z.shiftr m (32 - px_bits q))
     | V6 n, V6 m => (px_bits p <=? 128) && (Z.shiftr n (128 - px_bits q) =? Z.shiftr m (128 - px_bits q))
     | _, _ => false
     end.

Lemma shiftr_coarser n z a b :
  0 ≤ a → a ≤ b → Z.shiftr n a = Z.shiftr z a → Z.shiftr n b = Z.shiftr z b.
Proof.
  intros Ha Hb E. replace b with (a + (b - a)) by lia.
  rewrite <- !Z.shiftr_shiftr by lia. by rewrite E.
Qed.

Lemma prefix_within_contains p q a :
  prefix_within p q = true → prefix_contains p a = true → prefix_contains q a = true.
Proof.
  unfold prefix_within, prefix_contains. intros Hw Hp.
  destruct (px_addr p), (px_addr q), a; try (rewrite ?andb_false_r in Hw; done); bool_prop.
  all: apply Z.eqb_eq; etransitivity; [symmetry; eassumption|].
  all: eapply shiftr_coarser; [..|eassumption]; lia.
Qed.

Lemma containsAddr_within l k a :
  forallb (λ p, existsb (prefix_within p) k) l = true →
  containsAddr l a = true → containsAddr k a = true.
Proof.
  unfold containsAddr. rewrite forallb_forall. intros Hl (p & Hp & Ha)%existsb_exists.
  apply Hl, existsb_exists in Hp as (q & Hq & Hw). apply existsb_exists. exists q.
  split; [done|]. by eapply prefix_within_contains.
Qed.

(** A masked head fixes the three bits that [2000::/3] tests. *)
Lemma head_not_global z mask v :
  Z.land (v6_head z) mask = v → Z.shiftr v 13 ≠ Z.land 1 (Z.shiftr mask 13) →
  prefix_contains globalUnicastIPv6 (V6 z) = false.
Proof.
  intros E Hv. cbn. apply Z.eqb_neq. intros Hz. apply Hv. rewrite <- E.
  rewrite Z.shiftr_land. f_equal. unfold v6_head. rewrite Z.shiftr_shiftr by lia.
  symmetry. exact Hz.
Qed.

Lemma hostLocal_nonPublic a : hostLocal a = true → nonPublic a = true.
Proof.
  destruct a as [z|z]; cbn [hostLocal nonPublic].
  { by apply containsAddr_within. }
  intros H. apply orb_true_iff. left. apply negb_true_iff.
  rewrite !orb_true_iff, !Z.eqb_eq in H. destruct H as [[[[Hz|Hz]|H]|H]|H]; [by subst|by subst|..].
  all: by eapply head_not_global; [exact H|].
Qed.

Lemma private_nonPublic a : containsAddr privateBlocks a = true → nonPublic a = true.
Proof.
  destruct a as [z|z]; cbn [nonPublic].
  { intros H. eapply (containsAddr_within (take 4 privateBlocks)); [done|].
    unfold containsAddr in *. cbn in *. rewrite !orb_true_iff in *. naive_solver. }
  intros H. apply orb_true_iff. left. apply negb_true_iff. cbn in *.
  rewrite !orb_false_r in H. apply Z.eqb_eq in H. apply Z.eqb_neq. intros Hz.
  change (128 - 7) with 121 in H. change (128 - 3) with 125 in Hz.
  assert (Z.shiftr z 125 = 7) as E; [|by rewrite E in Hz].
  replace 125 with (121 + 4) by lia. rewrite <- Z.shiftr_shiftr by lia. by rewrite <- H.
Qed.

Lemma shiftr_div z n : 0 ≤ n → Z.shiftr z n = z / 2 ^ n.
Proof. apply Z.shiftr_div_pow2. Qed.

Lemma shiftr_split hi lo n : 0 ≤ n → 0 ≤ lo < 2 ^ n → Z.shiftr (hi * 2 ^ n + lo) n = hi.
Proof.
  intros Hn Hlo. rewrite shiftr_div, Z.div_add_l by lia.
  rewrite Z.div_small by done. lia.
Qed.

Lemma mod_split hi lo n : 0 ≤ n → 0 ≤ lo < 2 ^ n → (hi * 2 ^ n + lo) mod 2 ^ n = lo.
Proof. intros Hn Hlo. rewrite Z.add_comm, Z.mod_add by lia. by apply Z.mod_small. Qed.

Lemma nat64_contains z :
  prefix_contains nat64WellKnown (V6 z) = (0x64FF9B * 2 ^ 64 =? Z.shiftr z 32).
Proof. done. Qed.
Lemma six_to_four_contains z : prefix_contains sixToFour (V6 z) = (0x2002 =? Z.shiftr z 112).
Proof. done. Qed.

(** Where an IPv6 spelling of an IPv4 destination is routed. *)
Lemma routed_low head z :
  0 ≤ z < 2 ^ 32 → head = 0xFFFF ∨ head = 0x64FF9B * 2 ^ 64 ∨ (head = 0 ∧ 1 < z) →
  routedAddr (V6 (head * 2 ^ 32 + z)) = V4 z.
Proof.
  intros Hz Hh. unfold routedAddr, unmap. rewrite shiftr_split, mod_split by lia.
  destruct (Z.eqb_spec head 0xFFFF) as [|Hne]; [done|].
  destruct Hh as [?|[->|[-> ?]]]; [done|..].
  - by rewrite nat64_contains, shiftr_split, Z.eqb_refl, mod_split by lia.
  - rewrite nat64_contains, six_to_four_contains, shiftr_split by lia.
    replace (0 * 2 ^ 32 + z) with z by lia.
    rewrite (shiftr_div z 112), (Z.div_small z), (Z.mod_small z) by lia.
    destruct (Z.eqb_spec z 0), (Z.eqb_spec z 1); [lia..|done].
Qed.

Lemma routed_6to4 z low :
  0 ≤ z < 2 ^ 32 → 0 ≤ low < 2 ^ 80 →
  routedAddr (V6 ((0x2002 * 2 ^ 32 + z) * 2 ^ 80 + low)) = V4 z.
Proof.
  intros Hz Hl. set (a := (0x2002 * 2 ^ 32 + z) * 2 ^ 80 + low).
  assert (H80 : Z.shiftr a 80 = 0x2002 * 2 ^ 32 + z) by (by apply shiftr_split).
  assert (H112 : Z.shiftr a 112 = 0x2002).
  { replace 112 with (80 + 32) by lia. rewrite <- Z.shiftr_shiftr, H80 by lia.
    by apply shiftr_split. }
  assert (H32 : Z.shiftr a 32 ≠ 0xFFFF).
  { intros E. assert (Z.shiftr (Z.shiftr a 32) 80 = 0x2002) as E'
      by (by rewrite Z.shiftr_shiftr by lia). by rewrite E in E'. }
  unfold routedAddr, unmap. destruct (Z.eqb_spec (Z.shiftr a 32) 0xFFFF); [done|].
  rewrite nat64_contains, six_to_four_contains, H112, Z.eqb_refl, H80.
  rewrite mod_split by lia. destruct (Z.eqb_spec (0x64FF9B * 2 ^ 64) (Z.shiftr a 32)) as [E|]; [|done].
  assert (Z.shiftr (Z.shiftr a 32) 80 = 0x2002) as E' by (by rewrite Z.shiftr_shiftr by lia).
  by rewrite <- E in E'.
Qed.

(** C26: an address counts as public only when its real destination is. An
    address is [Public] exactly when the destination it is routed to is in no
    special-purpose block (so the order of the checks and the two overlapping
    tables lose nothing), and an IPv6 spelling of an IPv4 destination (mapped,
    NAT64, 6to4 with any lower 80 bits, IPv4-compatible) has the reach of that
    destination, so that no spelling makes a local or private one public. *)
Theorem public_reach_is_real :
  (∀ addr, ClassifyAddr (Some addr) = Public ↔ nonPublic (routedAddr addr) = false)
  ∧ (∀ z low, 0 ≤ z < 2 ^ 32 → 0 ≤ low < 2 ^ 80 →
       let reach a := ClassifyAddr (Some a) in
       reach (V6 (0xFFFF * 2 ^ 32 + z)) = reach (V4 z)
       ∧ reach (V6 (0x64FF9B * 2 ^ 64 * 2 ^ 32 + z)) = reach (V4 z)
       ∧ reach (V6 ((0x2002 * 2 ^ 32 + z) * 2 ^ 80 + low)) = reach (V4 z)
       ∧ (1 < z → reach (V6 z) = reach (V4 z))).
Proof.
  split.
  - intros addr. unfold ClassifyAddr. pose proof (hostLocal_nonPublic (routedAddr addr)) as Hl.
    pose proof (private_nonPublic (routedAddr addr)) as Hp.
    destruct (hostLocal _); [by rewrite Hl|].
    destruct (containsAddr _ _); [by rewrite Hp|]. by destruct (nonPublic _).
  - intros z low Hz Hlow reach. unfold reach, ClassifyAddr.
    rewrite !routed_low, routed_6to4 by auto. split_and!; try done.
    intros H1. change (V6 z) with (V6 (0 * 2 ^ 32 + z)). by rewrite routed_low by auto.
Qed.
