(* ===== verification/SecurityModel.v ===== *)
(** The vocabulary of the security layer ([internal/security/model]): effects,
    resources, and the assessment of a tool invocation by a decision table. *)
From S2P Require Import Prelude.
From S2P Require Import GoStrings.
From S2P Require Import Sha256.
From S2P Require Import Json.
From S2P Require Import Paths.
From S2P Require Import PathPattern.
From S2P Require Import Netpolicy.

(** ** Effects ([effect.go]) *)

Definition EffectKind : Type := string.
Definition WorkspaceRead : EffectKind := "workspace.read".
Definition WorkspaceEdit : EffectKind := "workspace.edit".
Definition ProcessReadOnly : EffectKind := "process.read_only".
Definition ProcessMutating : EffectKind := "process.mutating".
Definition NetworkRead : EffectKind := "network.read".
Definition NetworkMutating : EffectKind := "network.mutating".
Definition SessionMutation : EffectKind := "session.mutation".
Definition AgentMessage : EffectKind := "agent.message".
Definition AgentLifecycle : EffectKind := "agent.lifecycle".
Definition ExternalMutation : EffectKind := "external.mutation".

Definition EffectKind_Valid (k : EffectKind) : bool :=
  contains [WorkspaceRead; WorkspaceEdit; ProcessReadOnly; ProcessMutating; NetworkRead;
            NetworkMutating; SessionMutation; AgentMessage; AgentLifecycle; ExternalMutation] k.

Definition Risk : Type := string.
Definition RiskLow : Risk := "low".
Definition RiskMedium : Risk := "medium".
Definition RiskHigh : Risk := "high".
Definition RiskCritical : Risk := "critical".
Definition Risk_Valid (r : Risk) : bool := contains [RiskLow; RiskMedium; RiskHigh; RiskCritical] r.

Definition Reversibility : Type := string.
Definition Reversible : Reversibility := "reversible".
Definition Bounded : Reversibility := "bounded".
Definition Irreversible : Reversibility := "irreversible".
Definition Reversibility_Valid (r : Reversibility) : bool :=
  contains [Reversible; Bounded; Irreversible] r.

Definition Capability : Type := string.
Definition CapabilityRead : Capability := "read".
Definition CapabilityWrite : Capability := "write".
Definition CapabilityProcess : Capability := "process".
Definition CapabilityNetwork : Capability := "network".
Definition CapabilityExternal : Capability := "external".

Definition ApprovalMode : Type := string.
Definition ApprovalDefault : ApprovalMode := "default".
(** [securitymodel.ApprovalOnce]: fresh approval unless Full Access preauthorizes. *)
Definition ApprovalOnceRequired : ApprovalMode := "once_required".

Record Effect := mkEffect {
  ef_Kind : EffectKind;
  ef_Risk : Risk;
  ef_Reversibility : Reversibility;
}.

Definition validate_effect (e : Effect) : res error unit :=
  require (EffectKind_Valid (ef_Kind e)) (ErrFmt "effect kind %q is invalid" [ArgS (ef_Kind e)]);;
  require (Risk_Valid (ef_Risk e)) (ErrFmt "effect risk %q is invalid" [ArgS (ef_Risk e)]);;
  require (Reversibility_Valid (ef_Reversibility e)) (ErrText "effect reversibility is invalid").

(** ** Invocation sources ([invocation.go]) *)

Definition SourceKind : Type := string.
Definition SourceBuiltin : SourceKind := "builtin".
Definition SourceSkill : SourceKind := "skill".
Definition SourceMCP : SourceKind := "mcp".
Definition SourceExternal : SourceKind := "external".
Definition SourceDynamic : SourceKind := "dynamic".
Definition SourceKind_Valid (s : SourceKind) : bool :=
  contains [SourceBuiltin; SourceSkill; SourceMCP; SourceExternal; SourceDynamic] s.

Record Subject := mkSubject {
  sj_Kind : string;
  sj_ID : string;
  sj_Trust : string;
  sj_Digest : string;
  sj_Generation : Z;
}.

Definition SubjectBuiltin : string := "builtin".
Definition TrustBuiltin : string := "builtin".

(** [hex.DecodeString] succeeds. *)
Definition is_hex (l : list Z) : bool :=
  Nat.even (length l) && forallb (λ b, match hex_value b with Some _ => true | None => false end) l.

Definition validSubjectDigest (value : string) : bool :=
  (String.length value =? 64)%nat && is_hex (bytes value).

Definition validate_subject (s : Subject) : res error unit :=
  refuse ((sj_Kind s == "") || blank (sj_ID s) || (sj_Trust s == "")
          || negb (validSubjectDigest (sj_Digest s)) || (sj_Generation s =? 0))
    (ErrText "execution subject is incomplete");;
  require (contains ["builtin"; "repository_hook"; "mcp_tool"; "workflow"; "worker"; "host"] (sj_Kind s))
    (ErrText "execution subject kind is invalid");;
  require (contains ["builtin"; "host"; "workspace"; "external"] (sj_Trust s))
    (ErrText "execution subject trust is invalid").

(** ** Resources ([resource.go]) *)

Definition Access : Type := string.
Definition Read : Access := "read".
Definition Write : Access := "write".
Definition Tree : Access := "tree".
Definition Use : Access := "use".
Definition Access_Writes (a : Access) : bool := (a == Write) || (a == Tree).

Definition LoopbackProtocol : string := "loopback".
Definition LoopbackScope : string := "all-local-ports".

(** [ClassOther] is any number the code gives no name. *)
Inductive ResourceClass :=
  | ClassPath | ClassNetwork | ClassLoopback | ClassProcess
  | ClassAgent | ClassPlan | ClassSession | ClassNamed
  | ClassOther (z : Z).

#[export] Instance ResourceClass_eq_dec : EqDecision ResourceClass.
Proof. solve_decision. Defined.

Definition class_number (c : ResourceClass) : Z :=
  match c with
  | ClassPath => 1 | ClassNetwork => 2 | ClassLoopback => 3 | ClassProcess => 4
  | ClassAgent => 5 | ClassPlan => 6 | ClassSession => 7 | ClassNamed => 8
  | ClassOther z => z
  end.

Definition class_string (c : ResourceClass) : string :=
  match c with
  | ClassPath => "path" | ClassNetwork => "network" | ClassLoopback => LoopbackProtocol
  | ClassProcess => "process" | ClassAgent => "agent" | ClassPlan => "plan"
  | ClassSession => "session" | ClassNamed => "named" | ClassOther _ => "unknown"
  end.

(** [rs_Methods] is [None] for a nil slice, which [json.Marshal] tells from an
    empty one. *)
Record Resource := mkResource {
  rs_Class : ResourceClass;
  rs_Access : Access;
  rs_Path : string;
  rs_Tree : bool;
  rs_URL : string;
  rs_Network : option Target;
  rs_Methods : option (list string);
  rs_AllowPrivate : bool;
  rs_ID : string;
  rs_Name : string;
}.

Definition with_path (path : string) (r : Resource) : Resource :=
  mkResource (rs_Class r) (rs_Access r) path (rs_Tree r) (rs_URL r) (rs_Network r) (rs_Methods r)
    (rs_AllowPrivate r) (rs_ID r) (rs_Name r).

Definition Writes (r : Resource) : bool := Access_Writes (rs_Access r).

Definition Location (r : Resource) : string :=
  if bool_decide (rs_Class r = ClassPath) then rs_Path r
  else if bool_decide (rs_Class r = ClassLoopback) then LoopbackScope
  else match rs_Network r with
       | Some network => Target_Key network
       | None => rs_ID r
       end.

Definition label (r : Resource) : string :=
  if bool_decide (rs_Class r = ClassNamed) then rs_Name r else class_string (rs_Class r).

Definition upper_methods `{Unicode} (r : Resource) : list string :=
  sort_strings (to_upper <$> default [] (rs_Methods r)).

Definition Resource_String `{Unicode} (r : Resource) : string :=
  join ":" ([label r; Location r; rs_Access r]
            ++ (if rs_Tree r then ["tree"] else [])
            ++ (if bool_decide (default [] (rs_Methods r) = []) then [] else [join "," (upper_methods r)])
            ++ (if rs_AllowPrivate r then ["private"] else [])).

(** Every field is preceded by its length. *)
Definition framed (field : string) : string :=
  itoa (Z.of_nat (String.length field)) +:+ ":" +:+ field.

Definition Resource_Key `{Unicode} (r : Resource) : string :=
  fold_right (λ field s, framed field +:+ s) ""
    [label r; Location r; rs_Access r; fmt_bool (rs_Tree r); join "," (upper_methods r);
     fmt_bool (rs_AllowPrivate r)].

(** ** Assessment ([assessment.go]) *)

Record AssessmentBinding := mkBinding {
  bd_Capability : Capability;
  bd_Access : Access;
  bd_SandboxDeclared : bool;
  bd_StrongSandbox : bool;
  bd_Journaled : bool;
  bd_Fixed : option Effect;
  bd_PlanningExempt : bool;
}.

Record Declared := mkDeclared {
  dc_HostExecution : bool;
  dc_FullAccess : bool;
  dc_ReadOnly : bool;
}.

Record AssessmentInput := mkInput {
  ai_Binding : AssessmentBinding;
  ai_Declared : Declared;
  ai_Resources : list Resource;
}.

Inductive Egress := EgressNone | EgressSafeRead | EgressMutating.

#[export] Instance Egress_eq_dec : EqDecision Egress.
Proof. solve_decision. Defined.

Definition egress_number (e : Egress) : Z :=
  match e with EgressNone => 0 | EgressSafeRead => 1 | EgressMutating => 2 end.

Record Facets := mkFacets {
  fc_HostExecution : bool;
  fc_FullAccess : bool;
  fc_WritesWorkspace : bool;
  fc_Egress : Egress;
  fc_Network : bool;
  fc_LoopbackReach : bool;
  fc_HostLocalTarget : bool;
  fc_Process : bool;
  fc_Agent : bool;
  fc_PlanOnly : bool;
  fc_StrongSandbox : bool;
  fc_Journaled : bool;
  fc_ReadOnlyDeclared : bool;
  fc_PlanningExempt : bool;
}.

Definition no_facets : Facets :=
  mkFacets false false false EgressNone false false false false false false false false false false.

(** The scalar facets of an input and what its resources add to them. *)
Record Reached := mkReached {
  rc_WritesWorkspace : bool;
  rc_Egress : Egress;
  rc_Network : bool;
  rc_LoopbackReach : bool;
  rc_HostLocalTarget : bool;
  rc_Process : bool;
  rc_Agent : bool;
  rc_Plan : bool;
}.

Definition nothing_reached : Reached := mkReached false EgressNone false false false false false false.

(** One turn of the loop of [facetsOf] over the resources. *)
Definition reach_step `{Unicode} (f : Reached) (item : Resource) : Reached :=
  let '(mkReached writes egress network loopback host_local process agent plan) := f in
  match rs_Class item with
  | ClassPath =>
      mkReached (writes || Writes item) egress network loopback host_local process agent plan
  | ClassNetwork =>
      let host := match rs_Network item with Some n => tg_Host n | None => rs_ID item end in
      let carries := match rs_Network item with
                     | None => true
                     | Some n => CanCarryData n (default [] (rs_Methods item))
                     end in
      mkReached writes
        (if carries then EgressMutating
         else if bool_decide (egress = EgressNone) then EgressSafeRead else egress)
        true loopback (host_local || NamesHostLocal host) process agent plan
  | ClassLoopback => mkReached writes egress network true true process agent plan
  | ClassProcess => mkReached writes egress network loopback host_local true agent plan
  | ClassAgent => mkReached writes egress network loopback host_local process true plan
  | ClassPlan => mkReached writes egress network loopback host_local process agent true
  | _ => f
  end.

Definition facetsOf `{Unicode} (input : AssessmentInput) : Facets :=
  let binding := ai_Binding input in
  let declared := ai_Declared input in
  let r := foldl reach_step nothing_reached (ai_Resources input) in
  {| fc_HostExecution := dc_HostExecution declared;
     fc_FullAccess := dc_FullAccess declared;
     fc_WritesWorkspace := rc_WritesWorkspace r;
     fc_Egress := rc_Egress r;
     fc_Network := rc_Network r;
     fc_LoopbackReach := rc_LoopbackReach r;
     fc_HostLocalTarget := rc_HostLocalTarget r;
     fc_Process := rc_Process r;
     fc_Agent := rc_Agent r;
     fc_PlanOnly := rc_Plan r && negb (rc_WritesWorkspace r) && negb (rc_Network r)
                    && negb (rc_LoopbackReach r) && negb (rc_Process r) && negb (rc_Agent r);
     fc_StrongSandbox := bd_StrongSandbox binding && negb (dc_HostExecution declared);
     fc_Journaled := bd_Journaled binding;
     fc_ReadOnlyDeclared := dc_ReadOnly declared;
     fc_PlanningExempt := bd_PlanningExempt binding |}.

Definition declared (b : AssessmentBinding) : bool := (bd_Access b != "") && bd_SandboxDeclared b.

Definition reachesNetwork (b : AssessmentBinding) (f : Facets) : bool :=
  (bd_Capability b == CapabilityNetwork) || fc_Network f || fc_LoopbackReach f.

Definition runsProcess (b : AssessmentBinding) (f : Facets) : bool :=
  (bd_Capability b == CapabilityProcess) || fc_Process f.

Record row := mkRow {
  row_id : string;
  row_matches : AssessmentBinding → Facets → bool;
  row_effect : AssessmentBinding → Effect;
}.

Definition constant (kind : EffectKind) (risk : Risk) (reversibility : Reversibility) :
    AssessmentBinding → Effect :=
  λ _, mkEffect kind risk reversibility.

Definition is_fixed (b : AssessmentBinding) : bool := bool_decide (is_Some (bd_Fixed b)).
Definition no_effect : Effect := mkEffect "" "" "".
Definition fixed_effect (b : AssessmentBinding) : Effect := default no_effect (bd_Fixed b).

Definition RuleProcessMutating : string := "process_mutating".

Definition table : list row := [
  mkRow "declared_read_only" (λ b f, is_fixed b && fc_ReadOnlyDeclared f)
    (λ b, mkEffect (ef_Kind (fixed_effect b)) RiskLow Reversible);
  mkRow "fixed" (λ b _, is_fixed b) fixed_effect;
  mkRow "undeclared_read" (λ b _, negb (declared b) && (bd_Capability b == CapabilityRead))
    (constant WorkspaceRead RiskLow Reversible);
  mkRow "undeclared_write" (λ b _, negb (declared b) && (bd_Capability b == CapabilityWrite))
    (constant ExternalMutation RiskMedium Bounded);
  mkRow "undeclared_effectful"
    (λ b _, negb (declared b) && ((bd_Capability b == CapabilityProcess)
            || (bd_Capability b == CapabilityNetwork) || (bd_Capability b == CapabilityExternal)))
    (constant ExternalMutation RiskHigh Irreversible);
  mkRow "undeclared_unknown" (λ b _, negb (declared b))
    (constant ExternalMutation RiskCritical Irreversible);
  mkRow "read" (λ b _, bd_Capability b == CapabilityRead)
    (constant WorkspaceRead RiskLow Reversible);
  mkRow "plan_only" (λ b f, (bd_Capability b == CapabilityWrite) && fc_PlanOnly f)
    (constant SessionMutation RiskLow Reversible);
  mkRow "agent" (λ _ f, fc_Agent f) (constant AgentLifecycle RiskHigh Bounded);
  mkRow "process_host" (λ b f, (bd_Capability b == CapabilityProcess) && fc_HostExecution f)
    (constant ProcessMutating RiskHigh Irreversible);
  mkRow "process_full_access" (λ b f, (bd_Capability b == CapabilityProcess) && fc_FullAccess f)
    (constant ProcessMutating RiskHigh Irreversible);
  mkRow "loopback_only"
    (λ b f, (bd_Capability b == CapabilityProcess) && bd_StrongSandbox b && fc_LoopbackReach f
            && negb (fc_Network f) && negb (fc_WritesWorkspace f))
    (constant NetworkRead RiskMedium Bounded);
  mkRow "network_read"
    (λ b f, reachesNetwork b f && (bd_Access b == Read) && negb (fc_WritesWorkspace f)
            && negb ((bd_Capability b == CapabilityProcess)
                     && bool_decide (fc_Egress f = EgressMutating)))
    (constant NetworkRead RiskMedium Bounded);
  mkRow "network_mutating" reachesNetwork (constant NetworkMutating RiskHigh Irreversible);
  mkRow "process_read_only"
    (λ b f, runsProcess b f && bd_StrongSandbox b && negb (fc_WritesWorkspace f))
    (constant ProcessReadOnly RiskLow Reversible);
  mkRow RuleProcessMutating runsProcess (constant ProcessMutating RiskHigh Bounded);
  mkRow "journaled_edit"
    (λ b f, (bd_Capability b == CapabilityWrite) && fc_WritesWorkspace f && bd_Journaled b)
    (constant WorkspaceEdit RiskLow Reversible);
  mkRow "external" (λ _ _, true) (constant ExternalMutation RiskHigh Irreversible)].

(** The JSON text of an input, which identifies an assessment. *)
Definition json_effect (e : Effect) : json :=
  JObj [("Kind", JStr (ef_Kind e)); ("Risk", JStr (ef_Risk e));
        ("Reversibility", JStr (ef_Reversibility e))].

Definition json_target (t : Target) : json :=
  JObj [("Scheme", JStr (tg_Scheme t)); ("Host", JStr (tg_Host t)); ("Port", JInt (tg_Port t))].

Definition json_resource (r : Resource) : json :=
  JObj [("Class", JInt (class_number (rs_Class r))); ("Access", JStr (rs_Access r));
        ("Path", JStr (rs_Path r)); ("Tree", JBool (rs_Tree r)); ("URL", JStr (rs_URL r));
        ("Network", from_option json_target JNull (rs_Network r));
        ("Methods", from_option (λ l, JArr (JStr <$> l)) JNull (rs_Methods r));
        ("AllowPrivate", JBool (rs_AllowPrivate r)); ("ID", JStr (rs_ID r));
        ("Name", JStr (rs_Name r))].

Definition json_input (input : AssessmentInput) : json :=
  let b := ai_Binding input in
  let d := ai_Declared input in
  JObj [("Binding", JObj
          [("Capability", JStr (bd_Capability b)); ("Access", JStr (bd_Access b));
           ("SandboxDeclared", JBool (bd_SandboxDeclared b));
           ("StrongSandbox", JBool (bd_StrongSandbox b)); ("Journaled", JBool (bd_Journaled b));
           ("Fixed", from_option json_effect JNull (bd_Fixed b));
           ("PlanningExempt", JBool (bd_PlanningExempt b))]);
        ("Declared", JObj
          [("HostExecution", JBool (dc_HostExecution d)); ("FullAccess", JBool (dc_FullAccess d));
           ("ReadOnly", JBool (dc_ReadOnly d))]);
        ("Resources", JArr (json_resource <$> ai_Resources input))].

Record Assessment := mkAssessment {
  as_input : AssessmentInput;
  as_facets : Facets;
  as_effect : Effect;
  as_rule : string;
  as_identity : string;
}.

(** [None] is the panic after the table, which has a terminal row. Values are
    immutable here, so the copies the code makes are the values themselves. *)
Definition Assess `{Unicode} (input : AssessmentInput) : option Assessment :=
  let facets := facetsOf input in
  '(_, r) ← list_find (λ r, row_matches r (ai_Binding input) facets = true) table;
  Some (mkAssessment input facets (row_effect r (ai_Binding input)) (row_id r)
          (sha256_hex (encode (json_input input)))).

Definition Resources (a : Assessment) : list Resource := ai_Resources (as_input a).
Definition Binding (a : Assessment) : AssessmentBinding := ai_Binding (as_input a).

Definition Assessment_Valid (a : Assessment) : bool :=
  (as_rule a != "") && is_ok (validate_effect (as_effect a)).

Definition Same (a other : Assessment) : bool :=
  Assessment_Valid a && Assessment_Valid other && (as_identity a == as_identity other).

(** [fmt]'s [%+v] of the facets. *)
Definition facets_text (f : Facets) : string :=
  "{" +:+ join " "
    ["HostExecution:" +:+ fmt_bool (fc_HostExecution f); "FullAccess:" +:+ fmt_bool (fc_FullAccess f);
     "WritesWorkspace:" +:+ fmt_bool (fc_WritesWorkspace f);
     "Egress:" +:+ itoa (egress_number (fc_Egress f)); "Network:" +:+ fmt_bool (fc_Network f);
     "LoopbackReach:" +:+ fmt_bool (fc_LoopbackReach f);
     "HostLocalTarget:" +:+ fmt_bool (fc_HostLocalTarget f); "Process:" +:+ fmt_bool (fc_Process f);
     "Agent:" +:+ fmt_bool (fc_Agent f); "PlanOnly:" +:+ fmt_bool (fc_PlanOnly f);
     "StrongSandbox:" +:+ fmt_bool (fc_StrongSandbox f); "Journaled:" +:+ fmt_bool (fc_Journaled f);
     "ReadOnlyDeclared:" +:+ fmt_bool (fc_ReadOnlyDeclared f);
     "PlanningExempt:" +:+ fmt_bool (fc_PlanningExempt f)] +:+ "}".

Definition nul : string := String (ascii_of_N 0) "".

Definition Assessment_Digest (a : Assessment) : string :=
  let e := as_effect a in
  sha256_hex (ef_Kind e +:+ nul +:+ ef_Risk e +:+ nul +:+ ef_Reversibility e +:+ nul
              +:+ facets_text (as_facets a)).

(** ASCII case mapping, an instance for concrete inputs. *)
Definition map_bytes (f : Z → Z) (s : string) : string := of_bytes (f <$> bytes s).
Definition ascii_case : Unicode := {|
  to_upper := map_bytes (λ b, if (97 <=? b) && (b <=? 122) then b - 32 else b);
  to_lower := map_bytes (λ b, if (65 <=? b) && (b <=? 90) then b + 32 else b);
  fold_equal := same_field;
|}.

(** ** Facts *)

(** The table is total. *)
Lemma Assess_total `{Unicode} input : is_Some (Assess input).
Proof.
  unfold Assess. destruct (list_find _ _) as [[i r]|] eqn:E; [by eexists|].
  exfalso. apply list_find_None in E. rewrite Forall_forall in E.
  refine (E (mkRow "external" (λ _ _, true) (constant ExternalMutation RiskHigh Irreversible)) _ eq_refl).
  unfold table. do 17 right. left.
Qed.

(** The facets of an assessment are those of its input. *)
Lemma Assess_facets `{Unicode} input a :
  Assess input = Some a → as_facets a = facetsOf input ∧ as_input a = input.
Proof. unfold Assess. intros ([i r] & _ & [= <-])%bind_Some. done. Qed.
