(* ===== verification/Controls.v ===== *)
(** Isolation controls ([internal/security/model/controls.go],
    [control_dimensions.go]): what a backend provides and what a command
    requires, dimension by dimension. *)
From S2P Require Import Prelude.
From S2P Require Import GoStrings.

(** Each dimension is the text of its level. *)
Record Controls := mkControls {
  ct_FilesystemRead : string;
  ct_FilesystemWrite : string;
  ct_Network : string;
  ct_ProcessTree : string;
  ct_CrossProcess : string;
  ct_Syscall : string;
  ct_IPC : string;
  ct_PathIdentity : string;
  ct_ArtifactOrigin : string;
  ct_DurableRecovery : string;
}.

#[export] Instance Controls_eq_dec : EqDecision Controls.
Proof. solve_decision. Defined.

Definition zero_controls : Controls := mkControls "" "" "" "" "" "" "" "" "" "".

Definition NetworkDirect : string := "direct".
Definition NetworkProxyTargets : string := "proxy_targets".
Definition NetworkLoopbackAny : string := "loopback_any".
Definition NetworkDenied : string := "denied".

Definition ProcessTreeUnmanaged : string := "unmanaged".
Definition ProcessTreeGroupKill : string := "group_kill".
Definition ProcessTreeJobObject : string := "job_object".
Definition ProcessTreePIDNamespace : string := "pid_namespace".

Definition PlatformFiltered : string := "platform_filtered".

Definition validNetwork (value : string) : bool :=
  contains [NetworkDirect; NetworkProxyTargets; NetworkLoopbackAny; NetworkDenied] value.

Definition validProcessTree (value : string) : bool :=
  contains [ProcessTreeUnmanaged; ProcessTreeGroupKill; ProcessTreeJobObject; ProcessTreePIDNamespace]
    value.

Definition satisfiesNetwork (required actual : string) : bool :=
  if required == "" then true
  else if required == NetworkDirect then validNetwork actual
  else if required == NetworkProxyTargets then
    (actual == NetworkProxyTargets) || (actual == NetworkDenied)
  else if required == NetworkLoopbackAny then
    (actual == NetworkLoopbackAny) || (actual == NetworkDenied)
  else required == actual.

Definition satisfiesProcessTree (required actual : string) : bool :=
  if required == "" then true
  else if required == ProcessTreeUnmanaged then validProcessTree actual
  else if required == ProcessTreeGroupKill then
    (actual == ProcessTreeGroupKill) || (actual == ProcessTreeJobObject)
    || (actual == ProcessTreePIDNamespace)
  else required == actual.

(** The last position of a value in an order, [-1] when absent. *)
Definition last_index (value : string) (order : list string) : Z :=
  (foldl (λ '(found, index) x, (if x == value then index else found, index + 1)) (-1, 0) order).1.

Definition satisfiesOrdered (required actual : string) (order : list string) : bool :=
  if required == "" then true
  else let requiredIndex := last_index required order in
       (0 <=? requiredIndex) && (requiredIndex <=? last_index actual order).

Record dimensionSpec := mkDimension {
  dim_key : string;
  dim_label : string;
  dim_values : list string;
  dim_value : Controls → string;
  dim_satisfies : string → string → bool;
}.

Definition dim_valid (s : dimensionSpec) (value : string) : bool := contains (dim_values s) value.

Definition orderedDimension (key label : string) (values : list string) (value : Controls → string) :
    dimensionSpec :=
  mkDimension key label values value (λ required actual, satisfiesOrdered required actual values).

Definition platformFilteredDimension (key label : string) (values : list string)
    (value : Controls → string) : dimensionSpec :=
  mkDimension key label (values ++ [PlatformFiltered]) value
    (λ required actual,
      if (required == PlatformFiltered) || (actual == PlatformFiltered)
      then (required == "unrestricted") || (required == actual)
      else satisfiesOrdered required actual values).

Definition dimensionSpecs : list dimensionSpec := [
  orderedDimension "filesystem_read" "filesystem read"
    ["unrestricted"; "declared_roots"; "exact_paths"] ct_FilesystemRead;
  orderedDimension "filesystem_write" "filesystem write"
    ["unrestricted"; "workspace_tree"; "exact_paths"; "denied"] ct_FilesystemWrite;
  mkDimension "network" "network"
    [NetworkDirect; NetworkProxyTargets; NetworkLoopbackAny; NetworkDenied] ct_Network satisfiesNetwork;
  mkDimension "process_tree" "process tree"
    [ProcessTreeUnmanaged; ProcessTreeGroupKill; ProcessTreeJobObject; ProcessTreePIDNamespace]
    ct_ProcessTree satisfiesProcessTree;
  orderedDimension "cross_process" "cross-process"
    ["unrestricted"; "restricted"; "isolated"] ct_CrossProcess;
  platformFilteredDimension "syscall" "syscall"
    ["unrestricted"; "deny_dangerous"; "allowlist"] ct_Syscall;
  platformFilteredDimension "ipc" "IPC" ["unrestricted"; "unix_only"; "private_namespace"] ct_IPC;
  orderedDimension "path_identity" "path identity"
    ["lexical"; "canonical"; "descriptor_relative"] ct_PathIdentity;
  orderedDimension "artifact_origin" "artifact origin"
    ["unverified_path"; "verified_manifest"; "broker_snapshot"] ct_ArtifactOrigin;
  orderedDimension "durable_recovery" "durable recovery"
    ["memory_only"; "external_journal"; "resumable_transaction"] ct_DurableRecovery].

(** [Controls.validate(allowEmpty)]. *)
Definition validate_controls (allowEmpty : bool) (m : Controls) : res error unit :=
  if bool_decide (m = zero_controls) && allowEmpty then Ok tt
  else iterM (λ spec,
    let value := dim_value spec m in
    if (value == "") && allowEmpty then Ok tt
    else if (value != "") && dim_valid spec value then Ok tt
    else Err (ErrFmt "%s control %q is invalid" [ArgS (dim_key spec); ArgS value])) dimensionSpecs.

Definition SatisfiedBy (r actual : Controls) : res error unit :=
  validate_controls true r;;
  validate_controls false actual;;
  iterM (λ spec,
    let required := dim_value spec r in
    if required == "" then Ok tt
    else let provided := dim_value spec actual in
         if dim_satisfies spec required provided then Ok tt
         else Err (ErrFmt "%s control requires %q, backend provides %q"
                     [ArgS (dim_label spec); ArgS required; ArgS provided])) dimensionSpecs.

Definition Identity (m : Controls) : string := join "/" ((λ spec, dim_value spec m) <$> dimensionSpecs).

Definition CanEnforceNetwork (capability desired : string) : bool :=
  if capability == NetworkDenied then (desired == NetworkDenied) || (desired == NetworkLoopbackAny)
  else if capability == NetworkLoopbackAny then
    (desired == NetworkLoopbackAny) || (desired == NetworkDenied)
  else if capability == NetworkProxyTargets then
    (desired == NetworkProxyTargets) || (desired == NetworkDenied)
  else if capability == NetworkDirect then desired == NetworkDirect
  else false.

Definition CanEnforceFilesystemWrite (capability desired : string) : bool :=
  if capability == "denied" then desired == "denied"
  else if capability == "exact_paths" then (desired == "exact_paths") || (desired == "denied")
  else if capability == "workspace_tree" then desired == "workspace_tree"
  else if capability == "unrestricted" then desired == "unrestricted"
  else false.

(** ** Strength of controls *)

(** The levels of every dimension are ordered by [dim_satisfies]. *)
Definition dimension_ordered (s : dimensionSpec) : bool :=
  let vs := dim_values s in
  forallb (λ x, (x != "") && dim_satisfies s x x
    && forallb (λ y, forallb (λ z,
         negb (dim_satisfies s x y && dim_satisfies s y z) || dim_satisfies s x z) vs
         && (negb (dim_satisfies s x y && dim_satisfies s y x) || (x == y))) vs) vs.

Lemma dimensions_ordered : Forall (λ s, dimension_ordered s = true) dimensionSpecs.
Proof. repeat constructor. Qed.

Lemma dim_ordered_refl s x :
  dimension_ordered s = true → x ∈ dim_values s → x ≠ "" ∧ dim_satisfies s x x = true.
Proof.
  unfold dimension_ordered. rewrite forallb_forall. intros H Hx%list_elem_of_In.
  apply H in Hx. bool_prop. done.
Qed.

Lemma dim_ordered_trans s x y z :
  dimension_ordered s = true → x ∈ dim_values s → y ∈ dim_values s → z ∈ dim_values s →
  dim_satisfies s x y = true → dim_satisfies s y z = true → dim_satisfies s x z = true.
Proof.
  unfold dimension_ordered. rewrite forallb_forall.
  intros H Hx%list_elem_of_In Hy%list_elem_of_In Hz%list_elem_of_In Hxy Hyz.
  apply H in Hx. bool_prop. rewrite forallb_forall in H1. apply H1 in Hy. bool_prop.
  rewrite forallb_forall in H3. apply H3 in Hz. by rewrite Hxy, Hyz in Hz.
Qed.

Lemma dim_ordered_antisym s x y :
  dimension_ordered s = true → x ∈ dim_values s → y ∈ dim_values s →
  dim_satisfies s x y = true → dim_satisfies s y x = true → x = y.
Proof.
  unfold dimension_ordered. rewrite forallb_forall.
  intros H Hx%list_elem_of_In Hy%list_elem_of_In Hxy Hyx.
  apply H in Hx. bool_prop. rewrite forallb_forall in H1. apply H1 in Hy. bool_prop.
  rewrite Hxy, Hyx in H4. by apply String.eqb_eq.
Qed.

Lemma validate_controls_full m :
  validate_controls false m = Ok tt ↔ Forall (λ s, dim_value s m ∈ dim_values s) dimensionSpecs.
Proof.
  unfold validate_controls. rewrite andb_false_r, iterM_Ok.
  rewrite !Forall_forall. pose proof dimensions_ordered as Ho. rewrite Forall_forall in Ho.
  split; intros H s Hs; specialize (H s Hs); specialize (Ho s Hs).
  - rewrite andb_false_r in H. unfold dim_valid, contains in H.
    destruct (negb _ && _) eqn:E; [|done]. by bool_prop.
  - apply (dim_ordered_refl _ _ Ho) in H as Hr. destruct Hr as [Hne _].
    rewrite andb_false_r. unfold dim_valid, contains. rewrite bool_decide_true by done.
    destruct (String.eqb_spec (dim_value s m) ""); done.
Qed.

(** What [SatisfiedBy] decides between two complete sets of controls. *)
Lemma SatisfiedBy_full r a :
  validate_controls false r = Ok tt → validate_controls false a = Ok tt →
  SatisfiedBy r a = Ok tt
  ↔ Forall (λ s, dim_satisfies s (dim_value s r) (dim_value s a) = true) dimensionSpecs.
Proof.
  intros Hr Ha. pose proof Hr as Hr'. rewrite validate_controls_full, Forall_forall in Hr'.
  pose proof dimensions_ordered as Ho. rewrite Forall_forall in Ho.
  assert (validate_controls true r = Ok tt) as Ht.
  { unfold validate_controls. destruct (bool_decide _ && true); [done|].
    apply iterM_Ok, Forall_forall. intros s Hs.
    destruct (dim_ordered_refl s (dim_value s r) (Ho s Hs) (Hr' s Hs)) as [Hne _].
    unfold dim_valid, contains. rewrite bool_decide_true by (by apply Hr').
    by destruct (String.eqb_spec (dim_value s r) ""). }
  unfold SatisfiedBy. rewrite Ht, Ha. cbn -[dimensionSpecs].
  rewrite iterM_Ok, !Forall_forall. split; intros H s Hs; specialize (H s Hs).
  all: destruct (dim_ordered_refl s (dim_value s r) (Ho s Hs) (Hr' s Hs)) as [Hne _].
  all: destruct (String.eqb_spec (dim_value s r) ""); [done|].
  - by destruct (dim_satisfies _ _ _).
  - by rewrite H.
Qed.

(** Backend controls are partially ordered by strength. On complete sets of
    controls [SatisfiedBy] is reflexive, transitive and antisymmetric: a backend
    meets its own guarantees, a backend that meets the guarantees of another one
    also meets every requirement the other one meets, and two sets that satisfy
    each other are equal. *)
Theorem satisfaction_is_an_order a b c :
  validate_controls false a = Ok tt → validate_controls false b = Ok tt →
  validate_controls false c = Ok tt →
  SatisfiedBy a a = Ok tt
  ∧ (SatisfiedBy a b = Ok tt → SatisfiedBy b c = Ok tt → SatisfiedBy a c = Ok tt)
  ∧ (SatisfiedBy a b = Ok tt → SatisfiedBy b a = Ok tt → a = b).
Proof.
  intros Ha Hb Hc. rewrite !SatisfiedBy_full by done.
  rewrite validate_controls_full, Forall_forall in Ha, Hb, Hc.
  pose proof dimensions_ordered as Ho. rewrite !Forall_forall in *. split_and!.
  - intros s Hs. by apply dim_ordered_refl; auto.
  - intros Hab Hbc s Hs. eapply (dim_ordered_trans s _ (dim_value s b)); auto.
  - intros Hab Hba.
    assert (Forall (λ s, dim_value s a = dim_value s b) dimensionSpecs) as E.
    { apply Forall_forall. intros s Hs. apply (dim_ordered_antisym s); auto. }
    repeat (apply Forall_cons in E as [? E]). destruct a, b. cbn in *. by subst.
Qed.

Theorem satisfaction_is_an_order_witness :
  let weak := mkControls "unrestricted" "workspace_tree" "proxy_targets" "group_kill" "restricted"
    "unrestricted" "unix_only" "canonical" "verified_manifest" "external_journal" in
  let strong := mkControls "exact_paths" "denied" "denied" "pid_namespace" "isolated"
    "platform_filtered" "private_namespace" "descriptor_relative" "broker_snapshot"
    "resumable_transaction" in
  SatisfiedBy weak weak = Ok tt ∧ SatisfiedBy weak strong = Ok tt
  ∧ is_ok (SatisfiedBy strong weak) = false.
Proof.
  intros weak strong.
  destruct (satisfaction_is_an_order weak weak strong) as (Hrefl & Htrans & _); [by vm_compute..|].
  split; [exact Hrefl|]. split; [|by vm_compute]. apply Htrans; [exact Hrefl|by vm_compute].
Defined.
