(* ===== verification/Commands.v ===== *)
(** Shell commands as the policy reads them ([internal/security/policy/command.go]):
    the analysis of a command into segments, and the matching of command
    prefixes against it. *)
From S2P Require Import Prelude.
From S2P Require Import GoStrings.
From S2P Require Import Json.
From S2P Require Import Paths.

(** Actions of policy rules ([policy.go]). *)
Definition Action : Type := string.
Definition ActionAllow : Action := "allow".
Definition ActionAsk : Action := "ask".
Definition ActionDeny : Action := "deny".
Definition ActionHold : Action := "hold".

(** ** The shell parser

    [mvdan.cc/sh] parses a text and [syntax.Walk] visits its nodes in order. The
    policy looks at compound nodes (redirections, subshells, blocks, clauses,
    function declarations) and at calls with their words; other nodes are left
    out of the list. *)
Inductive word_part :=
  | Lit (value : string)
  | SglQuoted (value : string)
  | DblQuoted (parts : list word_part)
  | Expansion.

Inductive node :=
  | Compound
  | CallExpr (args : list (list word_part)).

Class BashSyntax : Type := bash_nodes : string → option (list node).

(** ** Segments *)

Record CommandSegment := mkSegment {
  sg_Argv : list string;
  sg_HostExecutable : string;
  sg_Interpreter : string;
  sg_InterpreterPayload : bool;
  sg_Dynamic : bool;
}.

Record CommandAnalysis := mkAnalysis { an_Segments : list CommandSegment; an_Complex : bool }.

Definition dynamicWord : string := "<dynamic>".

(** Bash backslash removal, byte by byte. *)
Fixpoint unescape_bytes (quoted : bool) (l : list Z) : list Z :=
  match l with
  | [] => []
  | b :: l' =>
      if b =? 92 then
        match l' with
        | [] => [b]
        | next :: rest =>
            if next =? 10 then unescape_bytes quoted rest
            else if negb quoted || existsb (Z.eqb next) [36; 96; 34; 92]
            then next :: unescape_bytes quoted rest
            else b :: unescape_bytes quoted l'
        end
      else b :: unescape_bytes quoted l'
  end.

Definition unescapeLiteral (value : string) (quoted : bool) : string :=
  if has_byte value "\"%char then of_bytes (unescape_bytes quoted (bytes value)) else value.

(** [staticWord]; [None] when a part is an expansion. *)
Fixpoint static_part (quoted : bool) (part : word_part) : option string :=
  match part with
  | Lit value => Some (unescapeLiteral value quoted)
  | SglQuoted value => Some value
  | DblQuoted parts =>
      (fix all ps := match ps with
       | [] => Some ""
       | p :: ps => s ← static_part true p; t ← all ps; Some (s +:+ t)
       end) parts
  | Expansion => None
  end.

Fixpoint staticWord (parts : list word_part) : option string :=
  match parts with
  | [] => Some ""
  | p :: ps => s ← static_part false p; t ← staticWord ps; Some (s +:+ t)
  end.

(** The loop of [unwrapEnv] over the arguments of [env]; [None] when an option
    makes the executed argv opaque. *)
Fixpoint unwrap_env (args : list string) : option (list string) :=
  match args with
  | [] => Some []
  | value :: rest =>
      if value == "--" then Some rest
      else if contains ["-"; "-i"; "--ignore-environment"; "-0"; "--null"; "-v"; "--debug"] value
      then unwrap_env rest
      else if contains ["-u"; "-C"; "-P"] value
      then match rest with [] => Some [] | _ :: rest => unwrap_env rest end
      else if has_prefix value "--unset=" || has_prefix value "--chdir=" then unwrap_env rest
      else if has_prefix value "-" then None
      else if has_byte value "="%char && negb (has_prefix value "=") then unwrap_env rest
      else Some args
  end.

(** The executed argv and whether it is known. *)
Definition unwrapEnv (argv : list string) : list string * bool :=
  match argv with
  | [] => (argv, true)
  | name :: args =>
      if base_name name != "env" then (argv, true)
      else match unwrap_env args with
           | Some argv' => (argv', true)
           | None => (argv, false)
           end
  end.

Definition isShell (name : string) : bool := contains ["sh"; "bash"; "dash"; "zsh"; "ksh"; "fish"] name.
Definition isScripting (name : string) : bool :=
  contains ["python"; "python2"; "python3"; "node"; "ruby"; "perl"; "php"] name.

Definition interpreterBoundary (argv : list string) : string * bool :=
  match argv with
  | [] => ("", false)
  | name :: args =>
      let name := base_name name in
      if isShell name then (name, existsb (contains ["-c"; "-lc"]) args)
      else if isScripting name then (name, existsb (contains ["-c"; "-e"]) args)
      else ("", false)
  end.

Definition commandSegment (args : list (list word_part)) : CommandSegment :=
  let words := staticWord <$> args in
  let '(argv, unwrapped) := unwrapEnv (default dynamicWord <$> words) in
  let '(interpreter, payload) := interpreterBoundary argv in
  mkSegment argv (from_option base_name "" (head argv)) interpreter payload
    (existsb (λ w, bool_decide (w = None)) words || negb unwrapped).

Definition evalPayload (segment : CommandSegment) : option string :=
  match sg_Argv segment with
  | _ :: ((_ :: _) as rest) =>
      if (sg_HostExecutable segment != "eval") || sg_Dynamic segment then None
      else Some (join " " rest)
  | _ => None
  end.

(** The argument after the first [-c] or [-lc]. *)
Fixpoint script_after (args : list string) : option string :=
  match args with
  | [] => None
  | flag :: args =>
      match args with
      | [] => None
      | script :: _ => if contains ["-c"; "-lc"] flag then Some script else script_after args
      end
  end.

Definition shellPayload (argv : list string) : option string :=
  let '(interpreter, payload) := interpreterBoundary argv in
  if negb payload || negb (isShell interpreter) then None else script_after (tail argv).

(** ** AnalyzeCommand *)

Definition set_dynamic (s : CommandSegment) : CommandSegment :=
  mkSegment (sg_Argv s) (sg_HostExecutable s) (sg_Interpreter s) (sg_InterpreterPayload s) true.

Definition set_last (s : CommandSegment) (l : list CommandSegment) : list CommandSegment :=
  take (length l - 1) l ++ [s].

(** A nested script of a segment: the segments of its analysis are appended; a
    script that cannot be analysed makes the segment dynamic. The outer [option]
    is fuel. *)
Definition nest (analyze : string → option (res error CommandAnalysis)) (script : option string)
    (s : CommandSegment) (segments : list CommandSegment) :
    option (CommandSegment * list CommandSegment) :=
  match script with
  | None => Some (s, segments)
  | Some script =>
      nested ← analyze script;
      Some match nested with
           | Err _ => let s := set_dynamic s in (s, set_last s segments)
           | Ok nested => (s, segments ++ an_Segments nested)
           end
  end.

Definition visit_node (analyze : string → option (res error CommandAnalysis))
    (analysis : CommandAnalysis) (n : node) : option CommandAnalysis :=
  match n with
  | Compound => Some (mkAnalysis (an_Segments analysis) true)
  | CallExpr [] => Some analysis
  | CallExpr args =>
      let s := commandSegment args in
      '(s, segments) ← nest analyze (evalPayload s) s (an_Segments analysis ++ [s]);
      '(_, segments) ← nest analyze (shellPayload (sg_Argv s)) s segments;
      Some (mkAnalysis segments (an_Complex analysis))
  end.

Fixpoint visit_nodes (analyze : string → option (res error CommandAnalysis))
    (analysis : CommandAnalysis) (l : list node) : option CommandAnalysis :=
  match l with
  | [] => Some analysis
  | n :: l => analysis ← visit_node analyze analysis n; visit_nodes analyze analysis l
  end.

(** [None] is lack of fuel; a nested script is shorter than the command it is
    part of, so the length of the command is enough ([analysis_terminates]). *)
Fixpoint analyze `{BashSyntax} (fuel : nat) (command : string) : option (res error CommandAnalysis) :=
  match fuel with
  | O => None
  | S fuel =>
      let command := trim_space command in
      if command == "" then Some (Err (ErrText "command is empty")) else
      match bash_nodes command with
      | None => Some (Err (ErrText "syntax error"))
      | Some nodes =>
          analysis ← visit_nodes (analyze fuel) (mkAnalysis [] false) nodes;
          Some (if bool_decide (an_Segments analysis = [])
                then Err (ErrText "command has no executable segment") else Ok analysis)
      end
  end.

Definition AnalyzeCommand `{BashSyntax} (command : string) : res error CommandAnalysis :=
  default (Err (ErrText "out of fuel")) (analyze (String.length command + 2) command).

(** ** Prefix rules *)

Definition executableName (value : string) : string := base_name (trim_space value).

Definition wordMatches (value want : string) (executable : bool) : bool :=
  if value == dynamicWord then true
  else if executable then executableName value == executableName want
  else value == want.

(** Where the search for one prefix word ends: at the argument after the word,
    at the end of the arguments, or at an argument that is no option. *)
Inductive sought := Found (rest : list string) | Ended | Stopped.

Fixpoint seek (want : string) (argv : list string) (afterOption : bool) : sought :=
  match argv with
  | [] => Ended
  | value :: argv =>
      if wordMatches value want false then Found argv
      else if has_prefix value "-" then seek want argv true
      else if afterOption then seek want argv false
      else Stopped
  end.

Fixpoint match_words (prefix argv : list string) (partial : bool) : bool :=
  match prefix with
  | [] => true
  | want :: prefix =>
      match seek want argv false with
      | Found rest => match_words prefix rest partial
      | Ended => partial
      | Stopped => false
      end
  end.

(** [argvMatchesFrom(argv, start, prefix, partial)] on the arguments from
    [start]; a prefix is never empty. *)
Definition argvMatchesFrom (argv prefix : list string) (partial : bool) : bool :=
  match argv, prefix with
  | value :: argv, want :: prefix => wordMatches value want true && match_words prefix argv partial
  | _, _ => false
  end.

Definition commandWrapper (value : string) : bool :=
  contains ["command"; "builtin"; "exec"; "env"; "nice"; "nohup"; "time"; "timeout"; "gtimeout";
            "sudo"; "doas"; "xargs"; "find"; "stdbuf"; "ionice"; "setsid"; "chrt"; "taskset";
            "caffeinate"; "flock"; "watch"; "unbuffer"; "busybox"; "chroot"; "runuser"; "su"; "script"]
    (executableName value).

(** Bytes of the words [payloadNamesPrefix] reads. *)
Definition name_byte (b : Z) : bool :=
  (b =? 95) || ((45 <=? b) && (b <=? 57)) || ((97 <=? b) && (b <=? 122)) || ((65 <=? b) && (b <=? 90)).

(** [strings.FieldsFunc] on the other bytes. *)
Fixpoint name_fields (l cur : list Z) : list string :=
  match l with
  | [] => if bool_decide (cur = []) then [] else [of_bytes (rev cur)]
  | b :: l =>
      if name_byte b then name_fields l (b :: cur)
      else (if bool_decide (cur = []) then [] else [of_bytes (rev cur)]) ++ name_fields l []
  end.

Definition payloadNamesPrefix (argv prefix : list string) : bool :=
  let fields := tail argv ≫= λ value, name_fields (bytes value) [] in
  let words := fields ++ (executableName <$> fields) in
  match prefix with
  | [] => true
  | name :: rest => contains words (executableName name) && forallb (contains words) rest
  end.

(** The wrapper search: from every later argument, partially once [xargs] or
    [find] has been seen. *)
Fixpoint wrapper_matches (argv prefix : list string) (first partial : bool) : bool :=
  match argv with
  | [] => false
  | value :: rest =>
      let name := executableName value in
      let partial := partial || (name == "xargs") || (name == "find") in
      (negb first && argvMatchesFrom argv prefix partial) || wrapper_matches rest prefix false partial
  end.

Definition restrictiveSegmentMatches (segment : CommandSegment) (prefix : list string) : bool :=
  match sg_Argv segment with
  | [] => false
  | (name :: _) as argv =>
      if sg_Dynamic segment && ((sg_HostExecutable segment == "eval")
           || (sg_InterpreterPayload segment && isShell (sg_Interpreter segment))) then true
      else if sg_InterpreterPayload segment && negb (isShell (sg_Interpreter segment))
              && payloadNamesPrefix argv prefix then true
      else if argvMatchesFrom argv prefix false then true
      else if negb (commandWrapper name) then false
      else wrapper_matches argv prefix true false
  end.

Fixpoint argv_prefix_loop (argv prefix : list string) : bool :=
  match prefix, argv with
  | [], _ => true
  | p :: prefix, a :: argv => (a == p) && argv_prefix_loop argv prefix
  | _ :: _, [] => false
  end.

Definition argvPrefix (argv prefix : list string) : bool :=
  if bool_decide (prefix = []) || (length argv <? length prefix)%nat then false
  else argv_prefix_loop argv prefix.

(** The argv of a command that is one static segment. *)
Definition static_argv (a : CommandAnalysis) : option (list string) :=
  match an_Segments a with
  | [s] => if an_Complex a || sg_Dynamic s || sg_InterpreterPayload s || bool_decide (sg_Argv s = [])
           then None else Some (sg_Argv s)
  | _ => None
  end.

Definition parseStaticPrefix `{BashSyntax} (prefix : string) : res error (list string) :=
  match AnalyzeCommand prefix with
  | Err _ => Err (ErrText "command prefix must be one static command segment")
  | Ok a =>
      if an_Complex a || negb (length (an_Segments a) =? 1)%nat
      then Err (ErrText "command prefix must be one static command segment")
      else match static_argv a with
           | Some argv => Ok argv
           | None => Err (ErrText "command prefix crosses a dynamic or interpreter boundary")
           end
  end.

Definition commandRuleMatches `{BashSyntax} (command prefix : string) (action : Action) : bool :=
  match parseStaticPrefix prefix with
  | Err _ => false
  | Ok prefixArgv =>
      let restrictive := (action == ActionDeny) || (action == ActionHold) || (action == ActionAsk) in
      match AnalyzeCommand command with
      | Err _ => restrictive
      | Ok analysis =>
          if negb restrictive then
            match an_Segments analysis with
            | [s] => negb (an_Complex analysis) && negb (sg_Dynamic s)
                     && negb (sg_InterpreterPayload s) && argvPrefix (sg_Argv s) prefixArgv
            | _ => false
            end
          else existsb (λ s, restrictiveSegmentMatches s prefixArgv) (an_Segments analysis)
      end
  end.

Definition json_segment (s : CommandSegment) : json :=
  JObj ([("argv", JArr (JStr <$> sg_Argv s)); ("host_executable", JStr (sg_HostExecutable s))]
        ++ omit_str "interpreter" (sg_Interpreter s)
        ++ omit_bool "interpreter_payload" (sg_InterpreterPayload s)
        ++ omit_bool "dynamic" (sg_Dynamic s)).

Definition commandGrantIdentity `{BashSyntax} (command : string) : option string :=
  match AnalyzeCommand command with
  | Err _ => None
  | Ok a => Some (encode (JObj (("segments", JArr (json_segment <$> an_Segments a))
                                :: omit_bool "complex" (an_Complex a))))
  end.

Definition commandGrantPrefix `{BashSyntax} (command : string) : list string :=
  match AnalyzeCommand command with
  | Err _ => []
  | Ok a => default [] (static_argv a)
  end.

Definition unsafePersistentPrefix `{BashSyntax} (prefix : string) : bool :=
  match parseStaticPrefix prefix with
  | Err _ => true
  | Ok argv =>
      let name := from_option base_name "" (head argv) in
      if isShell name || isScripting name then true
      else if contains ["git"; "rm"] name then (length argv =? 1)%nat
      else false
  end.

(** ** Termination of the analysis *)

Notation slen := String.length (only parsing).

Lemma slen_app s t : slen (s +:+ t) = (slen s + slen t)%nat.
Proof. induction s as [|a s IH]; [done|]. rewrite append_cons. cbn. by rewrite IH. Qed.

Lemma slen_list s : slen s = length (String.list_ascii_of_string s).
Proof. induction s; cbn; congruence. Qed.

Lemma slen_of_list l : slen (String.string_of_list_ascii l) = length l.
Proof. induction l; cbn; congruence. Qed.

Lemma slen_rev s : slen (string_rev s) = slen s.
Proof. unfold string_rev. by rewrite slen_of_list, length_rev, <- slen_list. Qed.

Lemma slen_trim_left s : (slen (trim_left s) ≤ slen s)%nat.
Proof.
  enough (∀ n s, (slen s ≤ n)%nat → (slen (trim_left s) ≤ slen s)%nat) by eauto. clear s.
  induction n as [|n IH]; intros [|a s] Hn; cbn in *; try lia.
  destruct (space1 a); [specialize (IH s); lia|]. destruct s as [|b s]; cbn in *; [lia|].
  destruct (space2 a b); [specialize (IH s); lia|]. destruct s as [|c s]; cbn in *; [lia|].
  destruct (space3 a b c); [specialize (IH s)|]; cbn in *; lia.
Qed.

Lemma slen_trim_left_rev s : (slen (trim_left_rev s) ≤ slen s)%nat.
Proof.
  enough (∀ n s, (slen s ≤ n)%nat → (slen (trim_left_rev s) ≤ slen s)%nat) by eauto. clear s.
  induction n as [|n IH]; intros [|a s] Hn; cbn in *; try lia.
  destruct (space1 a); [specialize (IH s); lia|]. destruct s as [|b s]; cbn in *; [lia|].
  destruct (space2 b a); [specialize (IH s); lia|]. destruct s as [|c s]; cbn in *; [lia|].
  destruct (space3 c b a); [specialize (IH s)|]; cbn in *; lia.
Qed.

Lemma slen_trim_space s : (slen (trim_space s) ≤ slen s)%nat.
Proof.
  unfold trim_space. rewrite slen_rev. etransitivity; [apply slen_trim_left_rev|].
  rewrite slen_rev. apply slen_trim_left.
Qed.

Lemma slen_unescape value quoted : (slen (unescapeLiteral value quoted) ≤ slen value)%nat.
Proof.
  unfold unescapeLiteral. destruct (has_byte _ _); [|lia].
  unfold of_bytes. rewrite slen_of_list, length_fmap.
  assert (∀ n l, (length l ≤ n)%nat → (length (unescape_bytes quoted l) ≤ length l)%nat) as H.
  { induction n as [|n IH]; intros [|b l] Hn; cbn in *; try lia.
    destruct (b =? 92); cbn; [|specialize (IH l); lia]. destruct l as [|next l]; cbn in *; [lia|].
    destruct (next =? 10); [specialize (IH l); lia|].
    destruct (_ || _); cbn; [specialize (IH l)|specialize (IH (next :: l)); cbn in IH]; lia. }
  etransitivity; [by eapply H|]. unfold bytes. by rewrite length_fmap, <- slen_list.
Qed.

(** The text of a word part, and of the words of a call with the space that
    separates them. *)
Fixpoint part_size (p : word_part) : nat :=
  match p with
  | Lit value | SglQuoted value => slen value
  | DblQuoted parts => (fix all ps := match ps with [] => O | p :: ps => (part_size p + all ps)%nat end) parts
  | Expansion => O
  end.

Fixpoint word_size (parts : list word_part) : nat :=
  match parts with [] => O | p :: ps => (part_size p + word_size ps)%nat end.

Fixpoint words_size (args : list (list word_part)) : nat :=
  match args with
  | [] => O
  | [w] => word_size w
  | w :: args => (word_size w + 1 + words_size args)%nat
  end.

(** What the analysis relies on: the words of a call are disjoint pieces of the
    text, with a separator between them; and [<dynamic>] is no command. *)
Class BashSyntaxLaws `{BashSyntax} : Prop := {
  call_words text nodes args :
    bash_nodes text = Some nodes → CallExpr args ∈ nodes → (words_size args ≤ slen text)%nat;
  dynamic_word_unparsable : bash_nodes dynamicWord = None;
}.

Lemma static_part_size p : ∀ quoted s, static_part quoted p = Some s → (slen s ≤ part_size p)%nat.
Proof.
  revert p. fix IH 1. intros [value|value|parts|] quoted s; cbn.
  - intros [= <-]. apply slen_unescape.
  - by intros [= <-].
  - revert s. induction parts as [|p ps IHps]; intros s; [by intros [= <-]|].
    intros (a & Ha & (b & Hb & [= <-])%bind_Some)%bind_Some. rewrite slen_app.
    apply IH in Ha. apply IHps in Hb. lia.
  - done.
Qed.

Lemma staticWord_size w s : staticWord w = Some s → (slen s ≤ word_size w)%nat.
Proof.
  revert s. induction w as [|p ps IH]; intros s; cbn; [by intros [= <-]|].
  intros (a & Ha%static_part_size & (b & Hb & [= <-])%bind_Some)%bind_Some. rewrite slen_app.
  apply IH in Hb. lia.
Qed.

(** The static words of a call take no more room than the call. *)
Fixpoint joined_size (l : list string) : nat :=
  match l with
  | [] => O
  | [s] => slen s
  | s :: l => (slen s + 1 + joined_size l)%nat
  end.

Lemma slen_join l : slen (join " " l) = joined_size l.
Proof.
  induction l as [|s [|t l] IH]; [done..|].
  change (join " " (s :: t :: l)) with (s +:+ " " +:+ join " " (t :: l)).
  rewrite !slen_app, IH. cbn. lia.
Qed.

Lemma joined_size_cons s l : (joined_size l ≤ joined_size (s :: l))%nat.
Proof. destruct l; cbn; lia. Qed.

Lemma joined_size_tail s t l : (joined_size (t :: l) < joined_size (s :: t :: l))%nat.
Proof. cbn. lia. Qed.

Lemma joined_size_suffix k l : (joined_size l ≤ joined_size (k ++ l))%nat.
Proof.
  induction k as [|s k IH]; [done|]. etransitivity; [exact IH|]. apply joined_size_cons.
Qed.

Lemma unwrap_env_suffix args argv : unwrap_env args = Some argv → ∃ k, args = k ++ argv.
Proof.
  enough (∀ n args, (length args ≤ n)%nat → unwrap_env args = Some argv → ∃ k, args = k ++ argv) by eauto.
  clear args. induction n as [|n IH]; intros [|value rest] Hn; cbn in *; try lia.
  1,2: intros [= <-]; by exists [].
  assert (∀ r, (length r ≤ n)%nat → unwrap_env r = Some argv → (∃ k, r = k ++ argv)) as H by eauto.
  assert (∀ p r, (length r ≤ n)%nat → unwrap_env r = Some argv → ∃ k, p ++ r = k ++ argv) as Hp.
  { intros p r Hr (k & ->)%H; [|done]. exists (p ++ k). by rewrite app_assoc. }
  repeat match goal with |- (if ?b then _ else _) = _ → _ => destruct b end; try done.
  - intros [= <-]. by exists [value].
  - apply (Hp [value]). lia.
  - destruct rest as [|x rest]; [intros [= <-]; by exists [value]|].
    apply (Hp [value; x]). cbn in Hn. lia.
  - apply (Hp [value]). lia.
  - apply (Hp [value]). lia.
  - intros [= <-]. by exists [].
Qed.

Lemma unwrapEnv_suffix argv : ∃ k, argv = k ++ (unwrapEnv argv).1.
Proof.
  destruct argv as [|name args]; [by exists []|]. cbn. destruct (negb _); [by exists []|].
  destruct (unwrap_env args) as [argv'|] eqn:E; [|by exists []].
  apply unwrap_env_suffix in E as [k ->]. by exists (name :: k).
Qed.

Lemma commandSegment_argv args :
  ∃ k, default dynamicWord <$> (staticWord <$> args) = k ++ sg_Argv (commandSegment args).
Proof.
  unfold commandSegment. destruct (unwrapEnv_suffix (default dynamicWord <$> (staticWord <$> args))) as [k Hk].
  destruct (unwrapEnv _) as [argv b]. destruct (interpreterBoundary argv). by exists k.
Qed.

(** A call without expansions is no longer than its words. *)
Lemma static_words_size args :
  Forall (λ w, staticWord w ≠ None) args →
  (joined_size (default dynamicWord <$> (staticWord <$> args)) ≤ words_size args)%nat.
Proof.
  induction 1 as [|w args Hw _ IH]; [done|].
  destruct (staticWord w) as [s|] eqn:Es; [|done]. apply staticWord_size in Es as Hs.
  destruct args as [|w' args]; cbn in *; rewrite Es in *; cbn in *; [lia|]. lia.
Qed.

(** One static word of a call of several words is strictly shorter. *)
Lemma static_word_size args s :
  (2 ≤ length args)%nat → s ∈ default dynamicWord <$> (staticWord <$> args) →
  s = dynamicWord ∨ (slen s < words_size args)%nat.
Proof.
  intros Hl (o & -> & (w & -> & Hw)%list_elem_of_fmap)%list_elem_of_fmap.
  destruct (staticWord w) as [s|] eqn:Es; [|by left]. right. cbn.
  apply staticWord_size in Es. eapply Nat.le_lt_trans; [exact Es|]. clear Es.
  assert (∀ a, w ∈ a → (word_size w ≤ words_size a)%nat) as Hin.
  { induction a as [|x a IH]; [by intros ?%not_elem_of_nil|].
    intros [->|H]%elem_of_cons; destruct a; cbn in *; try lia; [by apply not_elem_of_nil in H|].
    specialize (IH H). lia. }
  destruct args as [|x [|y args]]; cbn in Hl; try lia.
  apply elem_of_cons in Hw as [->|Hw]; [|specialize (Hin _ Hw)]; cbn in *; lia.
Qed.

Lemma evalPayload_size args script :
  evalPayload (commandSegment args) = Some script → (slen script < words_size args)%nat.
Proof.
  destruct (commandSegment_argv args) as [k Hk]. unfold evalPayload.
  destruct (sg_Argv (commandSegment args)) as [|name [|x rest]] eqn:Ea; try done.
  destruct (_ || _) eqn:Ed; [done|]. intros E. apply (inj Some) in E as <-. rewrite slen_join.
  eapply Nat.lt_le_trans; [apply (joined_size_tail name)|].
  etransitivity; [apply (joined_size_suffix k)|]. rewrite <- Hk. apply static_words_size.
  apply orb_false_iff in Ed as [_ Ed]. unfold commandSegment in Ed.
  destruct (unwrapEnv _), (interpreterBoundary _). cbn in Ed. apply orb_false_iff in Ed as [Ed _].
  apply Forall_forall. intros w Hw Hn. rewrite <- not_true_iff_false in Ed. apply Ed.
  apply existsb_exists. exists None. split; [|by rewrite bool_decide_eq_true].
  apply list_elem_of_In, list_elem_of_fmap. by exists w.
Qed.

Lemma script_after_elem args script :
  script_after args = Some script → script ∈ args ∧ (2 ≤ length args)%nat.
Proof.
  induction args as [|flag args IH]; [done|]. cbn. destruct args as [|x args]; [done|].
  destruct (contains _ _).
  - intros [= <-]. split; [by right; left|cbn; lia].
  - intros [? ?]%IH. split; [by right|cbn in *; lia].
Qed.

Lemma shellPayload_size args script :
  shellPayload (sg_Argv (commandSegment args)) = Some script →
  script = dynamicWord ∨ (slen script < words_size args)%nat.
Proof.
  destruct (commandSegment_argv args) as [k Hk]. unfold shellPayload.
  destruct (interpreterBoundary _). destruct (_ || _); [done|].
  destruct (sg_Argv (commandSegment args)) as [|name argv]; [done|]. cbn.
  intros [Hin Hl]%script_after_elem. apply static_word_size.
  - assert (length args = length (k ++ name :: argv)) as ->.
    { rewrite <- Hk. by rewrite !length_fmap. }
    rewrite length_app. cbn. lia.
  - rewrite Hk. apply elem_of_app. right. by right.
Qed.

Lemma nest_some analyze script s segments :
  (∀ x, script = Some x → is_Some (analyze x)) → is_Some (nest analyze script s segments).
Proof.
  intros H. unfold nest. destruct script as [x|]; [|by eexists].
  destruct (H x eq_refl) as [r ->]. by eexists.
Qed.

Lemma nest_argv analyze script s segments s' segments' :
  nest analyze script s segments = Some (s', segments') → sg_Argv s' = sg_Argv s.
Proof.
  unfold nest. destruct script as [x|]; [|by intros [= <- _]].
  intros ([a|e] & _ & [= <- _])%bind_Some; done.
Qed.

Lemma visit_nodes_some analyze analysis nodes :
  (∀ args x, CallExpr args ∈ nodes → evalPayload (commandSegment args) = Some x → is_Some (analyze x)) →
  (∀ args x, CallExpr args ∈ nodes → shellPayload (sg_Argv (commandSegment args)) = Some x →
             is_Some (analyze x)) →
  is_Some (visit_nodes analyze analysis nodes).
Proof.
  revert analysis. induction nodes as [|n nodes IH]; intros analysis He Hs; cbn; [by eexists|].
  assert (is_Some (visit_node analyze analysis n)) as [a' ->].
  { destruct n as [|[|w args]]; cbn -[commandSegment shellPayload evalPayload nest]; [by eexists..|].
    destruct (nest_some analyze (evalPayload (commandSegment (w :: args)))
      (commandSegment (w :: args)) (an_Segments analysis ++ [commandSegment (w :: args)])) as [[s' sg] E].
    { intros x Hx. eapply He; [by left|exact Hx]. }
    rewrite E. cbn -[commandSegment shellPayload evalPayload nest].
    rewrite (nest_argv _ _ _ _ _ _ E). destruct (nest_some analyze (shellPayload (sg_Argv (commandSegment (w :: args)))) s' sg)
      as [[? ?] ->]; [|by eexists].
    intros x Hx. eapply Hs; [by left|exact Hx]. }
  cbn. apply IH; intros args x Hin; [apply He|apply Hs]; by right.
Qed.

Section termination.
Context `{BashSyntaxLaws}.

Lemma analyze_dynamic_word fuel : is_Some (analyze (S fuel) dynamicWord).
Proof.
  cbn. change (trim_space dynamicWord) with dynamicWord. rewrite dynamic_word_unparsable. by eexists.
Qed.

Lemma analyze_terminates fuel command :
  (slen command + 2 ≤ fuel)%nat → is_Some (analyze fuel command).
Proof.
  revert command. induction fuel as [|fuel IH]; intros command Hf; [lia|]. cbn.
  pose proof (slen_trim_space command) as Ht.
  destruct (String.eqb _ _); [by eexists|].
  destruct (bash_nodes (trim_space command)) as [nodes|] eqn:En; [|by eexists].
  destruct (visit_nodes_some (analyze fuel) (mkAnalysis [] false) nodes) as [a ->]; [..|by eexists].
  - intros args x Hin Hx%evalPayload_size. apply (call_words _ _ _ En) in Hin. apply IH. lia.
  - intros args x Hin [->|Hx]%shellPayload_size.
    + destruct fuel as [|fuel]; [lia|]. apply analyze_dynamic_word.
    + apply (call_words _ _ _ En) in Hin. apply IH. lia.
Qed.
End termination.
