(* ===== verification/Guardian.v ===== *)
(** Model-based review of a call ([internal/security/guardian]): the candidate
    under review, the strict reading of the reviewer's answer, and the decision
    table that combines them. *)
From S2P Require Import Prelude.
From S2P Require Import GoStrings.
From S2P Require Import Json.
From S2P Require Import Paths.
From S2P Require Import PathPattern.
From S2P Require Import Netpolicy.
From S2P Require Import SecurityModel.
From S2P Require Import Controls.

(** ** The reviewer's answer ([assessment.go]) *)

Definition RiskLevel : Type := string.
Definition RiskLevel_Valid (r : RiskLevel) : bool := contains ["low"; "medium"; "high"; "critical"] r.

Definition Authorization : Type := string.
Definition AuthSupported : Authorization := "supported".
Definition AuthUnknown : Authorization := "unknown".
Definition AuthConflicting : Authorization := "conflicting".
Definition Authorization_Valid (a : Authorization) : bool :=
  contains [AuthSupported; AuthUnknown; AuthConflicting] a.

Definition Recommendation : Type := string.
Definition RecommendAllow : Recommendation := "allow".
Definition RecommendPrompt : Recommendation := "prompt".
Definition Recommendation_Valid (r : Recommendation) : bool :=
  contains [RecommendAllow; RecommendPrompt] r.

Record Verdict := mkVerdict {
  vd_RiskLevel : RiskLevel;
  vd_Authorization : Authorization;
  vd_SourceIDs : list string;
  vd_Recommendation : Recommendation;
  vd_Rationale : string;
}.

Definition knownFields : list string :=
  ["risk_level"; "authorization"; "authorization_source_ids"; "recommendation"; "rationale"].

(** [validateJSONShape]: one object, no key twice, nothing after it. *)
Definition validateJSONShape (data : string) : res error (list (string * json)) :=
  match parse data with
  | Some (JObj members) =>
      if bool_decide (NoDup (fst <$> members)) then Ok members
      else Err (ErrText "guardian output has duplicate key")
  | _ => Err (ErrText "guardian output is not a JSON object")
  end.

Definition field (members : list (string * json)) (name : string) : option json :=
  list_find (λ m, (fst m == name) = true) members ≫= λ x, Some (snd (snd x)).

(** A required string of an enumeration; [null] leaves it empty. *)
Definition enum_field (members : list (string * json)) (name : string) (valid : string → bool) :
    res error string :=
  match field members name with
  | None => Err (ErrFmt "guardian output is missing %s" [ArgS name])
  | Some v =>
      let s := match v with JStr s => Some s | JNull => Some "" | _ => None end in
      match s with
      | Some s => if valid s then Ok s else Err (ErrFmt "guardian %s is invalid" [ArgS name])
      | None => Err (ErrFmt "guardian %s is invalid" [ArgS name])
      end
  end.

Definition rationale_field (members : list (string * json)) : res error string :=
  match field members "rationale" with
  | Some (JStr s) => Ok s
  | Some JNull => Err (ErrText "guardian rationale is null")
  | Some _ => Err (ErrText "guardian rationale is not a string")
  | None => Err (ErrText "guardian output is missing rationale")
  end.

Definition string_item (v : json) : option string :=
  match v with JStr s => Some s | JNull => Some "" | _ => None end.

Definition sources_field (members : list (string * json)) : res error (list string) :=
  match field members "authorization_source_ids" with
  | None | Some JNull => Ok []
  | Some (JArr l) => match mapM string_item l with
                     | Some ids => Ok ids
                     | None => Err (ErrText "guardian authorization_source_ids is invalid")
                     end
  | Some _ => Err (ErrText "guardian authorization_source_ids is invalid")
  end.

(** [validSourceIDs] maps an id to whether it may be cited; an absent id may not. *)
Definition ParseAssessment (data : string) (validSourceIDs : gmap string bool) : res error Verdict :=
  members ← validateJSONShape data;
  require (forallb (λ m, contains knownFields (fst m)) members)
    (ErrText "guardian output has unknown field");;
  risk ← enum_field members "risk_level" RiskLevel_Valid;
  authorization ← enum_field members "authorization" Authorization_Valid;
  recommendation ← enum_field members "recommendation" Recommendation_Valid;
  rationale ← rationale_field members;
  sources ← sources_field members;
  (if authorization == AuthSupported then
     refuse (bool_decide (sources = []))
       (ErrText "guardian authorization=supported requires authorization_source_ids");;
     require (forallb (λ id, default false (validSourceIDs !! id)) sources)
       (ErrText "guardian cites unknown or revoked source")
   else Ok tt);;
  refuse ((authorization != AuthSupported) && bool_decide (sources ≠ []))
    (ErrText "guardian cites sources without authorization=supported");;
  Ok (mkVerdict risk authorization sources recommendation rationale).

(** ** Candidates ([candidate.go]) *)

Definition validDigest (value : string) : bool := validSubjectDigest value.

Record InvocationIdentity := mkIdentity {
  id_ReviewID : string; id_WorkspaceID : string; id_SessionID : string; id_ThreadID : string;
  id_TurnID : string; id_CallID : string; id_AttemptID : string;
  id_WorkspaceGeneration : Z;
}.

Record BindingIdentity := mkBindingIdentity {
  bi_Tool : string; bi_CatalogID : string; bi_ArgumentsDigest : string;
  bi_CatalogGeneration : Z; bi_Revision : Z; bi_Authority : Z;
  bi_Subject : Subject;
}.

Record AuthorizationSource := mkAuthorizationSource {
  au_ID : string; au_ThreadID : string; au_TurnID : string; au_Role : string; au_Digest : string;
  au_Version : Z;
  au_Revoked : bool;
}.

Record AuthorizationSnapshot := mkAuthorizationSnapshot {
  an_WorkspaceID : string; an_SessionID : string; an_ThreadID : string; an_Revision : string;
  an_ParentDigest : string;
  an_Sources : list AuthorizationSource;
  an_Complete : bool;
}.

Definition validate_source (a : AuthorizationSnapshot) (seen : list string)
    (source : AuthorizationSource) : res error (list string) :=
  refuse ((au_ID source == "") || (au_ThreadID source == "") || (au_TurnID source == "")
          || (au_Role source != "user") || (au_Version source =? 0)
          || negb (validDigest (au_Digest source)) || contains seen (au_ID source))
    (ErrText "guardian authorization source is invalid");;
  refuse ((au_ThreadID source != an_ThreadID a) && (an_ParentDigest a == ""))
    (ErrText "guardian inherited source has no parent authority");;
  Ok (au_ID source :: seen).

Definition validate_snapshot (a : AuthorizationSnapshot) : res error unit :=
  refuse ((an_WorkspaceID a == "") || (an_SessionID a == "") || (an_ThreadID a == "")
          || negb (validDigest (an_Revision a)) || negb (an_Complete a)
          || bool_decide (an_Sources a = [])
          || ((an_ParentDigest a != "") && negb (validDigest (an_ParentDigest a))))
    (ErrText "guardian authorization snapshot is incomplete");;
  foldM (validate_source a) (an_Sources a) [];;
  Ok tt.

Definition SourceIDs (a : AuthorizationSnapshot) : gmap string bool :=
  if is_ok (validate_snapshot a)
  then foldl (λ result source, <[au_ID source := negb (au_Revoked source)]> result) ∅ (an_Sources a)
  else ∅.

Record ContentEvidence := mkContentEvidence {
  ce_Path : string; ce_Identity : string; ce_Digest : string;
  ce_Mode : Z;
  ce_Size : Z;
}.

Record ExecutionSnapshot := mkExecutionSnapshot {
  ex_ID : string; ex_Root : string; ex_RootIdentity : string; ex_WorkingDir : string;
  ex_WorkingDirIdentity : string;
  ex_Command : string; ex_EnvironmentDigest : string; ex_ResourcesDigest : string;
  ex_AssessmentID : string;
  ex_SandboxPolicyID : string; ex_Settlement : string;
  ex_Controls : Controls;
  ex_Content : list ContentEvidence;
  ex_WritePaths : list string;
  ex_CoverageComplete : bool;
  ex_Missing : list string;
}.

(** A clean relative path that stays inside its root. *)
Definition local_path (p : string) : bool :=
  negb ((p == "") || is_abs p || (clean p != p) || (p == "..") || has_prefix p "../").

Definition validate_write_path (seen : list string) (p : string) : res error (list string) :=
  refuse (negb (local_path p) || contains seen p) (ErrText "guardian write scope is invalid");;
  Ok (p :: seen).

Definition validate_content (seen : list string) (c : ContentEvidence) : res error (list string) :=
  refuse (negb (local_path (ce_Path c)) || (ce_Identity c == "") || negb (validDigest (ce_Digest c))
          || (ce_Size c <? 0) || contains seen (ce_Path c))
    (ErrText "guardian content identity is invalid");;
  Ok (ce_Path c :: seen).

Definition validate_execution (s : ExecutionSnapshot) : res error unit :=
  refuse ((ex_ID s == "") || negb (is_abs (ex_Root s)) || (ex_RootIdentity s == "")
          || negb (is_abs (ex_WorkingDir s)) || (ex_WorkingDirIdentity s == "")
          || blank (ex_Command s) || negb (validDigest (ex_EnvironmentDigest s))
          || negb (validDigest (ex_ResourcesDigest s)) || negb (validDigest (ex_AssessmentID s))
          || (ex_SandboxPolicyID s == "")
          || ((ex_Settlement s != "apply") && (ex_Settlement s != "discard"))
          || negb (ex_CoverageComplete s) || bool_decide (ex_Missing s ≠ [])
          || bool_decide (ex_Controls s = zero_controls)
          || negb (is_ok (validate_controls true (ex_Controls s))))
    (ErrText "guardian execution evidence is incomplete");;
  (let rel := rel_abs (ex_Root s) (ex_WorkingDir s) in
   refuse ((rel == "..") || has_prefix rel "../")
     (ErrText "guardian cwd is outside the execution snapshot"));;
  foldM validate_write_path (ex_WritePaths s) [];;
  foldM validate_content (ex_Content s) [];;
  Ok tt.

(** ** Eligibility ([decision.go]) *)

Record CandidateFacts := mkCandidateFacts {
  cf_BuiltinBinding : bool;
  cf_RegisteredForReview : bool;
  cf_EffectRule : string;
  cf_PermissionExpansion : bool;
  cf_ProtectedPaths : bool;
  cf_ControlPlaneWrite : bool;
  cf_Capability : string;
  cf_Stage : string;
  cf_SandboxRequired : bool;
  cf_HostExecution : bool;
  cf_NetworkAccess : bool;
  cf_MCPOrSkill : bool;
  cf_EffectRisk : string;
  cf_EffectKind : string;
  cf_EffectReversibility : string;
  cf_EvidenceComplete : bool;
}.

(** [CheckEligibility]; the reason of an ineligible candidate is the error. *)
Definition CheckEligibility (facts : CandidateFacts) : res string unit :=
  refuse (negb (cf_BuiltinBinding facts) || negb (cf_RegisteredForReview facts))
    "binding is not registered for review";;
  refuse (negb (cf_SandboxRequired facts)) "Strong Sandbox is required";;
  refuse (cf_PermissionExpansion facts || cf_ProtectedPaths facts || cf_ControlPlaneWrite facts)
    "expanded or protected authority excluded";;
  refuse (cf_Capability facts != "process") "not CapabilityProcess";;
  refuse (cf_Stage facts != "call") "not StageCall";;
  refuse (cf_HostExecution facts) "host execution excluded";;
  refuse (cf_NetworkAccess facts) "network access excluded in first version";;
  refuse (cf_MCPOrSkill facts) "MCP/Skill source excluded";;
  refuse (cf_EffectRisk facts == "critical") "critical risk excluded";;
  refuse (cf_EffectRisk facts != "high") "only high-risk bounded process mutations are reviewable";;
  refuse ((cf_EffectRule facts != RuleProcessMutating) || (cf_EffectKind facts != ProcessMutating)
          || (cf_EffectReversibility facts != Bounded))
    "only RuleProcessMutating process.mutating/high/bounded is reviewable";;
  refuse (negb (cf_EvidenceComplete facts)) "execution evidence is incomplete".

Record ReviewVersions := mkVersions {
  vr_PolicyRevision : Z;
  vr_Permission : string; vr_ConfigurationDigest : string; vr_RouteDigest : string;
  vr_PromptVersion : string; vr_SchemaVersion : string;
}.

Record ReviewCandidate := mkCandidate {
  rv_Identity : InvocationIdentity;
  rv_Binding : BindingIdentity;
  rv_Facts : CandidateFacts;
  rv_Execution : ExecutionSnapshot;
  rv_Authorization : AuthorizationSnapshot;
  rv_Versions : ReviewVersions;
}.

(** [ReviewCandidate.Digest] is SHA-256 of the JSON text of the candidate, which
    tells nil from empty slices; the text is not modelled. *)
Class CandidateDigest : Type := candidate_digest : ReviewCandidate → string.

Definition validate_candidate (c : ReviewCandidate) : res error unit :=
  let i := rv_Identity c in let b := rv_Binding c in let v := rv_Versions c in
  let a := rv_Authorization c in
  refuse (existsb blank
            [id_ReviewID i; id_WorkspaceID i; id_SessionID i; id_ThreadID i; id_TurnID i; id_CallID i;
             id_AttemptID i; bi_Tool b; bi_CatalogID b; vr_PromptVersion v; vr_SchemaVersion v])
    (ErrText "guardian candidate identity is incomplete");;
  refuse ((id_WorkspaceGeneration i =? 0) || (bi_CatalogGeneration b =? 0) || (bi_Revision b =? 0)
          || (bi_Authority b =? 0) || negb (is_ok (validate_subject (bi_Subject b)))
          || (sj_Kind (bi_Subject b) != SubjectBuiltin) || (sj_Trust (bi_Subject b) != TrustBuiltin)
          || negb (validDigest (bi_ArgumentsDigest b)) || (vr_PolicyRevision v =? 0)
          || (vr_Permission v != "auto") || negb (validDigest (vr_ConfigurationDigest v))
          || negb (validDigest (vr_RouteDigest v)))
    (ErrText "guardian binding or review version is incomplete");;
  refuse ((an_WorkspaceID a != id_WorkspaceID i) || (an_SessionID a != id_SessionID i)
          || (an_ThreadID a != id_ThreadID i))
    (ErrText "guardian authorization belongs to another invocation");;
  validate_snapshot a;;
  validate_execution (rv_Execution c);;
  match CheckEligibility (rv_Facts c) with
  | Ok _ => Ok tt
  | Err reason => Err (ErrFmt "guardian candidate: %s" [ArgS reason])
  end.

(** ** Evidence *)

Record ReviewEvidence := mkEvidence { ev_CandidateDigest : string; ev_Assessment : Verdict }.

Definition BindAssessment `{CandidateDigest} (candidate : ReviewCandidate) (data : string) :
    res error ReviewEvidence :=
  validate_candidate candidate;;
  assessment ← ParseAssessment data (SourceIDs (rv_Authorization candidate));
  Ok (mkEvidence (candidate_digest candidate) assessment).

Record EvidenceInvalidation := mkInvalidation {
  iv_Cancelled : bool;
  iv_AuthorizationChanged : bool;
  iv_CatalogChanged : bool;
  iv_ContentChanged : bool;
  iv_SurfaceTightened : bool;
}.

Definition Invalid (e : EvidenceInvalidation) : bool :=
  iv_Cancelled e || iv_AuthorizationChanged e || iv_CatalogChanged e || iv_ContentChanged e
  || iv_SurfaceTightened e.

Definition still_valid : EvidenceInvalidation := mkInvalidation false false false false false.

Record PolicyContext := mkContext {
  px_Candidate : option ReviewCandidate;
  px_GuardianEnabled : bool;
  px_CurrentAction : string;
  px_HasExplicitAsk : bool;
  px_HasFreshRequirement : bool;
  px_PermissionAuto : bool;
  px_DisableAutoReview : bool;
}.

Inductive Outcome := OutcomeDiscard | OutcomePreserveDeny | OutcomeKeepAsk | OutcomeAllow.

#[export] Instance Outcome_eq_dec : EqDecision Outcome.
Proof. solve_decision. Defined.

(** Rows 7 and 8 of the table. *)
Definition judge (a : Verdict) : Outcome :=
  if (vd_RiskLevel a == "high") || (vd_RiskLevel a == "critical") then OutcomeKeepAsk
  else if (vd_Authorization a == AuthUnknown) || (vd_Authorization a == AuthConflicting)
  then OutcomeKeepAsk
  else if vd_Recommendation a == RecommendPrompt then OutcomeKeepAsk
  else if ((vd_RiskLevel a == "low") || (vd_RiskLevel a == "medium"))
          && ((vd_Authorization a == AuthSupported) && (vd_Recommendation a == RecommendAllow))
  then OutcomeAllow
  else OutcomeKeepAsk.

Definition Evaluate `{CandidateDigest} (evidence : option ReviewEvidence)
    (invalid : EvidenceInvalidation) (policy : PolicyContext) : Outcome :=
  if iv_Cancelled invalid then OutcomeDiscard
  else if Invalid invalid then OutcomeDiscard
  else if (px_CurrentAction policy == "deny") || (px_CurrentAction policy == "hold")
  then OutcomePreserveDeny
  else if px_CurrentAction policy == "allow" then OutcomeDiscard
  else if px_CurrentAction policy != "ask" then OutcomeKeepAsk
  else if px_HasExplicitAsk policy || px_HasFreshRequirement policy
          || negb (px_PermissionAuto policy) || negb (px_GuardianEnabled policy)
          || px_DisableAutoReview policy
  then OutcomeKeepAsk
  else
    match px_Candidate policy with
    | None => OutcomeKeepAsk
    | Some candidate =>
        if negb (is_ok (validate_candidate candidate))
           || negb (is_ok (CheckEligibility (rv_Facts candidate)))
        then OutcomeKeepAsk
        else match evidence with
             | None => OutcomeKeepAsk
             | Some e =>
                 if ev_CandidateDigest e != candidate_digest candidate then OutcomeDiscard
                 else if ev_CandidateDigest e == "" then OutcomeKeepAsk
                 else judge (ev_Assessment e)
             end
    end.

(** ** Facts *)

(** What the decision table needs to allow. *)
Lemma Evaluate_allow `{CandidateDigest} evidence invalid policy :
  Evaluate evidence invalid policy = OutcomeAllow →
  Invalid invalid = false ∧ px_CurrentAction policy = "ask" ∧ px_HasExplicitAsk policy = false
  ∧ px_HasFreshRequirement policy = false ∧ px_PermissionAuto policy = true
  ∧ px_GuardianEnabled policy = true ∧ px_DisableAutoReview policy = false
  ∧ ∃ candidate e, px_Candidate policy = Some candidate ∧ evidence = Some e
    ∧ validate_candidate candidate = Ok tt ∧ CheckEligibility (rv_Facts candidate) = Ok tt
    ∧ ev_CandidateDigest e = candidate_digest candidate ∧ judge (ev_Assessment e) = OutcomeAllow.
Proof.
  unfold Evaluate. destruct (iv_Cancelled invalid); [done|]. destruct (Invalid invalid); [done|].
  destruct (_ || _); [done|]. destruct (String.eqb _ "allow"); [done|].
  destruct (String.eqb_spec (px_CurrentAction policy) "ask") as [->|]; [|done]. cbn.
  destruct (_ || _) eqn:E; [done|]. bool_prop.
  destruct (px_Candidate policy) as [candidate|]; [|done].
  destruct (negb _ || negb _) eqn:Ev; [done|]. bool_prop.
  destruct evidence as [e|]; [|done].
  destruct (String.eqb_spec (ev_CandidateDigest e) (candidate_digest candidate)); [|done]. cbn.
  destruct (String.eqb _ ""); [done|]. intros Hj. split_and!; try done.
  exists candidate, e. split_and!; try done.
  - destruct (validate_candidate candidate) as [[]|]; done.
  - destruct (CheckEligibility _) as [[]|]; done.
Qed.

Lemma judge_allow a :
  judge a = OutcomeAllow →
  (vd_RiskLevel a = "low" ∨ vd_RiskLevel a = "medium")
  ∧ vd_Authorization a = AuthSupported ∧ vd_Recommendation a = RecommendAllow.
Proof.
  unfold judge. destruct (_ || _); [done|]. destruct (_ || _); [done|].
  destruct (String.eqb (vd_Recommendation a) RecommendPrompt); [done|].
  destruct (_ && _) eqn:E; [|done]. bool_prop. apply orb_true_iff in H.
  rewrite !String.eqb_eq in H. done.
Qed.
