(* ===== verification/Grants.v ===== *)
(** Tool invocations as the policy sees them and the typed grant that a
    reusable approval binds ([internal/security/policy]: policy.go, grant.go). *)
From S2P Require Import Prelude.
From S2P Require Import GoStrings.
From S2P Require Import Sha256.
From S2P Require Import Json.
From S2P Require Import GoFloat.
From S2P Require Import ToolResult.
From S2P Require Import Paths.
From S2P Require Import PathPattern.
From S2P Require Import Netpolicy.
From S2P Require Import SecurityModel.
From S2P Require Import Commands.
From S2P Require Import Guardian.

(** ** Invocations *)

Definition Stage : Type := string.
Definition StageCall : Stage := "".
Definition StageEgress : Stage := "egress_target".

Record GuardianInput := mkGuardianInput {
  gi_Enabled : bool;
  gi_Candidate : ReviewCandidate;
  gi_Evidence : option ReviewEvidence;
}.

Record Invocation := mkInvocation {
  in_CallID : string;
  in_Tool : string;
  in_Source : SourceKind;
  in_Arguments : string;
  in_Assessment : Assessment;
  in_Approval : ApprovalMode;
  in_Validated : bool;
  in_Workspace : string;
  in_Stage : Stage;
  in_GuardianRegistered : bool;
  in_Guardian : option GuardianInput;
}.

Definition in_Facets (i : Invocation) : Facets := as_facets (in_Assessment i).
Definition in_Effect (i : Invocation) : Effect := as_effect (in_Assessment i).
Definition in_Resources (i : Invocation) : list Resource := Resources (in_Assessment i).
Definition in_Capability (i : Invocation) : Capability := bd_Capability (Binding (in_Assessment i)).
Definition in_Journaled (i : Invocation) : bool := fc_Journaled (in_Facets i).

(** ** Fingerprints ([approval.go]) *)

(** [writeFingerprintField]: the length in eight bytes, then the value. *)
Definition fingerprint_field (value : string) : string :=
  of_bytes (be_bytes 8 (Z.of_nat (String.length value))) +:+ value.

Definition fingerprint (fields : list string) : string :=
  sha256_hex (fold_right (λ f s, fingerprint_field f +:+ s) "" fields).

(** ** Grants ([grant.go]) *)

Record Grant := mkGrant {
  gr_Kind : string;
  gr_Key : string;
  gr_Summary : string;
  gr_Prefix : list string;
  gr_scope : string;
}.

Definition cleanGrantPath (value : string) : string :=
  let value := trim_space value in if value == "" then "." else clean value.

(** [sort.Slice] by key, which is an insertion sort up to twelve elements. *)
Definition key_le `{Unicode} (a b : Resource) : Prop := String.le (Resource_Key a) (Resource_Key b).
#[export] Instance key_le_dec `{Unicode} a b : Decision (key_le a b).
Proof. unfold key_le. apply _. Defined.
Definition sort_by_key `{Unicode} (l : list Resource) : list Resource := merge_sort key_le l.

(** The first of each run of equal keys. *)
Fixpoint compact_by_key `{Unicode} (last : option string) (l : list Resource) : list Resource :=
  match l with
  | [] => []
  | r :: l =>
      let key := Resource_Key r in
      if bool_decide (last = Some key) then compact_by_key last l
      else r :: compact_by_key (Some key) l
  end.

Definition compactResources `{Unicode} (l : list Resource) : list Resource := compact_by_key None l.

Definition addressable (l : list Resource) : list Resource :=
  filter (λ r, (Location r != "") = true) l.

Definition grantResources `{Unicode} (resources : list Resource) : list Resource * bool :=
  let l := addressable resources in
  (compactResources (sort_by_key
     ((λ r, if bool_decide (rs_Class r = ClassPath) then with_path (cleanGrantPath (rs_Path r)) r else r) <$> l)),
   existsb (λ r, bool_decide (rs_Class r = ClassAgent)) l).

Definition networkGrantEndpoints (resources : list Resource) : list string :=
  compact (sort_strings (omap (λ r,
    if bool_decide (rs_Class r = ClassLoopback) then Some LoopbackScope
    else if bool_decide (rs_Class r = ClassNetwork)
    then (λ n, tg_Scheme n +:+ "://" +:+ tg_Host n) <$> rs_Network r else None) resources)).

Definition grantScopeFingerprint (cwd : string) (resources : list string) (digest : string) : string :=
  fingerprint (cwd :: resources ++ [digest]).

(** The process arguments a shell grant reads. *)
Record ShellInput := mkShellInput { sh_Command : string; sh_CWD : string; sh_Path : string; sh_Args : list string }.

Definition shell_shape : shape :=
  SObj [("Command", SStr); ("CWD", SStr); ("Path", SStr); ("Args", SArr SStr)].

Definition decode_shell (arguments : string) : option ShellInput :=
  v ← parse arguments;
  if decodes shell_shape v
  then Some (mkShellInput (str_member "Command" v) (str_member "CWD" v) (str_member "Path" v)
               ((λ x, match x with JStr s => s | _ => "" end) <$> list_member "Args" v))
  else None.

(** A command without shell text is the JSON of its path and arguments. *)
Definition shell_command (input : ShellInput) : string :=
  let command := trim_space (sh_Command input) in
  if (command == "") && (sh_Path input != "")
  then encode (JObj (("path", JStr (cleanGrantPath (sh_Path input))) :: omit_strs "args" (sh_Args input)))
  else command.

(** The kind, summary, hashed fields, prefix, cwd and remaining resources of
    each case of [GrantForInvocation]. *)
Definition grant_parts `{Unicode, BashSyntax} (call : Invocation) :
    option (string * string * list string * list string * string * list Resource) :=
  let '(resources, agent) := grantResources (in_Resources call) in
  let summaries := Resource_String <$> resources in
  if in_Capability call == CapabilityProcess then
    input ← decode_shell (in_Arguments call);
    let command := shell_command input in
    if command == "" then None else
    identity ← commandGrantIdentity command;
    let cwd := cleanGrantPath (sh_CWD input) in
    Some ("shell", "command: " +:+ command, [identity; cwd], commandGrantPrefix command, cwd, resources)
  else if in_Journaled call && bool_decide (resources ≠ []) then
    Some ("file", "workspace paths: " +:+ join ", " summaries, [], [], "", resources)
  else if in_Capability call == CapabilityNetwork then
    let endpoints := networkGrantEndpoints resources in
    if bool_decide (endpoints = []) then None
    else Some ("network", "network endpoints: " +:+ join ", " endpoints, endpoints, [], "", [])
  else if agent && bool_decide (resources ≠ []) then
    Some ("agent", in_Tool call +:+ ": " +:+ join ", " summaries, [], [], "", resources)
  else None.

Definition GrantForInvocation `{Unicode, BashSyntax} (call : Invocation) : option Grant :=
  if negb (Assessment_Valid (in_Assessment call)) then None else
  '(kind, summary, fields, prefix, cwd, resources) ← grant_parts call;
  let keys := Resource_Key <$> resources in
  Some (mkGrant kind (fingerprint (in_Tool call :: fields ++ keys)) summary prefix
          (grantScopeFingerprint cwd keys (Assessment_Digest (in_Assessment call)))).
