(* ===== verification/Approvals.v ===== *)
(** Approval requests and the cache of granted approvals
    ([internal/security/policy/approval.go]). A call on the cache holds its
    mutex throughout, so calls are modelled one after the other. *)
From S2P Require Import Prelude.
From S2P Require Import GoStrings.
From S2P Require Import Sha256.
From S2P Require Import Json.
From S2P Require Import GoFloat.
From S2P Require Import PathPattern.
From S2P Require Import Netpolicy.
From S2P Require Import SecurityModel.
From S2P Require Import Commands.
From S2P Require Import Grants.

(** ** Requests *)

Definition ApprovalScope : Type := string.
Definition ApprovalOnce : ApprovalScope := "once".
Definition ApprovalSession : ApprovalScope := "session".
Definition ApprovalAlways : ApprovalScope := "always".

(** Nanoseconds since 1970; [time_never] is Go's zero [time.Time]. *)
Definition time_never : Z := - 62135596800 * 10 ^ 9.

(** [t.UTC().Format(time.RFC3339Nano)]. *)
Class TimeText : Type := format_time : Z → string.

Record ApprovalRequest := mkRequest {
  rq_RequestID : string;
  rq_CallID : string;
  rq_Tool : string;
  rq_Arguments : string;
  rq_ArgumentsDigest : string;
  rq_Resources : list Resource;
  rq_Scope : ApprovalScope;
  rq_Fingerprint : string;
  rq_ExpiresAt : Z;
  rq_Grant : option Grant;
}.

(** [UseNumber] keeps the literals of numbers; objects become maps. *)
Fixpoint canonical_value (v : json) : json :=
  match v with
  | JArr l => JArr (canonical_value <$> l)
  | JObj members => JObj (map_members ((λ m, (fst m, canonical_value (snd m))) <$> members))
  | v => v
  end.

Definition canonicalJSON (raw : string) : option string := (encode ∘ canonical_value) <$> parse raw.

Definition approvalBaseFingerprint `{Unicode} (request : ApprovalRequest) : string :=
  match canonicalJSON (rq_Arguments request) with
  | None => ""
  | Some arguments =>
      fingerprint
        (rq_Tool request :: arguments
         :: ((encode ∘ json_resource) <$> compactResources (sort_by_key (rq_Resources request)))
         ++ match rq_Grant request with
            | Some g => [gr_Kind g; gr_Key g; gr_Summary g]
            | None => []
            end)
  end.

Definition approvalFingerprint `{Unicode, TimeText} (request : ApprovalRequest) : string :=
  fingerprint [approvalBaseFingerprint request; rq_Scope request; format_time (rq_ExpiresAt request)].

Definition with_scope (scope : ApprovalScope) (r : ApprovalRequest) : ApprovalRequest :=
  mkRequest (rq_RequestID r) (rq_CallID r) (rq_Tool r) (rq_Arguments r) (rq_ArgumentsDigest r)
    (rq_Resources r) scope (rq_Fingerprint r) (rq_ExpiresAt r) (rq_Grant r).

Definition with_fingerprint (fp : string) (r : ApprovalRequest) : ApprovalRequest :=
  mkRequest (rq_RequestID r) (rq_CallID r) (rq_Tool r) (rq_Arguments r) (rq_ArgumentsDigest r)
    (rq_Resources r) (rq_Scope r) fp (rq_ExpiresAt r) (rq_Grant r).

Definition NewApprovalRequestForScope `{Unicode, BashSyntax, TimeText} (invocation : Invocation)
    (scope : ApprovalScope) (expiresAt : Z) : res error ApprovalRequest :=
  require (Assessment_Valid (in_Assessment invocation))
    (ErrText "resolved resource assessment is required");;
  match canonicalJSON (in_Arguments invocation) with
  | None => Err (ErrText "invalid JSON")
  | Some arguments =>
      let request := mkRequest "" (in_CallID invocation) (in_Tool invocation) arguments
        (sha256_hex arguments) (compactResources (sort_by_key (in_Resources invocation))) scope ""
        expiresAt (GrantForInvocation invocation) in
      Ok (with_fingerprint (approvalFingerprint request) request)
  end.

(** ** The cache *)

Record approvalEntry := mkEntry {
  en_expiresAt : Z;
  en_once : bool;
  en_baseFingerprint : string;
  en_sequence : Z;
  en_prefix : list string;
  en_scope : string;
}.

Record ApprovalCache := mkCache {
  ac_entries : gmap string approvalEntry;
  ac_grantKeys : gmap string approvalEntry;
  ac_limit : Z;
  ac_next : Z;
}.

Definition defaultApprovalCacheLimit : Z := 1024.

Definition NewApprovalCacheWithLimit (limit : Z) : ApprovalCache :=
  mkCache ∅ ∅ (if limit <? 1 then 1 else limit) 0.

(** The key [pruneApprovalEntries] deletes: the first of the lowest sequence
    met. The iteration order of the map only matters between equal sequences. *)
Definition oldest_step (acc : option (string * Z)) (x : string * approvalEntry) : option (string * Z) :=
  match acc with
  | None => Some (x.1, en_sequence x.2)
  | Some (_, s) => if en_sequence x.2 <? s then Some (x.1, en_sequence x.2) else acc
  end.

Definition oldest (entries : gmap string approvalEntry) : option string :=
  fst <$> foldl oldest_step None (map_to_list entries).

(** Each turn deletes an entry, so as many turns as there are entries suffice. *)
Fixpoint prune_loop (fuel : nat) (entries : gmap string approvalEntry) (limit : Z) :
    gmap string approvalEntry :=
  match fuel with
  | O => entries
  | S fuel =>
      if limit <? Z.of_nat (size entries)
      then match oldest entries with
           | Some key => prune_loop fuel (delete key entries) limit
           | None => entries
           end
      else entries
  end.

Definition pruneApprovalEntries (entries : gmap string approvalEntry) (limit : Z) :
    gmap string approvalEntry :=
  prune_loop (size entries) entries limit.

Definition reusable_scope (scope : ApprovalScope) : bool :=
  (scope == ApprovalSession) || (scope == ApprovalAlways).

(** [Add]: the error and the cache it leaves. *)
Definition Add `{Unicode, TimeText} (c : ApprovalCache) (request : ApprovalRequest)
    (scope : ApprovalScope) : res error unit * ApprovalCache :=
  if (rq_Fingerprint request == "") || (rq_Fingerprint request != approvalFingerprint request)
  then (Err (ErrText "approval fingerprint does not match request"), c)
  else if (scope != ApprovalOnce) && (scope != ApprovalSession) && (scope != ApprovalAlways)
  then (Err (ErrText "approval scope must be once, session, or always"), c)
  else
    let limit := if ac_limit c <? 1 then defaultApprovalCacheLimit else ac_limit c in
    let next := u64 (ac_next c + 1) in
    let request := with_scope scope request in
    let request := with_fingerprint (approvalFingerprint request) request in
    let entry := mkEntry (rq_ExpiresAt request) (scope == ApprovalOnce)
                   (approvalBaseFingerprint request) next [] "" in
    let entries := <[rq_Fingerprint request := entry]> (ac_entries c) in
    let finish grantKeys :=
      (Ok tt, mkCache (pruneApprovalEntries entries limit) (pruneApprovalEntries grantKeys limit)
                limit next) in
    if reusable_scope scope then
      match rq_Grant request with
      | Some g =>
          if gr_Key g == ""
          then (Err (ErrText "reusable approval requires a typed grant"),
                mkCache entries (ac_grantKeys c) limit next)
          else finish (<[gr_Key g := mkEntry (rq_ExpiresAt request) false "" next (gr_Prefix g)
                                       (gr_scope g)]> (ac_grantKeys c))
      | None => (Err (ErrText "reusable approval requires a typed grant"),
                 mkCache entries (ac_grantKeys c) limit next)
      end
    else finish (ac_grantKeys c).

Definition approvalExpired (entry : approvalEntry) (now : Z) : bool :=
  negb (en_expiresAt entry =? time_never) && (en_expiresAt entry <=? now).

(** The loop of [matchInvocationExact]; [order] is the order in which the map
    yields its keys. *)
Fixpoint match_entries (order : list string) (base : string) (now : Z)
    (entries : gmap string approvalEntry) : bool * gmap string approvalEntry :=
  match order with
  | [] => (false, entries)
  | key :: order =>
      match entries !! key with
      | None => match_entries order base now entries
      | Some entry =>
          if approvalExpired entry now then match_entries order base now (delete key entries)
          else if en_baseFingerprint entry != base then match_entries order base now entries
          else (true, if en_once entry then delete key entries else entries)
      end
  end.

Definition matchInvocationExact `{Unicode, BashSyntax, TimeText} (order : list string)
    (c : ApprovalCache) (invocation : Invocation) (now : Z) : bool * ApprovalCache :=
  match NewApprovalRequestForScope invocation ApprovalOnce time_never with
  | Err _ => (false, c)
  | Ok request =>
      let '(matched, entries) :=
        match_entries order (approvalBaseFingerprint request) now (ac_entries c) in
      (matched, mkCache entries (ac_grantKeys c) (ac_limit c) (ac_next c))
  end.

(** The prefix loop of [matchGrant]. *)
Fixpoint match_prefixes (order : list string) (grant : Grant) (now : Z)
    (grantKeys : gmap string approvalEntry) : bool * gmap string approvalEntry :=
  match order with
  | [] => (false, grantKeys)
  | key :: order =>
      match grantKeys !! key with
      | None => match_prefixes order grant now grantKeys
      | Some entry =>
          if approvalExpired entry now then match_prefixes order grant now (delete key grantKeys)
          else if bool_decide (en_prefix entry ≠ []) && (en_scope entry == gr_scope grant)
                  && argvPrefix (gr_Prefix grant) (en_prefix entry)
          then (true, grantKeys)
          else match_prefixes order grant now grantKeys
      end
  end.

Definition matchGrant `{Unicode, BashSyntax} (order : list string) (c : ApprovalCache)
    (invocation : Invocation) (now : Z) : bool * ApprovalCache :=
  let keep grantKeys := mkCache (ac_entries c) grantKeys (ac_limit c) (ac_next c) in
  match GrantForInvocation invocation with
  | None => (false, c)
  | Some grant =>
      let '(done, grantKeys) :=
        match ac_grantKeys c !! gr_Key grant with
        | Some entry =>
            if approvalExpired entry now then (false, delete (gr_Key grant) (ac_grantKeys c))
            else (true, ac_grantKeys c)
        | None => (false, ac_grantKeys c)
        end in
      if done then (true, keep grantKeys)
      else if bool_decide (gr_Prefix grant = []) then (false, keep grantKeys)
      else let '(matched, grantKeys) := match_prefixes order grant now grantKeys in
           (matched, keep grantKeys)
  end.

Definition MatchInvocation `{Unicode, BashSyntax, TimeText} (order1 order2 : list string)
    (c : ApprovalCache) (invocation : Invocation) (now : Z) : bool * ApprovalCache :=
  let '(matched, c) := matchInvocationExact order1 c invocation now in
  if matched then (true, c) else matchGrant order2 c invocation now.

Definition Purge (c : ApprovalCache) (now : Z) : ApprovalCache :=
  let live (m : gmap string approvalEntry) := filter (λ x, approvalExpired x.2 now = false) m in
  mkCache (live (ac_entries c)) (live (ac_grantKeys c)) (ac_limit c) (ac_next c).

(** ** Pruning *)

Notation entry_map := (gmap string approvalEntry) (only parsing).

Lemma oldest_step_spec l acc :
  ∀ k s, foldl oldest_step acc l = Some (k, s) →
  (acc = Some (k, s) ∨ ∃ e, (k, e) ∈ l ∧ s = en_sequence e)
  ∧ (∀ k' s', acc = Some (k', s') → s ≤ s') ∧ (∀ k' e', (k', e') ∈ l → s ≤ en_sequence e').
Proof.
  revert acc. induction l as [|[k0 e0] l IH]; intros acc k s; cbn.
  { intros ->. split_and!; [by left| |].
    - intros ? ? [= -> ->]. lia.
    - by intros ? ? ?%not_elem_of_nil. }
  intros (Hsrc & Hacc & Hl)%IH. unfold oldest_step in Hsrc, Hacc. cbn in Hsrc, Hacc.
  assert (∀ k' s', acc = Some (k', s') → s ≤ s') as H1.
  { intros k' s' ->. destruct (Z.ltb_spec (en_sequence e0) s'); [|by eapply Hacc].
    specialize (Hacc _ _ eq_refl). lia. }
  assert (s ≤ en_sequence e0) as H2.
  { destruct acc as [[ka sa]|]; [|by eapply Hacc].
    destruct (Z.ltb_spec (en_sequence e0) sa); [by eapply Hacc|].
    specialize (Hacc _ _ eq_refl). lia. }
  split_and!; [|done|intros k' e' [[= -> ->]|Hin]%elem_of_cons; [done|by eapply Hl]].
  assert (Some (k0, en_sequence e0) = Some (k, s) → ∃ e, (k, e) ∈ (k0, e0) :: l ∧ s = en_sequence e) as H3.
  { intros [= -> <-]. exists e0. split; [left|done]. }
  destruct Hsrc as [E|(e & ? & ->)]; [|right; exists e; split; [by right|done]].
  destruct acc as [[ka sa]|]; [|by right; apply H3].
  destruct (Z.ltb_spec (en_sequence e0) sa); [by right; apply H3|by left].
Qed.

Lemma oldest_spec (m : entry_map) k :
  oldest m = Some k →
  ∃ e, m !! k = Some e ∧ ∀ k' e', m !! k' = Some e' → en_sequence e ≤ en_sequence e'.
Proof.
  unfold oldest. intros ([k0 s] & E & [= <-])%fmap_Some. cbn.
  apply oldest_step_spec in E as ([?|(e & Hin%elem_of_map_to_list & ->)] & _ & Hl); [done|].
  exists e. split; [done|]. intros k' e' H'. eapply Hl. by apply elem_of_map_to_list.
Qed.

Lemma oldest_some (m : entry_map) : m ≠ ∅ → is_Some (oldest m).
Proof.
  intros Hm. unfold oldest. destruct (map_to_list m) as [|[k e] l] eqn:E.
  { by apply map_to_list_empty_iff in E. }
  cbn. assert (∀ l acc, is_Some acc → is_Some (foldl oldest_step acc l)) as H.
  { clear. induction l as [|x l IH]; intros acc [[k s] ->]; [by eexists|]. apply IH. cbn.
    destruct (_ <? _); by eexists. }
  destruct (H l (Some (k, en_sequence e))) as [y ->]; by eexists.
Qed.

(** What pruning keeps: at most [limit] entries, the newest ones. *)
Lemma prune_loop_spec fuel (m : entry_map) limit :
  0 ≤ limit → (size m ≤ fuel)%nat →
  let m' := prune_loop fuel m limit in
  Z.of_nat (size m') ≤ limit ∧ m' ⊆ m
  ∧ (∀ k e k' e', m !! k = Some e → m' !! k = None → m' !! k' = Some e' →
       en_sequence e ≤ en_sequence e').
Proof.
  intros Hlim. revert m. induction fuel as [|fuel IH]; intros m Hf; cbn.
  { replace (size m) with O by lia. split_and!; [lia|done|].
    intros k e k' e' H1 H2. congruence. }
  destruct (Z.ltb_spec limit (Z.of_nat (size m))) as [Hs|Hs].
  2:{ split_and!; [lia|done|]. intros k e k' e' H1 H2. congruence. }
  destruct (oldest_some m) as [key Ek]; [intros ->; rewrite map_size_empty in Hs; lia|].
  rewrite Ek. apply oldest_spec in Ek as (e0 & He0 & Hmin).
  destruct (IH (delete key m)) as (H1 & H2 & H3).
  { rewrite map_size_delete_Some by eauto. lia. }
  assert (H4 : prune_loop fuel (delete key m) limit ⊆ m)
    by (etransitivity; [exact H2|apply delete_subseteq]).
  split_and!; [done..|]. intros k e k' e' Hk Hn Hk'.
  destruct (decide (k = key)) as [->|Hne].
  - replace e with e0 by congruence. apply (Hmin k'). by eapply lookup_weaken.
  - eapply (H3 k e k' e'); [by rewrite lookup_delete_ne|done..].
Qed.

Lemma prune_spec (m : entry_map) limit :
  0 ≤ limit →
  let m' := pruneApprovalEntries m limit in
  Z.of_nat (size m') ≤ limit ∧ m' ⊆ m
  ∧ (∀ k e k' e', m !! k = Some e → m' !! k = None → m' !! k' = Some e' →
       en_sequence e ≤ en_sequence e').
Proof. intros H. by apply prune_loop_spec. Qed.

(** The newest entry of all survives. *)
Lemma prune_newest (m : entry_map) limit k e :
  1 ≤ limit → m !! k = Some e →
  (∀ k' e', m !! k' = Some e' → k' ≠ k → en_sequence e' < en_sequence e) →
  pruneApprovalEntries m limit !! k = Some e.
Proof.
  intros Hlim Hk Hnew. unfold pruneApprovalEntries.
  enough (∀ fuel m, m !! k = Some e →
    (∀ k' e', m !! k' = Some e' → k' ≠ k → en_sequence e' < en_sequence e) →
    prune_loop fuel m limit !! k = Some e) by eauto.
  clear m Hk Hnew. induction fuel as [|fuel IH]; intros m Hk Hnew; cbn; [done|].
  destruct (Z.ltb_spec limit (Z.of_nat (size m))) as [Hs|]; [|done].
  destruct (oldest m) as [key|] eqn:Ek; [|done]. apply oldest_spec in Ek as (e0 & He0 & Hmin).
  assert (key ≠ k) as Hne.
  { intros ->. replace e0 with e in * by congruence.
    assert (m = {[k := e]}) as E.
    { apply map_eq. intros k'. destruct (decide (k' = k)) as [->|Hne].
      - by rewrite lookup_singleton_eq.
      - rewrite lookup_singleton_ne by done. destruct (m !! k') as [e'|] eqn:E'; [|done].
        specialize (Hmin _ _ E'). specialize (Hnew _ _ E' Hne). lia. }
    rewrite E, map_size_singleton in Hs. lia. }
  apply IH; [by rewrite lookup_delete_ne|].
  intros k' e' [? ?]%lookup_delete_Some. eauto.
Qed.

(** ** Matching *)

Definition live (base : string) (now : Z) (e : approvalEntry) : Prop :=
  approvalExpired e now = false ∧ en_baseFingerprint e = base.

Lemma match_entries_spec order base now (m : entry_map) b m' :
  match_entries order base now m = (b, m') →
  m' ⊆ m
  ∧ (b = true → ∃ k e, m !! k = Some e ∧ live base now e ∧ (en_once e = true → m' ⊆ delete k m))
  ∧ (b = false → ∀ k e, k ∈ order → m !! k = Some e → ¬ live base now e)
  ∧ (∀ k e, m !! k = Some e → approvalExpired e now = false → en_once e = false → m' !! k = Some e).
Proof.
  revert m. induction order as [|key order IH]; intros m; cbn.
  { intros [= <- <-]. split_and!; try done. by intros _ ? ? ?%not_elem_of_nil. }
  destruct (m !! key) as [entry|] eqn:Ek.
  2:{ intros (H1 & H2 & H3 & H4)%IH. split_and!; try done.
      intros Hb k e [->|Hk]%elem_of_cons He; [congruence|]. by eapply H3. }
  destruct (approvalExpired entry now) eqn:Ex.
  { intros (H1 & H2 & H3 & H4)%IH. split_and!.
    - etransitivity; [exact H1|apply delete_subseteq].
    - intros (k & e & [Hne Hk]%lookup_delete_Some & Hlive & Hs)%H2. exists k, e.
      split_and!; [done..|]. intros Ho. etransitivity; [by apply Hs|].
      apply delete_mono, delete_subseteq.
    - intros Hb k e Hin He. destruct (decide (k = key)) as [->|Hne].
      { replace e with entry by congruence. intros [? _]. congruence. }
      apply elem_of_cons in Hin as [|Hin]; [done|].
      eapply (H3 Hb k); [done|]. by rewrite lookup_delete_ne.
    - intros k e He Hx Ho. apply H4; [|done..]. rewrite lookup_delete_ne; [done|congruence]. }
  destruct (String.eqb_spec (en_baseFingerprint entry) base) as [Eb|Eb]; cbn.
  - intros [= <- <-]. split_and!; [by destruct (en_once entry); [apply delete_subseteq|]| |done|].
    + intros _. exists key, entry. split_and!; [done|done|]. by intros ->.
    + intros k e He Hx Ho. destruct (en_once entry) eqn:Eo; [|done].
      rewrite lookup_delete_ne; [done|]. intros <-. congruence.
  - intros (H1 & H2 & H3 & H4)%IH. split_and!; try done.
    intros Hb k e Hin He. destruct (decide (k = key)) as [->|Hne].
    { replace e with entry by congruence. by intros [_ ?]. }
    apply elem_of_cons in Hin as [|Hin]; [done|]. by eapply (H3 Hb k).
Qed.

Lemma match_prefixes_empty order grant now : match_prefixes order grant now ∅ = (false, ∅).
Proof. by induction order. Qed.

Section matching.
Context `{Unicode, BashSyntax, TimeText}.

(** Requests for one invocation have one base fingerprint. *)
Definition request_base (i : Invocation) : option string :=
  match NewApprovalRequestForScope i ApprovalOnce time_never with
  | Ok request => Some (approvalBaseFingerprint request)
  | Err _ => None
  end.

Lemma request_base_scope i scope expiresAt request :
  NewApprovalRequestForScope i scope expiresAt = Ok request →
  request_base i = Some (approvalBaseFingerprint request)
  ∧ rq_Fingerprint request = approvalFingerprint request
  ∧ rq_ExpiresAt request = expiresAt ∧ rq_Grant request = GrantForInvocation i.
Proof.
  unfold request_base, NewApprovalRequestForScope.
  destruct (Assessment_Valid _), (canonicalJSON (in_Arguments i)) as [arguments|]; try done.
  intros E%Ok_inj. subst. split_and!; reflexivity.
Qed.

Lemma exact_match_spec order c i now b c' :
  matchInvocationExact order c i now = (b, c') →
  ac_grantKeys c' = ac_grantKeys c ∧ ac_limit c' = ac_limit c ∧ ac_next c' = ac_next c
  ∧ match request_base i with
    | Some base => match_entries order base now (ac_entries c) = (b, ac_entries c')
    | None => b = false ∧ c' = c
    end.
Proof.
  unfold matchInvocationExact, request_base.
  destruct (NewApprovalRequestForScope _ _ _) as [request|]; [|by intros [= <- <-]].
  destruct (match_entries _ _ _ _) as [m entries]. by intros [= <- <-].
Qed.

Lemma grant_match_empty order c i now :
  ac_grantKeys c = ∅ → matchGrant order c i now = (false, c).
Proof.
  intros E. unfold matchGrant. rewrite E. destruct c; cbn in *; subst.
  destruct (GrantForInvocation i) as [g|]; [|done]. rewrite lookup_empty.
  destruct (bool_decide _); [done|]. by rewrite match_prefixes_empty.
Qed.

Lemma matched_exactly order1 order2 c i now c' :
  matchInvocationExact order1 c i now = (true, c') →
  MatchInvocation order1 order2 c i now = (true, c').
Proof. unfold MatchInvocation. by intros ->. Qed.
End matching.

(** ** Adding *)

Lemma insert_prune (m : entry_map) limit fp entry :
  1 ≤ limit → (∀ k e, m !! k = Some e → en_sequence e < en_sequence entry) →
  let m' := pruneApprovalEntries (<[fp := entry]> m) limit in
  Z.of_nat (size m') ≤ limit ∧ m' !! fp = Some entry
  ∧ (∀ k e k' e', m !! k = Some e → m' !! k = None → m' !! k' = Some e' →
       en_sequence e ≤ en_sequence e')
  ∧ (∀ k e, m' !! k = Some e → en_sequence e ≤ en_sequence entry).
Proof.
  intros Hlim Hm m'. destruct (prune_spec (<[fp := entry]> m) limit) as (H1 & H2 & H3); [lia|].
  assert (m' !! fp = Some entry) as Hfp.
  { apply prune_newest; [done|apply lookup_insert_eq|].
    intros k e [[<- _]|[_ Hk]]%lookup_insert_Some Hne; [done|by eapply Hm]. }
  split_and!; [done|done| |].
  - intros k e k' e' Hk Hnone. destruct (decide (k = fp)) as [->|Hne].
    { by rewrite Hfp in Hnone. }
    eapply (H3 k e k'); [by rewrite lookup_insert_ne|done].
  - intros k e Hk. apply (lookup_weaken _ _ _ _ Hk) in H2.
    apply lookup_insert_Some in H2 as [[_ <-]|[_ Hk']]; [done|].
    apply Hm in Hk'. lia.
Qed.

Definition effective_limit (c : ApprovalCache) : Z :=
  if ac_limit c <? 1 then defaultApprovalCacheLimit else ac_limit c.

Lemma effective_limit_pos c : 1 ≤ effective_limit c.
Proof. unfold effective_limit. destruct (Z.ltb_spec (ac_limit c) 1); [done|lia]. Qed.

(** The entry an approval adds. *)
Definition added_entry `{Unicode} (c : ApprovalCache) (request : ApprovalRequest)
    (scope : ApprovalScope) : approvalEntry :=
  mkEntry (rq_ExpiresAt request) (scope == ApprovalOnce) (approvalBaseFingerprint request)
    (u64 (ac_next c + 1)) [] "".

Lemma Add_Ok `{Unicode, TimeText} c request scope c' :
  Add c request scope = (Ok tt, c') →
  ∃ grantKeys, c' =
    mkCache (pruneApprovalEntries (<[approvalFingerprint (with_scope scope request)
               := added_entry c request scope]> (ac_entries c)) (effective_limit c))
      (pruneApprovalEntries grantKeys (effective_limit c)) (effective_limit c) (u64 (ac_next c + 1)).
Proof.
  unfold Add. destruct (_ || _); [done|]. destruct (_ && _); [done|].
  fold (effective_limit c). cbn [rq_Grant with_fingerprint with_scope].
  destruct (reusable_scope scope); [|intros E; injection E as <-; by eexists].
  destruct (rq_Grant request) as [g|]; [|done].
  destruct (String.eqb _ _); [done|]. intros E. injection E as <-. by eexists.
Qed.

(** A reusable approval without a typed grant is refused after its entry has
    been stored. *)
Lemma Add_no_grant `{Unicode, TimeText} c request scope :
  rq_Fingerprint request = approvalFingerprint request → rq_Fingerprint request ≠ "" →
  reusable_scope scope = true → rq_Grant request = None →
  Add c request scope =
    (Err (ErrText "reusable approval requires a typed grant"),
     mkCache (<[approvalFingerprint (with_scope scope request) := added_entry c request scope]>
                (ac_entries c))
       (ac_grantKeys c) (effective_limit c) (u64 (ac_next c + 1))).
Proof.
  intros Hfp Hne Hs Hg. unfold Add. rewrite <- Hfp, eqb_refl.
  destruct (String.eqb_spec (rq_Fingerprint request) ""); [done|]. cbn [orb negb].
  assert ((scope != ApprovalOnce) && (scope != ApprovalSession) && (scope != ApprovalAlways) = false)
    as ->.
  { unfold reusable_scope in Hs. apply orb_true_iff in Hs as [->| ->]; by rewrite ?andb_false_r. }
  rewrite Hs. cbn [rq_Grant with_fingerprint with_scope]. by rewrite Hg.
Qed.
