(* ===== verification/ApprovalSafety.v ===== *)
(** Theorems about the approval cache ([Approvals]): what it keeps, what one
    approval authorises, and what a refused approval leaves behind. *)
From S2P Require Import Prelude.
From S2P Require Import GoStrings.
From S2P Require Import Json.
From S2P Require Import PathPattern.
From S2P Require Import Netpolicy.
From S2P Require Import SecurityModel.
From S2P Require Import Commands.
From S2P Require Import Guardian.
From S2P Require Import Grants.
From S2P Require Import Approvals.

(** Sequence numbers are at most [next], which does not wrap. *)
Definition sequenced (c : ApprovalCache) : Prop :=
  0 ≤ ac_next c ∧ ac_next c + 1 < 2 ^ 64
  ∧ (∀ k e, ac_entries c !! k = Some e → en_sequence e ≤ ac_next c)
  ∧ (∀ k e, ac_grantKeys c !! k = Some e → en_sequence e ≤ ac_next c).

(** Every approval of the cache is for one use. *)
Definition once_only (c : ApprovalCache) : Prop :=
  ac_grantKeys c = ∅ ∧ ∀ k e, ac_entries c !! k = Some e → en_once e = true.

(** An order of iteration that visits every entry. *)
Definition visits (order : list string) (c : ApprovalCache) : Prop :=
  ∀ k, is_Some (ac_entries c !! k) → k ∈ order.

(** ** A concrete invocation for the witnesses *)

Module Desk.
#[export] Instance case : Unicode := ascii_case.
(** A shell parser that reads commands of plain words. *)
#[export] Instance shell : BashSyntax := λ s,
  if s == dynamicWord then None else Some [CallExpr ((λ w, [Lit w]) <$> [s])].
#[export] Instance clock : TimeText := λ t, itoa t.

Definition binding : AssessmentBinding :=
  mkBinding CapabilityExternal Use true false false None false.
Definition assessment : Assessment :=
  default (mkAssessment (mkInput binding (mkDeclared false false false) []) 
             (facetsOf (mkInput binding (mkDeclared false false false) [])) no_effect "" "")
    (Assess (mkInput binding (mkDeclared false false false) [])).
(** A call of an external tool, for which there is no typed grant. *)
Definition call : Invocation :=
  mkInvocation "call-1" "deploy" SourceMCP "{}" assessment ApprovalDefault true "/w" StageCall false None.
Definition later : Z := 100.
Definition request : ApprovalRequest :=
  match NewApprovalRequestForScope call ApprovalOnce later with
  | Ok r => r
  | Err _ => mkRequest "" "" "" "" "" [] "" "" 0 None
  end.
Definition once : ApprovalCache := (Add (NewApprovalCacheWithLimit 1) request ApprovalOnce).2.
End Desk.

Section cache.
Context `{Unicode, BashSyntax, TimeText}.

(** the cache stays within its limit and forgets the oldest approvals
    first. After a successful [Add] both maps hold at most [limit] entries, the
    new approval is among them, an approval that was dropped is no newer than
    any that is kept, and the sequence numbers stay below [next]. *)
Theorem add_keeps_the_newest c request scope c' :
  sequenced c → Add c request scope = (Ok tt, c') →
  1 ≤ ac_limit c'
  ∧ Z.of_nat (size (ac_entries c')) ≤ ac_limit c'
  ∧ Z.of_nat (size (ac_grantKeys c')) ≤ ac_limit c'
  ∧ (∃ e, ac_entries c' !! approvalFingerprint (with_scope scope request) = Some e
      ∧ en_once e = (scope == ApprovalOnce) ∧ en_expiresAt e = rq_ExpiresAt request
      ∧ en_baseFingerprint e = approvalBaseFingerprint request)
  ∧ (∀ k e k' e', ac_entries c !! k = Some e → ac_entries c' !! k = None →
       ac_entries c' !! k' = Some e' → en_sequence e ≤ en_sequence e')
  ∧ (∀ k e, ac_entries c' !! k = Some e → en_sequence e ≤ ac_next c')
  ∧ ac_next c' = ac_next c + 1.
Proof.
  intros (Hn0 & Hn & He & Hg) [grantKeys ->]%Add_Ok.
  rewrite (u64_small (ac_next c + 1)) by (split; lia).
  cbn [ac_limit ac_entries ac_grantKeys ac_next].
  pose proof (effective_limit_pos c) as Hlim.
  assert (Hseq : en_sequence (added_entry c request scope) = ac_next c + 1)
    by (apply u64_small; split; lia).
  destruct (insert_prune (ac_entries c) (effective_limit c)
    (approvalFingerprint (with_scope scope request)) (added_entry c request scope))
    as (H1' & H2' & H3' & H4'); [done|intros k e Hk%He; lia|].
  destruct (prune_spec grantKeys (effective_limit c)) as (H5' & _); [lia|].
  split_and!; try done.
  - by exists (added_entry c request scope).
  - intros k e Hk%H4'. lia.
Qed.

(** C24: one approval authorises one call. In a cache of one-time approvals, an
    invocation is matched exactly when an unexpired approval of this very
    invocation (tool, canonical arguments, resources and grant) is in the cache,
    whatever order the map is visited in; matching spends it: the approval
    is gone afterwards, nothing is added, and all others are for one use still. *)
Theorem once_approval_is_spent order1 order2 c i now b c' :
  once_only c → visits order1 c → MatchInvocation order1 order2 c i now = (b, c') →
  once_only c'
  ∧ (b = true ↔ ∃ base k e, request_base i = Some base ∧ ac_entries c !! k = Some e ∧ live base now e)
  ∧ (b = true → ∃ base k e, request_base i = Some base ∧ ac_entries c !! k = Some e
       ∧ live base now e ∧ ac_entries c' ⊆ delete k (ac_entries c)).
Proof.
  intros [Hg Ho] Hv. unfold MatchInvocation.
  destruct (matchInvocationExact order1 c i now) as [m c1] eqn:Em.
  apply exact_match_spec in Em as (Hg1 & _ & _ & Em).
  intros E. assert (b = m ∧ c' = c1) as [-> ->].
  { destruct m; [by injection E as <- <-|].
    rewrite grant_match_empty in E by congruence. by injection E as <- <-. }
  destruct (request_base i) as [base|].
  2:{ destruct Em as [-> ->]. split_and!; [done| |done].
      split; [done|]. by intros (? & ? & ? & ? & _). }
  apply match_entries_spec in Em as (Hsub & Htrue & Hfalse & _). split_and!.
  - split; [congruence|]. intros k e Hk. eapply Ho, lookup_weaken; done.
  - split.
    + intros (k & e & Hk & Hl & _)%Htrue. by exists base, k, e.
    + intros (? & k & e & [= <-] & Hk & Hl). destruct m; [done|].
      exfalso. apply (Hfalse eq_refl k e); [by apply Hv; eexists|done..].
  - intros (k & e & Hk & Hl & Hs)%Htrue. exists base, k, e.
    split_and!; [done..|]. apply Hs. by eapply Ho.
Qed.

(** a refused approval is remembered all the same. Asking for a session or
    permanent approval of an invocation that has no typed grant fails with an
    error, but the cache the failing [Add] leaves matches that invocation, and
    still matches it after having done so, until the approval expires. *)
Theorem refused_approval_still_matches c i scope expiresAt request order1 order2 order3 now :
  NewApprovalRequestForScope i scope expiresAt = Ok request → reusable_scope scope = true →
  GrantForInvocation i = None → (expiresAt = time_never ∨ now < expiresAt) →
  approvalFingerprint request ≠ "" →
  let '(r, c') := Add c request scope in
  is_ok r = false
  ∧ (visits order1 c' →
     let '(b, c2) := MatchInvocation order1 order2 c' i now in
     b = true ∧ (visits order3 c2 → (MatchInvocation order3 order2 c2 i now).1 = true)).
Proof.
  intros Hreq Hs Hg Hx Hne. apply request_base_scope in Hreq as (Hb & Hfp & He & Hgr).
  rewrite Add_no_grant by congruence. split; [done|].
  set (c' := mkCache _ _ _ _). set (entry := added_entry c request scope).
  set (base := approvalBaseFingerprint request) in Hb.
  assert (approvalExpired entry now = false) as Hlive.
  { unfold approvalExpired. cbn. rewrite He. destruct Hx as [->|Hx]; [by rewrite Z.eqb_refl|].
    apply andb_false_iff. right. apply Z.leb_gt. lia. }
  assert (en_once entry = false) as Honce.
  { cbn. unfold reusable_scope in Hs. by apply orb_true_iff in Hs as [->%String.eqb_eq| ->%String.eqb_eq]. }
  assert (∀ o d, visits o d →
    ac_entries d !! approvalFingerprint (with_scope scope request) = Some entry →
    ∃ d', MatchInvocation o order2 d i now = (true, d')
    ∧ ac_entries d' !! approvalFingerprint (with_scope scope request) = Some entry) as Hmatch.
  { intros o d Ho Hd. destruct (matchInvocationExact o d i now) as [m d1] eqn:Em.
    pose proof Em as Em'. apply exact_match_spec in Em as (_ & _ & _ & Em). rewrite Hb in Em.
    apply match_entries_spec in Em as (_ & _ & Hfalse & Hkeep).
    destruct m; [|exfalso; eapply (Hfalse eq_refl); [by apply Ho; eexists|exact Hd|done]].
    exists d1. split; [by apply matched_exactly|]. by apply Hkeep. }
  intros Ho1. destruct (Hmatch order1 c') as (d & -> & Hd); [done|apply lookup_insert_eq|].
  split; [done|]. intros Ho3. by destruct (Hmatch order3 d) as (? & -> & _).
Qed.
End cache.

(** ** Witnesses *)

Import Desk.

Lemma desk_add : Add (NewApprovalCacheWithLimit 1) Desk.request ApprovalOnce = (Ok tt, Desk.once).
Proof. unfold Desk.once. vm_compute. reflexivity. Qed.

Lemma desk_request :
  NewApprovalRequestForScope Desk.call ApprovalOnce Desk.later = Ok Desk.request.
Proof. vm_compute. reflexivity. Qed.

(** The only entry of the cache. *)
Definition desk_keys : list string := fst <$> map_to_list (ac_entries Desk.once).

Lemma visits_all c : visits (fst <$> map_to_list (ac_entries c)) c.
Proof.
  intros k [e He]. apply list_elem_of_fmap. exists (k, e).
  split; [done|by apply elem_of_map_to_list].
Qed.

Lemma desk_visits : visits desk_keys Desk.once.
Proof. apply visits_all. Qed.

Lemma desk_once_only : once_only Desk.once.
Proof.
  split; [by vm_compute|]. intros k e He. apply elem_of_map_to_list in He.
  assert (Forall (λ x, en_once x.2 = true) (map_to_list (ac_entries Desk.once))) as Hall
    by (vm_compute; by repeat constructor).
  rewrite Forall_forall in Hall. by apply Hall in He.
Qed.

Lemma fresh_sequenced : sequenced (NewApprovalCacheWithLimit 1).
Proof. split_and!; [done|done|..]; intros k e He; cbn in He; by rewrite lookup_empty in He. Qed.

Theorem add_keeps_the_newest_witness :
  Z.of_nat (size (ac_entries Desk.once)) ≤ ac_limit Desk.once ∧ ac_limit Desk.once = 1.
Proof.
  split; [|vm_compute; reflexivity].
  destruct (add_keeps_the_newest (NewApprovalCacheWithLimit 1) Desk.request ApprovalOnce Desk.once
    fresh_sequenced desk_add) as (_ & H & _).
  exact H.
Defined.

Definition desk_spent : ApprovalCache := (MatchInvocation desk_keys [] Desk.once Desk.call 0).2.

Lemma desk_match : MatchInvocation desk_keys [] Desk.once Desk.call 0 = (true, desk_spent).
Proof. unfold desk_spent. vm_compute. reflexivity. Qed.

Lemma desk_then :
  size (ac_entries desk_spent) = O ∧ (MatchInvocation desk_keys [] desk_spent Desk.call 0).1 = false.
Proof. split; vm_compute; reflexivity. Qed.

Theorem once_approval_is_spent_witness :
  let '(b, c') := MatchInvocation desk_keys [] Desk.once Desk.call 0 in
  b = true ∧ once_only c' ∧ size (ac_entries c') = O
  ∧ (MatchInvocation desk_keys [] c' Desk.call 0).1 = false.
Proof.
  pose proof (once_approval_is_spent desk_keys [] Desk.once Desk.call 0 true desk_spent
    desk_once_only desk_visits desk_match) as (Ho & _ & _).
  rewrite desk_match. split; [reflexivity|]. split; [exact Ho|]. exact desk_then.
Defined.

Definition session_request : ApprovalRequest :=
  match NewApprovalRequestForScope Desk.call ApprovalSession Desk.later with
  | Ok r => r
  | Err _ => Desk.request
  end.

Lemma session_requested :
  NewApprovalRequestForScope Desk.call ApprovalSession Desk.later = Ok session_request.
Proof. vm_compute. reflexivity. Qed.

Lemma desk_no_grant : GrantForInvocation Desk.call = None.
Proof. vm_compute. reflexivity. Qed.

Lemma session_fingerprint : approvalFingerprint session_request ≠ "".
Proof. vm_compute. discriminate. Qed.

Definition refused_add : res error unit * ApprovalCache :=
  Add (NewApprovalCacheWithLimit 8) session_request ApprovalSession.

Definition refused_add_keys : list string := fst <$> map_to_list (ac_entries refused_add.2).

Theorem refused_approval_still_matches_witness :
  is_ok refused_add.1 = false ∧ (MatchInvocation refused_add_keys [] refused_add.2 Desk.call 0).1 = true.
Proof.
  pose proof (refused_approval_still_matches (NewApprovalCacheWithLimit 8) Desk.call ApprovalSession
    Desk.later session_request refused_add_keys [] [] 0 session_requested eq_refl desk_no_grant
    (or_intror eq_refl) session_fingerprint) as H.
  unfold refused_add_keys in *.
  change (Add (NewApprovalCacheWithLimit 8) session_request ApprovalSession) with refused_add in H.
  destruct refused_add as [r c'].
  destruct H as [Hr Hm]. split; [exact Hr|]. cbn [snd] in *.
  specialize (Hm (visits_all c')).
  destruct (MatchInvocation _ [] c' Desk.call 0) as [b c2]. destruct Hm as [Hb _]. exact Hb.
Defined.
