(* ===== verification/Policy.v ===== *)
(** The security policy ([internal/security/policy]: policy.go, decide.go,
    planning.go, granular.go, guardian.go, sources.go): rules, the runtime that
    holds them, and the decision on an invocation. *)
From S2P Require Import Prelude.
From S2P Require Import GoStrings.
From S2P Require Import Sha256.
From S2P Require Import Json.
From S2P Require Import ToolResult.
From S2P Require Import Paths.
From S2P Require Import PathPattern.
From S2P Require Import Netpolicy.
From S2P Require Import SecurityModel.
From S2P Require Import Commands.
From S2P Require Import Guardian.
From S2P Require Import Grants.

(** ** Rules and the runtime ([policy.go]) *)

Definition Mode : Type := string.
Definition ModeAct : Mode := "act".

Definition Permission : Type := string.
Definition PermissionSuggest : Permission := "suggest".
Definition PermissionAuto : Permission := "auto".
Definition PermissionBypass : Permission := "bypass".
Definition PermissionNever : Permission := "never".

Record Rule := mkRule {
  ru_Tool : string;
  ru_Resource : string;
  ru_ResourcePath : string;
  ru_RequireWrite : bool;
  ru_CommandPrefix : string;
  ru_GrantKey : string;
  ru_Action : Action;
  ru_Code : string;
}.

#[export] Instance Rule_eq_dec : EqDecision Rule.
Proof. solve_decision. Defined.

Definition PlanningPolicy : Type := string.
Definition PlanningOff : PlanningPolicy := "off".
Definition PlanningAdaptive : PlanningPolicy := "adaptive".
Definition PlanningRequired : PlanningPolicy := "required".

Definition Surface : Type := string.
Definition SurfaceSandbox : Surface := "sandbox".
Definition SurfaceRules : Surface := "rules".
Definition SurfaceSkills : Surface := "skills".
Definition SurfaceMCP : Surface := "mcp".

Definition SurfacePosture : Type := string.
Definition SurfaceInherit : SurfacePosture := "".
Definition SurfaceAsk : SurfacePosture := "ask".
Definition SurfaceAllow : SurfacePosture := "allow".
Definition SurfaceDeny : SurfacePosture := "deny".

Record Granular := mkGranular {
  gn_Sandbox : SurfacePosture;
  gn_Rules : SurfacePosture;
  gn_Skills : SurfacePosture;
  gn_MCP : SurfacePosture;
}.

(** The approval cache and the clock of a runtime take no part in a decision;
    a user rule source answers [UserRulesSince]. *)
Record Runtime := mkRuntime {
  rt_userSource : option (Z → list Rule * Z);
  rt_userSourceVersion : Z;
  rt_Revision : Z;
  rt_Mode : Mode;
  rt_Permission : Permission;
  rt_DisableHostExecution : bool;
  rt_PlanningPolicy : PlanningPolicy;
  rt_PlanSubmitted : bool;
  rt_DisableAutoReview : bool;
  rt_ForceEditPlanApproval : bool;
  rt_Grants : list Rule;
  rt_User : list Rule;
  rt_Repository : list Rule;
  rt_Constitution : list Rule;
  rt_Granular : Granular;
}.

Definition eta_rt (r : Runtime) : Runtime :=
  mkRuntime (rt_userSource r) (rt_userSourceVersion r) (rt_Revision r) (rt_Mode r) (rt_Permission r)
    (rt_DisableHostExecution r) (rt_PlanningPolicy r) (rt_PlanSubmitted r) (rt_DisableAutoReview r)
    (rt_ForceEditPlanApproval r) (rt_Grants r) (rt_User r) (rt_Repository r) (rt_Constitution r)
    (rt_Granular r).

Definition set_rt_userSource : option (Z → list Rule * Z) → Runtime → Runtime :=
  ltac:(field_setter eta_rt rt_userSource).
Definition set_rt_userSourceVersion : Z → Runtime → Runtime :=
  ltac:(field_setter eta_rt rt_userSourceVersion).
Definition set_rt_Revision : Z → Runtime → Runtime := ltac:(field_setter eta_rt rt_Revision).
Definition set_rt_Permission : Permission → Runtime → Runtime := ltac:(field_setter eta_rt rt_Permission).
Definition set_rt_PlanningPolicy : PlanningPolicy → Runtime → Runtime :=
  ltac:(field_setter eta_rt rt_PlanningPolicy).
Definition set_rt_PlanSubmitted : bool → Runtime → Runtime := ltac:(field_setter eta_rt rt_PlanSubmitted).
Definition set_rt_DisableAutoReview : bool → Runtime → Runtime :=
  ltac:(field_setter eta_rt rt_DisableAutoReview).
Definition set_rt_ForceEditPlanApproval : bool → Runtime → Runtime :=
  ltac:(field_setter eta_rt rt_ForceEditPlanApproval).
Definition set_rt_Grants : list Rule → Runtime → Runtime := ltac:(field_setter eta_rt rt_Grants).
Definition set_rt_User : list Rule → Runtime → Runtime := ltac:(field_setter eta_rt rt_User).
Definition set_rt_Repository : list Rule → Runtime → Runtime := ltac:(field_setter eta_rt rt_Repository).
Definition set_rt_Constitution : list Rule → Runtime → Runtime := ltac:(field_setter eta_rt rt_Constitution).
Definition set_rt_Granular : Granular → Runtime → Runtime := ltac:(field_setter eta_rt rt_Granular).

(** ** Decisions ([decide.go]) *)

Definition Layer : Type := string.
Definition LayerInput : Layer := "input".
Definition LayerHard : Layer := "hard_constraint".
Definition LayerRepository : Layer := "repository".
Definition LayerUser : Layer := "user".
Definition LayerMode : Layer := "mode".
Definition LayerPosture : Layer := "posture".
Definition LayerSurface : Layer := "surface".
Definition LayerBinding : Layer := "binding".
Definition LayerAutoReview : Layer := "auto_review".

Definition ApprovalRequirement : Type := string.
Definition ApprovalReusable : ApprovalRequirement := "".
Definition ApprovalFresh : ApprovalRequirement := "fresh".
Definition ApprovalFreshOnce : ApprovalRequirement := "fresh_once".

#[export] Instance arg_eq_dec : EqDecision arg.
Proof. solve_decision. Defined.
#[export] Instance error_eq_dec : EqDecision error.
Proof. solve_decision. Defined.

(** The reason of a decision is the text of an error. *)
Record Decision := mkDecision {
  de_GuardianEligible : bool;
  de_Action : Action;
  de_Code : string;
  de_Reason : error;
  de_Layer : Layer;
  de_Approval : ApprovalRequirement;
  de_Resource : string;
}.

#[export] Instance Decision_eq_dec : EqDecision Decision.
Proof. solve_decision. Defined.

Definition set_layer (d : Decision) (layer : Layer) : Decision :=
  mkDecision (de_GuardianEligible d) (de_Action d) (de_Code d) (de_Reason d) layer (de_Approval d)
    (de_Resource d).
Definition set_approval (d : Decision) (approval : ApprovalRequirement) : Decision :=
  mkDecision (de_GuardianEligible d) (de_Action d) (de_Code d) (de_Reason d) (de_Layer d) approval
    (de_Resource d).
Definition set_eligible (d : Decision) (eligible : bool) : Decision :=
  mkDecision eligible (de_Action d) (de_Code d) (de_Reason d) (de_Layer d) (de_Approval d)
    (de_Resource d).

(** [Decision{Action, Code, Reason, Layer}], the other fields zero. *)
Definition decision (action : Action) (code reason : string) (layer : Layer) : Decision :=
  mkDecision false action code (ErrText reason) layer "" "".

Definition deny (code reason : string) (layer : Layer) : Decision := decision ActionDeny code reason layer.

Definition approvalRequired (layer : Layer) : Decision :=
  decision ActionAsk "approval_required" "approval is required" layer.

Definition firstLayer (current next : Layer) : Layer := if current != "" then current else next.
Definition ruleCode (rule : Rule) (fallback : string) : string :=
  if ru_Code rule != "" then ru_Code rule else fallback.

(** ** Matching rules ([policy.go]) *)

Section matching.
Context `{UrlSyntax, Unicode, BashSyntax}.

Definition resourceMatchesAuthority (pattern value : string) (tree restrictive : bool) : bool :=
  if IsPathPattern pattern then
    match CompilePathPattern pattern with
    | Err _ => restrictive
    | Ok compiled => if tree then IntersectsTree compiled value else Match compiled value
    end
  else
    let value := clean value in
    let pattern := clean pattern in
    (value == pattern) || has_prefix value (trim_suffix pattern "/" +:+ "/").

(** Whether one resource of an invocation falls under the resource of a rule. *)
Definition resource_matches (rule : Rule) (resource : Resource) : bool :=
  if ru_RequireWrite rule && negb (Writes resource) then false
  else
    let value :=
      if rs_Path resource != "" then rs_Path resource
      else if rs_URL resource != "" then rs_URL resource
      else match rs_Network resource with
           | Some network => tg_Host network
           | None => Location resource
           end in
    let pattern :=
      if (rs_Path resource != "") && (ru_ResourcePath rule != "")
      then ru_ResourcePath rule else ru_Resource rule in
    resourceMatchesAuthority pattern value (Writes resource && rs_Tree resource)
      (ru_Action rule != ActionAllow).

(** An unrestricted process reaches every resource, and a scoped allow is no
    grant for it. *)
Definition unrestricted (i : Invocation) : bool :=
  fc_FullAccess (in_Facets i) || fc_HostExecution (in_Facets i).

Definition scope_matches (rule : Rule) (i : Invocation) : bool :=
  if (ru_Resource rule == "") || (ru_Resource rule == "*") then true
  else if unrestricted i then ru_Action rule != ActionAllow
  else existsb (resource_matches rule) (in_Resources i).

Definition command_shape : shape := SObj [("command", SStr)].

Definition command_matches (rule : Rule) (i : Invocation) : bool :=
  if ru_CommandPrefix rule == "" then true
  else match parse (in_Arguments i) with
       | Some v => decodes command_shape v
                   && commandRuleMatches (str_member "command" v) (ru_CommandPrefix rule)
                        (ru_Action rule)
       | None => false
       end.

Definition grant_matches (rule : Rule) (i : Invocation) : bool :=
  if ru_GrantKey rule == "" then true
  else match GrantForInvocation i with
       | Some grant => gr_Key grant == ru_GrantKey rule
       | None => false
       end.

Definition ruleMatches (rule : Rule) (i : Invocation) : bool :=
  if (ru_Tool rule != "") && (ru_Tool rule != "*") && (ru_Tool rule != in_Tool i) then false
  else scope_matches rule i && command_matches rule i && grant_matches rule i.

Definition actionPriority (action : Action) : Z :=
  if action == ActionAllow then 1
  else if action == ActionAsk then 2
  else if action == ActionDeny then 3
  else if action == ActionHold then 4
  else 0.

Definition stronger (i : Invocation) (strongest : option Rule) (rule : Rule) : option Rule :=
  if ruleMatches rule i
     && match strongest with
        | None => true
        | Some s => actionPriority (ru_Action s) <? actionPriority (ru_Action rule)
        end
  then Some rule else strongest.

Definition strongestMatch (rules : list Rule) (i : Invocation) : option Rule :=
  foldl (stronger i) None rules.

(** ** Validation ([sources.go]) *)

Definition AuthoritySource : Type := string.
Definition SourceManaged : AuthoritySource := "managed".
Definition SourceUser : AuthoritySource := "user".
Definition SourceRepository : AuthoritySource := "repository".
Definition SourceConstitution : AuthoritySource := "constitution".

Definition validate_rule (source : AuthoritySource) (index : Z) (rule : Rule) : res error unit :=
  let at_rule format := ErrFmt format [ArgS source; ArgZ index] in
  refuse (ru_Tool rule == "") (at_rule "%s rule %d: tool is required");;
  require (contains [ActionAllow; ActionAsk; ActionDeny; ActionHold] (ru_Action rule))
    (at_rule "%s rule %d: action is invalid");;
  refuse ((source == SourceRepository) && (ru_Action rule == ActionAllow))
    (ErrFmt "repository rule %d: repository authority cannot allow" [ArgZ index]);;
  refuse ((source == SourceConstitution) && (ru_Action rule != ActionDeny)
          && (ru_Action rule != ActionHold))
    (ErrFmt "constitution rule %d: constitution can only deny or hold" [ArgZ index]);;
  match validateRuleResource (ru_Resource rule) with
  | Err e => Err (ErrWrap "%s rule %d: resource %q: %w"
                    [ArgS source; ArgZ index; ArgS (ru_Resource rule)] e)
  | Ok _ => Ok tt
  end;;
  (if ru_ResourcePath rule != ""
   then match CompilePathPattern (ru_ResourcePath rule) with
        | Err e => Err (ErrWrap "%s rule %d: resolved resource: %w" [ArgS source; ArgZ index] e)
        | Ok _ => Ok tt
        end
   else Ok tt);;
  refuse ((ru_Action rule == ActionHold) && (ru_Code rule == ""))
    (at_rule "%s rule %d: hold code is required");;
  (if ru_CommandPrefix rule != ""
   then match parseStaticPrefix (ru_CommandPrefix rule) with
        | Err e => Err (ErrWrap "%s rule %d: %w" [ArgS source; ArgZ index] e)
        | Ok _ => refuse ((ru_Action rule == ActionAllow) && unsafePersistentPrefix (ru_CommandPrefix rule))
                    (at_rule "%s rule %d: unsafe broad command prefix cannot persist")
        end
   else Ok tt).

Definition ValidateRules (source : AuthoritySource) (rules : list Rule) : res error unit :=
  require (contains [SourceManaged; SourceUser; SourceRepository; SourceConstitution] source)
    (ErrText "unknown policy authority source");;
  foldM (λ index rule, validate_rule source index rule;; Ok (index + 1)) rules 0;;
  Ok tt.
End matching.

(** ** Postures *)

Definition validateMode (mode : Mode) : res Decision unit :=
  require (mode == ModeAct) (deny "mode_unknown" "only act mode is supported" LayerMode).

(** [permissionDecision]; an error becomes the denial [decisionFromError] makes. *)
Definition permissionDecision (permission : Permission) (capability : Capability) (eff : Effect) :
    res Decision Action :=
  refuse ((permission != PermissionSuggest) && (permission != PermissionAuto)
          && (permission != PermissionBypass) && (permission != PermissionNever))
    (deny "permission_unknown" "unknown permission is denied" LayerPosture);;
  if permission == PermissionNever then
    if (capability == CapabilityRead) || (ef_Kind eff == ProcessReadOnly) then Ok ActionAllow
    else Err (deny "permission_denied" "never posture denies side effects" LayerPosture)
  else if ef_Risk eff == RiskCritical then
    Err (deny "permission_denied" "critical-risk execution is denied" LayerPosture)
  else if (permission == PermissionBypass) || (capability == CapabilityRead) || (ef_Risk eff == RiskLow)
  then Ok ActionAllow
  else Ok ActionAsk.

(** ** Planning ([planning.go]) *)

Definition consequentialPlanningEffect (kind : EffectKind) : bool :=
  negb (contains [WorkspaceRead; ProcessReadOnly; SessionMutation; AgentMessage] kind).

Definition adaptivePlanningRequired (a : Assessment) : bool :=
  let eff := as_effect a in
  if fc_ReadOnlyDeclared (as_facets a) then false
  else (ef_Risk eff == RiskHigh) || (ef_Risk eff == RiskCritical)
       || (ef_Kind eff == NetworkMutating) || (ef_Kind eff == ExternalMutation)
       || (ef_Kind eff == AgentLifecycle) || (ef_Reversibility eff == Irreversible).

Definition planningDecision (r : Runtime) (a : Assessment) : option Decision :=
  let planning := rt_PlanningPolicy r in
  if fc_PlanningExempt (as_facets a) || negb (consequentialPlanningEffect (ef_Kind (as_effect a)))
  then None
  else if (planning != PlanningOff) && (planning != PlanningAdaptive) && (planning != PlanningRequired)
  then Some (decision ActionDeny "planning_policy_invalid" "unknown planning policy is denied" "")
  else if planning == PlanningOff then None
  else if fc_HostExecution (as_facets a) then None
  else if (rt_Permission r == PermissionBypass) && fc_FullAccess (as_facets a) then None
  else
    let required := (planning == PlanningRequired)
                    || ((planning == PlanningAdaptive) && adaptivePlanningRequired a) in
    if negb required && negb (rt_PlanSubmitted r) then None
    else if negb (rt_PlanSubmitted r)
    then Some (decision ActionHold "plan_required"
                 "submit a structured Plan before consequential actions" "")
    else None.

(** ** Surfaces ([granular.go]) *)

Definition ClassifySurface (source : SourceKind) (capability : Capability) : Surface :=
  if source == SourceMCP then SurfaceMCP
  else if source == SourceSkill then SurfaceSkills
  else if capability == CapabilityProcess then SurfaceSandbox
  else SurfaceRules.

Definition postureFor (g : Granular) (surface : Surface) : SurfacePosture :=
  if surface == SurfaceSandbox then gn_Sandbox g
  else if surface == SurfaceRules then gn_Rules g
  else if surface == SurfaceSkills then gn_Skills g
  else if surface == SurfaceMCP then gn_MCP g
  else "".

Definition ApplySurfaceTightening (d : Decision) (surface : Surface) (granular : Granular) (eff : Effect) :
    Decision :=
  let posture := postureFor granular surface in
  if (posture == SurfaceInherit) || (posture == SurfaceAllow)
     || (de_Action d == ActionDeny) || (de_Action d == ActionHold) then d
  else if (posture == SurfaceAsk) && (de_Action d == ActionAllow) then
    if (ef_Kind eff == ProcessReadOnly) && (ef_Risk eff == RiskLow) then d
    else decision ActionAsk "granular_ask" ("surface " +:+ surface +:+ " requires approval") ""
  else if posture == SurfaceDeny
  then decision ActionDeny "granular_deny" ("surface " +:+ surface +:+ " denies") ""
  else d.

(** ** Layers of a decision ([decide.go]) *)

Definition pathWrite (r : Resource) : bool :=
  bool_decide (rs_Class r = ClassPath) && Writes r && (rs_Path r != "").

Definition writesPaths (l : list Resource) : bool := existsb pathWrite l.

Definition canonicalRoot (root : string) : bool := is_abs root && (clean root == root).

Definition inputLayer (i : Invocation) : option Decision :=
  let invalid reason := Some (deny "policy_invalid_invocation" reason LayerInput) in
  if (in_CallID i == "") || (in_Tool i == "") then invalid "call id and tool are required"
  else if negb (in_Validated i) then
    Some (deny "policy_unvalidated_invocation"
            "schema and resources must be validated before policy" LayerInput)
  else if negb (Assessment_Valid (in_Assessment i)) then
    Some (deny "policy_unassessed_invocation" "resolved resource assessment is required" LayerInput)
  else if negb (SourceKind_Valid (in_Source i)) then
    invalid "known trusted invocation source is required"
  else if in_Capability i == "" then
    Some (deny "policy_unknown_capability" "descriptor capability is required" LayerInput)
  else if (in_Stage i != StageCall) && (in_Stage i != StageEgress) then
    invalid "unknown decision stage"
  else if (in_Approval i != "") && (in_Approval i != ApprovalDefault)
          && (in_Approval i != ApprovalOnceRequired) then
    invalid "unknown binding approval policy"
  else if writesPaths (in_Resources i) && negb (canonicalRoot (in_Workspace i)) then
    invalid "path writes require the canonical workspace root"
  else None.

Definition deny_protected (i : Invocation) (r : Resource) (reason : error) : Decision :=
  mkDecision false ActionDeny "control_plane_protected" reason LayerHard ""
    (if is_abs (rs_Path r) then rs_Path r else path_join (in_Workspace i) (rs_Path r)).

(** The first protected write of the resources. *)
Fixpoint check_writes (i : Invocation) (workspace : string) (l : list Resource) : option Decision :=
  match l with
  | [] => None
  | r :: l =>
      if negb (pathWrite r) then check_writes i workspace l
      else match CheckWrite workspace (rs_Path r) (rs_Tree r) with
           | Err e => Some (deny_protected i r e)
           | Ok _ => check_writes i workspace l
           end
  end.

Definition controlPlaneLayer (i : Invocation) : option Decision :=
  if negb (writesPaths (in_Resources i)) then None
  else match ControlPlaneWithin (in_Workspace i) with
       | Err e => Some (mkDecision false ActionDeny "policy_invalid_invocation" e LayerInput "" "")
       | Ok workspace => check_writes i workspace (in_Resources i)
       end.

Definition host_execution (i : Invocation) : bool := fc_HostExecution (in_Facets i).

Definition bindingLayer (r : Runtime) (i : Invocation) (d : Decision) : Decision :=
  if (in_Stage i == StageEgress) || (de_Action d == ActionDeny) || (de_Action d == ActionHold) then d
  else if ((in_Approval i == ApprovalOnceRequired) || host_execution i)
          && ((rt_Permission r != PermissionBypass) || (de_Action d == ActionAsk))
  then
    let d :=
      if (de_Action d != ActionAsk) || (de_Layer d == LayerPosture) then
        if host_execution i
        then decision ActionAsk "host_execution_approval_required"
               "approve this command to run with your OS account's file and network access, without QCode's sandbox"
               LayerBinding
        else decision ActionAsk "tool_approval_required"
               ("tool " +:+ in_Tool i +:+ " requires one-time user approval") LayerBinding
      else d in
    set_approval d ApprovalFreshOnce
  else if negb (rt_ForceEditPlanApproval r) then d
  else if in_Journaled i && (de_Action d == ActionAllow) then
    set_approval (decision ActionAsk "edit_plan_required"
      "workspace writes require a fresh edit plan approval" LayerBinding) ApprovalFresh
  else if de_Action d == ActionAsk then set_approval d ApprovalFresh
  else d.

Section decide.
Context `{UrlSyntax, Unicode, BashSyntax, CandidateDigest}.

(** The conditions of [autoReviewConditions], in their order. *)
Definition autoReviewConditions (r : Runtime) (i : Invocation) (permission : Action)
    (repositoryAsk managedAsk : bool) : list (string * bool) :=
  let eff := in_Effect i in
  let f := in_Facets i in
  [("auto_review_enabled", negb (rt_DisableAutoReview r));
   ("posture_requested_approval",
      (permission == ActionAsk) && negb repositoryAsk && negb managedAsk);
   ("medium_risk", ef_Risk eff == RiskMedium);
   ("bounded_effect", (ef_Kind eff == AgentLifecycle) || (ef_Kind eff == NetworkRead));
   ("network_read_under_auto",
      (ef_Kind eff != NetworkRead) || (rt_Permission r == PermissionAuto));
   ("public_network_target",
      (ef_Kind eff != NetworkRead) || (negb (fc_HostLocalTarget f) && negb (fc_LoopbackReach f)));
   ("reusable_binding_approval",
      (in_Stage i == StageEgress)
      || ((in_Approval i != ApprovalOnceRequired)
          && negb (rt_ForceEditPlanApproval r && in_Journaled i)));
   ("exact_typed_grant", bool_decide (is_Some (GrantForInvocation i)))].

Definition autoReviewEligible (r : Runtime) (i : Invocation) (permission : Action)
    (repositoryAsk managedAsk : bool) : bool :=
  forallb snd (autoReviewConditions r i permission repositoryAsk managedAsk).

(** [guardian.go]. *)
Definition guardian_facts (i : Invocation) : CandidateFacts :=
  let f := in_Facets i in
  let e := in_Effect i in
  {| cf_BuiltinBinding := true; cf_RegisteredForReview := true;
     cf_EffectRule := as_rule (in_Assessment i);
     cf_PermissionExpansion := false; cf_ProtectedPaths := false; cf_ControlPlaneWrite := false;
     cf_Capability := in_Capability i; cf_Stage := "call";
     cf_SandboxRequired := fc_StrongSandbox f; cf_HostExecution := fc_HostExecution f;
     cf_NetworkAccess := fc_Network f || fc_LoopbackReach f || fc_HostLocalTarget f;
     cf_MCPOrSkill := false;
     cf_EffectRisk := ef_Risk e; cf_EffectKind := ef_Kind e;
     cf_EffectReversibility := ef_Reversibility e; cf_EvidenceComplete := true |}.

Definition hypothetical_allow : Decision := decision ActionAllow "" "" "".

Definition surface_of (i : Invocation) : Surface := ClassifySurface (in_Source i) (in_Capability i).

Definition guardianEligible (r : Runtime) (i : Invocation) (d : Decision) : bool :=
  if negb (in_GuardianRegistered i) || (in_Source i != SourceBuiltin) || (in_Stage i != StageCall)
     || (rt_Permission r != PermissionAuto) || rt_DisableAutoReview r || (de_Action d != ActionAsk)
     || (de_Layer d != LayerPosture) || (de_Approval d != ApprovalReusable)
  then false
  else if de_Action (ApplySurfaceTightening hypothetical_allow (surface_of i) (rt_Granular r)
                       (in_Effect i)) != ActionAllow
  then false
  else is_ok (CheckEligibility (guardian_facts i)).

(** The candidate describes this very invocation under this policy. *)
Definition candidate_current (r : Runtime) (i : Invocation) (c : ReviewCandidate) : bool :=
  (id_CallID (rv_Identity c) == in_CallID i) && (bi_Tool (rv_Binding c) == in_Tool i)
  && (bi_ArgumentsDigest (rv_Binding c) == sha256_hex (in_Arguments i))
  && (ex_AssessmentID (rv_Execution c) == Assessment_Digest (in_Assessment i))
  && (ex_ResourcesDigest (rv_Execution c)
      == sha256_hex (encode (JArr (json_resource <$> in_Resources i))))
  && (vr_PolicyRevision (rv_Versions c) =? rt_Revision r)
  && (vr_Permission (rv_Versions c) == rt_Permission r).

Definition applyGuardian (r : Runtime) (i : Invocation) (d : Decision) : Decision :=
  let d := set_eligible d (guardianEligible r i d) in
  match in_Guardian i with
  | None => d
  | Some input =>
      if negb (de_GuardianEligible d) || negb (candidate_current r i (gi_Candidate input)) then d
      else if bool_decide (Evaluate (gi_Evidence input) still_valid
                (mkContext (Some (gi_Candidate input)) (gi_Enabled input) (de_Action d)
                   false false true false) = OutcomeAllow)
      then decision ActionAllow "guardian_allowed"
             "bounded operation has current Guardian evidence" LayerAutoReview
      else d
  end.

(** The decision of the posture: what a rule asked, or the permission. *)
Definition posture_decision (permission : Action) (askLayer : Layer) (userAllow : bool) : Decision :=
  if askLayer != "" then approvalRequired askLayer
  else if (permission == ActionAsk) && userAllow then decision ActionAllow "" "" LayerUser
  else if permission == ActionAsk then approvalRequired LayerPosture
  else decision ActionAllow "" "" LayerPosture.

Definition tighten (r : Runtime) (i : Invocation) (d : Decision) : Decision :=
  ApplySurfaceTightening d (surface_of i) (rt_Granular r) (in_Effect i).

(** The surface tightens the decision, or the allow auto review would make. *)
Definition surface_decision (r : Runtime) (i : Invocation) (eligible : bool) (d : Decision) : Decision :=
  if bool_decide (tighten r i d ≠ d) then set_layer (tighten r i d) LayerSurface
  else if eligible && (de_Action (tighten r i hypothetical_allow) != ActionAllow)
  then set_layer (tighten r i hypothetical_allow) LayerSurface
  else d.

Definition auto_review (eligible : bool) (d : Decision) : Decision :=
  if eligible && (de_Action d == ActionAsk) && (de_Layer d == LayerPosture)
     && (de_Approval d == ApprovalReusable)
  then decision ActionAllow "auto_review_allowed"
         "bounded medium-risk effect has an exact typed grant" LayerAutoReview
  else d.

(** From the posture on: the permission, the surface, the binding, auto review
    and the guardian. *)
Definition decide_posture (r : Runtime) (i : Invocation) (askLayer : Layer)
    (repositoryAsk managedAsk userAllow : bool) : Decision :=
  match permissionDecision (rt_Permission r) (in_Capability i) (in_Effect i) with
  | Err d => d
  | Ok permission =>
      let eligible := autoReviewEligible r i permission repositoryAsk managedAsk in
      let d := posture_decision permission askLayer userAllow in
      let d := surface_decision r i eligible d in
      let d := bindingLayer r i d in
      let d := auto_review eligible d in
      applyGuardian r i d
  end.

(** The repository rules: a denial, or whether they ask. *)
Definition repositoryLayer (r : Runtime) (i : Invocation) : res Decision bool :=
  match strongestMatch (rt_Repository r) i with
  | None => Ok false
  | Some rule =>
      if ru_Action rule == ActionDeny then
        Err (deny "repository_rule_denied" "repository deny rule matched" LayerRepository)
      else if ru_Action rule == ActionHold then
        Err (deny (ruleCode rule "repository_hold") "repository mechanical hold matched" LayerRepository)
      else if ru_Action rule == ActionAsk then Ok true
      else if ru_Action rule == ActionAllow then
        Err (deny "repository_source_invalid" "repository authority cannot allow" LayerRepository)
      else Ok false
  end.

(** The user rules: a denial, or whether they ask and whether they allow. *)
Definition userLayer (r : Runtime) (i : Invocation) : res Decision (bool * bool) :=
  match strongestMatch (rt_User r) i with
  | None => Ok (false, false)
  | Some rule =>
      if (ru_Action rule == ActionDeny) || (ru_Action rule == ActionHold) then
        Err (deny "user_rule_denied" "user authority denied this invocation" LayerUser)
      else Ok (ru_Action rule == ActionAsk, ru_Action rule == ActionAllow)
  end.

(** The hard constraints: a denial, or whether the managed grant asks. *)
Definition hardLayer (r : Runtime) (i : Invocation) : res Decision bool :=
  match inputLayer i with
  | Some d => Err d
  | None =>
      if host_execution i && (rt_DisableHostExecution r || (rt_Permission r == PermissionNever)) then
        Err (deny "host_execution_forbidden"
               "host execution is unavailable in Read only mode and delegated runtimes" LayerHard)
      else
        match controlPlaneLayer i with
        | Some d => Err d
        | None =>
            match strongestMatch (rt_Constitution r) i with
            | Some rule =>
                Err (deny (ruleCode rule "constitution_denied") "constitution rule matched" LayerHard)
            | None =>
                match strongestMatch (rt_Grants r) i with
                | None => Err (deny "tool_grant_missing" "no matching managed tool grant" LayerHard)
                | Some grant =>
                    if (ru_Action grant == ActionDeny) || (ru_Action grant == ActionHold) then
                      Err (deny "tool_grant_denied" "managed tool grant denied this invocation" LayerHard)
                    else Ok (ru_Action grant == ActionAsk)
                end
            end
        end
  end.

(** The layer that asked first. *)
Definition ask_layer (managedAsk repositoryAsk userAsk : bool) : Layer :=
  let askLayer := if managedAsk then LayerHard else "" in
  let askLayer := if repositoryAsk then firstLayer askLayer LayerRepository else askLayer in
  if userAsk then firstLayer askLayer LayerUser else askLayer.

(** [Runtime.decide] on a sampled snapshot; the error side of a layer is a
    final decision. *)
Definition decide_layers (r : Runtime) (i : Invocation) : res Decision Decision :=
  managedAsk ← hardLayer r i;
  repositoryAsk ← repositoryLayer r i;
  '(userAsk, userAllow) ← userLayer r i;
  validateMode (rt_Mode r);;
  let askLayer := ask_layer managedAsk repositoryAsk userAsk in
  match planningDecision r (in_Assessment i) with
  | Some planning =>
      let planning := set_layer planning LayerMode in
      if de_Action planning != ActionAsk then Err planning else Ok (bindingLayer r i planning)
  | None => Ok (decide_posture r i askLayer repositoryAsk managedAsk userAllow)
  end.

Definition decide (r : Runtime) (i : Invocation) : Decision :=
  match decide_layers r i with Ok d => d | Err d => d end.
End decide.

(** ** Operations of the runtime *)

Definition bumpRevision (r : Runtime) : Runtime :=
  r |> set_rt_Revision (u64 ((if rt_Revision r =? 0 then 1 else rt_Revision r) + 1)).

(** A setter and the revision it returns. *)
Definition revised (r : Runtime) : Runtime * Z := (bumpRevision r, rt_Revision (bumpRevision r)).

Definition permission_rank (p : Permission) : option Z :=
  if p == PermissionNever then Some 0
  else if p == PermissionSuggest then Some 1
  else if p == PermissionAuto then Some 2
  else if p == PermissionBypass then Some 3
  else None.

Definition TightenPermission (requested ceiling : Permission) : Permission :=
  match permission_rank requested, permission_rank ceiling with
  | Some requestedRank, Some ceilingRank => if ceilingRank <? requestedRank then ceiling else requested
  | _, _ => PermissionNever
  end.

Definition SetPermission (permission : Permission) (r : Runtime) : Runtime * Z :=
  revised (r |> set_rt_Permission permission).

Definition SetPermissionWithinCeiling (requested ceiling : Permission) (r : Runtime) : Runtime * Z :=
  let ceiling := if ceiling == "" then rt_Permission r else ceiling in
  revised (r |> set_rt_Permission (TightenPermission requested ceiling)).

Definition SetGranular (granular : Granular) (r : Runtime) : Runtime * Z :=
  revised (r |> set_rt_Granular granular).

Definition SetForceEditPlanApproval (forced : bool) (r : Runtime) : Runtime * Z :=
  if Bool.eqb (rt_ForceEditPlanApproval r) forced then (r, rt_Revision r)
  else revised (r |> set_rt_ForceEditPlanApproval forced).

Definition SetDisableAutoReview (disabled : bool) (r : Runtime) : Runtime * Z :=
  if Bool.eqb (rt_DisableAutoReview r) disabled then (r, rt_Revision r)
  else revised (r |> set_rt_DisableAutoReview disabled).

Definition ConfigurePlanning (planning : PlanningPolicy) (r : Runtime) : Runtime * Z :=
  revised (r |> set_rt_PlanningPolicy planning |> set_rt_PlanSubmitted false).
Definition SubmitPlan (r : Runtime) : Runtime * Z := revised (r |> set_rt_PlanSubmitted true).
Definition ResetPlanState (r : Runtime) : Runtime * Z := revised (r |> set_rt_PlanSubmitted false).

Definition refreshUserRules (r : Runtime) : Runtime :=
  match rt_userSource r with
  | None => r
  | Some source =>
      let '(rules, version) := source (rt_userSourceVersion r) in
      if version <=? rt_userSourceVersion r then r
      else bumpRevision (r |> set_rt_User rules |> set_rt_userSourceVersion version)
  end.

Definition BindUserRuleSource (source : option (Z → list Rule * Z)) (r : Runtime) : Runtime :=
  refreshUserRules (r |> set_rt_userSource source |> set_rt_userSourceVersion 0).

(** [CloneSampling]: the refreshed runtime and the copy, which has no source. *)
Definition CloneSampling (r : Runtime) : Runtime * Runtime :=
  let r := refreshUserRules r in
  (r, r |> set_rt_userSource None |> set_rt_userSourceVersion 0).

Section sources.
Context `{UrlSyntax, Unicode, BashSyntax, CandidateDigest}.

(** The rule changes validate first; an error leaves the runtime as it is. *)
Definition AppendManagedRule (rule : Rule) (r : Runtime) : res error (Runtime * Z) :=
  ValidateRules SourceManaged [rule];;
  Ok (revised (r |> set_rt_Grants (rt_Grants r ++ [rule]))).

Definition ReloadSources (user repository : list Rule) (r : Runtime) : res error (Runtime * Z) :=
  ValidateRules SourceUser user;;
  ValidateRules SourceRepository repository;;
  Ok (revised (r |> set_rt_userSource None |> set_rt_userSourceVersion 0
                 |> set_rt_User user |> set_rt_Repository repository)).

Definition SetConstitution (rules : list Rule) (r : Runtime) : res error (Runtime * Z) :=
  ValidateRules SourceConstitution rules;;
  Ok (revised (r |> set_rt_Constitution rules)).

Definition AppendUserRule (rule : Rule) (r : Runtime) : res error (Runtime * Z) :=
  ValidateRules SourceUser [rule];;
  Ok (revised (r |> set_rt_User (rt_User r ++ [rule]))).

(** [Runtime.Decide]: the refreshed runtime and the decision. *)
Definition Decide (r : Runtime) (i : Invocation) : Runtime * Decision :=
  let '(r, snapshot) := CloneSampling r in (r, decide snapshot i).

(** [ManagedGrant] and [AdvertisesTool] sample the runtime as [Decide] does. *)
Definition ManagedGrant (r : Runtime) (i : Invocation) : option Rule :=
  strongestMatch (rt_Grants (CloneSampling r).2) i.

(** [Invocation{Tool: name, Validated: true}], the other fields zero. *)
Definition bare_invocation (name : string) : Invocation :=
  let input := mkInput (mkBinding "" "" false false false None false) (mkDeclared false false false) [] in
  mkInvocation "" name "" "" (mkAssessment input no_facets no_effect "" "") "" true "" StageCall false None.

Definition AdvertisesTool (r : Runtime) (name : string) : bool :=
  if name == "" then true
  else match ManagedGrant r (bare_invocation name) with
       | None => true
       | Some grant => (ru_Action grant != ActionDeny) && (ru_Action grant != ActionHold)
       end.

Definition validatePlanning (planning : PlanningPolicy) : res error unit :=
  refuse ((planning != PlanningOff) && (planning != PlanningAdaptive) && (planning != PlanningRequired))
    (ErrFmt "unknown planning policy %q" [ArgS planning]).

(** [Validate] of a runtime; a denial is wrapped with its code and reason. *)
Definition wrap_decision (format : string) (d : Decision) : error :=
  ErrWrap format [ArgS (de_Code d)] (de_Reason d).

Definition ValidateRuntime (r : Runtime) : res error unit :=
  let r := (CloneSampling r).2 in
  (match validateMode (rt_Mode r) with Err d => Err (wrap_decision "mode: %s: %w" d) | Ok _ => Ok tt end);;
  (match permissionDecision (rt_Permission r) CapabilityRead (mkEffect WorkspaceRead RiskLow Reversible) with
   | Err d => Err (wrap_decision "permission: %s: %w" d)
   | Ok _ => Ok tt
   end);;
  validatePlanning (rt_PlanningPolicy r);;
  ValidateRules SourceManaged (rt_Grants r);;
  ValidateRules SourceUser (rt_User r);;
  ValidateRules SourceRepository (rt_Repository r);;
  ValidateRules SourceConstitution (rt_Constitution r).
End sources.

Definition DefaultRuntime (mode : Mode) (permission : Permission) : Runtime :=
  mkRuntime None 0 1 mode permission false PlanningOff false false false
    [mkRule "*" "*" "" false "" "" ActionAllow ""] [] [] [] (mkGranular "" "" "" "").
