(* ===== verification/Constitution.v ===== *)
(** The repository constitution and the permissions file compiled to rules
    ([internal/security/policy]: constitution.go, permissions.go). Reading and
    writing the files is not modelled. *)
From S2P Require Import Prelude.
From S2P Require Import GoStrings.
From S2P Require Import Json.
From S2P Require Import Paths.
From S2P Require Import PathPattern.
From S2P Require Import SecurityModel.
From S2P Require Import Commands.
From S2P Require Import Grants.
From S2P Require Import Policy.

(** ** Constitution *)

Record ConstitutionDocument := mkConstitution {
  co_Version : Z;
  co_DenyWriteGlobs : list string;
  co_HoldTools : list string;
  co_DenyTools : list string;
  co_Prompt : string;
}.

Definition normalizeGlob (glob : string) : res error string :=
  let glob := trim_space glob in
  let glob := trim_prefix glob "./" in
  let glob := trim_suffix glob "/**" in
  let glob := trim_suffix glob "/*" in
  let glob := trim_suffix glob "/" in
  let glob := clean glob in
  CompilePathPattern glob;;
  Ok glob.

(** A write hold: every writer of the resource, no reader. *)
Definition write_hold (source resource : string) : Rule :=
  mkRule "*" resource "" true "" "" ActionHold ("constitution_hold:" +:+ source).

Definition compile_glob (source : string) (rules : list Rule) (glob : string) : res error (list Rule) :=
  if blank glob then Ok rules
  else match normalizeGlob glob with
       | Err e => Err (ErrWrap "deny_write_globs entry %q: %w" [ArgS glob] e)
       | Ok resource => Ok (rules ++ [write_hold source resource])
       end.

Definition tool_rules (names : list string) (action : Action) (code : string) : list Rule :=
  omap (λ name, let name := trim_space name in
                if name == "" then None else Some (mkRule name "*" "" false "" "" action code)) names.

Definition compileConstitution (doc : ConstitutionDocument) (source : string) : res error (list Rule) :=
  rules ← foldM (compile_glob source) (co_DenyWriteGlobs doc) [];
  Ok (rules ++ tool_rules (co_HoldTools doc) ActionHold ("constitution_hold:" +:+ source)
            ++ tool_rules (co_DenyTools doc) ActionDeny ("constitution_deny:" +:+ source)).

(** [LoadConstitution] on the two documents, if any is present: repository rules
    first, and the prompt. *)
Definition DefaultConstitutionPrompt : string :=
  "Follow the repository constitution. Mechanical holds cannot be bypassed.".

Definition no_document : ConstitutionDocument := mkConstitution 0 [] [] [] "".

Definition merge_constitutions (user repo : option ConstitutionDocument) : res error (list Rule * string) :=
  if bool_decide (user = None) && bool_decide (repo = None) then Ok ([], "")
  else
    let userDoc := default no_document user in
    let repoDoc := default no_document repo in
    userRules ← compileConstitution userDoc "user";
    repoRules ← compileConstitution repoDoc "repo";
    let rules := repoRules ++ userRules in
    let prompt := trim_space (co_Prompt repoDoc) in
    let prompt := if prompt == "" then trim_space (co_Prompt userDoc) else prompt in
    Ok (rules, if (prompt == "") && bool_decide (rules ≠ []) then DefaultConstitutionPrompt else prompt).

(** ** Permissions *)

Record PermissionEntry := mkPermissionEntry {
  pe_Tool : string;
  pe_Resource : string;
  pe_CommandPrefix : string;
  pe_GrantKey : string;
  pe_Code : string;
}.

#[export] Instance PermissionEntry_eq_dec : EqDecision PermissionEntry.
Proof. solve_decision. Defined.

Record PermissionsDocument := mkPermissions {
  pd_Deny : list PermissionEntry;
  pd_Ask : list PermissionEntry;
  pd_Allow : list PermissionEntry;
}.

Definition entryEqual (a b : PermissionEntry) : bool := bool_decide (a = b).

Definition entry_rule (action : Action) (e : PermissionEntry) : Rule :=
  mkRule (pe_Tool e) (pe_Resource e) "" false (pe_CommandPrefix e) (pe_GrantKey e) action (pe_Code e).

Definition sha_key (key : string) : bool := (String.length key =? 64)%nat.

Section permissions.
Context `{UrlSyntax, Unicode, BashSyntax}.

Definition compilePermissions (doc : PermissionsDocument) : res error (list Rule) :=
  require (forallb (λ e, sha_key (pe_GrantKey e)) (pd_Allow doc))
    (ErrText "permissions allow entry requires a SHA-256 grant_key");;
  let rules := (entry_rule ActionDeny <$> pd_Deny doc) ++ (entry_rule ActionAsk <$> pd_Ask doc)
               ++ (entry_rule ActionAllow <$> pd_Allow doc) in
  ValidateRules SourceUser rules;;
  Ok rules.

(** [RuleFromInvocation]: the permanent allow of a typed grant. *)
Definition RuleFromInvocation (i : Invocation) : res error Rule :=
  match GrantForInvocation i with
  | None => Err (ErrText "invocation has no persistable typed grant")
  | Some grant =>
      Ok (mkRule (in_Tool i) "" "" false "" (gr_Key grant) ActionAllow "permissions_always_allow")
  end.

(** [AppendPermissionAllow] on the document of the file: the document written
    back, if it changed, and the rules. *)
Definition AppendPermissionAllow (doc : PermissionsDocument) (rule : Rule) :
    res error (PermissionsDocument * list Rule) :=
  refuse (ru_Tool rule == "") (ErrText "allow rule tool is required");;
  require (sha_key (ru_GrantKey rule)) (ErrText "allow rule grant_key must be a SHA-256");;
  current ← compilePermissions doc;
  let entry := mkPermissionEntry (ru_Tool rule) (ru_Resource rule) (ru_CommandPrefix rule)
                 (ru_GrantKey rule) (ru_Code rule) in
  if existsb (λ existing, entryEqual existing entry) (pd_Allow doc) then Ok (doc, current)
  else
    let doc := mkPermissions (pd_Deny doc) (pd_Ask doc) (pd_Allow doc ++ [entry]) in
    rules ← compilePermissions doc;
    Ok (doc, rules).
End permissions.
