(* ===== verification/PolicyFacts.v ===== *)
(** Lemmas about the policy decision ([Policy]): the strongest rule of a source,
    what the layers pass on, and the stages from the posture to the guardian. *)
From S2P Require Import Prelude.
From S2P Require Import GoStrings.
From S2P Require Import Sha256.
From S2P Require Import Json.
From S2P Require Import Paths.
From S2P Require Import PathPattern.
From S2P Require Import SecurityModel.
From S2P Require Import Commands.
From S2P Require Import Guardian.
From S2P Require Import Grants.
From S2P Require Import Policy.

(** How strict an action is: an allow, a question, a refusal. *)
Definition severity (a : Action) : Z :=
  if a == ActionAllow then 0 else if a == ActionAsk then 1 else 2.

Definition refuses (d : Decision) : Prop := de_Action d = ActionDeny ∨ de_Action d = ActionHold.

(** A decision that asks for approval at the layer of a rule. *)
Definition rule_layer (l : Layer) : Prop := l = LayerHard ∨ l = LayerRepository ∨ l = LayerUser.

Lemma priority_bound a : 0 ≤ actionPriority a ≤ 4.
Proof. unfold actionPriority. repeat case_match; lia. Qed.

Section strongest.
Context `{UrlSyntax, Unicode, BashSyntax}.

Definition strongest_of (rules : list Rule) (i : Invocation) (rule : Rule) : Prop :=
  rule ∈ rules ∧ ruleMatches rule i = true
  ∧ ∀ rule', rule' ∈ rules → ruleMatches rule' i = true →
      actionPriority (ru_Action rule') ≤ actionPriority (ru_Action rule).

(** [strongestMatch] finds a matching rule of the highest priority. *)
Lemma strongestMatch_spec rules i :
  match strongestMatch rules i with
  | Some rule => strongest_of rules i rule
  | None => ∀ rule, rule ∈ rules → ruleMatches rule i = false
  end.
Proof.
  unfold strongestMatch. induction rules as [|rule rules IH] using rev_ind.
  { cbn. by intros ? ?%elem_of_nil. }
  rewrite foldl_snoc. unfold stronger at 1. unfold strongest_of in *.
  assert (∀ r, r ∈ rules ++ [rule] → r ∈ rules ∨ r = rule) as Hsnoc.
  { intros r [?| ->%list_elem_of_singleton]%elem_of_app; auto. }
  assert (rule ∈ rules ++ [rule]) as Hlast by (apply elem_of_app; right; by left).
  destruct (foldl (stronger i) None rules) as [s|], (ruleMatches rule i) eqn:Er; cbn -[actionPriority].
  - destruct IH as (Hin & Hm & Hmax).
    destruct (Z.ltb_spec (actionPriority (ru_Action s)) (actionPriority (ru_Action rule))) as [Hl|Hl].
    + split; [done|split; [done|]]. 
      intros r [Hr| ->]%Hsnoc Hr'; [specialize (Hmax r Hr Hr')|]; lia.
    + split; [by apply elem_of_app; left|split; [done|]].
      intros r [Hr| ->]%Hsnoc Hr'; [by apply Hmax|done].
  - destruct IH as (Hin & Hm & Hmax).
    split; [by apply elem_of_app; left|split; [done|]].
    intros r [Hr| ->]%Hsnoc Hr'; [by apply Hmax|congruence].
  - split; [done|split; [done|]].
    intros r [Hr| ->]%Hsnoc Hr'; [by rewrite IH in Hr'|done].
  - by intros r [Hr| ->]%Hsnoc; [apply IH|].
Qed.

Lemma strongestMatch_Some rules i rule :
  strongestMatch rules i = Some rule → strongest_of rules i rule.
Proof. intros E. pose proof (strongestMatch_spec rules i) as H2. by rewrite E in H2. Qed.

Lemma strongestMatch_None rules i :
  strongestMatch rules i = None → ∀ rule, rule ∈ rules → ruleMatches rule i = false.
Proof. intros E. pose proof (strongestMatch_spec rules i) as H2. by rewrite E in H2. Qed.

(** A larger source matches at least as strongly. *)
Lemma strongestMatch_mono rules rules' i rule :
  rules ⊆ rules' → strongestMatch rules i = Some rule →
  ∃ rule', strongestMatch rules' i = Some rule'
    ∧ actionPriority (ru_Action rule) ≤ actionPriority (ru_Action rule').
Proof.
  intros Hsub (Hin & Hm & _)%strongestMatch_Some. pose proof (strongestMatch_spec rules' i) as Hs.
  destruct (strongestMatch rules' i) as [rule'|].
  - exists rule'. split; [done|]. apply Hs; auto.
  - rewrite Hs in Hm; [done|auto].
Qed.

(** No matching rule of [rules] has an action stricter than an allow. *)
Definition none_stricter (rules : list Rule) (i : Invocation) : Prop :=
  ∀ rule, rule ∈ rules → ruleMatches rule i = true →
    ru_Action rule ≠ ActionAsk ∧ ru_Action rule ≠ ActionDeny ∧ ru_Action rule ≠ ActionHold.

Lemma none_stricter_match rules i rule :
  strongestMatch rules i = Some rule →
  ru_Action rule ≠ ActionAsk → ru_Action rule ≠ ActionDeny → ru_Action rule ≠ ActionHold →
  none_stricter rules i.
Proof.
  intros (_ & _ & Hmax)%strongestMatch_Some Ha Hd Hh r Hr Hm. specialize (Hmax r Hr Hm).
  assert (actionPriority (ru_Action rule) ≤ 1) as Hp.
  { unfold actionPriority. repeat case_match; bool_prop; solve [lia|congruence]. }
  split_and!; intros E; rewrite E in Hmax; cbn in Hmax; lia.
Qed.

Lemma none_stricter_app rules rules' i :
  none_stricter rules i → none_stricter rules' i → none_stricter (rules ++ rules') i.
Proof. intros H2 H3 rule [Hr|Hr]%elem_of_app; [by apply H2|by apply H3]. Qed.

(** No rule matches, or the strongest one allows. *)
Lemma none_stricter_source rules i :
  (∀ rule, strongestMatch rules i = Some rule →
     ru_Action rule ≠ ActionAsk ∧ ru_Action rule ≠ ActionDeny ∧ ru_Action rule ≠ ActionHold) →
  none_stricter rules i.
Proof.
  intros Hs. destruct (strongestMatch rules i) as [rule|] eqn:E.
  - destruct (Hs rule eq_refl) as (? & ? & ?). by eapply none_stricter_match.
  - intros rule Hr Hm. by rewrite (strongestMatch_None _ _ E) in Hm.
Qed.
End strongest.

(** ** The layers *)

Section layers.
Context `{UrlSyntax, Unicode, BashSyntax, CandidateDigest}.

(** The hard layer passes an invocation on. *)
Lemma hardLayer_Ok r i managedAsk :
  hardLayer r i = Ok managedAsk →
  inputLayer i = None ∧ controlPlaneLayer i = None
  ∧ (host_execution i = true → rt_DisableHostExecution r = false ∧ rt_Permission r ≠ PermissionNever)
  ∧ strongestMatch (rt_Constitution r) i = None
  ∧ ∃ grant, strongestMatch (rt_Grants r) i = Some grant ∧ ru_Action grant ≠ ActionDeny
      ∧ ru_Action grant ≠ ActionHold ∧ managedAsk = (ru_Action grant == ActionAsk).
Proof.
  unfold hardLayer. destruct (inputLayer i); [done|].
  destruct (host_execution i && _) eqn:Eh; [done|].
  destruct (controlPlaneLayer i); [done|]. destruct (strongestMatch (rt_Constitution r) i); [done|].
  destruct (strongestMatch (rt_Grants r) i) as [grant|]; [|done].
  destruct ((ru_Action grant == ActionDeny) || _) eqn:Ea; [done|]. bool_prop. intros [= <-].
  split_and!; try done; [|by exists grant].
  intros Eh'. rewrite Eh' in Eh. cbn in Eh. by bool_prop.
Qed.

Lemma repositoryLayer_Ok r i b :
  repositoryLayer r i = Ok b →
  strongestMatch (rt_Repository r) i = None ∧ b = false
  ∨ ∃ rule, strongestMatch (rt_Repository r) i = Some rule ∧ ru_Action rule ≠ ActionDeny
      ∧ ru_Action rule ≠ ActionHold ∧ ru_Action rule ≠ ActionAllow ∧ b = (ru_Action rule == ActionAsk).
Proof.
  unfold repositoryLayer. destruct (strongestMatch (rt_Repository r) i) as [rule|].
  2:{ intros [= <-]. by left. }
  intros E. right. exists rule. revert E.
  destruct (String.eqb_spec (ru_Action rule) ActionDeny); [done|].
  destruct (String.eqb_spec (ru_Action rule) ActionHold); [done|].
  destruct (String.eqb_spec (ru_Action rule) ActionAsk) as [->|].
  { intros [= <-]. by split_and!. }
  destruct (String.eqb_spec (ru_Action rule) ActionAllow); [done|].
  intros [= <-]. by split_and!.
Qed.

Lemma userLayer_Ok r i userAsk userAllow :
  userLayer r i = Ok (userAsk, userAllow) →
  strongestMatch (rt_User r) i = None ∧ userAsk = false ∧ userAllow = false
  ∨ ∃ rule, strongestMatch (rt_User r) i = Some rule ∧ ru_Action rule ≠ ActionDeny
      ∧ ru_Action rule ≠ ActionHold ∧ userAsk = (ru_Action rule == ActionAsk)
      ∧ userAllow = (ru_Action rule == ActionAllow).
Proof.
  unfold userLayer. destruct (strongestMatch (rt_User r) i) as [rule|].
  2:{ intros [= <- <-]. by left. }
  destruct (_ || _) eqn:Ea; [done|]. bool_prop. intros [= <- <-]. right. by exists rule.
Qed.

(** Planning never asks. *)
Lemma planning_refuses r a p : planningDecision r a = Some p → refuses p.
Proof.
  unfold planningDecision, refuses. repeat (case_match; [try done|]); try done.
  all: intros [= <-]; cbn; auto.
Qed.

(** What [decide_layers] passes on to the posture. *)
Lemma decide_layers_Ok r i d :
  decide_layers r i = Ok d →
  ∃ managedAsk repositoryAsk userAsk userAllow,
    hardLayer r i = Ok managedAsk ∧ repositoryLayer r i = Ok repositoryAsk
    ∧ userLayer r i = Ok (userAsk, userAllow) ∧ rt_Mode r = ModeAct
    ∧ planningDecision r (in_Assessment i) = None
    ∧ d = decide_posture r i (ask_layer managedAsk repositoryAsk userAsk) repositoryAsk managedAsk userAllow.
Proof.
  unfold decide_layers. intros (managedAsk & Hh & E)%bind_Ok.
  apply bind_Ok in E as (repositoryAsk & Hr & E). apply bind_Ok in E as ([userAsk userAllow] & Hu & E).
  apply then_Ok in E as [Hm E]. apply require_Ok, String.eqb_eq in Hm.
  exists managedAsk, repositoryAsk, userAsk, userAllow.
  destruct (planningDecision r (in_Assessment i)) as [p|] eqn:Ep; [|by injection E as <-].
  apply planning_refuses in Ep as [Ep|Ep]; cbn in E; by rewrite Ep in E.
Qed.

(** A layer that stops the evaluation refuses. *)
Definition stops (d : Decision) : Prop := refuses d ∧ de_Layer d ≠ LayerAutoReview.

Lemma deny_stops code reason layer : layer ≠ LayerAutoReview → stops (deny code reason layer).
Proof. intros Hl. split; [by left|done]. Qed.

Lemma inputLayer_stops i d : inputLayer i = Some d → stops d.
Proof.
  unfold inputLayer. repeat (case_match; [intros [= <-]; by apply deny_stops|]). done.
Qed.

Lemma controlPlaneLayer_stops i d : controlPlaneLayer i = Some d → stops d.
Proof.
  unfold controlPlaneLayer. destruct (negb _); [done|].
  destruct (ControlPlaneWithin (in_Workspace i)) as [w|e]; [|intros [= <-]; split; [by left|done]].
  induction (in_Resources i) as [|x l IH]; cbn; [done|].
  destruct (negb (pathWrite x)); [exact IH|].
  destruct (CheckWrite w (rs_Path x) (rs_Tree x)); [exact IH|].
  intros [= <-]. split; [by left|done].
Qed.

Lemma layers_stop r i d :
  hardLayer r i = Err d ∨ repositoryLayer r i = Err d ∨ userLayer r i = Err d → stops d.
Proof.
  unfold hardLayer, repositoryLayer, userLayer. intros [E|[E|E]]; revert E.
  - destruct (inputLayer i) eqn:Ei; [intros [= <-]; by eapply inputLayer_stops|].
    case_match; [intros [= <-]; by apply deny_stops|].
    destruct (controlPlaneLayer i) eqn:Ec; [intros [= <-]; by eapply controlPlaneLayer_stops|].
    repeat (case_match; try (intros [= <-]; by apply deny_stops); try done).
  - repeat (case_match; try (intros [= <-]; by apply deny_stops); try done).
  - repeat (case_match; try (intros [= <-]; by apply deny_stops); try done).
Qed.

Lemma decide_layers_Err r i d : decide_layers r i = Err d → stops d.
Proof.
  pose proof (layers_stop r i) as Hs. unfold decide_layers.
  destruct (hardLayer r i); cbn; [|intros [= <-]; apply Hs; by left].
  destruct (repositoryLayer r i); cbn; [|intros [= <-]; apply Hs; right; by left].
  destruct (userLayer r i) as [[]|]; cbn -[set_layer validateMode]; [|intros [= <-]; apply Hs; by do 2 right].
  destruct (validateMode (rt_Mode r)) eqn:Em; cbn -[set_layer].
  2:{ intros [= <-]. unfold validateMode in Em. destruct (_ == _); cbn in Em; [done|].
      injection Em as <-. by apply deny_stops. }
  destruct (planningDecision r (in_Assessment i)) as [p|] eqn:Ep; [|done].
  case_match; [|done]. intros [= <-]. apply planning_refuses in Ep. by split.
Qed.

(** [decide] refuses in a layer or is the decision of the posture. *)
Lemma decide_cases r i :
  stops (decide r i)
  ∨ ∃ managedAsk repositoryAsk userAsk userAllow,
      hardLayer r i = Ok managedAsk ∧ repositoryLayer r i = Ok repositoryAsk
      ∧ userLayer r i = Ok (userAsk, userAllow) ∧ rt_Mode r = ModeAct
      ∧ planningDecision r (in_Assessment i) = None
      ∧ decide r i = decide_posture r i (ask_layer managedAsk repositoryAsk userAsk)
                       repositoryAsk managedAsk userAllow.
Proof.
  unfold decide. destruct (decide_layers r i) eqn:E; [right|left].
  - by apply decide_layers_Ok.
  - by eapply decide_layers_Err.
Qed.
End layers.

(** ** From the posture on *)

(** A decision that may still become an allow without a human. *)
Definition open_to_allow (d : Decision) : Prop :=
  de_Action d = ActionAllow ∨ (de_Action d = ActionAsk ∧ de_Layer d = LayerPosture).

Definition settled (d : Decision) : Prop := de_Action d = ActionAllow ∨ de_Action d = ActionAsk.

Definition surface_denies (r : Runtime) (i : Invocation) : Prop :=
  postureFor (rt_Granular r) (surface_of i) = SurfaceDeny.

Section posture.
Context `{UrlSyntax, Unicode, BashSyntax, CandidateDigest}.

Lemma tighten_spec r i d :
  (refuses d → tighten r i d = d)
  ∧ (settled d → surface_denies r i → de_Action (tighten r i d) = ActionDeny)
  ∧ (settled d → ¬ surface_denies r i →
     tighten r i d = d ∨ de_Action d = ActionAllow ∧ de_Action (tighten r i d) = ActionAsk
                         ∧ de_Approval (tighten r i d) = ApprovalReusable).
Proof.
  unfold tighten, ApplySurfaceTightening, surface_denies, settled, refuses.
  set (p := postureFor _ _). split_and!.
  - intros [->| ->]; by rewrite ?orb_true_r.
  - intros Hd ->. destruct Hd as [->| ->]; done.
  - intros Hd Hp. destruct (_ || (de_Action d == ActionHold)); [by left|].
    destruct (String.eqb_spec p SurfaceDeny) as [|_]; [done|].
    destruct ((p == SurfaceAsk) && _) eqn:Ea; [|by left]. bool_prop.
    case_match; [by left|by right].
Qed.

Lemma posture_decision_spec permission askLayer userAllow :
  let d := posture_decision permission askLayer userAllow in
  settled d ∧ de_Approval d = ApprovalReusable
  ∧ (open_to_allow d → askLayer = "" ∨ askLayer = LayerPosture)
  ∧ (de_Action d = ActionAsk → de_Layer d = LayerPosture →
     askLayer = LayerPosture ∨ askLayer = "" ∧ permission = ActionAsk ∧ userAllow = false)
  ∧ (de_Action d = ActionAllow →
     askLayer = "" ∧ de_Layer d ≠ LayerAutoReview ∧ (permission = ActionAsk → userAllow = true)).
Proof.
  unfold posture_decision, settled, open_to_allow.
  destruct (String.eqb_spec askLayer "") as [->|Hn]; cbn; [|naive_solver].
  destruct (String.eqb_spec permission ActionAsk) as [->|]; cbn; [|naive_solver].
  destruct userAllow; cbn; naive_solver.
Qed.

(** Refusals pass through every stage, and no stage but the surface makes one. *)
Lemma surface_decision_spec r i eligible d :
  settled d →
  let d' := surface_decision r i eligible d in
  (surface_denies r i → refuses d')
  ∧ (¬ surface_denies r i → settled d'
     ∧ (d' = d ∨ de_Action d' = ActionAsk ∧ de_Layer d' = LayerSurface ∧ de_Approval d' = ApprovalReusable)).
Proof.
  intros Hd. destruct (tighten_spec r i d) as (_ & Hdeny & Hkeep).
  destruct (tighten_spec r i hypothetical_allow) as (_ & _ & Hhyp).
  unfold surface_decision. split; intros Hs.
  - specialize (Hdeny Hd Hs). case_bool_decide as E; [by left|].
    rewrite E in Hdeny. destruct Hd as [Hd|Hd]; by rewrite Hd in Hdeny.
  - case_bool_decide as E.
    { destruct (Hkeep Hd Hs) as [|(_ & Ha & Hp)]; [done|]. split; [by right|by right]. }
    destruct (eligible && _) eqn:Ee; [|by split; [|left]]. bool_prop.
    destruct Hhyp as [Hh|(_ & Ha & Hp)]; [by left|done| |by split; right].
    by rewrite Hh in H4.
Qed.

Definition demands_once (i : Invocation) : Prop :=
  in_Approval i = ApprovalOnceRequired ∨ host_execution i = true.

Lemma demands_once_dec i :
  reflect (demands_once i) ((in_Approval i == ApprovalOnceRequired) || host_execution i).
Proof. apply iff_reflect. by rewrite orb_true_iff, String.eqb_eq. Qed.

Lemma binding_refuses r i d : refuses d → bindingLayer r i d = d.
Proof. intros [E|E]; unfold bindingLayer; by rewrite E, ?orb_true_r. Qed.

(** The branches without a demand for one-time approval. *)
Lemma binding_unforced r i d (P : Prop) :
  settled d → P →
  let d' :=
    if negb (rt_ForceEditPlanApproval r) then d
    else if in_Journaled i && (de_Action d == ActionAllow) then
      set_approval (decision ActionAsk "edit_plan_required"
        "workspace writes require a fresh edit plan approval" LayerBinding) ApprovalFresh
    else if de_Action d == ActionAsk then set_approval d ApprovalFresh
    else d in
  P ∧ (rt_ForceEditPlanApproval r = false ∧ d' = d
       ∨ rt_ForceEditPlanApproval r = true
         ∧ (de_Action d' = ActionAsk ∧ de_Approval d' = ApprovalFresh
              ∧ (de_Layer d' = LayerBinding ∨ de_Layer d' = de_Layer d ∧ de_Action d = ActionAsk)
            ∨ in_Journaled i = false ∧ de_Action d = ActionAllow ∧ d' = d)).
Proof.
  intros Hd HP. split; [done|]. destruct (rt_ForceEditPlanApproval r); cbn; [right|by left].
  destruct Hd as [Ha|Ha], (in_Journaled i); rewrite ?Ha; cbn; auto 10.
Qed.

(** The branches of [bindingLayer] on a decision that does not refuse. *)
Lemma bindingLayer_cases r i d :
  settled d →
  let d' := bindingLayer r i d in
  (in_Stage i = StageEgress ∧ d' = d)
  ∨ (demands_once i ∧ (rt_Permission r ≠ PermissionBypass ∨ de_Action d = ActionAsk)
     ∧ de_Action d' = ActionAsk ∧ de_Approval d' = ApprovalFreshOnce ∧ de_Layer d' ≠ LayerPosture
     ∧ (de_Layer d' = LayerBinding ∨ de_Layer d' = de_Layer d ∧ de_Action d = ActionAsk))
  ∨ ((demands_once i → rt_Permission r = PermissionBypass ∧ de_Action d = ActionAllow)
     ∧ (rt_ForceEditPlanApproval r = false ∧ d' = d
        ∨ rt_ForceEditPlanApproval r = true
          ∧ (de_Action d' = ActionAsk ∧ de_Approval d' = ApprovalFresh
               ∧ (de_Layer d' = LayerBinding ∨ de_Layer d' = de_Layer d ∧ de_Action d = ActionAsk)
             ∨ in_Journaled i = false ∧ de_Action d = ActionAllow ∧ d' = d))).
Proof.
  intros Hd. unfold bindingLayer.
  destruct (String.eqb_spec (in_Stage i) StageEgress) as [Es|Es]; [by left|].
  cbn [orb]. assert ((de_Action d == ActionDeny) || (de_Action d == ActionHold) = false) as ->
    by (by destruct Hd as [->| ->]).
  right. destruct (_ && (_ || _)) eqn:Eg.
  - left. apply andb_true_iff in Eg as [Ho%(reflect_iff _ _ (demands_once_dec i)) Eg].
    split; [done|]. split.
    { rewrite orb_true_iff, negb_true_iff, String.eqb_eq, String.eqb_neq in Eg. done. }
    destruct (String.eqb_spec (de_Action d) ActionAsk) as [Ea|Ea]; cbn -[host_execution].
    + destruct (String.eqb_spec (de_Layer d) LayerPosture); [destruct (host_execution i); split_and!; try done; by left|].
      cbn. split_and!; auto.
    + destruct (host_execution i); split_and!; try done; by left.
  - right. refine (binding_unforced r i d _ Hd _).
    intros Ho. rewrite (proj1 (reflect_iff _ _ (demands_once_dec i)) Ho) in Eg. cbn in Eg. bool_prop.
    split; [done|by destruct Hd].
Qed.

(** The evidence a guardian allow rests on. *)
Definition guardian_evidence (r : Runtime) (i : Invocation) : Prop :=
  in_GuardianRegistered i = true ∧ in_Source i = SourceBuiltin ∧ in_Stage i = StageCall
  ∧ rt_Permission r = PermissionAuto ∧ rt_DisableAutoReview r = false
  ∧ CheckEligibility (guardian_facts i) = Ok tt
  ∧ ∃ input evidence, in_Guardian i = Some input ∧ gi_Enabled input = true
    ∧ gi_Evidence input = Some evidence ∧ candidate_current r i (gi_Candidate input) = true
    ∧ CheckEligibility (rv_Facts (gi_Candidate input)) = Ok tt
    ∧ ev_CandidateDigest evidence = candidate_digest (gi_Candidate input)
    ∧ vd_Authorization (ev_Assessment evidence) = AuthSupported
    ∧ vd_Recommendation (ev_Assessment evidence) = RecommendAllow.

Lemma guardianEligible_spec r i d :
  guardianEligible r i d = true →
  in_GuardianRegistered i = true ∧ in_Source i = SourceBuiltin ∧ in_Stage i = StageCall
  ∧ rt_Permission r = PermissionAuto ∧ rt_DisableAutoReview r = false
  ∧ CheckEligibility (guardian_facts i) = Ok tt
  ∧ de_Action d = ActionAsk ∧ de_Layer d = LayerPosture ∧ de_Approval d = ApprovalReusable.
Proof.
  unfold guardianEligible. destruct (_ || _) eqn:E; [done|]. bool_prop.
  destruct (_ != ActionAllow); [done|].
  intros ([] & Hc)%is_ok_Ok. by split_and!.
Qed.

Lemma applyGuardian_cases r i d :
  applyGuardian r i d = set_eligible d (guardianEligible r i d)
  ∨ guardian_evidence r i ∧ de_Action d = ActionAsk ∧ de_Layer d = LayerPosture
    ∧ de_Approval d = ApprovalReusable
    ∧ applyGuardian r i d = decision ActionAllow "guardian_allowed"
        "bounded operation has current Guardian evidence" LayerAutoReview.
Proof.
  unfold applyGuardian. cbn [de_GuardianEligible set_eligible de_Action].
  destruct (in_Guardian i) as [input|] eqn:Ei; [|by left].
  destruct (negb _ || negb _) eqn:E; [by left|]. bool_prop.
  apply guardianEligible_spec in H3 as (? & ? & ? & ? & ? & ? & ? & ? & ?).
  case_bool_decide as Ev; [|by left]. right. split; [|by split_and!].
  apply Evaluate_allow in Ev as (_ & _ & _ & _ & _ & Hen & _ & c & e & [= <-] & He & _ & Hc & Hd & Hj).
  apply judge_allow in Hj as (_ & Ha & Hr).
  unfold guardian_evidence. split_and!; try done. by exists input, e.
Qed.

Lemma auto_review_cases eligible d :
  auto_review eligible d = d
  ∨ eligible = true ∧ de_Action d = ActionAsk ∧ de_Layer d = LayerPosture
    ∧ de_Approval d = ApprovalReusable
    ∧ auto_review eligible d = decision ActionAllow "auto_review_allowed"
        "bounded medium-risk effect has an exact typed grant" LayerAutoReview.
Proof.
  unfold auto_review. destruct (_ && _) eqn:E; [|by left]. bool_prop. right. by split_and!.
Qed.

Lemma review_refuses r i eligible d :
  refuses d → let d' := applyGuardian r i (auto_review eligible (bindingLayer r i d)) in
  refuses d' ∧ de_Layer d' = de_Layer d.
Proof.
  intros Hd. rewrite binding_refuses by done. cbn.
  destruct (auto_review_cases eligible d) as [->|(_ & Ha & _)].
  2:{ unfold refuses in Hd; rewrite Ha in Hd; by destruct Hd. }
  destruct (applyGuardian_cases r i d) as [->|(_ & Ha & _)]; [by split|].
  unfold refuses in Hd; rewrite Ha in Hd; by destruct Hd.
Qed.

Lemma binding_settled r i d : settled d → settled (bindingLayer r i d).
Proof.
  intros Hd. destruct (bindingLayer_cases r i d Hd) as [(_ & ->)|[(_ & _ & Ha & _)|(_ & Hc)]]; [done|by right|].
  destruct Hc as [(_ & ->)|(_ & [(Ha & _)|(_ & _ & ->)])]; [done|by right|done].
Qed.

Lemma review_settled r i eligible d :
  settled d → settled (applyGuardian r i (auto_review eligible (bindingLayer r i d))).
Proof.
  intros Hd%(binding_settled r i).
  destruct (auto_review_cases eligible (bindingLayer r i d)) as [->|(_ & _ & _ & _ & ->)].
  - by destruct (applyGuardian_cases r i (bindingLayer r i d)) as [->|(_ & _ & _ & _ & ->)]; [|left].
  - set (a := decision _ _ _ _).
    destruct (applyGuardian_cases r i a) as [->|(_ & _ & _ & _ & ->)]; by left.
Qed.

(** No demand of the binding stands against an allow. *)
Definition unforced (r : Runtime) (i : Invocation) : Prop :=
  in_Stage i = StageEgress
  ∨ (demands_once i → rt_Permission r = PermissionBypass)
    ∧ (rt_ForceEditPlanApproval r = true → in_Journaled i = false).

Lemma binding_allow r i d :
  settled d → de_Action (bindingLayer r i d) = ActionAllow → bindingLayer r i d = d ∧ unforced r i.
Proof.
  intros Hd E. unfold unforced.
  destruct (bindingLayer_cases r i d Hd) as [(? & ->)|[(_ & _ & Ha & _)|(Ho & Hc)]]; [auto|by rewrite Ha in E|].
  destruct Hc as [(Hf & ->)|(_ & [(Ha & _)|(? & _ & ->)])]; [|by rewrite Ha in E|]; (split; [done|right]).
  - split; [by intros []%Ho|congruence].
  - split; [by intros []%Ho|done].
Qed.

Lemma binding_ask r i d :
  settled d → de_Action (bindingLayer r i d) = ActionAsk → de_Layer (bindingLayer r i d) = LayerPosture →
  de_Approval (bindingLayer r i d) = ApprovalReusable → bindingLayer r i d = d ∧ unforced r i.
Proof.
  intros Hd Ea El Ep. unfold unforced.
  destruct (bindingLayer_cases r i d Hd) as [(? & ->)|[(_ & _ & _ & Hp & _)|(Ho & Hc)]];
    [by split; [|left]|by rewrite Hp in Ep|].
  destruct Hc as [(Hf & E)|(_ & [(_ & Hp & _)|(_ & Ha & E)])];
    [|by rewrite Hp in Ep|by rewrite E, Ha in Ea].
  rewrite E in *. split; [done|right]. split; [by intros []%Ho|congruence].
Qed.

(** What the conditions of auto review say. *)
Definition bounded_review (r : Runtime) (i : Invocation) : Prop :=
  rt_DisableAutoReview r = false ∧ ef_Risk (in_Effect i) = RiskMedium
  ∧ (ef_Kind (in_Effect i) = AgentLifecycle
     ∨ ef_Kind (in_Effect i) = NetworkRead ∧ rt_Permission r = PermissionAuto
       ∧ fc_HostLocalTarget (in_Facets i) = false ∧ fc_LoopbackReach (in_Facets i) = false)
  ∧ (in_Stage i = StageEgress
     ∨ in_Approval i ≠ ApprovalOnceRequired
       ∧ (rt_ForceEditPlanApproval r = true → in_Journaled i = false))
  ∧ ∃ grant, GrantForInvocation i = Some grant.

Lemma autoReviewEligible_spec r i permission repositoryAsk managedAsk :
  autoReviewEligible r i permission repositoryAsk managedAsk = true →
  permission = ActionAsk ∧ repositoryAsk = false ∧ managedAsk = false ∧ bounded_review r i.
Proof.
  unfold autoReviewEligible, autoReviewConditions, bounded_review.
  cbn -[String.eqb GrantForInvocation]. intros E. bool_prop.
  repeat match goal with H : (_ || _) = true |- _ => apply orb_true_iff in H end.
  split_and!; try done.
  - destruct H6 as [?%String.eqb_eq|?%String.eqb_eq]; [by left|right].
    destruct H7 as [Hn|?%String.eqb_eq]; [bool_prop; congruence|].
    destruct H8 as [Hn|Hn]; bool_prop; [congruence|done].
  - destruct H9 as [?%String.eqb_eq|Hn]; [by left|right]. bool_prop.
    split; [done|]. intros Hf. by rewrite Hf in *.
Qed.

Lemma permission_stops p capability eff d : permissionDecision p capability eff = Err d → stops d.
Proof.
  unfold permissionDecision. destruct (_ && _ && _ && _); cbn -[deny]; [intros [= <-]; by apply deny_stops|].
  repeat case_match; intros E; try done; injection E as <-; by apply deny_stops.
Qed.

Lemma permission_Ok p capability eff a :
  permissionDecision p capability eff = Ok a →
  contains [PermissionSuggest; PermissionAuto; PermissionBypass; PermissionNever] p = true
  ∧ (p = PermissionNever → capability = CapabilityRead ∨ ef_Kind eff = ProcessReadOnly)
  ∧ (p ≠ PermissionNever → ef_Risk eff ≠ RiskCritical)
  ∧ (a = ActionAllow ∨ a = ActionAsk).
Proof.
  unfold permissionDecision. destruct (_ && _ && _ && _) eqn:Ek; cbn -[contains]; [done|].
  intros E. split.
  { apply bool_decide_eq_true. rewrite !andb_false_iff, !negb_false_iff, !String.eqb_eq in Ek. set_solver. }
  destruct (String.eqb_spec p PermissionNever) as [->|Hn].
  - destruct (_ || _) eqn:Er; [|done]. apply orb_true_iff in Er.
    rewrite !String.eqb_eq in Er. injection E as <-. split_and!; try done. by left.
  - split; [done|]. destruct (String.eqb_spec (ef_Risk eff) RiskCritical); [done|].
    split; [done|]. destruct (_ || _); injection E as <-; auto.
Qed.

(** How the posture reaches an allow. *)
Lemma decide_posture_allow r i askLayer repositoryAsk managedAsk userAllow :
  de_Action (decide_posture r i askLayer repositoryAsk managedAsk userAllow) = ActionAllow →
  askLayer ≠ LayerPosture →
  let automatic := de_Layer (decide_posture r i askLayer repositoryAsk managedAsk userAllow) = LayerAutoReview in
  ∃ permission, permissionDecision (rt_Permission r) (in_Capability i) (in_Effect i) = Ok permission
    ∧ ¬ surface_denies r i ∧ askLayer = "" ∧ unforced r i
    ∧ (¬ automatic ∧ (permission = ActionAsk → userAllow = true)
       ∨ automatic ∧ permission = ActionAsk ∧ userAllow = false
         ∧ (repositoryAsk = false ∧ managedAsk = false ∧ bounded_review r i ∨ guardian_evidence r i)).
Proof.
  unfold decide_posture. destruct (permissionDecision _ _ _) as [permission|d] eqn:Ep.
  2:{ intros E. destruct (permission_stops _ _ _ _ Ep) as [[Ha|Ha] _]; by rewrite Ha in E. }
  set (eligible := autoReviewEligible _ _ _ _ _).
  destruct (posture_decision_spec permission askLayer userAllow) as (Hs1 & _ & _ & Hask1 & Hallow1).
  set (d1 := posture_decision _ _ _) in *.
  destruct (surface_decision_spec r i eligible d1 Hs1) as [Hdeny Hkeep].
  set (d2 := surface_decision _ _ _ _) in *. intros E Hl. exists permission. split; [done|].
  assert (¬ surface_denies r i) as Hden.
  { intros [[Ha|Ha] _]%Hdeny%(review_refuses r i eligible); by rewrite Ha in E. }
  split; [done|]. destruct (Hkeep Hden) as [Hs2 H12]. clear Hdeny Hkeep.
  assert (de_Action (bindingLayer r i d2) = ActionAsk → de_Layer (bindingLayer r i d2) = LayerPosture →
          de_Approval (bindingLayer r i d2) = ApprovalReusable →
          unforced r i ∧ askLayer = "" ∧ permission = ActionAsk ∧ userAllow = false) as Hauto.
  { intros Ha3 Hl3 Hp3. pose proof (binding_ask _ _ _ Hs2 Ha3 Hl3 Hp3) as [E3 Hu]. rewrite E3 in Ha3, Hl3.
    destruct H12 as [->|(_ & Hl2 & _)]; [|by rewrite Hl2 in Hl3].
    by destruct (Hask1 Ha3 Hl3). }
  pose proof (auto_review_cases eligible (bindingLayer r i d2)) as H34.
  revert E. set (d4 := auto_review _ _) in *.
  destruct (applyGuardian_cases r i d4) as [->|(Hg & Ha4 & Hl4 & Hp4 & ->)]; cbn; intros E.
  - destruct H34 as [E4|(Hel & Ha3 & Hl3 & Hp3 & ->)].
    + rewrite E4 in E |- *. pose proof E as [E3 Hu]%binding_allow; [|done].
      rewrite E3 in E |- *. destruct H12 as [->|(Ha2 & _)]; [|by rewrite Ha2 in E].
      destruct (Hallow1 E) as (-> & Hl1 & Hua). split; [done|]. split; [done|]. by left.
    + destruct (Hauto Ha3 Hl3 Hp3) as (Hu & -> & -> & ->). split; [done|]. split; [done|]. right.
      apply autoReviewEligible_spec in Hel as (_ & -> & -> & Hb). split_and!; try done. by left.
  - destruct H34 as [E4|(_ & _ & _ & _ & E4)]; rewrite E4 in Ha4, Hl4, Hp4; [|done].
    destruct (Hauto Ha4 Hl4 Hp4) as (Hu & -> & -> & ->). split; [done|]. split; [done|]. right.
    split_and!; try done. by right.
Qed.

(** The posture refuses for its permission or its surface, and for nothing else. *)
Lemma decide_posture_refuses r i askLayer repositoryAsk managedAsk userAllow :
  surface_denies r i → refuses (decide_posture r i askLayer repositoryAsk managedAsk userAllow).
Proof.
  intros Hd. unfold decide_posture. destruct (permissionDecision _ _ _) as [permission|d] eqn:Ep.
  - apply review_refuses. apply surface_decision_spec; [apply posture_decision_spec|done].
  - by destruct (permission_stops _ _ _ _ Ep).
Qed.

Lemma decide_posture_settled r i askLayer repositoryAsk managedAsk userAllow permission :
  permissionDecision (rt_Permission r) (in_Capability i) (in_Effect i) = Ok permission →
  ¬ surface_denies r i → settled (decide_posture r i askLayer repositoryAsk managedAsk userAllow).
Proof.
  intros Ep Hd. unfold decide_posture. rewrite Ep.
  apply review_settled. apply surface_decision_spec; [apply posture_decision_spec|done].
Qed.

Lemma ask_layer_values managedAsk repositoryAsk userAsk :
  let l := ask_layer managedAsk repositoryAsk userAsk in
  l ≠ LayerPosture ∧ (l = "" ↔ managedAsk = false ∧ repositoryAsk = false ∧ userAsk = false).
Proof.
  destruct managedAsk, repositoryAsk, userAsk; (split; [done|split; [done|by intros (? & ? & ?)]]).
Qed.
End posture.

(** ** An allow *)

Section allow.
Context `{UrlSyntax, Unicode, BashSyntax, CandidateDigest}.

(** What the layers below the posture passed on. *)
Definition layers_pass (r : Runtime) (i : Invocation) : Prop :=
  inputLayer i = None ∧ controlPlaneLayer i = None
  ∧ (host_execution i = true → rt_DisableHostExecution r = false ∧ rt_Permission r ≠ PermissionNever)
  ∧ (∀ rule, rule ∈ rt_Constitution r → ruleMatches rule i = false)
  ∧ (∃ grant, grant ∈ rt_Grants r ∧ ruleMatches grant i = true)
  ∧ rt_Mode r = ModeAct ∧ planningDecision r (in_Assessment i) = None.

Lemma decide_allow r i :
  de_Action (decide r i) = ActionAllow →
  layers_pass r i ∧ none_stricter (rt_Grants r ++ rt_Repository r ++ rt_User r) i
  ∧ ¬ surface_denies r i ∧ unforced r i
  ∧ ∃ permission, permissionDecision (rt_Permission r) (in_Capability i) (in_Effect i) = Ok permission
    ∧ (de_Layer (decide r i) = LayerAutoReview →
       permission = ActionAsk ∧ (bounded_review r i ∨ guardian_evidence r i)).
Proof.
  intros E.
  destruct (decide_cases r i) as [[[Ha|Ha] _]|(managedAsk & repositoryAsk & userAsk & userAllow & D)];
    [by rewrite Ha in E..|].
  destruct D as (Hh & Hr & Hu & Hm & Hp & D). rewrite D in E |- *.
  apply hardLayer_Ok in Hh as (Hi & Hc & Hx & Hk & grant & Hg & Hgd & Hgh & ->).
  destruct (ask_layer_values (ru_Action grant == ActionAsk) repositoryAsk userAsk) as [Hl1 Hl2].
  apply decide_posture_allow in E as (permission & Ep & Hs & (Ea & -> & ->)%Hl2 & Huf & Hauto); [|done].
  pose proof Hg as (Hin & Hmatch & _)%strongestMatch_Some.
  unfold layers_pass. split_and!; try done.
  - by apply strongestMatch_None.
  - by exists grant.
  - repeat apply none_stricter_app; apply none_stricter_source; intros rule Er.
    + rewrite Hg in Er. injection Er as <-. apply String.eqb_neq in Ea. done.
    + apply repositoryLayer_Ok in Hr as [[Hn _]|(rule' & Hn & ? & ? & ? & Eb)]; rewrite Hn in Er; [done|].
      injection Er as <-. symmetry in Eb. apply String.eqb_neq in Eb. done.
    + apply userLayer_Ok in Hu as [(Hn & _)|(rule' & Hn & ? & ? & Eb & _)]; rewrite Hn in Er; [done|].
      injection Er as <-. symmetry in Eb. apply String.eqb_neq in Eb. done.
  - exists permission. split; [done|]. intros El.
    destruct Hauto as [[Hna _]|(_ & -> & _ & Hauto)]; [done|]. naive_solver.
Qed.

(** A demand for a fresh approval survives auto review and the guardian. *)
Lemma review_fresh r i eligible d :
  de_Action (bindingLayer r i d) = ActionAsk → de_Approval (bindingLayer r i d) ≠ ApprovalReusable →
  let d' := applyGuardian r i (auto_review eligible (bindingLayer r i d)) in
  de_Action d' = ActionAsk ∧ de_Approval d' = de_Approval (bindingLayer r i d).
Proof.
  intros Ha Hp. cbn. destruct (auto_review_cases eligible (bindingLayer r i d)) as [->|(_ & _ & _ & Hn & _)]; [|done].
  by destruct (applyGuardian_cases r i (bindingLayer r i d)) as [->|(_ & _ & _ & Hn & _)].
Qed.

(** Auto review and the guardian keep an allow. *)
Lemma review_allow r i eligible d :
  de_Action d = ActionAllow → de_Action (applyGuardian r i (auto_review eligible d)) = ActionAllow.
Proof.
  intros Ha. destruct (auto_review_cases eligible d) as [->|(_ & Hn & _)]; [|by rewrite Ha in Hn].
  by destruct (applyGuardian_cases r i d) as [->|(_ & Hn & _)]; [|rewrite Ha in Hn].
Qed.

(** What the binding demands of the decision of the posture at admission. *)
Definition demand_met (r : Runtime) (i : Invocation) (d : Decision) : Prop :=
  (demands_once i → rt_Permission r ≠ PermissionBypass →
     refuses d ∨ de_Action d = ActionAsk ∧ de_Approval d = ApprovalFreshOnce)
  ∧ (demands_once i → de_Action d = ActionAsk → de_Approval d ≠ ApprovalReusable)
  ∧ (rt_ForceEditPlanApproval r = true →
       refuses d ∨ de_Action d = ActionAsk ∧ de_Approval d ≠ ApprovalReusable
       ∨ de_Action d = ActionAllow ∧ in_Journaled i = false).

Lemma demand_met_refuses r i d : refuses d → demand_met r i d.
Proof.
  intros Hd. split; [by left|]. split; [|by left].
  intros _ Ha. unfold refuses in Hd. rewrite Ha in Hd. by destruct Hd.
Qed.

Lemma review_demand r i eligible d :
  in_Stage i = StageCall → settled d →
  demand_met r i (applyGuardian r i (auto_review eligible (bindingLayer r i d))).
Proof.
  intros Es Hd. unfold demand_met.
  destruct (bindingLayer_cases r i d Hd) as [(Ee & _)|[(_ & _ & Ha & Hp & _)|(Ho & Hc)]].
  - by rewrite Es in Ee.
  - destruct (review_fresh r i eligible d Ha) as [-> ->]; [by rewrite Hp|]. rewrite Hp.
    split; [by right|]. split; [done|]. intros _. by right; left.
  - destruct Hc as [(Hf & Ed)|(_ & [(Ha & Hp & _)|(Hj & Ha & Ed)])].
    + split; [by intros []%Ho|]. split; [|congruence].
      intros [_ Ha]%Ho Ha'. rewrite Ed, review_allow in Ha' by done. done.
    + destruct (review_fresh r i eligible d Ha) as [-> ->]; [by rewrite Hp|]. rewrite Hp.
      split; [by intros []%Ho|]. split; [done|]. intros _. by right; left.
    + rewrite Ed, review_allow by done. split; [by intros []%Ho|]. split; [done|].
      intros _. by do 2 right.
Qed.

Lemma decide_demand r i : in_Stage i = StageCall → demand_met r i (decide r i).
Proof.
  intros Es. destruct (decide_cases r i) as [[Hs _]|(m & b & u & ua & _ & _ & _ & _ & _ & ->)].
  { by apply demand_met_refuses. }
  unfold decide_posture. destruct (permissionDecision _ _ _) as [permission|d] eqn:Ep.
  2:{ apply demand_met_refuses. by destruct (permission_stops _ _ _ _ Ep). }
  set (eligible := autoReviewEligible _ _ _ _ _).
  pose proof (posture_decision_spec permission (ask_layer m b u) ua) as [Hs1 _].
  destruct (surface_decision_spec r i eligible _ Hs1) as [Hdeny Hkeep].
  destruct (String.eqb_spec (postureFor (rt_Granular r) (surface_of i)) SurfaceDeny) as [Hs|Hs].
  - apply demand_met_refuses. by destruct (review_refuses r i eligible _ (Hdeny Hs)).
  - apply review_demand; [done|]. by destruct (Hkeep Hs).
Qed.

(** Only an allow carries the layer of auto review. *)
Lemma bindingLayer_layer r i d :
  settled d → de_Layer d ≠ LayerAutoReview → de_Layer (bindingLayer r i d) ≠ LayerAutoReview.
Proof.
  intros Hd Hl.
  destruct (bindingLayer_cases r i d Hd) as [(_ & ->)|[(_ & _ & _ & _ & _ & [->|[-> _]])|(_ & Hc)]]; try done.
  destruct Hc as [(_ & ->)|(_ & [(_ & _ & [->|[-> _]])|(_ & _ & ->)])]; done.
Qed.

Lemma decide_automatic r i :
  de_Layer (decide r i) = LayerAutoReview → de_Action (decide r i) = ActionAllow.
Proof.
  destruct (decide_cases r i) as [[_ Hl]|(m & b & u & ua & _ & _ & _ & _ & _ & ->)]; [done|].
  unfold decide_posture. destruct (permissionDecision _ _ _) as [permission|d] eqn:Ep.
  2:{ intros El. by destruct (permission_stops _ _ _ _ Ep). }
  set (eligible := autoReviewEligible _ _ _ _ _). set (d1 := posture_decision _ _ _).
  assert (de_Layer d1 ≠ LayerAutoReview) as Hl1 by (by destruct m, b, u, ua; unfold d1, posture_decision; repeat case_match).
  pose proof (posture_decision_spec permission (ask_layer m b u) ua) as [Hs1 _].
  destruct (surface_decision_spec r i eligible d1 Hs1) as [Hdeny Hkeep].
  assert (de_Layer (surface_decision r i eligible d1) ≠ LayerAutoReview) as Hl2
    by (unfold surface_decision; by repeat case_match).
  set (d2 := surface_decision _ _ _ _) in *. intros El.
  destruct (String.eqb_spec (postureFor (rt_Granular r) (surface_of i)) SurfaceDeny) as [Hs|Hs].
  { destruct (review_refuses r i eligible d2 (Hdeny Hs)) as [_ El']. by rewrite El' in El. }
  destruct (Hkeep Hs) as [Hs2 _]. apply (bindingLayer_layer r i) in Hl2; [|done]. revert El.
  destruct (applyGuardian_cases r i (auto_review eligible (bindingLayer r i d2))) as [->|(_ & _ & _ & _ & ->)]; [|done].
  by destruct (auto_review_cases eligible (bindingLayer r i d2)) as [->|(_ & _ & _ & _ & ->)].
Qed.
End allow.

(** ** More rules *)

Definition refusing_action (a : Action) : Prop := a = ActionAsk ∨ a = ActionDeny ∨ a = ActionHold.

Lemma severity_bounds a : 0 ≤ severity a ≤ 2.
Proof. unfold severity. repeat case_match; lia. Qed.

Lemma severity_refuses d : refuses d → severity (de_Action d) = 2.
Proof. by intros [->| ->]. Qed.

Lemma severity_settled d : settled d → severity (de_Action d) ≤ 1.
Proof. by intros [->| ->]. Qed.

Section more_rules.
Context `{UrlSyntax, Unicode, BashSyntax, CandidateDigest}.

Lemma decide_layers_posture r i managedAsk repositoryAsk userAsk userAllow :
  hardLayer r i = Ok managedAsk → repositoryLayer r i = Ok repositoryAsk →
  userLayer r i = Ok (userAsk, userAllow) → rt_Mode r = ModeAct →
  planningDecision r (in_Assessment i) = None →
  decide r i = decide_posture r i (ask_layer managedAsk repositoryAsk userAsk)
                 repositoryAsk managedAsk userAllow.
Proof.
  intros Hh Hr Hu Hm Hp. unfold decide, decide_layers, validateMode.
  by rewrite Hh, Hr, Hu, Hm, Hp.
Qed.

Lemma repositoryLayer_mono r r' i b' :
  rt_Repository r ⊆ rt_Repository r' →
  (∀ rule, rule ∈ rt_Repository r → refusing_action (ru_Action rule)) →
  (∀ rule, rule ∈ rt_Repository r' → refusing_action (ru_Action rule)) →
  repositoryLayer r' i = Ok b' →
  ∃ b, repositoryLayer r i = Ok b ∧ (b = true → b' = true).
Proof.
  intros Hsub Ha Ha' Hr'. unfold repositoryLayer at 1.
  destruct (strongestMatch (rt_Repository r) i) as [rule|] eqn:E; [|by exists false].
  destruct (strongestMatch_mono _ _ _ _ Hsub E) as (rule' & E' & Hle).
  apply repositoryLayer_Ok in Hr' as [[Hn _]|(? & Hn & ? & ? & ? & ->)]; rewrite Hn in E'; [done|].
  injection E' as ->. pose proof Hn as (Hin' & _)%strongestMatch_Some.
  pose proof E as (Hin & _)%strongestMatch_Some.
  destruct (Ha' _ Hin') as [Ea'|[Ea'|Ea']]; [|done..]. rewrite Ea' in Hle |- *.
  destruct (Ha _ Hin) as [Ea|[Ea|Ea]]; rewrite Ea in Hle |- *; [by exists true|cbn in Hle; lia..].
Qed.

Lemma hardLayer_mono r con' i m :
  rt_Constitution r ⊆ con' → hardLayer (r |> set_rt_Constitution con') i = Ok m → hardLayer r i = Ok m.
Proof.
  intros Hsub. unfold hardLayer. cbn -[strongestMatch].
  destruct (strongestMatch (rt_Constitution r) i) as [rule|] eqn:E; [|by destruct (strongestMatch con' i); repeat case_match].
  destruct (strongestMatch_mono _ _ _ _ Hsub E) as (rule' & -> & _). by repeat case_match.
Qed.

(** A repository rule more, at the posture. *)
Lemma decide_posture_mono r i managedAsk b b' userAsk userAllow :
  (b = true → b' = true) →
  severity (de_Action (decide_posture r i (ask_layer managedAsk b userAsk) b managedAsk userAllow))
  ≤ severity (de_Action (decide_posture r i (ask_layer managedAsk b' userAsk) b' managedAsk userAllow)).
Proof.
  destruct b, b'; intros Hb; [lia|by specialize (Hb eq_refl)|clear Hb|lia].
  destruct (String.eqb_spec (postureFor (rt_Granular r) (surface_of i)) SurfaceDeny) as [Hs|Hs].
  { rewrite (severity_refuses (decide_posture r i (ask_layer managedAsk true userAsk) _ _ _));
      [|by apply decide_posture_refuses]. apply severity_bounds. }
  destruct (permissionDecision (rt_Permission r) (in_Capability i) (in_Effect i)) as [permission|d] eqn:Ep.
  2:{ unfold decide_posture. by rewrite Ep. }
  pose proof (decide_posture_settled r i (ask_layer managedAsk false userAsk) false managedAsk userAllow _ Ep Hs)
    as Hsev%severity_settled.
  destruct (decide_posture_settled r i (ask_layer managedAsk true userAsk) true managedAsk userAllow _ Ep Hs)
    as [Ha|Ha]; [|by rewrite Ha].
  apply decide_posture_allow in Ha as (_ & _ & _ & Ha & _); by destruct managedAsk, userAsk.
Qed.

(** More repository and constitution rules never make a decision less strict. *)
Lemma decide_mono r repo' con' i :
  rt_Repository r ⊆ repo' → rt_Constitution r ⊆ con' →
  (∀ rule, rule ∈ repo' → refusing_action (ru_Action rule)) →
  severity (de_Action (decide r i))
  ≤ severity (de_Action (decide (r |> set_rt_Repository repo' |> set_rt_Constitution con') i)).
Proof.
  intros Hr Hc Ha. set (r' := _ |> set_rt_Constitution con').
  destruct (decide_cases r' i) as [[Hs _]|(m & b' & u & ua & Hh & Hb & Hu & Hm & Hp & ->)].
  { rewrite (severity_refuses _ Hs). apply severity_bounds. }
  assert (hardLayer r i = Ok m) as Hh'.
  { apply (hardLayer_mono (r |> set_rt_Repository repo')) in Hh; [exact Hh|exact Hc]. }
  destruct (repositoryLayer_mono r r' i b') as (b & Hb' & Hle); [done|auto|done|done|].
  rewrite (decide_layers_posture r i m b u ua); [|done..].
  by apply (decide_posture_mono r i m b b' u ua).
Qed.

(** A validated source is validated rule by rule. *)
Lemma ValidateRules_Ok source rules :
  ValidateRules source rules = Ok tt → ∀ rule, rule ∈ rules → ∃ index, validate_rule source index rule = Ok tt.
Proof.
  unfold ValidateRules. intros [_ E]%then_Ok. apply run_Ok in E as [(n & E) _].
  revert E. generalize 0 at 1 as index. induction rules as [|x rules IH]; intros index; cbn.
  { intros _ rule []%elem_of_nil. }
  destruct (validate_rule source index x) as [[]|] eqn:Ex; cbn; [|done].
  intros E rule [->|Hr]%elem_of_cons; [by exists index|by eapply IH].
Qed.

(** Validated repository rules only restrict. *)
Lemma validated_repository rules :
  ValidateRules SourceRepository rules = Ok tt → ∀ rule, rule ∈ rules → refusing_action (ru_Action rule).
Proof.
  intros E rule Hr. destruct (ValidateRules_Ok _ _ E rule Hr) as (index & Ev).
  unfold validate_rule in Ev. apply then_Ok in Ev as [_ Ev]. apply then_Ok in Ev as [Ha Ev].
  apply then_Ok in Ev as [Hr' _]. apply require_Ok, bool_decide_eq_true in Ha.
  apply refuse_Ok, andb_false_iff in Hr' as [Hr'|Hr']; [done|]. apply String.eqb_neq in Hr'.
  unfold refusing_action. set_solver.
Qed.
End more_rules.
