(* ===== verification/PolicySafety.v ===== *)
(** Theorems about the policy decision ([Policy], [Constitution]): what an
    allow presupposes, that repository sources only tighten, when a fresh
    approval is demanded, and what may be allowed without a human. *)
From S2P Require Import Prelude.
From S2P Require Import GoStrings.
From S2P Require Import Sha256.
From S2P Require Import Json.
From S2P Require Import Paths.
From S2P Require Import PathPattern.
From S2P Require Import Netpolicy.
From S2P Require Import SecurityModel.
From S2P Require Import Commands.
From S2P Require Import Guardian.
From S2P Require Import Grants.
From S2P Require Import Policy.
From S2P Require Import Constitution.
From S2P Require Import PolicyFacts.

Section decisions.
Context `{UrlSyntax, Unicode, BashSyntax, CandidateDigest}.

(** C7: an allow is authorised by every layer. When [decide] allows an
    invocation, its input is complete and its writes stay clear of the control
    plane, no constitution rule matches it, a managed grant does, no matching
    rule of any source asks, denies or holds, the mode is act, planning is
    satisfied, the surface does not deny, host execution is not disabled, the
    permission is a known one that permits the effect (under never only reads,
    otherwise nothing of critical risk), and no one-time or edit-plan approval
    is outstanding. *)
Theorem allow_is_authorized r i :
  de_Action (decide r i) = ActionAllow →
  layers_pass r i
  ∧ none_stricter (rt_Grants r ++ rt_Repository r ++ rt_User r) i
  ∧ ¬ surface_denies r i
  ∧ unforced r i
  ∧ contains [PermissionSuggest; PermissionAuto; PermissionBypass; PermissionNever] (rt_Permission r) = true
  ∧ (rt_Permission r = PermissionNever →
       in_Capability i = CapabilityRead ∨ ef_Kind (in_Effect i) = ProcessReadOnly)
  ∧ (rt_Permission r ≠ PermissionNever → ef_Risk (in_Effect i) ≠ RiskCritical).
Proof.
  intros (Hl & Hn & Hs & Hu & permission & Ep & _)%decide_allow.
  apply permission_Ok in Ep as (? & ? & ? & _). by split_and!.
Qed.

(** C8: repository authority only tightens. Load a repository's rules and a
    constitution into a runtime, and then, instead, at least these rules: with
    the larger sources every invocation is decided at least as strictly, an
    allow being less strict than a question and a question than a refusal. The
    empty sources are the smallest, so no repository ever loosens anything. *)
Theorem repository_only_tightens r user repo repo' con con' r1 v1 r2 v2 s1 w1 s2 w2 i :
  ReloadSources user repo r = Ok (r1, v1) → SetConstitution con r1 = Ok (s1, w1) →
  ReloadSources user repo' r = Ok (r2, v2) → SetConstitution con' r2 = Ok (s2, w2) →
  repo ⊆ repo' → con ⊆ con' →
  severity (de_Action (decide s1 i)) ≤ severity (de_Action (decide s2 i)).
Proof.
  unfold ReloadSources, SetConstitution.
  intros [_ [_ E1]%then_Ok]%then_Ok [_ F1]%then_Ok [_ [Hv E2]%then_Ok]%then_Ok [_ F2]%then_Ok Hr Hc.
  injection E1 as <- _. injection F1 as <- _. injection E2 as <- _. injection F2 as <- _.
  pose proof (validated_repository _ Hv) as Ha.
  refine (decide_mono _ repo' con' i _ _ Ha); [exact Hr|exact Hc].
Qed.

(** C10: a demanded approval is asked for, afresh. At admission, a call of a tool
    that requires one-time approval or of a host command is never allowed unless
    the permission is Full Access: it is refused or asked with [fresh_once], and
    even under Full Access a question about it is not answered from the cache.
    While edit plans are enforced, no journaled call is allowed and no question
    is answered from the cache. *)
Theorem fresh_approval_is_demanded r i :
  in_Stage i = StageCall →
  let d := decide r i in
  (demands_once i → rt_Permission r ≠ PermissionBypass →
     refuses d ∨ de_Action d = ActionAsk ∧ de_Approval d = ApprovalFreshOnce)
  ∧ (demands_once i → de_Action d = ActionAsk → de_Approval d ≠ ApprovalReusable)
  ∧ (rt_ForceEditPlanApproval r = true →
       refuses d ∨ de_Action d = ActionAsk ∧ de_Approval d ≠ ApprovalReusable
       ∨ de_Action d = ActionAllow ∧ in_Journaled i = false).
Proof. intros Es. exact (decide_demand r i Es). Qed.

(** C11: what is allowed without a human is bounded. A decision of the
    auto-review layer is an allow of a call that the posture asked about and no
    rule asks about, denies or holds; auto review is enabled, nothing demands a
    fresh approval, and either the effect is of medium risk, an agent operation
    or, under auto, a read from a public host, with an exact typed grant, or
    the guardian's current evidence supports this very call, under auto, as an
    eligible sandboxed process mutation. *)
Theorem automatic_allow_is_bounded r i :
  de_Layer (decide r i) = LayerAutoReview →
  de_Action (decide r i) = ActionAllow
  ∧ permissionDecision (rt_Permission r) (in_Capability i) (in_Effect i) = Ok ActionAsk
  ∧ none_stricter (rt_Grants r ++ rt_Repository r ++ rt_User r) i
  ∧ unforced r i
  ∧ rt_DisableAutoReview r = false
  ∧ (bounded_review r i ∨ guardian_evidence r i).
Proof.
  intros El. pose proof (decide_automatic r i El) as Ha. split; [done|].
  apply decide_allow in Ha as (_ & Hn & _ & Hu & permission & Ep & Hauto).
  destruct (Hauto El) as [-> Hb]. split_and!; try done.
  destruct Hb as [(Hd & _)|(_ & _ & _ & _ & Hd & _)]; done.
Qed.
End decisions.

(** ** The constitution *)

Section constitution.
Context `{UrlSyntax, Unicode, BashSyntax, CandidateDigest}.

(** What a document protects: a tool it names, a write its globs cover, and any
    unrestricted process when it has a glob at all. *)
Definition names_tool (doc : ConstitutionDocument) (i : Invocation) : Prop :=
  ∃ name, name ∈ co_HoldTools doc ++ co_DenyTools doc ∧ trim_space name = in_Tool i ∧ in_Tool i ≠ "".

Definition writes_under (glob : string) (x : Resource) : Prop :=
  ∃ g p, normalizeGlob glob = Ok g ∧ IsPathPattern g = true ∧ CompilePathPattern g = Ok p
    ∧ Writes x = true ∧ rs_Path x ≠ ""
    ∧ (Match p (rs_Path x) = true
       ∨ rs_Tree x = true
         ∧ ∃ names, Forall plain names ∧ Match p (path_join (rs_Path x) (below names)) = true).

Definition protected_by (doc : ConstitutionDocument) (i : Invocation) : Prop :=
  names_tool doc i
  ∨ ∃ glob, glob ∈ co_DenyWriteGlobs doc ∧ blank glob = false
      ∧ (unrestricted i = true ∨ ∃ x, x ∈ in_Resources i ∧ writes_under glob x).

Lemma compile_globs source globs rules rules' :
  foldM (compile_glob source) globs rules = Ok rules' →
  rules ⊆ rules'
  ∧ ∀ glob, glob ∈ globs → blank glob = false →
      ∃ g, normalizeGlob glob = Ok g ∧ write_hold source g ∈ rules'.
Proof.
  revert rules. induction globs as [|x globs IH]; intros rules; cbn.
  { intros [= ->]. split; [done|]. by intros ? ?%elem_of_nil. }
  intros (rules1 & E1 & [Hsub Hall]%IH)%bind_Ok. unfold compile_glob in E1.
  destruct (blank x) eqn:Eb.
  { injection E1 as <-. split; [done|]. intros glob [->|Hg]%elem_of_cons Hb; [congruence|auto]. }
  destruct (normalizeGlob x) as [g|] eqn:Eg; [|done]. injection E1 as <-. split; [set_solver|].
  intros glob [->|Hg]%elem_of_cons Hb; [|auto]. exists g. split; [done|]. set_solver.
Qed.

Lemma elem_of_tool_rules name names action code :
  name ∈ names → trim_space name ≠ "" →
  mkRule (trim_space name) "*" "" false "" "" action code ∈ tool_rules names action code.
Proof.
  intros Hn Ht. unfold tool_rules. apply list_elem_of_omap. exists name. split; [done|].
  by destruct (String.eqb_spec (trim_space name) "").
Qed.

Lemma tool_rules_cover hold deny holdCode denyCode name :
  name ∈ hold ++ deny → trim_space name ≠ "" →
  ∃ action code, mkRule (trim_space name) "*" "" false "" "" action code
    ∈ tool_rules hold ActionHold holdCode ++ tool_rules deny ActionDeny denyCode.
Proof.
  intros [Hn|Hn]%elem_of_app Ht.
  - exists ActionHold, holdCode. apply elem_of_app. left. by apply elem_of_tool_rules.
  - exists ActionDeny, denyCode. apply elem_of_app. right. by apply elem_of_tool_rules.
Qed.

(** A constitution rule that matches refuses, whatever the other layers say. *)
Lemma constitution_refuses r i rule :
  rule ∈ rt_Constitution r → ruleMatches rule i = true → refuses (decide r i).
Proof.
  intros Hr Hm. destruct (decide_cases r i) as [[Hs _]|(m & b & u & ua & Hh & _)]; [done|].
  apply hardLayer_Ok in Hh as (_ & _ & _ & Hn & _).
  by rewrite (strongestMatch_None _ _ Hn _ Hr) in Hm.
Qed.

Lemma tool_rule_matches name action code i :
  name = in_Tool i → ruleMatches (mkRule name "*" "" false "" "" action code) i = true.
Proof.
  intros ->. unfold ruleMatches, scope_matches, command_matches, grant_matches.
  cbn -[in_Tool]. by rewrite String.eqb_refl, !andb_false_r.
Qed.

Lemma write_hold_unrestricted source g i :
  unrestricted i = true → ruleMatches (write_hold source g) i = true.
Proof.
  intros Hu. unfold ruleMatches, scope_matches, command_matches, grant_matches. cbn. rewrite Hu.
  by destruct (_ || _).
Qed.

Lemma write_hold_resource source glob g i x :
  normalizeGlob glob = Ok g → x ∈ in_Resources i → writes_under glob x →
  ruleMatches (write_hold source g) i = true.
Proof.
  intros Eg Hx (g' & p & Eg' & Hi & Ep & Hw & Hne & Hm). rewrite Eg in Eg'. injection Eg' as <-.
  unfold ruleMatches, scope_matches, command_matches, grant_matches. cbn.
  destruct ((g == "") || (g == "*")); [done|]. destruct (unrestricted i); [done|].
  rewrite !andb_true_r. apply existsb_exists. exists x. split; [by apply list_elem_of_In|].
  unfold resource_matches, resourceMatchesAuthority. cbn. rewrite Hw. cbn.
  apply String.eqb_neq in Hne. rewrite Hne. cbn. rewrite Hi, Ep.
  destruct Hm as [Hm|(-> & names & Hl & Hm)].
  - destruct (rs_Tree x); [by apply IntersectsTree_Match|done].
  - apply (IntersectsTree_below p (rs_Path x) names); [by apply String.eqb_neq|done..].
Qed.

(** C9: the constitution holds against everything. Compile a constitution
    document, put its rules, among any others, in force by [SetConstitution]:
    every non-blank glob of the document has become a rule, and whatever rules,
    grants, posture and approvals the runtime has, every call the document
    protects against is refused: a call of a held or denied tool, a write of a
    path that a glob spells or whose ancestor it spells, a tree write of a
    directory in which the glob spells some path, and, if there is any glob, an
    unrestricted process. *)
Theorem constitution_is_enforced doc source rules all r r' v :
  compileConstitution doc source = Ok rules → rules ⊆ all → SetConstitution all r = Ok (r', v) →
  (∀ glob, glob ∈ co_DenyWriteGlobs doc → blank glob = false →
     ∃ g, normalizeGlob glob = Ok g ∧ write_hold source g ∈ rt_Constitution r')
  ∧ ∀ i, protected_by doc i → refuses (decide r' i).
Proof.
  unfold compileConstitution, SetConstitution.
  intros (globs & [_ Hg]%compile_globs & [= <-])%bind_Ok Hsub [_ [= <- _]]%then_Ok.
  set (r' := bumpRevision _). assert (rt_Constitution r' = all) as Ec by done.
  assert (∀ glob, glob ∈ co_DenyWriteGlobs doc → blank glob = false →
    ∃ g, normalizeGlob glob = Ok g ∧ write_hold source g ∈ rt_Constitution r') as Hall.
  { rewrite Ec. intros glob Hin Hb. destruct (Hg glob Hin Hb) as (g & Eg & Hr). exists g. split; [done|]. set_solver. }
  split; [done|]. intros i [(name & Hn & Et & Hne)|(glob & Hin & Hb & Hx)].
  - destruct (tool_rules_cover (co_HoldTools doc) (co_DenyTools doc) ("constitution_hold:" +:+ source)
      ("constitution_deny:" +:+ source) name Hn) as (action & code & Hr); [congruence|].
    apply (constitution_refuses r' i (mkRule (trim_space name) "*" "" false "" "" action code)).
    + rewrite Ec. apply Hsub, elem_of_app. by right.
    + by apply tool_rule_matches.
  - destruct (Hall glob Hin Hb) as (g & Eg & Hr). apply (constitution_refuses r' i _ Hr).
    destruct Hx as [Hu|(x & Hx & Hw)]; [by apply write_hold_unrestricted|].
    by apply (write_hold_resource source glob g i x).
Qed.

Definition star_document : ConstitutionDocument := mkConstitution 1 ["*"] [] [] "".

Lemma star_compiles : compileConstitution star_document "user" = Ok [write_hold "user" "*"].
Proof. by vm_compute. Qed.

(** The glob [*] becomes the resource of every call: reads are held too. *)
Theorem star_glob_holds_reads rules r r' v i :
  compileConstitution star_document "user" = Ok rules → SetConstitution rules r = Ok (r', v) →
  refuses (decide r' i).
Proof.
  rewrite star_compiles. unfold SetConstitution. intros [= <-] [_ [= <- _]]%then_Ok.
  set (r' := bumpRevision _).
  apply (constitution_refuses r' i (write_hold "user" "*")); [by left|].
  unfold ruleMatches. by destruct (in_Tool i).
Qed.
End constitution.

(** ** Witnesses *)

Module Office.
#[export] Instance urls : UrlSyntax := λ s, has_prefix s "https://".
#[export] Instance case : Unicode := ascii_case.
#[export] Instance shell : BashSyntax := λ s,
  if s == dynamicWord then None else Some [CallExpr ((λ w, [Lit w]) <$> [s])].
#[export] Instance digests : CandidateDigest := λ c, sha256_hex (id_CallID (rv_Identity c)).

Definition assess (b : AssessmentBinding) (l : list Resource) : Assessment :=
  let input := mkInput b (mkDeclared false false false) l in
  default (mkAssessment input (facetsOf input) no_effect "" "") (Assess input).
Definition path (access : Access) (p : string) : Resource :=
  mkResource ClassPath access p false "" None None false "" "".
Definition host (name : string) : Resource :=
  mkResource ClassNetwork Read "" false "" (Some (mkTarget "https" name 443)) (Some ["GET"]) false "" "".

Definition call (tool : string) (b : AssessmentBinding) (l : list Resource) (approval : ApprovalMode) : Invocation :=
  mkInvocation "call-1" tool SourceBuiltin "{}" (assess b l) approval true "/w" StageCall false None.

(** An edit of a file, a read of a public host, and a deployment. *)
Definition edit : Invocation :=
  call "file_edit" (mkBinding CapabilityWrite Write true true true None false) [path Write "/w/src/a.go"] ApprovalDefault.
Definition fetch : Invocation :=
  call "web_fetch" (mkBinding CapabilityNetwork Read true true false None false) [host "example.com"] ApprovalDefault.
Definition deploy : Invocation :=
  call "deploy" (mkBinding CapabilityExternal Use true false false None false) [] ApprovalOnceRequired.

Definition grant : Rule := mkRule "*" "" "" false "" "" ActionAllow "managed".
Definition office : Runtime :=
  mkRuntime None 0 1 ModeAct PermissionAuto false PlanningOff false false false [grant] [] [] []
    (mkGranular "" "" "" "").
Definition hold : Rule := mkRule "*" "/w/src" "" true "" "" ActionHold "frozen".

Definition document : ConstitutionDocument := mkConstitution 1 ["/w/src/**"] [] ["deploy"] "".
End Office.

Import Office.

Lemma edit_allowed : de_Action (decide office edit) = ActionAllow.
Proof. vm_compute. reflexivity. Qed.

Theorem allow_is_authorized_witness :
  de_Action (decide office edit) = ActionAllow ∧ layers_pass office edit
  ∧ ef_Risk (in_Effect edit) ≠ RiskCritical.
Proof.
  destruct (allow_is_authorized office edit edit_allowed) as (Hl & _ & _ & _ & _ & _ & Hr).
  split; [exact edit_allowed|]. split; [exact Hl|]. apply Hr. vm_compute. discriminate.
Defined.

(** The office with a repository's rules and a constitution. *)
Definition loaded (repo con : list Rule) : res error (Runtime * Z * (Runtime * Z)) :=
  r1 ← ReloadSources [] repo office; r2 ← SetConstitution con r1.1; Ok (r1, r2).

Definition loaded_office (repo con : list Rule) : Runtime * Z * (Runtime * Z) :=
  match loaded repo con with Ok x => x | Err _ => ((office, 0), (office, 0)) end.

Lemma bare_loads :
  let '((r, v), (s, w)) := loaded_office [] [] in
  ReloadSources [] [] office = Ok (r, v) ∧ SetConstitution [] r = Ok (s, w) ∧ severity (de_Action (decide s edit)) = 0.
Proof. vm_compute. split_and!; reflexivity. Qed.

Lemma frozen_loads :
  let '((r, v), (s, w)) := loaded_office [hold] [hold] in
  ReloadSources [] [hold] office = Ok (r, v) ∧ SetConstitution [hold] r = Ok (s, w).
Proof. vm_compute. split; reflexivity. Qed.

Theorem repository_only_tightens_witness :
  severity (de_Action (decide (loaded_office [] []).2.1 edit)) = 0
  ∧ severity (de_Action (decide (loaded_office [] []).2.1 edit))
    ≤ severity (de_Action (decide (loaded_office [hold] [hold]).2.1 edit)).
Proof.
  pose proof bare_loads as H1. pose proof frozen_loads as H2.
  destruct (loaded_office [] []) as [[r1 v1] [s1 w1]], (loaded_office [hold] [hold]) as [[r2 v2] [s2 w2]].
  destruct H1 as (E1 & F1 & H1), H2 as (E2 & F2). split; [exact H1|].
  exact (repository_only_tightens office [] [] [hold] [] [hold] r1 v1 r2 v2 s1 w1 s2 w2 edit
    E1 F1 E2 F2 (list_subseteq_nil _) (list_subseteq_nil _)).
Defined.

Lemma deploy_demands : demands_once deploy ∧ rt_Permission office ≠ PermissionBypass.
Proof. split; [by left|by vm_compute]. Qed.

Theorem fresh_approval_is_demanded_witness :
  demands_once deploy
  ∧ (refuses (decide office deploy)
     ∨ de_Action (decide office deploy) = ActionAsk ∧ de_Approval (decide office deploy) = ApprovalFreshOnce).
Proof.
  destruct (fresh_approval_is_demanded office deploy eq_refl) as [H _].
  destruct deploy_demands as [Hd Hp]. split; [exact Hd|]. exact (H Hd Hp).
Defined.

Lemma fetch_automatic : de_Layer (decide office fetch) = LayerAutoReview.
Proof. vm_compute. reflexivity. Qed.

Theorem automatic_allow_is_bounded_witness :
  de_Layer (decide office fetch) = LayerAutoReview ∧ de_Action (decide office fetch) = ActionAllow
  ∧ (bounded_review office fetch ∨ guardian_evidence office fetch).
Proof.
  destruct (automatic_allow_is_bounded office fetch fetch_automatic) as (Ha & _ & _ & _ & _ & Hb).
  split; [exact fetch_automatic|]. split; [exact Ha|exact Hb].
Defined.

Definition document_rules : list Rule :=
  [write_hold "repo" "/w/src"; mkRule "deploy" "*" "" false "" "" ActionDeny "constitution_deny:repo"].

Lemma document_compiles : compileConstitution Office.document "repo" = Ok document_rules.
Proof. vm_compute. reflexivity. Qed.

Definition constituted : Runtime * Z :=
  match SetConstitution document_rules office with Ok x => x | Err _ => (office, 0) end.

Lemma document_set : SetConstitution document_rules office = Ok (constituted.1, constituted.2).
Proof. vm_compute. reflexivity. Qed.

Lemma edit_protected : protected_by Office.document edit.
Proof.
  right. exists "/w/src/**". split; [by left|]. split; [by vm_compute|]. right.
  exists (Office.path Write "/w/src/a.go"). split; [by left|].
  exists "/w/src", (mkPathPattern true ["w"; "src"]). split_and!; try (vm_compute; reflexivity).
  - vm_compute. discriminate.
  - left. vm_compute. reflexivity.
Qed.

Theorem constitution_is_enforced_witness :
  de_Action (decide office edit) = ActionAllow ∧ refuses (decide constituted.1 edit).
Proof.
  split; [exact edit_allowed|].
  destruct (constitution_is_enforced Office.document "repo" document_rules document_rules office
    constituted.1 constituted.2 document_compiles (reflexivity _) document_set) as [_ H].
  exact (H edit edit_protected).
Defined.
