(* ===== verification/TextDiff.v ===== *)
(** Line diffs, [internal/common/textdiff]: the one diff implementation shared
    by previews, receipts and hosts. [diffLines] builds an edit script from a
    longest-common-subsequence table after trimming the common ends, [group]
    cuts it into hunks, [Unified] prints them.

    [Edits] says what an edit script is. The text a diff prints is read back by
    [patch], a reader of the unified format that shares nothing with the writer
    but the notion of a line; the theorems are in [TextDiffLaws]. *)
From S2P Require Import Prelude.
From S2P Require Import GoStrings.

(** ** Data *)

Definition ErrBinary : string := "binary content cannot be diffed".
Definition DefaultContext : Z := 3.
Definition maxCells : Z := Z.shiftl 4 20.

(** One side of a diff; [Missing] is an absent file. *)
Record Content := mkContent { Data : string; Missing : bool }.
Definition Text (data : string) : Content := mkContent data false.
Definition Absent : Content := mkContent "" true.

Record Stats := mkStats { Added : Z; Removed : Z }.

Inductive opKind := opEqual | opRemove | opAdd.
#[export] Instance opKind_eq_dec : EqDecision opKind.
Proof. solve_decision. Defined.
Definition opByte (k : opKind) : ascii :=
  match k with opEqual => " " | opRemove => "-" | opAdd => "+" end%char.
Definition is_equal (k : opKind) : bool := bool_decide (k = opEqual).

(** One line of the edit script: 0-based indices of the line in either side,
    and -1 on the side where it is absent. *)
Record op := mkOp { kind : opKind; before : Z; after : Z }.

(** ** Lines *)

Definition line_feed : ascii := ascii_of_nat 10.
Definition newlines : string := String line_feed "".

(** The text up to and with the first newline, and the rest; [None] without one. *)
Fixpoint cut_line (text : string) : option (string * string) :=
  match text with
  | EmptyString => None
  | String a rest =>
      if Ascii.eqb a line_feed then Some (newlines, rest)
      else match cut_line rest with
           | Some (line, rest) => Some (String a line, rest)
           | None => None
           end
  end.

(** The loop of [splitLines]; a turn takes at least one byte of the text. *)
Fixpoint split_loop (fuel : nat) (text : string) : list string :=
  match fuel with
  | O => []
  | S fuel =>
      if text == "" then [] else
      match cut_line text with
      | None => [text]
      | Some (line, rest) => line :: split_loop fuel rest
      end
  end.
Definition splitLines (data : string) : list string :=
  split_loop (String.length data) data.

(** ** Statistics *)

Definition count_op (stats : Stats) (item : op) : Stats :=
  match kind item with
  | opAdd => mkStats (Added stats + 1) (Removed stats)
  | opRemove => mkStats (Added stats) (Removed stats + 1)
  | opEqual => stats
  end.
Definition countStats (script : list op) : Stats :=
  foldl count_op (mkStats 0 0) script.

(** ** The edit script *)

(** The number of leading elements on which two lists agree: the loops of
    [diffLines] count them from the front, then from the back. *)
Fixpoint common (l k : list string) : nat :=
  match l, k with
  | x :: l, y :: k => if x == y then S (common l k) else O
  | _, _ => O
  end.

Definition removeOp (i : nat) : op := mkOp opRemove (Z.of_nat i) (-1).
Definition addOp (j : nat) : op := mkOp opAdd (-1) (Z.of_nat j).
Definition equalOp (i j : nat) : op := mkOp opEqual (Z.of_nat i) (Z.of_nat j).

Definition removals (offset n : nat) : list op := removeOp <$> seq offset n.
Definition additions (offset n : nat) : list op := addOp <$> seq offset n.

Definition replaceAll (befores afters : list string) (offset : nat) : list op :=
  removals offset (length befores) ++ additions offset (length afters).

(** One row of the table, from its last column to its first; [below] is the
    row of the next line. *)
Fixpoint fill_row (line : string) (afters : list string) (below : list Z) : list Z :=
  match afters with
  | [] => [0]
  | a :: afters =>
      let rest := fill_row line afters (tail below) in
      (if line == a then hd 0 (tail below) + 1
       else Z.max (hd 0 below) (hd 0 rest)) :: rest
  end.

(** The table, a list of rows of [len(after)+1] columns; the last row is zero. *)
Definition lcs_table (befores afters : list string) : list (list Z) :=
  foldr (λ line rows, fill_row line afters (hd [] rows) :: rows)
    [replicate (S (length afters)) 0] befores.
Definition cell (table : list (list Z)) (row column : nat) : Z :=
  nth column (nth row table []) 0.

(** The walk over the table; each step leaves a line of either side behind. *)
Fixpoint lcs_walk (fuel : nat) (table : list (list Z)) (befores afters : list string)
    (offset row column : nat) : list op :=
  match fuel with
  | O => []
  | S fuel =>
      match befores !! row, afters !! column with
      | Some x, Some y =>
          if x == y then
            equalOp (offset + row) (offset + column)
              :: lcs_walk fuel table befores afters offset (S row) (S column)
          else if cell table row (S column) <=? cell table (S row) column then
            removeOp (offset + row) :: lcs_walk fuel table befores afters offset (S row) column
          else
            addOp (offset + column) :: lcs_walk fuel table befores afters offset row (S column)
      | _, _ =>
          removals (offset + row) (length befores - row)
            ++ additions (offset + column) (length afters - column)
      end
  end.
Definition lcsScript (befores afters : list string) (offset : nat) : list op :=
  lcs_walk (S (length befores + length afters)) (lcs_table befores afters)
    befores afters offset 0 0.

Definition cells (befores afters : list string) : Z :=
  (Z.of_nat (length befores) + 1) * (Z.of_nat (length afters) + 1).
(** The product is computed in 64 bits. *)
Definition int64 (z : Z) : Z := (z + 2 ^ 63) mod 2 ^ 64 - 2 ^ 63.
Definition middle (befores afters : list string) (offset : nat) : list op :=
  match befores, afters with
  | [], [] => []
  | [], _ | _, [] => replaceAll befores afters offset
  | _, _ =>
      if maxCells <? int64 (cells befores afters) then replaceAll befores afters offset
      else lcsScript befores afters offset
  end.

Definition diffLines (befores afters : list string) : list op :=
  let prefix := common befores afters in
  let suffix := common (rev (drop prefix befores)) (rev (drop prefix afters)) in
  let nb := (length befores - suffix)%nat in
  let na := (length afters - suffix)%nat in
  ((λ i, equalOp i i) <$> seq 0 prefix)
    ++ middle (drop prefix (take nb befores)) (drop prefix (take na afters)) prefix
    ++ ((λ i, equalOp (nb + i) (na + i)) <$> seq 0 suffix).

(** ** Hunks *)

(** The first position from [run] on that holds a change, or the end. *)
Fixpoint skip_equal (script : list op) : nat :=
  match script with
  | item :: script => if is_equal (kind item) then S (skip_equal script) else O
  | [] => O
  end.

(** The inner loop of [group]: where the hunk that reaches [end] ends. *)
Fixpoint hunk_end (fuel : nat) (script : list op) (contextLines : Z) (end_ : nat) : nat :=
  match fuel with
  | O => end_
  | S fuel =>
      match script !! end_ with
      | None => end_
      | Some item =>
          if negb (is_equal (kind item)) then hunk_end fuel script contextLines (S end_) else
          let run := (end_ + skip_equal (drop end_ script))%nat in
          if (2 * contextLines <? Z.of_nat run - Z.of_nat end_)
             || (run =? length script)%nat
          then Z.to_nat (Z.min (Z.of_nat end_ + contextLines) (Z.of_nat (length script)))
          else hunk_end fuel script contextLines run
      end
  end.

(** [script[i:j]]. *)
Definition slice {A} (i j : nat) (l : list A) : list A := drop i (take j l).

(** The outer loop, from [index] on. *)
Fixpoint group_loop (fuel : nat) (script : list op) (contextLines : Z) (index : nat)
    : list (list op) :=
  match fuel with
  | O => []
  | S fuel =>
      match script !! index with
      | None => []
      | Some item =>
          if is_equal (kind item) then group_loop fuel script contextLines (S index) else
          let start := Z.to_nat (Z.max (Z.of_nat index - contextLines) 0) in
          let end_ := hunk_end (S (length script)) script contextLines index in
          slice start end_ script :: group_loop fuel script contextLines end_
      end
  end.
Definition group (script : list op) (contextLines : Z) : list (list op) :=
  group_loop (S (length script)) script contextLines 0.

(** ** Printing *)

Definition formatRange (start count : Z) : string :=
  if count =? 0 then itoa start +:+ ",0"
  else if count =? 1 then itoa start
  else itoa start +:+ "," +:+ itoa count.

(** First line number and number of lines of one side of a hunk. *)
Definition extent (side : op → Z) (ops : list op) : Z * Z :=
  foldl (λ '(start, count) item,
    if 0 <=? side item then
      (if count =? 0 then side item + 1 else start, count + 1)
    else (start, count)) (0, 0) ops.

(** [strings.CutSuffix(line, newline)]. *)
Fixpoint strip_newline (line : string) : option string :=
  match line with
  | EmptyString => None
  | String a EmptyString => if Ascii.eqb a line_feed then Some "" else None
  | String a rest => String a <$> strip_newline rest
  end.

Definition no_newline_mark : string := "\ No newline at end of file" +:+ newlines.

Definition writeLine (k : opKind) (line : string) : string :=
  String (opByte k)
    match strip_newline line with
    | Some text => text +:+ newlines
    | None => line +:+ newlines +:+ no_newline_mark
    end.

(** [lines[i]]; the indices of a script are in range. *)
Definition line_at (lines : list string) (i : Z) : string :=
  default "" (lines !! Z.to_nat i).

Definition item_line (befores afters : list string) (item : op) : string :=
  match kind item with
  | opAdd => line_at afters (after item)
  | _ => line_at befores (before item)
  end.

Definition writeHunk (ops : list op) (befores afters : list string) : string :=
  let '(beforeStart, beforeCount) := extent before ops in
  let '(afterStart, afterCount) := extent after ops in
  "@@ -" +:+ formatRange beforeStart beforeCount +:+ " +"
    +:+ formatRange afterStart afterCount +:+ " @@" +:+ newlines
    +:+ join "" ((λ item, writeLine (kind item) (item_line befores afters item)) <$> ops).

Definition side (prefix path : string) (missing : bool) : string :=
  if missing then "/dev/null" else prefix +:+ path.

(** ** The package's functions *)

Definition has_nul (s : string) : bool :=
  existsb (λ a, Ascii.eqb a zero) (String.list_ascii_of_string s).
Definition rejectBinary (b a : Content) : res string unit :=
  iterM (λ content, refuse (negb (Missing content) && has_nul (Data content)) ErrBinary) [b; a].

Definition Unified (path : string) (b a : Content) (contextLines : Z)
    : res string (string * Stats) :=
  _ ← rejectBinary b a;
  let contextLines := if contextLines <? 0 then DefaultContext else contextLines in
  let beforeLines := splitLines (Data b) in
  let afterLines := splitLines (Data a) in
  let script := diffLines beforeLines afterLines in
  let stats := countStats script in
  if (Added stats =? 0) && (Removed stats =? 0) then Ok ("", stats) else
  Ok ("--- " +:+ side "a/" path (Missing b) +:+ newlines
      +:+ "+++ " +:+ side "b/" path (Missing a) +:+ newlines
      +:+ join "" ((λ current, writeHunk current beforeLines afterLines)
                     <$> group script contextLines), stats).

Definition Count (b a : Content) : res string Stats :=
  _ ← rejectBinary b a;
  Ok (countStats (diffLines (splitLines (Data b)) (splitLines (Data a)))).

(** ** Edit scripts *)

(** [Edits i j script l k]: from line [i] of one side and line [j] of the other
    on, [script] turns the lines [l] into the lines [k]. *)
Inductive Edits : nat → nat → list op → list string → list string → Prop :=
  | edits_nil i j : Edits i j [] [] []
  | edits_equal i j s x l k :
      Edits (S i) (S j) s l k → Edits i j (equalOp i j :: s) (x :: l) (x :: k)
  | edits_remove i j s x l k :
      Edits (S i) j s l k → Edits i j (removeOp i :: s) (x :: l) k
  | edits_add i j s x l k :
      Edits i (S j) s l k → Edits i j (addOp j :: s) l (x :: k).

(** The number of lines a script changes. *)
Definition changes (script : list op) : Z :=
  Added (countStats script) + Removed (countStats script).

(** ** Reading a unified diff *)

(** A number and what follows it. *)
Fixpoint read_digits (s : string) (acc : Z) : Z * string :=
  match s with
  | String a rest =>
      if (48 <=? code a) && (code a <=? 57) then read_digits rest (10 * acc + (code a - 48))
      else (acc, s)
  | EmptyString => (acc, s)
  end.
Definition read_number (s : string) : Z * string := read_digits s 0.

(** [12,3] or [12]: the lines of one side. *)
Definition read_range (s : string) : (Z * Z) * string :=
  let '(start, rest) := read_number s in
  match rest with
  | String a rest' =>
      if Ascii.eqb a "," then
        let '(count, rest) := read_number rest' in ((start, count), rest)
      else ((start, 1), rest)
  | EmptyString => ((start, 1), rest)
  end.

Fixpoint strip_prefix (p s : string) : option string :=
  match p, s with
  | EmptyString, _ => Some s
  | String a p, String b s => if Ascii.eqb a b then strip_prefix p s else None
  | _, _ => None
  end.

(** [@@ -12,3 +12,4 @@]. *)
Definition read_header (line : string) : option ((Z * Z) * (Z * Z)) :=
  rest ← strip_prefix "@@ -" line;
  let '(old, rest) := read_range rest in
  rest ← strip_prefix " +" rest;
  let '(new, rest) := read_range rest in
  if rest == " @@" +:+ newlines then Some (old, new) else None.

(** The lines a line of a body stands for on either side. *)
Definition old_weight (k : opKind) : Z := match k with opAdd => 0 | _ => 1 end.
Definition new_weight (k : opKind) : Z := match k with opRemove => 0 | _ => 1 end.

(** The body of a hunk: as many lines as the header announces for either side,
    each with the mark that takes its newline off, if that follows. *)
Fixpoint read_body (old new : Z) (text : list string)
    : option (list (opKind * string) * list string) :=
  if (old =? 0) && (new =? 0) then Some ([], text) else
  match text with
  | [] => None
  | String c line :: rest =>
      let k := if Ascii.eqb c "+" then Some opAdd else
               if Ascii.eqb c "-" then Some opRemove else
               if Ascii.eqb c " " then Some opEqual else None in
      match k with
      | None => None
      | Some k =>
          let old := old - old_weight k in
          let new := new - new_weight k in
          match rest with
          | next :: rest' =>
              if next == no_newline_mark then
                match strip_newline line, read_body old new rest' with
                | Some line, Some (body, text) => Some ((k, line) :: body, text)
                | _, _ => None
                end
              else match read_body old new rest with
                   | Some (body, text) => Some ((k, line) :: body, text)
                   | None => None
                   end
          | [] => if (old =? 0) && (new =? 0) then Some ([(k, line)], []) else None
          end
      end
  | _ => None
  end.

(** The lines a body expects to find, and those it leaves. *)
Definition old_side (body : list (opKind * string)) : list string :=
  omap (λ '(k, line), match k with opAdd => None | _ => Some line end) body.
Definition new_side (body : list (opKind * string)) : list string :=
  omap (λ '(k, line), match k with opRemove => None | _ => Some line end) body.

(** Where a side of a hunk starts: a side without lines goes after the line its
    range names, any other starts at that line. *)
Definition range_start '((start, count) : Z * Z) : Z :=
  if count =? 0 then start else start - 1.

(** Applies the hunks of [text] to the lines [rest] that follow the first [pos]
    of a file, when [npos] lines are already written. *)
Fixpoint apply_hunks (fuel : nat) (text : list string) (pos npos : Z) (rest : list string)
    : option (list string) :=
  match fuel with
  | O => None
  | S fuel =>
      match text with
      | [] => Some rest
      | header :: text =>
          '(old, new) ← read_header header;
          '(body, text) ← read_body old.2 new.2 text;
          let gap := range_start old - pos in
          if (gap <? 0) || (Z.of_nat (length rest) <? gap)
             || negb (range_start new =? npos + gap) then None else
          let keep := Z.to_nat gap in
          let expected := old_side body in
          if bool_decide (take (length expected) (drop keep rest) = expected) then
            done ← apply_hunks fuel text (pos + gap + old.2) (npos + gap + new.2)
                     (drop (length expected) (drop keep rest));
            Some (take keep rest ++ new_side body ++ done)
          else None
      end
  end.

(** Applies a unified diff to the content of a file: the two lines that name the
    sides, then the hunks. *)
Definition patch (diff : string) (data : string) : option string :=
  match splitLines diff with
  | [] => Some data
  | _ :: _ :: hunks =>
      join "" <$> apply_hunks (S (length hunks)) hunks 0 0 (splitLines data)
  | _ => None
  end.

(** ** The package's tests *)

Definition lines (l : list string) : string := join "" ((λ x, x +:+ newlines) <$> l).
Example one_hunk_with_context :
  Unified "f.txt" (Text (lines ["one"; "two"; "three"; "four"; "five"]))
    (Text (lines ["one"; "two"; "THREE"; "four"; "five"])) 1
  = Ok (lines ["--- a/f.txt"; "+++ b/f.txt"; "@@ -2,3 +2,3 @@"; " two"; "-three"; "+THREE"; " four"],
        mkStats 1 1).
Proof. vm_compute. reflexivity. Qed.
Example create_and_delete :
  Unified "new.txt" Absent (Text (lines ["hello"])) DefaultContext
  = Ok (lines ["--- /dev/null"; "+++ b/new.txt"; "@@ -0,0 +1 @@"; "+hello"], mkStats 1 0) ∧
  Unified "old.txt" (Text (lines ["hello"; "bye"])) Absent DefaultContext
  = Ok (lines ["--- a/old.txt"; "+++ /dev/null"; "@@ -1,2 +0,0 @@"; "-hello"; "-bye"], mkStats 0 2).
Proof. vm_compute. done. Qed.
Example missing_final_newline :
  Unified "f.txt" (Text (lines ["a"] +:+ "b")) (Text (lines ["a"; "b"])) DefaultContext
  = Ok (lines ["--- a/f.txt"; "+++ b/f.txt"; "@@ -1,2 +1,2 @@"; " a"; "-b";
               "\ No newline at end of file"; "+b"], mkStats 1 1).
Proof. vm_compute. done. Qed.
