(* ===== verification/TextDiffLaws.v ===== *)
(** The theorems about line diffs: the script of [diffLines] is an edit script, no
    edit script changes fewer lines, and the text [Unified] prints patches one side
    into the other. *)
From S2P Require Import Prelude.
From S2P Require Import GoStrings.
From S2P Require Import TextDiff.

(** ** Edit scripts *)

#[local] Hint Constructors Edits : core.

Lemma edits_app i j s1 l1 k1 s2 l2 k2 :
  Edits i j s1 l1 k1 → Edits (i + length l1) (j + length k1) s2 l2 k2 →
  Edits i j (s1 ++ s2) (l1 ++ l2) (k1 ++ k2).
Proof.
  induction 1; cbn; rewrite ?Nat.add_0_r, ?Nat.add_succ_r; intros H2; auto.
Qed.

Lemma edits_split i j s1 s2 l k :
  Edits i j (s1 ++ s2) l k →
  ∃ l1 l2 k1 k2, l = l1 ++ l2 ∧ k = k1 ++ k2 ∧ Edits i j s1 l1 k1 ∧
    Edits (i + length l1) (j + length k1) s2 l2 k2.
Proof.
  revert i j l k. induction s1 as [|o s1 IH]; cbn; intros i j l k H.
  - exists [], l, [], k. cbn. rewrite !Nat.add_0_r. auto.
  - inversion H as [|? ? ? x l' k' H'|? ? ? x l' k' H'|? ? ? x l' k' H']; subst;
      apply IH in H' as (l1 & l2 & k1 & k2 & -> & -> & H1 & H2).
    + exists (x :: l1), l2, (x :: k1), k2. cbn. rewrite !Nat.add_succ_r. auto.
    + exists (x :: l1), l2, k1, k2. cbn. rewrite !Nat.add_succ_r. auto.
    + exists l1, l2, (x :: k1), k2. cbn. rewrite !Nat.add_succ_r. auto.
Qed.

Lemma edits_removals i j l : Edits i j (removals i (length l)) l [].
Proof. revert i. induction l; cbn; intros i; [auto|]. apply edits_remove, IHl. Qed.

Lemma edits_additions i j k : Edits i j (additions j (length k)) [] k.
Proof. revert j. induction k; cbn; intros j; [auto|]. apply edits_add, IHk. Qed.

Lemma edits_replace i j l k :
  Edits i j (removals i (length l) ++ additions j (length k)) l k.
Proof.
  rewrite <-(app_nil_r l) at 2. change k with ([] ++ k) at 2.
  eapply edits_app; [apply edits_removals|]. cbn. rewrite Nat.add_0_r. apply edits_additions.
Qed.

(** A shift of unchanged lines. *)
Lemma edits_equals i j l :
  Edits i j ((λ n, equalOp (i + n) (j + n)) <$> seq 0 (length l)) l l.
Proof.
  revert i j. induction l as [|x l IH]; intros i j; cbn; [auto|].
  rewrite !Nat.add_0_r. apply edits_equal. rewrite <-seq_shift.
  specialize (IH (S i) (S j)).
  erewrite <-list_fmap_compose, list_fmap_ext; [exact IH|].
  intros ? n _. cbn. by rewrite !Nat.add_succ_r.
Qed.

(** ** Longest common subsequences *)

Section best.
Context {A : Type}.
Implicit Types l k c : list A.

(** [n] is the length of a longest common subsequence. *)
Definition best l k (n : nat) : Prop :=
  (∃ c, sublist c l ∧ sublist c k ∧ length c = n) ∧
  ∀ c, sublist c l → sublist c k → (length c ≤ n)%nat.

Lemma best_fun l k n m : best l k n → best l k m → n = m.
Proof.
  intros [(c & Hcl & Hck & <-) Hc] [(d & Hdl & Hdk & <-) Hd].
  apply Nat.le_antisymm; auto.
Qed.

Lemma best_comm l k n : best l k n → best k l n.
Proof. intros [(c & Hl & Hk & Hn) Hb]. split; eauto. Qed.

Lemma best_nil_l k : best [] k 0.
Proof.
  split; [exists []; auto using sublist_nil_l|].
  intros c H _. apply sublist_nil_r in H as ->. done.
Qed.

Lemma best_nil_r l : best l [] 0.
Proof. apply best_comm, best_nil_l. Qed.

Lemma sublist_tail c x l : sublist c (x :: l) → sublist (tail c) l.
Proof.
  inversion 1; subst; cbn; [done|]. etrans; [|done].
  destruct c; [apply sublist_nil_l|]. by apply sublist_cons.
Qed.

Lemma best_cons_eq x l k n : best l k n → best (x :: l) (x :: k) (S n).
Proof.
  intros [(c & H1 & H2 & Hn) H]. split.
  - exists (x :: c). cbn. auto using sublist_skip.
  - intros d Hl Hk. apply sublist_tail in Hl, Hk. specialize (H _ Hl Hk).
    destruct d; cbn in *; lia.
Qed.

Lemma sublist_head_ne c x l :
  sublist c (x :: l) → head c = Some x ∨ sublist c l.
Proof. inversion 1; auto. Qed.

Lemma best_cons_ne x y l k n m :
  x ≠ y → best l (y :: k) n → best (x :: l) k m → best (x :: l) (y :: k) (n `max` m).
Proof.
  intros Hxy [(c & Hc1 & Hc2 & Hn) Hc] [(d & Hd1 & Hd2 & Hm) Hd]. split.
  - destruct (Nat.max_spec n m) as [[_ ->]|[_ ->]].
    + exists d. auto using sublist_cons.
    + exists c. auto using sublist_cons.
  - intros e H1 H2.
    destruct (sublist_head_ne _ _ _ H1) as [E1|H1'];
      [|specialize (Hc e H1' H2); lia].
    destruct (sublist_head_ne _ _ _ H2) as [E2|H2'];
      [|specialize (Hd e H1 H2'); lia].
    congruence.
Qed.

Lemma sublist_reverse l k : sublist l k → sublist (reverse l) (reverse k).
Proof.
  induction 1; rewrite ?reverse_cons; auto using sublist_inserts_r, sublist_nil_l.
  by apply sublist_app.
Qed.

Lemma best_rev l k n : best l k n → best (reverse l) (reverse k) n.
Proof.
  intros [(c & H1 & H2 & Hn) H]. split.
  - exists (reverse c). rewrite length_reverse. auto using sublist_reverse.
  - intros d Hl Hk. apply sublist_reverse in Hl, Hk.
    rewrite reverse_involutive in Hl, Hk. rewrite <-length_reverse. auto.
Qed.

Lemma best_app_eq p l k n : best l k n → best (p ++ l) (p ++ k) (length p + n).
Proof. intros H. induction p; cbn; auto using best_cons_eq. Qed.

Lemma best_app_r s l k n : best l k n → best (l ++ s) (k ++ s) (n + length s).
Proof.
  intros H. apply best_rev, (best_app_eq (reverse s)), best_rev in H.
  rewrite !reverse_app, !reverse_involutive, length_reverse, Nat.add_comm in H. done.
Qed.
End best.

(** ** The table *)

(** [row] holds the lengths for [l] against every suffix of [k]. *)
Definition row_ok (l k : list string) (row : list Z) : Prop :=
  ∀ c, (c ≤ length k)%nat → ∃ n, best l (drop c k) n ∧ nth c row 0 = Z.of_nat n.

Lemma row_ok_tail l y k row : row_ok l (y :: k) row → row_ok l k (tail row).
Proof.
  intros H c Hc. destruct (H (S c)) as (n & Hn & E); [cbn; lia|].
  exists n. split; [done|]. rewrite <-E. by destruct row, c.
Qed.

Lemma nth_hd (l : list Z) : nth 0 l 0 = hd 0 l.
Proof. by destruct l. Qed.

Lemma fill_row_ok x l k below : row_ok l k below → row_ok (x :: l) k (fill_row x k below).
Proof.
  revert below. induction k as [|y k IH]; intros below H c Hc.
  - assert (c = O) as -> by (cbn in Hc; lia). exists O. auto using best_nil_r.
  - pose proof (IH _ (row_ok_tail _ _ _ _ H)) as Hrest.
    destruct c as [|c]; cbn [fill_row]; [|apply Hrest; cbn in Hc; lia].
    cbn [nth drop]. destruct (String.eqb_spec x y) as [->|Hxy].
    + destruct (row_ok_tail _ _ _ _ H O) as (n & Hn & E); [lia|].
      exists (S n). split; [by apply best_cons_eq|]. rewrite nth_hd in E. lia.
    + destruct (H O) as (n & Hn & E); [lia|]. destruct (Hrest O) as (m & Hm & F); [lia|].
      exists (n `max` m)%nat. split; [by apply best_cons_ne|].
      rewrite nth_hd in E, F. lia.
Qed.

Lemma row_ok_nil k n : row_ok [] k (replicate n 0).
Proof.
  intros c _. exists O. split; [apply best_nil_l|].
  revert c. induction n; intros [|c]; cbn; auto.
Qed.

Lemma table_row l k r :
  (r ≤ length l)%nat → row_ok (drop r l) k (nth r (lcs_table l k) []).
Proof.
  revert r. induction l as [|x l IH]; intros r Hr; cbn in Hr.
  - assert (r = O) as -> by lia. apply (row_ok_nil k (S (length k))).
  - destruct r as [|r]; [|apply IH; lia].
    change (lcs_table (x :: l) k) with (fill_row x k (hd [] (lcs_table l k)) :: lcs_table l k).
    apply fill_row_ok. specialize (IH O ltac:(lia)). rewrite drop_0 in IH.
    revert IH. by destruct (lcs_table l k).
Qed.

Lemma cell_best l k r c :
  (r ≤ length l)%nat → (c ≤ length k)%nat →
  ∃ n, best (drop r l) (drop c k) n ∧ cell (lcs_table l k) r c = Z.of_nat n.
Proof. intros Hr Hc. by apply table_row. Qed.

(** ** The walk *)

Definition same_kind (k k' : opKind) : bool :=
  match k, k' with
  | opEqual, opEqual | opRemove, opRemove | opAdd, opAdd => true
  | _, _ => false
  end.

(** The number of operations of a kind. *)
Fixpoint tally (k : opKind) (s : list op) : nat :=
  match s with
  | [] => O
  | o :: s => if same_kind (kind o) k then S (tally k s) else tally k s
  end.
Notation equals := (tally opEqual).

Lemma drop_lookup {A} (l : list A) i x : l !! i = Some x → drop i l = x :: drop (S i) l.
Proof. intros H. by rewrite (drop_S _ _ _ H). Qed.

Lemma drop_end {A} (l : list A) i : l !! i = None → drop i l = [].
Proof. intros H. apply drop_ge. by apply lookup_ge_None in H. Qed.

Lemma equals_app s t : equals (s ++ t) = (equals s + equals t)%nat.
Proof. induction s as [|o s IH]; cbn; [done|]. case_match; cbn; by rewrite IH. Qed.

Lemma equals_removals i n : equals (removals i n) = O.
Proof. revert i. induction n; intros i; [done|]. apply (IHn (S i)). Qed.

Lemma equals_additions i n : equals (additions i n) = O.
Proof. revert i. induction n; intros i; [done|]. apply (IHn (S i)). Qed.

(** What is left of the one side when the other is used up. *)
Lemma replace_spec i j l k :
  l = [] ∨ k = [] →
  let s := removals i (length l) ++ additions j (length k) in
  Edits i j s l k ∧ best l k (equals s).
Proof.
  intros Hn s. split; [apply edits_replace|]. unfold s.
  rewrite equals_app, equals_removals, equals_additions.
  destruct Hn as [->| ->]; auto using best_nil_l, best_nil_r.
Qed.

Lemma walk_spec fuel l k offset r c :
  (r ≤ length l)%nat → (c ≤ length k)%nat →
  (length l - r + (length k - c) < fuel)%nat →
  let s := lcs_walk fuel (lcs_table l k) l k offset r c in
  Edits (offset + r) (offset + c) s (drop r l) (drop c k) ∧
  best (drop r l) (drop c k) (equals s).
Proof.
  revert r c. induction fuel as [|fuel IH]; intros r c Hr Hc Hf; [lia|]. cbn [lcs_walk].
  pose proof (replace_spec (offset + r) (offset + c) (drop r l) (drop c k)) as Hend.
  rewrite !length_drop in Hend.
  destruct (l !! r) as [x|] eqn:Ex; [|auto using drop_end].
  destruct (k !! c) as [y|] eqn:Ey; [|auto using drop_end].
  clear Hend. pose proof (lookup_lt_Some _ _ _ Ex). pose proof (lookup_lt_Some _ _ _ Ey).
  destruct (String.eqb_spec x y) as [<-|Hxy].
  - destruct (IH (S r) (S c)) as [He Hb]; [lia..|].
    rewrite (drop_lookup _ _ _ Ex), (drop_lookup _ _ _ Ey). rewrite !Nat.add_succ_r in He.
    split; [by apply edits_equal|]. by apply best_cons_eq.
  - destruct (cell_best l k r (S c)) as (n & Hn & En); [lia..|].
    destruct (cell_best l k (S r) c) as (m & Hm & Em); [lia..|].
    assert (Hbest : best (drop r l) (drop c k) (m `max` n)).
    { rewrite (drop_lookup _ _ _ Ex) in Hn |- *. rewrite (drop_lookup _ _ _ Ey) in Hm |- *.
      by apply best_cons_ne. }
    rewrite En, Em. destruct (Z.leb_spec (Z.of_nat n) (Z.of_nat m)).
    + destruct (IH (S r) c) as [He Hb]; [lia..|]. rewrite !Nat.add_succ_r in He.
      pose proof (best_fun _ _ _ _ Hb Hm) as Hq.
      split; [rewrite (drop_lookup _ _ _ Ex); by apply edits_remove|].
      change (equals (_ :: ?t)) with (equals t). rewrite Hq.
      by replace m with (m `max` n)%nat by lia.
    + destruct (IH r (S c)) as [He Hb]; [lia..|]. rewrite !Nat.add_succ_r in He.
      pose proof (best_fun _ _ _ _ Hb Hn) as Hq.
      split; [rewrite (drop_lookup _ _ _ Ey); by apply edits_add|].
      change (equals (_ :: ?t)) with (equals t). rewrite Hq.
      by replace n with (m `max` n)%nat by lia.
Qed.

Lemma lcsScript_spec l k offset :
  Edits offset offset (lcsScript l k offset) l k ∧ best l k (equals (lcsScript l k offset)).
Proof.
  destruct (walk_spec (S (length l + length k)) l k offset 0 0) as [He Hb]; [lia..|].
  rewrite !Nat.add_0_r in He. auto.
Qed.

(** ** The common ends *)

Lemma common_spec l k :
  (common l k ≤ length l)%nat ∧ (common l k ≤ length k)%nat ∧
  take (common l k) l = take (common l k) k.
Proof.
  revert k. induction l as [|x l IH]; intros [|y k]; cbn; [auto with lia..|].
  destruct (String.eqb_spec x y) as [->|]; cbn; [|auto with lia].
  destruct (IH k) as (? & ? & ->). auto with lia.
Qed.

(** A list between [n] elements in front and [n'] at the back. *)
Lemma split_ends (h : list string) n n' :
  (n' ≤ length h - n)%nat →
  h = take n h ++ drop n (take (length h - n') h) ++ rev (take n' (rev (drop n h))).
Proof.
  intros Hh. rewrite firstn_rev, rev_involutive, drop_drop, length_drop.
  destruct (Nat.le_gt_cases n (length h)).
  - replace (n + (length h - n - n'))%nat with (length h - n')%nat by lia.
    rewrite app_assoc. rewrite <-(take_drop (length h - n') h) at 1. f_equal.
    rewrite <-(take_drop n (take _ h)) at 1. f_equal. rewrite take_take. f_equal. lia.
  - rewrite (take_ge h n), !drop_ge by (rewrite ?length_take; lia).
    by rewrite !app_nil_r.
Qed.

(** The two sides split at the ends [diffLines] finds. *)
Lemma diffLines_split l k :
  ∃ p s m m', l = p ++ m ++ s ∧ k = p ++ m' ++ s ∧
    diffLines l k =
      ((λ i, equalOp (0 + i) (0 + i)) <$> seq 0 (length p))
        ++ middle m m' (length p)
        ++ ((λ i, equalOp (length p + length m + i) (length p + length m' + i))
              <$> seq 0 (length s)).
Proof.
  set (n := common l k). destruct (common_spec l k) as (Hl & Hk & Hp). fold n in Hl, Hk, Hp.
  set (n' := common (rev (drop n l)) (rev (drop n k))).
  destruct (common_spec (rev (drop n l)) (rev (drop n k))) as (Hl' & Hk' & Hs).
  fold n' in Hl', Hk', Hs. rewrite !length_rev, !length_drop in Hl', Hk'.
  exists (take n l), (rev (take n' (rev (drop n l)))),
    (drop n (take (length l - n') l)), (drop n (take (length k - n') k)).
  split; [by apply split_ends|]. split; [rewrite Hp, Hs; by apply split_ends|].
  unfold diffLines. fold n. fold n'.
  rewrite length_rev, !length_take, !length_drop, !length_take, length_rev, length_drop.
  rewrite (Nat.min_l n), (Nat.min_l n') by lia.
  replace (n + (((length l - n') `min` length l) - n))%nat with (length l - n')%nat by lia.
  replace (n + (((length k - n') `min` length k) - n))%nat with (length k - n')%nat by lia.
  done.
Qed.

Lemma middle_edits l k offset : Edits offset offset (middle l k offset) l k.
Proof.
  pose proof (edits_replace offset offset l k). unfold middle, replaceAll.
  destruct l as [|x l], k as [|y k]; [auto|done..|].
  case_match; [done|]. apply lcsScript_spec.
Qed.

Lemma middle_best l k offset :
  cells l k ≤ maxCells → best l k (equals (middle l k offset)).
Proof.
  intros Hc. unfold middle.
  destruct l as [|x l], k as [|y k]; [apply best_nil_l|apply replace_spec; auto..|].
  assert (Hi : int64 (cells (x :: l) (y :: k)) = cells (x :: l) (y :: k)).
  { assert (0 ≤ cells (x :: l) (y :: k)) by (unfold cells; lia).
    change maxCells with 4194304 in Hc. unfold int64. rewrite Z.mod_small; lia. }
  rewrite Hi. destruct (Z.ltb_spec maxCells (cells (x :: l) (y :: k))); [lia|].
  apply lcsScript_spec.
Qed.

Lemma diffLines_edits l k : Edits 0 0 (diffLines l k) l k.
Proof.
  destruct (diffLines_split l k) as (p & s & m & m' & -> & -> & ->).
  apply edits_app; [apply (edits_equals 0 0)|]. cbn [Nat.add].
  apply edits_app; [apply middle_edits|apply edits_equals].
Qed.

Lemma equals_shift f n :
  (∀ i, kind (f i) = opEqual) → equals (f <$> seq 0 n) = n.
Proof.
  intros Hf. generalize 0%nat. induction n as [|n IH]; intros i; [done|].
  cbn. rewrite Hf. cbn. f_equal. apply IH.
Qed.

Lemma diffLines_best l k :
  cells l k ≤ maxCells → best l k (equals (diffLines l k)).
Proof.
  destruct (diffLines_split l k) as (p & s & m & m' & -> & -> & ->). intros Hc.
  rewrite !equals_app, !equals_shift by done.
  apply best_app_eq, best_app_r, middle_best. etrans; [|exact Hc].
  unfold cells. rewrite !length_app. nia.
Qed.

Lemma countStats_eq s :
  countStats s = mkStats (Z.of_nat (tally opAdd s)) (Z.of_nat (tally opRemove s)).
Proof.
  enough (H : ∀ st, foldl count_op st s =
    mkStats (Added st + Z.of_nat (tally opAdd s)) (Removed st + Z.of_nat (tally opRemove s)))
    by apply H.
  induction s as [|o s IH]; intros [a r]; cbn [foldl tally]; [cbn; f_equal; lia|].
  rewrite IH. unfold count_op. destruct (kind o); cbn -[Z.of_nat]; f_equal; lia.
Qed.

(** An edit script keeps a common subsequence and changes every other line. *)
Lemma edits_common i j s l k :
  Edits i j s l k →
  length l = (equals s + tally opRemove s)%nat ∧
  length k = (equals s + tally opAdd s)%nat ∧
  ∃ c, sublist c l ∧ sublist c k ∧ length c = equals s.
Proof.
  induction 1 as [|i j s x l k _ (El & Ek & c & Hl & Hk & Hc)
    |i j s x l k _ (El & Ek & c & Hl & Hk & Hc)
    |i j s x l k _ (El & Ek & c & Hl & Hk & Hc)]; cbn; (split_and!; [lia..|]).
  - exists []. auto using sublist_nil_l.
  - exists (x :: c). cbn. auto using sublist_skip.
  - exists c. auto using sublist_cons.
  - exists c. auto using sublist_cons.
Qed.

Lemma changes_eq i j s l k :
  Edits i j s l k →
  changes s = Z.of_nat (length l) + Z.of_nat (length k) - 2 * Z.of_nat (equals s).
Proof.
  intros H. apply edits_common in H as (? & ? & _).
  unfold changes. rewrite countStats_eq. cbn. lia.
Qed.

(** C30: The script of [diffLines] is an edit script of the two sides, and as long as the
    table of the longest common subsequence is within its bound no edit script
    of the same sides changes fewer lines. *)
Theorem diff_is_minimal (l k : list string) :
  Edits 0 0 (diffLines l k) l k ∧
  (cells l k ≤ maxCells → ∀ s, Edits 0 0 s l k → changes (diffLines l k) ≤ changes s).
Proof.
  split; [apply diffLines_edits|]. intros Hc s Hs.
  rewrite (changes_eq _ _ _ _ _ (diffLines_edits l k)), (changes_eq _ _ _ _ _ Hs).
  destruct (diffLines_best _ _ Hc) as [_ Hb].
  apply edits_common in Hs as (_ & _ & c & Hl & Hk & Hn). specialize (Hb _ Hl Hk). lia.
Qed.

Theorem diff_is_minimal_witness :
  changes (diffLines ["a"; "b"; "c"; "d"] ["b"; "x"; "d"; "c"])
  ≤ changes [removeOp 0; equalOp 1 0; addOp 1; addOp 2; equalOp 2 3; removeOp 3].
Proof.
  refine (proj2 (diff_is_minimal ["a"; "b"; "c"; "d"] ["b"; "x"; "d"; "c"]) _ _ _).
  - vm_compute. discriminate.
  - repeat constructor.
Defined.
