(* ===== verification/DiffPatch.v ===== *)
(** A printed diff patches one side into the other: how [group] cuts a script, what the
    ranges of a hunk say, and that the reader of the unified format gets back what the
    writer put in. *)
From S2P Require Import Prelude.
From S2P Require Import GoStrings.
From S2P Require Import TextDiff.
From S2P Require Import TextDiffLaws.

(** ** Cutting a script into hunks *)

Notation unchanged := (λ item : op, kind item = opEqual).

Lemma is_equal_true k : is_equal k = true ↔ k = opEqual.
Proof. apply bool_decide_eq_true. Qed.
Lemma is_equal_false k : is_equal k = false ↔ k ≠ opEqual.
Proof. apply bool_decide_eq_false. Qed.

(** [Cut whole s hunks]: [s] is made of the hunks and unchanged lines between
    them; a hunk has an unchanged line, unless it is the whole script. *)
Inductive Cut (whole : list op) : list op → list (list op) → Prop :=
  | cut_end es : Forall unchanged es → Cut whole es []
  | cut_hunk es h rest hs :
      Forall unchanged es → h ≠ [] → (Exists unchanged h ∨ h = whole ∧ es = [] ∧ rest = []) →
      Cut whole rest hs → Cut whole (es ++ h ++ rest) (h :: hs).

Lemma drop_slice {A} (l : list A) i j :
  (i ≤ j)%nat → drop i l = slice i j l ++ drop j l.
Proof.
  intros Hij. unfold slice. rewrite <-(take_drop j l) at 1.
  destruct (Nat.le_gt_cases j (length l)).
  - rewrite drop_app_le by (rewrite length_take; lia). done.
  - by rewrite (drop_ge l j), (take_ge l j), !app_nil_r by lia.
Qed.

Lemma lookup_slice {A} (l : list A) i j p :
  (i + p < j)%nat → slice i j l !! p = l !! (i + p)%nat.
Proof. intros H. unfold slice. by rewrite lookup_drop, lookup_take_lt. Qed.

Lemma length_slice {A} (l : list A) i j :
  (j ≤ length l)%nat → length (slice i j l) = (j - i)%nat.
Proof. intros H. unfold slice. rewrite length_drop, length_take. lia. Qed.

Section cut.
Context (script : list op) (ctx : Z) (Hctx : 1 ≤ ctx).

(** The lines from [i] on, before [j], are unchanged. *)
Definition quiet (i j : nat) : Prop :=
  ∀ p item, (i ≤ p < j)%nat → script !! p = Some item → kind item = opEqual.

Lemma quiet_slice i j : quiet i j → Forall unchanged (slice i j script).
Proof.
  intros H. apply Forall_lookup. intros p item Hp. unfold slice in Hp.
  rewrite lookup_drop in Hp.
  destruct (Nat.lt_ge_cases (i + p) j) as [Hlt|].
  - rewrite lookup_take_lt in Hp by done. eapply H; [|done]. lia.
  - rewrite lookup_take_ge in Hp by done. done.
Qed.

Lemma quiet_snoc i j item :
  quiet i j → script !! j = Some item → kind item = opEqual → quiet i (S j).
Proof.
  intros H Hj Hk p o Hp Ho. destruct (decide (p = j)) as [->|].
  - by simplify_eq.
  - eapply H; [|done]. lia.
Qed.

Lemma skip_equal_quiet i : quiet i (i + skip_equal (drop i script)).
Proof.
  intros p item [H1 H2] Hp.
  replace p with (i + (p - i))%nat in Hp by lia. rewrite <-lookup_drop in Hp.
  assert (Hlt : (p - i < skip_equal (drop i script))%nat) by lia.
  revert Hp Hlt. generalize (p - i)%nat (drop i script). clear.
  intros n l. revert n. induction l as [|o l IH]; intros n Hn Hlt; [done|].
  cbn in Hlt. destruct (is_equal (kind o)) eqn:E; [|lia].
  destruct n as [|n]; cbn in Hn; [|eapply IH; [done|lia]].
  simplify_eq. by apply is_equal_true.
Qed.

Lemma skip_equal_length l : (skip_equal l ≤ length l)%nat.
Proof. induction l as [|o l IH]; cbn; [lia|]. case_match; lia. Qed.

(** A hunk ends where at least [ctx] unchanged lines follow, or at the end; it
    ends early only behind an unchanged line. *)
Lemma hunk_end_spec fuel e :
  (e ≤ length script)%nat → (length script - e < fuel)%nat →
  let e' := hunk_end fuel script ctx e in
  (e ≤ e' ≤ length script)%nat ∧ quiet e' (e' + Z.to_nat ctx) ∧
  (e' = length script ∨
   ∃ p item, (e ≤ p < e')%nat ∧ script !! p = Some item ∧ kind item = opEqual).
Proof.
  revert e. induction fuel as [|fuel IH]; intros e He Hf; [lia|]. cbn [hunk_end].
  destruct (script !! e) as [item|] eqn:Hi.
  2:{ apply lookup_ge_None in Hi. assert (e = length script) as -> by lia.
      split_and!; [lia..| |auto]. intros p o Hp Ho. apply lookup_lt_Some in Ho. lia. }
  pose proof (lookup_lt_Some _ _ _ Hi) as Hlt.
  destruct (is_equal (kind item)) eqn:Hk; cbn [negb].
  2:{ destruct (IH (S e)) as (? & ? & Hor); [lia..|]. split_and!; [lia..|done|].
      destruct Hor as [|(p & o & ? & ?)]; [by left|].
      right. exists p, o. split; [lia|done]. }
  assert (Hk' := Hk). apply is_equal_true in Hk.
  set (run := (e + skip_equal (drop e script))%nat).
  assert (Hrun : (e < run ≤ length script)%nat).
  { pose proof (skip_equal_length (drop e script)) as Hle. rewrite length_drop in Hle.
    unfold run. rewrite (drop_S _ _ _ Hi) in *. cbn [skip_equal length] in *.
    rewrite Hk' in *. pose proof (skip_equal_length (drop (S e) script)). rewrite length_drop in *. lia. }
  pose proof (skip_equal_quiet e) as Hq. fold run in Hq.
  destruct (_ <? _) eqn:E1; cbn [orb].
  - apply Z.ltb_lt in E1. split_and!; [lia..| |].
    + intros p o Hp Ho. eapply Hq; [|done]. lia.
    + right. exists e, item. split_and!; [lia..|done|done].
  - destruct (Nat.eqb_spec run (length script)) as [Er|].
    + split_and!; [lia..| |].
      * intros p o Hp Ho. eapply Hq; [|done]. apply lookup_lt_Some in Ho. lia.
      * right. exists e, item. split_and!; [lia..|done|done].
    + destruct (IH run) as (? & ? & Hor); [lia..|]. split_and!; [lia..|done|].
      destruct Hor as [|(p & o & ? & ?)]; [by left|].
      right. exists p, o. split; [lia|done].
Qed.

Lemma exists_slice i j p item :
  (i ≤ p < j)%nat → script !! p = Some item → kind item = opEqual →
  Exists unchanged (slice i j script).
Proof.
  intros Hp Hi Hk. apply Exists_exists. exists item. split; [|done].
  apply list_elem_of_lookup. exists (p - i)%nat. rewrite lookup_slice by lia.
  by replace (i + (p - i))%nat with p by lia.
Qed.

Lemma group_loop_cut fuel lo index :
  (lo ≤ index ≤ length script)%nat → (length script - index < fuel)%nat →
  quiet lo index → (lo = O ∨ quiet lo (lo + Z.to_nat ctx)) →
  Cut script (drop lo script) (group_loop fuel script ctx index).
Proof.
  revert lo index. induction fuel as [|fuel IH]; intros lo index Hlo Hf Hq Hm; [lia|].
  cbn [group_loop]. destruct (script !! index) as [item|] eqn:Hi.
  2:{ apply lookup_ge_None in Hi. apply cut_end.
      rewrite (drop_slice _ lo index), (drop_ge _ index), app_nil_r by lia.
      by apply quiet_slice. }
  pose proof (lookup_lt_Some _ _ _ Hi) as Hlt.
  destruct (is_equal (kind item)) eqn:Hk.
  { apply IH; [lia..| |done]. eapply quiet_snoc; [done..|]. by apply is_equal_true. }
  apply is_equal_false in Hk.
  set (start := Z.to_nat (Z.max (Z.of_nat index - ctx) 0)).
  assert (Hstart : (lo ≤ start ≤ index)%nat).
  { split; [|lia]. destruct Hm as [->|Hm]; [lia|].
    destruct (Nat.lt_ge_cases index (lo + Z.to_nat ctx)); [|lia].
    destruct Hk. eapply Hm; [|done]. lia. }
  assert (Hnext : hunk_end (S (length script)) script ctx index
    = hunk_end (length script) script ctx (S index)).
  { cbn [hunk_end]. rewrite Hi. apply is_equal_false in Hk. by rewrite Hk. }
  destruct (hunk_end_spec (length script) (S index)) as (He & Hm' & Hor); [lia..|].
  rewrite Hnext. set (e := hunk_end (length script) script ctx (S index)) in *.
  rewrite (drop_slice _ lo start), (drop_slice _ start e) by lia.
  apply cut_hunk.
  - apply quiet_slice. intros p o Hp. apply Hq. lia.
  - intros E. apply (f_equal length) in E. rewrite length_slice in E by lia. cbn in E. lia.
  - destruct (decide (start < index)%nat) as [Hs|Hs].
    { destruct (lookup_lt_is_Some_2 script start) as [o Ho]; [lia|].
      left. eapply exists_slice; [|exact Ho|eapply Hq; [|exact Ho]]; lia. }
    destruct Hor as [Hend|(p & o & Hp & Ho & ?)].
    + right. assert (index = O) as -> by lia. assert (start = O) as E0 by lia.
      assert (lo = O) as -> by lia. rewrite Hend, E0. unfold slice.
      rewrite take_ge, (drop_ge script (length script)) by lia. done.
    + left. eapply exists_slice; [|exact Ho|done]. lia.
  - apply IH; [lia..| |by right]. intros p o Hp. lia.
Qed.

Lemma group_cut : Cut script script (group script ctx).
Proof. apply (group_loop_cut _ O O); [lia..| |by left]. intros p o Hp. lia. Qed.
End cut.

(** ** Text *)

Lemma sapp_cons a (s t : string) : String a s +:+ t = String a (s +:+ t).
Proof. done. Qed.

Lemma sapp_assoc (s t u : string) : (s +:+ t) +:+ u = s +:+ t +:+ u.
Proof. induction s as [|a s IH]; [done|]. by rewrite !sapp_cons, IH. Qed.

Lemma sapp_nil_r (s : string) : s +:+ "" = s.
Proof. induction s as [|a s IH]; [done|]. by rewrite sapp_cons, IH. Qed.

Lemma join_cons x l : join "" (x :: l) = x +:+ join "" l.
Proof. destruct l; [by rewrite sapp_nil_r|done]. Qed.

Lemma join_app l k : join "" (l ++ k) = join "" l +:+ join "" k.
Proof.
  induction l as [|x l IH]; [done|]. cbn [app].
  by rewrite (join_cons x (l ++ k)), (join_cons x l), sapp_assoc, IH.
Qed.

(** A text without a newline. *)
Definition inline (s : string) : Prop := cut_line s = None.
(** A line as [splitLines] yields it: terminated, or the non-empty last one. *)
Definition terminated (x : string) : Prop := ∃ t, inline t ∧ x = t +:+ newlines.
Definition line_ok (x : string) : Prop := terminated x ∨ inline x ∧ x ≠ "".

Lemma inline_cons a s : inline (String a s) ↔ a ≠ line_feed ∧ inline s.
Proof.
  unfold inline. cbn. destruct (Ascii.eqb_spec a line_feed) as [->|Ha].
  - split; [done|]. by intros [? _].
  - destruct (cut_line s) as [[]|]; naive_solver.
Qed.

Lemma inline_app s t : inline s → inline t → inline (s +:+ t).
Proof.
  induction s as [|a s IH]; [done|]. rewrite sapp_cons, !inline_cons. naive_solver.
Qed.

Lemma cut_line_terminated s t : inline s → cut_line (s +:+ newlines +:+ t) = Some (s +:+ newlines, t).
Proof.
  induction s as [|a s IH]; [done|]. rewrite inline_cons. intros [Ha Hs].
  rewrite !sapp_cons. cbn [cut_line]. by rewrite (proj2 (Ascii.eqb_neq _ _) Ha), IH.
Qed.

Lemma cut_line_Some s line rest :
  cut_line s = Some (line, rest) →
  terminated line ∧ s = line +:+ rest ∧ (String.length rest < String.length s)%nat.
Proof.
  revert line rest. induction s as [|a s IH]; cbn; intros line rest H; [done|].
  destruct (Ascii.eqb_spec a line_feed) as [->|Ha].
  - simplify_eq. split_and!; [by exists ""|done|lia].
  - destruct (cut_line s) as [[l r]|]; [|done]. simplify_eq.
    destruct (IH l rest) as ((t & Ht & ->) & -> & Hl); [done|]. split_and!; [|done|lia].
    exists (String a t). split; [by apply inline_cons|done].
Qed.

(** [splitLines] gives back lines it could have made. *)
Lemma split_loop_spec fuel s :
  (String.length s ≤ fuel)%nat →
  join "" (split_loop fuel s) = s ∧ Forall line_ok (split_loop fuel s).
Proof.
  revert s. induction fuel as [|fuel IH]; intros s Hf; cbn [split_loop].
  { destruct s; [auto|cbn in Hf; lia]. }
  destruct (String.eqb_spec s "") as [->|Hs]; [auto|].
  destruct (cut_line s) as [[line rest]|] eqn:E.
  - apply cut_line_Some in E as (Ht & -> & Hl). destruct (IH rest) as [Hj Ho]; [lia|].
    rewrite join_cons, Hj. split; [done|]. constructor; [by left|done].
  - split; [done|]. constructor; [by right|done].
Qed.

Lemma splitLines_join s : join "" (splitLines s) = s.
Proof. by apply split_loop_spec. Qed.
Lemma splitLines_ok s : Forall line_ok (splitLines s).
Proof. by apply split_loop_spec. Qed.

Lemma sapp_length s t : String.length (s +:+ t) = (String.length s + String.length t)%nat.
Proof. induction s as [|a s IH]; [done|]. rewrite sapp_cons. cbn [String.length]. lia. Qed.

Lemma split_loop_lines fuel l :
  Forall terminated l → (String.length (join "" l) ≤ fuel)%nat →
  split_loop fuel (join "" l) = l.
Proof.
  intros Hl. revert fuel. induction Hl as [|x l (t & Ht & ->) Hl IH]; intros fuel Hf.
  { by destruct fuel. }
  rewrite join_cons, sapp_assoc, !sapp_length in *. cbn in Hf.
  destruct fuel as [|fuel]; [lia|]. cbn [split_loop].
  rewrite cut_line_terminated, IH by (done || lia).
  by destruct t.
Qed.

Lemma splitLines_lines l : Forall terminated l → splitLines (join "" l) = l.
Proof. intros Hl. by apply split_loop_lines. Qed.

Lemma strip_newline_terminated t : strip_newline (t +:+ newlines) = Some t.
Proof.
  induction t as [|a t IH]; [done|]. rewrite sapp_cons. cbn [strip_newline]. rewrite IH.
  by destruct t.
Qed.

Lemma strip_newline_inline t : inline t → strip_newline t = None.
Proof.
  induction t as [|a t IH]; [done|]. rewrite inline_cons. intros [Ha Ht].
  cbn [strip_newline]. rewrite (IH Ht), (proj2 (Ascii.eqb_neq _ _) Ha). by destruct t.
Qed.

(** ** Numbers *)

Lemma read_digits_char x s acc :
  (x < 10)%N →
  read_digits (String (pretty_N_char x) s) acc = read_digits s (10 * acc + Z.of_N x).
Proof.
  intros Hx.
  assert (x = 0 ∨ x = 1 ∨ x = 2 ∨ x = 3 ∨ x = 4 ∨ x = 5 ∨ x = 6 ∨ x = 7 ∨ x = 8 ∨ x = 9)%N
    as H by lia.
  by repeat destruct H as [->|H]; [..|subst].
Qed.

Lemma read_pretty_go x s : read_digits (pretty_N_go x s) 0 = read_digits s (Z.of_N x).
Proof.
  revert s. induction (N.lt_wf_0 x) as [x _ IH]; intros s.
  destruct (decide (x = 0)%N) as [->|Hx]; [by rewrite pretty_N_go_0|].
  rewrite pretty_N_go_step, IH by (apply N.div_lt || idtac; lia).
  rewrite read_digits_char by (by apply N.mod_lt). f_equal.
  pose proof (N.div_mod x 10). lia.
Qed.

Lemma pretty_go_app x s t : pretty_N_go x s +:+ t = pretty_N_go x (s +:+ t).
Proof.
  revert s. induction (N.lt_wf_0 x) as [x _ IH]; intros s.
  destruct (decide (x = 0)%N) as [->|Hx]; [by rewrite !pretty_N_go_0|].
  rewrite !(pretty_N_go_step x) by lia. rewrite IH by (apply N.div_lt; lia). done.
Qed.

Lemma pretty_go_inline x s : inline s → inline (pretty_N_go x s).
Proof.
  revert s. induction (N.lt_wf_0 x) as [x _ IH]; intros s Hs.
  destruct (decide (x = 0)%N) as [->|Hx]; [by rewrite pretty_N_go_0|].
  rewrite pretty_N_go_step by lia. apply IH; [apply N.div_lt; lia|].
  apply inline_cons. split; [|done].
  unfold pretty_N_char. by repeat case_match.
Qed.

(** Not a digit, or nothing. *)
Definition stops (s : string) : Prop := ∀ acc, read_digits s acc = (acc, s).

Lemma read_itoa n s : 0 ≤ n → stops s → read_number (itoa n +:+ s) = (n, s).
Proof.
  intros Hn Hs. unfold read_number.
  enough (H : read_digits (itoa n +:+ s) 0 = read_digits s n) by (rewrite H; apply Hs).
  destruct n as [|p|p]; [done| |lia]. unfold itoa, pretty, pretty_Z, pretty, pretty_positive,
    pretty, pretty_N. rewrite decide_False by done.
  rewrite pretty_go_app. apply read_pretty_go.
Qed.

Lemma itoa_inline n : 0 ≤ n → inline (itoa n).
Proof.
  intros Hn. destruct n as [|p|p]; [done| |lia]. unfold itoa, pretty, pretty_Z, pretty,
    pretty_positive, pretty, pretty_N. rewrite decide_False by done.
  by apply pretty_go_inline.
Qed.

(** ** The header of a hunk *)

Lemma stops_space s : stops (String " " s).
Proof. done. Qed.
Lemma stops_comma s : stops (String "," s).
Proof. done. Qed.

Lemma read_format start count s :
  0 ≤ start → 0 ≤ count →
  read_range (formatRange start count +:+ String " " s) = ((start, count), String " " s).
Proof.
  intros Hs Hc. unfold read_range, formatRange.
  destruct (Z.eqb_spec count 0) as [->|]; [|destruct (Z.eqb_spec count 1) as [->|]].
  - rewrite sapp_assoc, read_itoa by done. done.
  - by rewrite read_itoa.
  - rewrite !sapp_assoc, read_itoa by done.
    change ("," +:+ ?x) with (String "," x). cbn -[read_number]. by rewrite read_itoa.
Qed.

Lemma formatRange_inline start count : 0 ≤ start → 0 ≤ count → inline (formatRange start count).
Proof.
  intros. unfold formatRange. repeat case_match; repeat apply inline_app; done || by apply itoa_inline.
Qed.

Definition extent_of (at_ : nat) (n : nat) : Z * Z :=
  (if (n =? 0)%nat then 0 else Z.of_nat at_ + 1, Z.of_nat n).

Notation measure side := (λ '(start, count) item,
  if 0 <=? side item then
    (if count =? 0 then side item + 1 else start, count + 1)
  else (start, count)).

Lemma measure_before i j s l k start count :
  Edits i j s l k → 0 < count →
  foldl (measure before) (start, count) s = (start, count + Z.of_nat (length l)).
Proof.
  intros H. revert count.
  induction H as [|i j s x l k H IH|i j s x l k H IH|i j s x l k H IH]; intros count Hc;
    cbn [foldl before equalOp removeOp addOp length].
  - f_equal. cbn. lia.
  - rewrite (proj2 (Z.leb_le _ _)), (proj2 (Z.eqb_neq _ _)), IH by lia. f_equal. lia.
  - rewrite (proj2 (Z.leb_le _ _)), (proj2 (Z.eqb_neq _ _)), IH by lia. f_equal. lia.
  - apply IH. done.
Qed.

Lemma measure_after i j s l k start count :
  Edits i j s l k → 0 < count →
  foldl (measure after) (start, count) s = (start, count + Z.of_nat (length k)).
Proof.
  intros H. revert count.
  induction H as [|i j s x l k H IH|i j s x l k H IH|i j s x l k H IH]; intros count Hc;
    cbn [foldl after equalOp removeOp addOp length].
  - f_equal. cbn. lia.
  - rewrite (proj2 (Z.leb_le _ _)), (proj2 (Z.eqb_neq _ _)), IH by lia. f_equal. lia.
  - apply IH. done.
  - rewrite (proj2 (Z.leb_le _ _)), (proj2 (Z.eqb_neq _ _)), IH by lia. f_equal. lia.
Qed.

Lemma extent_before i j s l k : Edits i j s l k → extent before s = extent_of i (length l).
Proof.
  unfold extent, extent_of. induction 1 as [|i j s x l k H IH|i j s x l k H IH|i j s x l k H IH];
    cbn [foldl before equalOp removeOp addOp length Nat.eqb]; [done| | |exact IH].
  all: rewrite (proj2 (Z.leb_le _ _)) by lia; cbn [Z.eqb].
  all: erewrite measure_before by (done || lia); f_equal; lia.
Qed.

Lemma extent_after i j s l k : Edits i j s l k → extent after s = extent_of j (length k).
Proof.
  unfold extent, extent_of. induction 1 as [|i j s x l k H IH|i j s x l k H IH|i j s x l k H IH];
    cbn [foldl after equalOp removeOp addOp length Nat.eqb]; [done| |exact IH|].
  all: rewrite (proj2 (Z.leb_le _ _)) by lia; cbn [Z.eqb].
  all: erewrite measure_after by (done || lia); f_equal; lia.
Qed.

Definition hunk_header (old new : Z * Z) : string :=
  "@@ -" +:+ formatRange old.1 old.2 +:+ " +" +:+ formatRange new.1 new.2
    +:+ " @@" +:+ newlines.

Lemma strip_prefix_app p s : strip_prefix p (p +:+ s) = Some s.
Proof.
  induction p as [|a p IH]; [by destruct s|]. rewrite sapp_cons. cbn [strip_prefix].
  by rewrite Ascii.eqb_refl.
Qed.

Lemma read_hunk_header old new :
  0 ≤ old.1 → 0 ≤ old.2 → 0 ≤ new.1 → 0 ≤ new.2 →
  read_header (hunk_header old new) = Some (old, new).
Proof.
  intros. destruct old as [a b], new as [c d]. unfold read_header, hunk_header.
  cbn [fst snd] in *. rewrite strip_prefix_app. cbn [mbind option_bind].
  change (" +" +:+ ?x) with (String " " ("+" +:+ x)). rewrite read_format by done.
  change (String " " ("+" +:+ ?x)) with (" +" +:+ x).
  rewrite strip_prefix_app. cbn [mbind option_bind].
  change (" @@" +:+ newlines) with (String " " ("@@" +:+ newlines)).
  by rewrite read_format.
Qed.

Lemma hunk_header_terminated old new :
  0 ≤ old.1 → 0 ≤ old.2 → 0 ≤ new.1 → 0 ≤ new.2 → terminated (hunk_header old new).
Proof.
  intros. exists ("@@ -" +:+ formatRange old.1 old.2 +:+ " +" +:+ formatRange new.1 new.2 +:+ " @@").
  split; [repeat apply inline_app; done || by apply formatRange_inline|].
  unfold hunk_header. by rewrite !sapp_assoc.
Qed.

Lemma extent_of_nonneg i n : 0 ≤ (extent_of i n).1 ∧ 0 ≤ (extent_of i n).2.
Proof. unfold extent_of. cbn [fst snd]. case_match; lia. Qed.

Lemma range_start_extent i n : (n = O → i = O) → range_start (extent_of i n) = Z.of_nat i.
Proof.
  intros H. unfold range_start, extent_of. destruct n as [|n]; [by rewrite H|].
  rewrite (proj2 (Z.eqb_neq _ _)) by lia. cbn [Nat.eqb]. lia.
Qed.

(** ** The body of a hunk *)

Definition body_of (L K : list string) (h : list op) : list (opKind * string) :=
  (λ item, (kind item, item_line L K item)) <$> h.

Definition body_lines '((k, line) : opKind * string) : list string :=
  match strip_newline line with
  | Some text => [String (opByte k) (text +:+ newlines)]
  | None => [String (opByte k) (line +:+ newlines); no_newline_mark]
  end.

Definition hunk_lines (L K : list string) (h : list op) : list string :=
  hunk_header (extent before h) (extent after h) :: (body_of L K h ≫= body_lines).

Lemma writeLine_lines k line : writeLine k line = join "" (body_lines (k, line)).
Proof.
  unfold writeLine, body_lines. destruct (strip_newline line); [done|].
  rewrite !join_cons. cbn [join String.concat]. by rewrite sapp_nil_r, sapp_cons, sapp_assoc.
Qed.

Lemma writeHunk_lines L K h : writeHunk h L K = join "" (hunk_lines L K h).
Proof.
  unfold writeHunk, hunk_lines, hunk_header.
  destruct (extent before h) as [a b], (extent after h) as [c d]. cbn [fst snd].
  rewrite join_cons, !sapp_assoc. do 6 f_equal. unfold body_of.
  induction h as [|item h IH]; [done|].
  rewrite !fmap_cons, join_cons, bind_cons, join_app, <-writeLine_lines. by f_equal.
Qed.

(** The lines of a hunk are those of the sides. *)
Lemma body_sides L K i j h l k :
  Edits i j h l k → ∀ l0 l2 k0 k2,
  L = l0 ++ l ++ l2 → K = k0 ++ k ++ k2 → length l0 = i → length k0 = j →
  old_side (body_of L K h) = l ∧ new_side (body_of L K h) = k ∧
  (Forall line_ok L → Forall line_ok K → Forall (λ p, line_ok p.2) (body_of L K h)).
Proof.
  assert (Hat : ∀ (l0 : list string) x l2, line_at (l0 ++ x :: l2) (Z.of_nat (length l0)) = x).
  { intros l0 x l2. unfold line_at. by rewrite Nat2Z.id, list_lookup_middle. }
  assert (Hin : ∀ (l0 : list string) x l2, Forall line_ok (l0 ++ x :: l2) → line_ok x).
  { intros l0 x l2. rewrite Forall_app, Forall_cons. tauto. }
  induction 1 as [|i j h x l k _ IH|i j h x l k _ IH|i j h x l k _ IH];
    intros l0 l2 k0 k2 EL EK Hi Hj; cbn in EL, EK; [done|..].
  - destruct (IH (l0 ++ [x]) l2 (k0 ++ [x]) k2) as (Ho & Hn & Hf);
      [by rewrite <-app_assoc|by rewrite <-app_assoc|rewrite length_app; cbn; lia..|].
    change (body_of L K (_ :: h)) with ((opEqual, line_at L (Z.of_nat i)) :: body_of L K h).
    assert (line_at L (Z.of_nat i) = x) as -> by (rewrite EL, <-Hi; apply Hat).
    split_and!; [by rewrite <-Ho|by rewrite <-Hn|].
    intros HL HK. constructor; [|auto]. rewrite EL in HL. eauto.
  - destruct (IH (l0 ++ [x]) l2 k0 k2) as (Ho & Hn & Hf);
      [by rewrite <-app_assoc|done|rewrite length_app; cbn; lia|done|].
    change (body_of L K (_ :: h)) with ((opRemove, line_at L (Z.of_nat i)) :: body_of L K h).
    assert (line_at L (Z.of_nat i) = x) as -> by (rewrite EL, <-Hi; apply Hat).
    split_and!; [by rewrite <-Ho|by rewrite <-Hn|].
    intros HL HK. constructor; [|auto]. rewrite EL in HL. eauto.
  - destruct (IH l0 l2 (k0 ++ [x]) k2) as (Ho & Hn & Hf);
      [done|by rewrite <-app_assoc|done|rewrite length_app; cbn; lia|].
    change (body_of L K (_ :: h)) with ((opAdd, line_at K (Z.of_nat j)) :: body_of L K h).
    assert (line_at K (Z.of_nat j) = x) as -> by (rewrite EK, <-Hj; apply Hat).
    split_and!; [by rewrite <-Ho|by rewrite <-Hn|].
    intros HL HK. constructor; [|auto]. rewrite EK in HK. eauto.
Qed.

Lemma body_lines_terminated p : line_ok p.2 → Forall terminated (body_lines p).
Proof.
  destruct p as [k line]. cbn [snd]. intros [(t & Ht & ->)|[Hi Hne]]; unfold body_lines.
  - rewrite strip_newline_terminated. repeat constructor. exists (String (opByte k) t).
    split; [|done]. apply inline_cons. split; [by destruct k|done].
  - rewrite strip_newline_inline by done. repeat constructor.
    + exists (String (opByte k) line). split; [|done]. apply inline_cons. split; [by destruct k|done].
    + by exists "\ No newline at end of file".
Qed.

(** Not the mark of a missing newline. *)
Definition no_mark (text : list string) : Prop := head text ≠ Some no_newline_mark.

Lemma read_body_zero text : read_body 0 0 text = Some ([], text).
Proof. by destruct text. Qed.

Lemma read_body_line old new k line rest :
  (old =? 0) && (new =? 0) = false → no_mark rest →
  read_body old new (String (opByte k) line :: rest) =
    '(body, text) ← read_body (old - old_weight k) (new - new_weight k) rest;
    Some ((k, line) :: body, text).
Proof.
  intros Hz Hm. cbn [read_body]. rewrite Hz.
  destruct rest as [|next rest].
  - destruct k; cbn -[Z.sub]; by case_match.
  - assert (Hn : (next == no_newline_mark) = false).
    { apply String.eqb_neq. intros ->. by apply Hm. }
    destruct k; cbn -[read_body no_newline_mark]; rewrite Hn; by case_match.
Qed.

Lemma read_body_mark old new k line rest :
  (old =? 0) && (new =? 0) = false →
  read_body old new (String (opByte k) (line +:+ newlines) :: no_newline_mark :: rest) =
    '(body, text) ← read_body (old - old_weight k) (new - new_weight k) rest;
    Some ((k, line) :: body, text).
Proof.
  intros Hz. cbn [read_body]. rewrite Hz, String.eqb_refl, strip_newline_terminated.
  destruct k; cbn -[read_body]; by case_match.
Qed.

Definition olds (body : list (opKind * string)) : Z := Z.of_nat (length (old_side body)).
Definition news (body : list (opKind * string)) : Z := Z.of_nat (length (new_side body)).

Lemma olds_cons k line body : olds ((k, line) :: body) = old_weight k + olds body.
Proof.
  destruct k; [change (olds ((opEqual, line) :: body)) with (Z.of_nat (S (length (old_side body))))
    |change (olds ((opRemove, line) :: body)) with (Z.of_nat (S (length (old_side body))))|done];
    cbn [old_weight]; unfold olds; lia.
Qed.
Lemma news_cons k line body : news ((k, line) :: body) = new_weight k + news body.
Proof.
  destruct k; [change (news ((opEqual, line) :: body)) with (Z.of_nat (S (length (new_side body))))
    |done|change (news ((opAdd, line) :: body)) with (Z.of_nat (S (length (new_side body))))];
    cbn [new_weight]; unfold news; lia.
Qed.

Lemma body_no_mark body T : no_mark T → no_mark ((body ≫= body_lines) ++ T).
Proof.
  intros HT. destruct body as [|[k line] body]; [done|]. rewrite bind_cons. unfold body_lines at 1.
  unfold no_mark. destruct (strip_newline line); cbn; destruct k; discriminate.
Qed.

Lemma read_body_spec body T :
  Forall (λ p, line_ok p.2) body → no_mark T →
  read_body (olds body) (news body) ((body ≫= body_lines) ++ T) = Some (body, T).
Proof.
  intros Hb HT. induction Hb as [|[k line] body Hl Hb IH]; [apply read_body_zero|].
  rewrite olds_cons, news_cons, bind_cons, <-app_assoc.
  assert (0 ≤ olds body ∧ 0 ≤ news body) by (unfold olds, news; lia).
  assert (Hz : (old_weight k + olds body =? 0) && (new_weight k + news body =? 0) = false).
  { destruct k; cbn [old_weight new_weight]; apply andb_false_iff; rewrite !Z.eqb_neq; lia. }
  assert (E1 : old_weight k + olds body - old_weight k = olds body) by lia.
  assert (E2 : new_weight k + news body - new_weight k = news body) by lia.
  destruct Hl as [(t & Ht & E)|[Hi Hne]]; cbn [snd] in *; unfold body_lines at 1.
  - rewrite E, strip_newline_terminated. cbn [app].
    rewrite read_body_line, E1, E2, IH by auto using body_no_mark. done.
  - rewrite strip_newline_inline by done. cbn [app].
    rewrite read_body_mark, E1, E2, IH by done. done.
Qed.

(** ** Applying the hunks *)

Lemma edits_unchanged i j es l k : Edits i j es l k → Forall unchanged es → l = k.
Proof.
  induction 1 as [|i j s x l k H IH|i j s x l k H IH|i j s x l k H IH]; intros Hu;
    [done|..]; inversion Hu as [|? ? Hk Hu']; subst; [by rewrite IH|done..].
Qed.

Lemma edits_exists_equal i j h l k :
  Edits i j h l k → Exists unchanged h → l ≠ [] ∧ k ≠ [].
Proof.
  induction 1 as [|i j s x l k H IH|i j s x l k H IH|i j s x l k H IH]; intros Hu;
    inversion Hu as [? ? Hk|? ? Hu']; subst; try done; destruct (IH Hu'); done.
Qed.

(** The sides of a script are determined up to their lines by it. *)
Lemma edits_length i j i' j' s l k l' k' :
  Edits i j s l k → Edits i' j' s l' k' → length l = length l' ∧ length k = length k'.
Proof.
  intros H H'. apply edits_common in H as (-> & -> & _).
  by apply edits_common in H' as (-> & -> & _).
Qed.

Section apply.
Context (L K : list string) (whole : list op) (Hwhole : Edits 0 0 whole L K).
Context (HL : Forall line_ok L) (HK : Forall line_ok K).

(** A hunk's header and body are read back. *)
Lemma read_hunk i j h l k l0 l2 k0 k2 T :
  Edits i j h l k → L = l0 ++ l ++ l2 → K = k0 ++ k ++ k2 → length l0 = i → length k0 = j →
  (l = [] → i = O) → (k = [] → j = O) → no_mark T →
  let old := extent_of i (length l) in
  let new := extent_of j (length k) in
  hunk_lines L K h ++ T = hunk_header old new :: (body_of L K h ≫= body_lines) ++ T ∧
  read_header (hunk_header old new) = Some (old, new) ∧
  range_start old = Z.of_nat i ∧ range_start new = Z.of_nat j ∧
  read_body old.2 new.2 ((body_of L K h ≫= body_lines) ++ T) = Some (body_of L K h, T) ∧
  old_side (body_of L K h) = l ∧ new_side (body_of L K h) = k.
Proof.
  intros He EL EK Hi Hj Hli Hkj HT old new.
  destruct (extent_of_nonneg i (length l)), (extent_of_nonneg j (length k)).
  destruct (body_sides L K _ _ _ _ _ He _ _ _ _ EL EK Hi Hj) as (Ho & Hn & Hf).
  split_and!; [|by apply read_hunk_header| | | |done..].
  - unfold hunk_lines. by rewrite (extent_before _ _ _ _ _ He), (extent_after _ _ _ _ _ He).
  - apply range_start_extent. intros E. apply Hli. by apply length_zero_iff_nil.
  - apply range_start_extent. intros E. apply Hkj. by apply length_zero_iff_nil.
  - pose proof (read_body_spec _ T (Hf HL HK) HT) as Hr. unfold olds, news in Hr.
    by rewrite Ho, Hn in Hr.
Qed.

Lemma hunks_no_mark hs : no_mark (hs ≫= hunk_lines L K).
Proof. destruct hs; [done|]. rewrite bind_cons. discriminate. Qed.

Lemma apply_cut s hs : Cut whole s hs → ∀ l k l0 k0 fuel,
  Edits (length l0) (length k0) s l k → L = l0 ++ l → K = k0 ++ k →
  (length hs < fuel)%nat →
  apply_hunks fuel (hs ≫= hunk_lines L K) (Z.of_nat (length l0)) (Z.of_nat (length k0)) l
  = Some k.
Proof.
  induction 1 as [es Hes|es h rest hs Hes Hh Hor _ IH]; intros l k l0 k0 fuel He EL EK Hf.
  { destruct fuel as [|fuel]; [lia|]. by rewrite (edits_unchanged _ _ _ _ _ He Hes). }
  destruct fuel as [|fuel]; [cbn in Hf; lia|].
  apply edits_split in He as (u & l' & u' & k' & -> & -> & Hu & He).
  pose proof (edits_unchanged _ _ _ _ _ Hu Hes) as <-.
  apply edits_split in He as (lh & l2 & kh & k2 & -> & -> & Heh & He).
  assert (Hanchor : (lh = [] → length l0 + length u = O)%nat ∧
                    (kh = [] → length k0 + length u = O)%nat).
  { destruct Hor as [Hx|(-> & -> & ->)].
    - by destruct (edits_exists_equal _ _ _ _ _ Heh Hx).
    - destruct (edits_length _ _ _ _ _ _ _ _ _ Heh Hwhole) as [El Ek].
      rewrite EL, !length_app in El. rewrite EK, !length_app in Ek. lia. }
  destruct Hanchor as [Hal Hak].
  rewrite bind_cons.
  destruct (read_hunk _ _ h lh kh (l0 ++ u) l2 (k0 ++ u) k2 (hs ≫= hunk_lines L K) Heh)
    as (-> & Hr1 & Hs1 & Hs2 & Hr2 & Ho & Hn);
    [by rewrite EL, <-app_assoc|by rewrite EK, <-app_assoc|by rewrite length_app..
    |done|done|apply hunks_no_mark|].
  cbn [apply_hunks]. rewrite Hr1. cbn [mbind option_bind]. rewrite Hr2. cbn [mbind option_bind].
  rewrite Hs1, Hs2, Ho, Hn.
  replace (Z.of_nat (length l0 + length u) - Z.of_nat (length l0)) with (Z.of_nat (length u)) by lia.
  rewrite (proj2 (Z.ltb_ge _ _)), (proj2 (Z.ltb_ge _ _)), (proj2 (Z.eqb_eq _ _)), Nat2Z.id
    by (rewrite ?length_app; lia).
  cbn [orb negb]. rewrite drop_app_length, !take_app_length, drop_app_length, bool_decide_true by done.
  unfold extent_of. cbn [snd].
  specialize (IH l2 k2 (l0 ++ u ++ lh) (k0 ++ u ++ kh) fuel).
  rewrite !length_app, !Nat.add_assoc in IH.
  rewrite <-!Nat2Z.inj_add, IH; [done|done|by rewrite EL, <-!app_assoc|by rewrite EK, <-!app_assoc|].
  cbn in Hf. lia.
Qed.
End apply.

(** ** The printed diff *)

Lemma hunk_lines_terminated L K i j h l k l0 l2 k0 k2 :
  Edits i j h l k → L = l0 ++ l ++ l2 → K = k0 ++ k ++ k2 → length l0 = i → length k0 = j →
  Forall line_ok L → Forall line_ok K → Forall terminated (hunk_lines L K h).
Proof.
  intros He EL EK Hi Hj HL HK.
  destruct (body_sides L K _ _ _ _ _ He _ _ _ _ EL EK Hi Hj) as (_ & _ & Hf).
  unfold hunk_lines. constructor.
  - rewrite (extent_before _ _ _ _ _ He), (extent_after _ _ _ _ _ He).
    apply hunk_header_terminated; apply extent_of_nonneg.
  - specialize (Hf HL HK). induction Hf as [|p body Hp _ IH]; [done|].
    rewrite bind_cons. apply Forall_app. auto using body_lines_terminated.
Qed.

Lemma cut_terminated L K whole s hs : Cut whole s hs → ∀ l k l0 k0,
  Edits (length l0) (length k0) s l k → L = l0 ++ l → K = k0 ++ k →
  Forall line_ok L → Forall line_ok K →
  Forall terminated (hs ≫= hunk_lines L K).
Proof.
  induction 1 as [es Hes|es h rest hs Hes Hh Hor _ IH]; intros l k l0 k0 He EL EK HL HK; [done|].
  apply edits_split in He as (u & l' & u' & k' & -> & -> & Hu & He).
  apply edits_split in He as (lh & l2 & kh & k2 & -> & -> & Heh & He).
  rewrite bind_cons. apply Forall_app. split.
  - eapply (hunk_lines_terminated L K _ _ h lh kh (l0 ++ u) l2 (k0 ++ u') k2);
      [exact Heh|by rewrite <-app_assoc|by rewrite <-app_assoc|by rewrite length_app..|done|done].
  - apply (IH l2 k2 (l0 ++ u ++ lh) (k0 ++ u' ++ kh)); [|by rewrite <-!app_assoc..|done|done].
    rewrite !length_app, !Nat.add_assoc. done.
Qed.

Lemma countStats_zero i j s l k :
  Edits i j s l k → (Added (countStats s) =? 0) && (Removed (countStats s) =? 0) = true → l = k.
Proof.
  intros He. rewrite countStats_eq. cbn [Added Removed]. intros [Ha Hr]%andb_true_iff.
  apply Z.eqb_eq in Ha, Hr. eapply edits_unchanged; [done|]. clear He.
  induction s as [|o s IH]; [done|]. cbn in Ha, Hr.
  destruct (kind o) eqn:E; cbn in Ha, Hr; [|lia..]. constructor; auto.
Qed.

Lemma join_hunks L K hs :
  join "" ((λ h, writeHunk h L K) <$> hs) = join "" (hs ≫= hunk_lines L K).
Proof.
  induction hs as [|h hs IH]; [done|].
  by rewrite fmap_cons, join_cons, bind_cons, join_app, IH, writeHunk_lines.
Qed.

Lemma hunks_length L K hs : (length hs ≤ length (hs ≫= hunk_lines L K))%nat.
Proof. induction hs as [|h hs IH]; [done|]. rewrite bind_cons, length_app. cbn. lia. Qed.

(** C27: The text [Unified] prints, read by [patch], turns the content of the one side
    into that of the other, byte by byte: the ranges of every hunk, the marks of missing
    newlines and the omitted lines are right. This holds for every two texts, for a context of at
    least one line (or the default one) and a path without a newline. *)
Theorem unified_patches (path : string) (b a : Content) (ctx : Z) (diff : string) (stats : Stats) :
  ctx ≠ 0 → inline path →
  Unified path b a ctx = Ok (diff, stats) →
  patch diff (Data b) = Some (Data a).
Proof.
  intros Hctx Hpath. unfold Unified. intros ([] & _ & H)%bind_Ok. revert H. cbv zeta.
  set (c := if ctx <? 0 then DefaultContext else ctx).
  assert (Hc : 1 ≤ c).
  { unfold c. destruct (Z.ltb_spec ctx 0); unfold DefaultContext; lia. }
  set (L := splitLines (Data b)). set (K := splitLines (Data a)).
  pose proof (diffLines_edits L K) as He.
  pose proof (splitLines_ok (Data b)) as HL. pose proof (splitLines_ok (Data a)) as HK.
  fold L in HL. fold K in HK.
  destruct (_ && _) eqn:Hz; intros [= <- <-].
  { rewrite <-(splitLines_join (Data b)), <-(splitLines_join (Data a)). fold L K.
    by rewrite (countStats_zero _ _ _ _ _ He Hz). }
  pose proof (group_cut (diffLines L K) c Hc) as Hcut.
  set (hs := group (diffLines L K) c) in *.
  assert (Htext : ∀ side1 side2, inline side1 → inline side2 →
    splitLines ("--- " +:+ side1 +:+ newlines +:+ "+++ " +:+ side2 +:+ newlines
      +:+ join "" ((λ h, writeHunk h L K) <$> hs))
    = ("--- " +:+ side1 +:+ newlines) :: ("+++ " +:+ side2 +:+ newlines)
      :: (hs ≫= hunk_lines L K)).
  { intros s1 s2 H1 H2. etrans; [|apply splitLines_lines].
    - f_equal. rewrite !join_cons, !sapp_assoc. do 6 f_equal. by apply join_hunks.
    - constructor; [exists ("--- " +:+ s1); split; [by apply inline_app|by rewrite sapp_assoc]|].
      constructor; [exists ("+++ " +:+ s2); split; [by apply inline_app|by rewrite sapp_assoc]|].
      by apply (cut_terminated L K _ _ _ Hcut L K [] []). }
  unfold patch. rewrite Htext.
  2, 3: unfold side; case_match; [done|by apply inline_app].
  rewrite (apply_cut L K _ He HL HK _ _ Hcut L K [] []); [|done..|].
  - cbn. f_equal. apply splitLines_join.
  - apply Nat.lt_succ_r, hunks_length.
Qed.

Theorem unified_patches_witness :
  patch (lines ["--- a/f.txt"; "+++ b/f.txt"; "@@ -1,2 +1,2 @@"; " a"; "-b";
                "\ No newline at end of file"; "+b"]) (lines ["a"] +:+ "b")
  = Some (lines ["a"; "b"]).
Proof.
  exact (unified_patches "f.txt" (Text (lines ["a"] +:+ "b")) (Text (lines ["a"; "b"]))
    DefaultContext _ _ ltac:(discriminate) ltac:(reflexivity) missing_final_newline).
Defined.

(** Without context lines an inserted line is printed with the range [0,0] of the old
    side, so it reads as an insertion at the top of the file. *)
Example zero_context_misplaces :
  Unified "p" (Text (lines ["a"; "b"])) (Text (lines ["a"; "x"; "b"])) 0
  = Ok (lines ["--- a/p"; "+++ b/p"; "@@ -0,0 +2 @@"; "+x"], mkStats 1 0) ∧
  patch (lines ["--- a/p"; "+++ b/p"; "@@ -0,0 +2 @@"; "+x"]) (lines ["a"; "b"]) = None.
Proof. vm_compute. done. Qed.
