(* ===== verification/RateLimit.v ===== *)
(** Rate limits of provider routes, [internal/adapter/provider/ratelimit]: token
    admission over a rolling window ([admission.go]), request pacing and what a
    response teaches about a route ([controller.go]).

    A [Controller] maps route keys to their state; each operation holds its mutex, so
    a history of a controller is a sequence of operations, each with the clock it
    read. Times are nanoseconds since 1970, durations 64-bit nanoseconds, token counts
    unsigned 64-bit. The theorems are in [RateLimitLaws]. *)
From S2P Require Import Prelude.
From S2P Require Import GoStrings.

(** ** Time *)

(** Go's zero [time.Time]. *)
Definition time_zero : Z := - 62135596800 * 10 ^ 9.
Definition Second : Z := 10 ^ 9.
Definition Millisecond : Z := 10 ^ 6.
Definition Minute : Z := 60 * Second.
Definition max_duration : Z := 2 ^ 63 - 1.

(** Duration arithmetic wraps; [t.Sub(u)] saturates. *)
Definition duration (z : Z) : Z := (z + 2 ^ 63) mod 2 ^ 64 - 2 ^ 63.
Definition time_sub (t u : Z) : Z := Z.max (- 2 ^ 63) (Z.min max_duration (t - u)).
Definition time_add (t d : Z) : Z := t + d.

Definition saturatingDouble (value : Z) : Z :=
  if max_duration / 2 <? value then max_duration else duration (value * 2).
Definition later (left right : Z) : Z := if right <? left then left else right.
Definition earlier (left right : Z) : Z := if left <? right then left else right.

(** ** Routes *)

Record tokenCommit := mkCommit { cm_tokens : Z; cm_at : Z }.

Record routeState := mkRoute {
  rs_nextRequest : Z;
  rs_lastRequest : Z;
  rs_penalty : Z;
  rs_commits : list tokenCommit;
  rs_tokenLimit : Z;
  rs_remaining : option Z;
  rs_remainingAt : Z;
  rs_resetAt : Z;
}.

Definition set_rs_commits (l : list tokenCommit) (s : routeState) : routeState :=
  mkRoute (rs_nextRequest s) (rs_lastRequest s) (rs_penalty s) l (rs_tokenLimit s)
    (rs_remaining s) (rs_remainingAt s) (rs_resetAt s).
Definition set_rs_remaining (r : option Z) (s : routeState) : routeState :=
  mkRoute (rs_nextRequest s) (rs_lastRequest s) (rs_penalty s) (rs_commits s) (rs_tokenLimit s)
    r (rs_remainingAt s) (rs_resetAt s).
Definition set_rs_pace (next last penalty : Z) (s : routeState) : routeState :=
  mkRoute next last penalty (rs_commits s) (rs_tokenLimit s)
    (rs_remaining s) (rs_remainingAt s) (rs_resetAt s).
Definition set_rs_token (limit : Z) (remaining : option Z) (remainingAt resetAt : Z)
    (s : routeState) : routeState :=
  mkRoute (rs_nextRequest s) (rs_lastRequest s) (rs_penalty s) (rs_commits s)
    limit remaining remainingAt resetAt.

(** The routes of a controller by their keys. *)
Notation Controller := (gmap string routeState).

Definition new_route (clock : Z) : routeState :=
  mkRoute time_zero clock 0 [] 0 None time_zero time_zero.

(** [c.state(key)], which creates a missing route. *)
Definition route_of (c : Controller) (key : string) (clock : Z) : routeState :=
  default (new_route clock) (c !! key).

(** ** Admission *)

Definition StatusAdmit : string := "admit".
Definition StatusWait : string := "wait".
Definition StatusRefuse : string := "refuse".

Definition SourceUnknown : string := "unknown".
Definition SourceOperator : string := "operator_config".
Definition SourceHeader : string := "provider_header".

Definition ReasonUnknown : string := "throughput_unknown".
Definition ReasonAdmitted : string := "admitted".
Definition ReasonWaitForWindow : string := "wait_for_window".
Definition ReasonExceedsBurst : string := "exceeds_route_burst".
Definition ReasonRemainingTooLow : string := "remaining_below_required".

Definition TokenWindow : Z := Minute.

Record Decision := mkDecision {
  dn_Status : string;
  dn_Wait : Z;
  dn_Required : Z;
  dn_Available : Z;
  dn_Limit : Z;
  dn_Reason : string;
  dn_Source : string;
}.

Definition pruneCommits (commits : list tokenCommit) (now : Z) : list tokenCommit :=
  let cutoff := time_add now (- TokenWindow) in
  filter (λ commit, cutoff < cm_at commit) commits.

Definition prune (s : routeState) (now : Z) : routeState :=
  set_rs_commits (pruneCommits (rs_commits s) now) s.

Definition sum_tokens (commits : list tokenCommit) : Z :=
  foldl (λ used commit, u64 (used + cm_tokens commit)) 0 commits.

(** The tokens of the window, and the route with its expired commits dropped. *)
Definition committedTokens (state : option routeState) (now : Z) : Z * option routeState :=
  match state with
  | None => (0, None)
  | Some s => let s := prune s now in (sum_tokens (rs_commits s), Some s)
  end.

Definition resolveTokenLimit (operatorLimit : Z) (state : option routeState) : Z * string :=
  if 0 <? operatorLimit then (operatorLimit, SourceOperator) else
  match state with
  | Some s => if 0 <? rs_tokenLimit s then (rs_tokenLimit s, SourceHeader) else (0, SourceUnknown)
  | None => (0, SourceUnknown)
  end.

(** The tokens available and whether that is known. *)
Definition tokenAvailable (state : option routeState) (limit now : Z)
    : (Z * bool) * option routeState :=
  match state ≫= rs_remaining with
  | Some available =>
      if 0 <? limit then
        let '(used, state) := committedTokens state now in
        if used <? limit then
          let rolling := limit - used in
          ((if rolling <? available then rolling else available, true), state)
        else ((0, true), state)
      else ((available, true), state)
  | None =>
      if limit =? 0 then ((0, false), state) else
      let '(used, state) := committedTokens state now in
      if limit <=? used then ((0, true), state) else ((limit - used, true), state)
  end.

(** The loop of [tokenWait] over the commits: [earliest] is none before the
    first one. *)
Fixpoint release_loop (commits : list tokenCommit) (cutoff now need released : Z)
    (earliest : option Z) : Z :=
  match commits with
  | [] =>
      match earliest with
      | Some e => if now <? e then time_sub e now else TokenWindow
      | None => TokenWindow
      end
  | commit :: commits =>
      if cm_at commit <? cutoff then release_loop commits cutoff now need released earliest else
      let released := u64 (released + cm_tokens commit) in
      let expire := time_add (cm_at commit) TokenWindow in
      let earliest :=
        match earliest with
        | Some e => if expire <? e then expire else e
        | None => expire
        end in
      if need <=? released then Z.max (time_sub expire now) 0
      else release_loop commits cutoff now need released (Some earliest)
  end.

Definition tokenWait (state : option routeState) (required limit now : Z)
    : Z * option routeState :=
  match state with
  | None => (TokenWindow, None)
  | Some s =>
      if now <? rs_resetAt s then (time_sub (rs_resetAt s) now, state) else
      if (limit =? 0) || (required =? 0) then (TokenWindow, state) else
      let cutoff := time_add now (- TokenWindow) in
      let '(used, state) := committedTokens state now in
      if u64 (used + required) <=? limit then (0, state) else
      let need := u64 (u64 (used + required) - limit) in
      (release_loop (rs_commits (prune s now)) cutoff now need 0 None, state)
  end.

Definition decide_route (state : option routeState) (required operatorLimit now : Z)
    : Decision * option routeState :=
  let '(limit, source) := resolveTokenLimit operatorLimit state in
  let '(available, known, state) := tokenAvailable state limit now in
  let source := if known && (source == SourceUnknown) then SourceHeader else source in
  let decision status wait reason source :=
    mkDecision status wait required available limit reason source in
  if negb known then (decision StatusAdmit 0 ReasonUnknown SourceUnknown, state) else
  if (0 <? limit) && (limit <? required) then
    (decision StatusRefuse 0 ReasonExceedsBurst source, state) else
  if required <=? available then (decision StatusAdmit 0 ReasonAdmitted source, state) else
  let '(wait, state) := tokenWait state required limit now in
  if wait <=? 0 then (decision StatusRefuse wait ReasonRemainingTooLow source, state)
  else (decision StatusWait wait ReasonWaitForWindow source, state).

(** What the route pointer holds after the call is what the map holds. *)
Definition store_route (c : Controller) (key : string) (state : option routeState) : Controller :=
  match state with
  | Some s => <[key := s]> c
  | None => c
  end.

Definition decideLocked (c : Controller) (key : string) (required operatorLimit now : Z)
    : Decision * Controller :=
  let '(decision, state) := decide_route (c !! key) required operatorLimit now in
  (decision, store_route c key state).

Definition reserve_route (s : routeState) (tokens now : Z) : routeState :=
  let s := set_rs_commits (pruneCommits (rs_commits s) now ++ [mkCommit tokens now]) s in
  match rs_remaining s with
  | Some remaining =>
      set_rs_remaining (Some (if tokens <? remaining then remaining - tokens else 0)) s
  | None => s
  end.

(** [clock] is read when the route does not exist yet. *)
Definition reserveLocked (c : Controller) (key : string) (tokens now clock : Z) : Controller :=
  if tokens =? 0 then c else
  <[key := reserve_route (route_of c key clock) tokens now]> c.

Definition Decide (c : Controller) (key : string) (required operatorLimit now : Z)
    : Decision * Controller := decideLocked c key required operatorLimit now.

Definition TryReserve (c : Controller) (key : string) (required operatorLimit now clock : Z)
    : Decision * Controller :=
  let '(decision, c) := decideLocked c key required operatorLimit now in
  if (dn_Status decision == StatusAdmit) && (dn_Source decision != SourceUnknown) then
    (decision, reserveLocked c key required now clock)
  else (decision, c).

Definition Reserve (c : Controller) (key : string) (tokens now clock : Z) : Controller :=
  reserveLocked c key tokens now clock.

(** ** Headers *)

(** [http.Header] by its [Get], which yields the empty string for a missing name. *)
Definition Header : Type := string → string.

(** [float64] with the operations the package uses: [strconv.ParseFloat], conversion from
    and to integers, arithmetic and comparison; and [http.ParseTime]. *)
Class Readings : Type := {
  float : Type;
  parse_float : string → option float;
  of_int : Z → float;
  to_int : float → Z;
  fsub : float → float → float;
  fmul : float → float → float;
  fdiv : float → float → float;
  fabs : float → float;
  flt : float → float → bool;
  fle : float → float → bool;
  parse_http_time : string → option Z;
}.

Definition firstHeader (header : Header) (names : list string) : string :=
  default "" (head (filter (λ value, value ≠ "") (header <$> names))).

(** [strings.Split(value, c)[0]]. *)
Fixpoint before_char (c : ascii) (value : string) : string :=
  match value with
  | EmptyString => ""
  | String a rest => if Ascii.eqb a c then "" else String a (before_char c rest)
  end.

Fixpoint digits_loop (s : string) (acc : Z) : option Z :=
  match s with
  | EmptyString => Some acc
  | String a rest =>
      if (48 <=? code a) && (code a <=? 57) then digits_loop rest (10 * acc + (code a - 48))
      else None
  end.

(** [time.Duration(max(f, 0) * float64(time.Second))] and the like. *)
Definition seconds_of `{Readings} (f : float) : Z := to_int (fmul f (of_int Second)).

(** The loop over the candidates: the reading nearest to now. *)
Definition nearest `{Readings} (delay : float) (candidates : list float) : float :=
  foldl (λ delay candidate, if flt (fabs candidate) (fabs delay) then candidate else delay)
    delay candidates.

Definition numericResetDelay `{Readings} (value : string) (now : Z) (epochAllowed : bool)
    : option Z :=
  match parse_float value with
  | None => None
  | Some number =>
      if flt number (of_int 0) then None else
      if negb epochAllowed then Some (seconds_of number) else
      let nowSeconds := fdiv (of_int now) (of_int Second) in
      let delay := nearest number
        [fsub number nowSeconds; fsub (fdiv number (of_int 1000)) nowSeconds] in
      Some (seconds_of (if flt delay (of_int 0) then of_int 0 else delay))
  end.

Definition exhausted `{Readings} (value : string) : bool :=
  match parse_float (trim_space value) with
  | Some remaining => fle remaining (of_int 0)
  | None => false
  end.

(** [strconv.ParseUint(s, 10, 64)]. *)
Definition parse_uint (s : string) : option Z :=
  if s == "" then None else
  match digits_loop s 0 with
  | Some n => if n <? 2 ^ 64 then Some n else None
  | None => None
  end.

(** [strconv.Atoi], as far as its result is not negative. *)
Definition parse_seconds (s : string) : option Z :=
  match s with
  | String a rest =>
      if Ascii.eqb a "-" then
        match parse_uint rest with Some 0 => Some 0 | _ => None end
      else
        match parse_uint (if Ascii.eqb a "+" then rest else s) with
        | Some n => if n <? 2 ^ 63 then Some n else None
        | None => None
        end
  | EmptyString => None
  end.

Definition tokenLimitHeaders : list string := ["X-RateLimit-Limit-Tokens"].
Definition tokenRemainingHeaders : list string := ["X-RateLimit-Remaining-Tokens"].
Definition tokenResetHeaders : list string := ["X-RateLimit-Reset-Tokens"].

Definition parseTokenCount (header : Header) (names : list string) : option Z :=
  let value := firstHeader header names in
  if value == "" then None else parse_uint (trim_space (before_char ";" value)).

Definition tokenResetDelay `{Readings} (header : Header) (now : Z) : option Z :=
  let value := firstHeader header tokenResetHeaders in
  if value == "" then None else numericResetDelay value now true.

Definition applyTokenHeaders `{Readings} (s : routeState) (header : Header) (now : Z)
    : routeState :=
  let s := match parseTokenCount header tokenLimitHeaders with
           | Some limit => set_rs_token limit (rs_remaining s) (rs_remainingAt s) (rs_resetAt s) s
           | None => s
           end in
  let s := match parseTokenCount header tokenRemainingHeaders with
           | Some remaining => set_rs_token (rs_tokenLimit s) (Some remaining) now (rs_resetAt s) s
           | None => s
           end in
  match tokenResetDelay header now with
  | Some delay =>
      set_rs_token (rs_tokenLimit s) (rs_remaining s) (rs_remainingAt s) (time_add now delay) s
  | None => s
  end.

Definition retryAfter `{Readings} (value : string) (now : Z) : option Z :=
  let value := trim_space value in
  if value == "" then None else
  match parse_seconds value with
  | Some seconds => Some (duration (seconds * Second))
  | None =>
      match parse_http_time value with
      | Some at_ => Some (Z.max (time_sub at_ now) 0)
      | None => None
      end
  end.

Definition resetDelay `{Readings} (header : Header) (now : Z) : option Z :=
  let value := trim_space (header "RateLimit-Reset") in
  if value != "" then numericResetDelay value now false else
  let value := trim_space (header "X-RateLimit-Reset") in
  if value != "" then numericResetDelay value now true else None.

Record RateLimitMetadata := mkMetadata {
  md_Limit : string; md_Remaining : string; md_Reset : string; md_RetryAfterMS : Z;
}.

Definition Metadata `{Readings} (header : Header) (now : Z) : option RateLimitMetadata :=
  let limit := firstHeader header ["RateLimit-Limit"; "X-RateLimit-Limit"] in
  let remaining := firstHeader header ["RateLimit-Remaining"; "X-RateLimit-Remaining"] in
  let reset := firstHeader header ["RateLimit-Reset"; "X-RateLimit-Reset"] in
  let delay :=
    match retryAfter (header "Retry-After") now with
    | Some delay => Some delay
    | None => if exhausted remaining then resetDelay header now else None
    end in
  let ms := match delay with Some delay => u64 (delay ÷ Millisecond) | None => 0 end in
  if (limit == "") && (remaining == "") && (reset == "") && (ms =? 0) then None
  else Some (mkMetadata limit remaining reset ms).

Definition retryDelay (metadata : option RateLimitMetadata) : Z :=
  match metadata with
  | None => 0
  | Some m =>
      if md_RetryAfterMS m =? 0 then 0
      else duration (duration (md_RetryAfterMS m) * Millisecond)
  end.

(** ** Pacing *)

Definition non_positive `{Readings} (requestsPerSecond : float) : bool :=
  fle requestsPerSecond (of_int 0).
Definition requestInterval `{Readings} (requestsPerSecond : float) : Z :=
  if non_positive requestsPerSecond then 0
  else to_int (fdiv (of_int Second) requestsPerSecond).

Definition hasTokenAdmissionState (s : routeState) : bool :=
  (0 <? rs_tokenLimit s) || bool_decide (rs_remaining s ≠ None)
  || negb (bool_decide (rs_commits s = [])) || negb (rs_resetAt s =? time_zero).

(** One turn of the loop of [Wait]: none when the request may go, otherwise how long
    the caller sleeps before the next turn. *)
Definition wait_turn `{Readings} (c : Controller) (key : string) (requestsPerSecond : float)
    (clock now : Z) : option Z * Controller :=
  let s := route_of c key clock in
  let interval := Z.max (requestInterval requestsPerSecond) (rs_penalty s) in
  if rs_nextRequest s <=? now then
    (None, <[key := set_rs_pace (time_add now interval) now (rs_penalty s) s]> c)
  else (Some (time_sub (rs_nextRequest s) now), <[key := s]> c).

Definition Remaining (c : Controller) (key : string) (now : Z) : Z :=
  match c !! key with
  | None => 0
  | Some s => let remaining := time_sub (rs_nextRequest s) now in
              if remaining <? 0 then 0 else remaining
  end.

(** The clock as [Observe] reads it: on entry, when it creates the route, for the time
    since the last request, and for the next one. *)
Record Clock := mkClock { ck_now : Z; ck_state : Z; ck_since : Z; ck_next : Z }.

Definition StatusTooManyRequests : Z := 429.
Definition StatusSwitchingProtocols : Z := 101.

Definition penalised `{Readings} (s : routeState) (rps : float) (k : Clock)
    (metadata : option RateLimitMetadata) : routeState :=
  let base := Z.max (time_sub (ck_since k) (rs_lastRequest s)) (requestInterval rps) in
  let asked := retryDelay metadata in
  let delay :=
    if asked <=? 0 then
      let base := if base <=? 0 then 1 else base in
      if 0 <? rs_penalty s then Z.max base (saturatingDouble (rs_penalty s)) else base
    else asked in
  set_rs_pace (later (rs_nextRequest s) (time_add (ck_next k) delay)) (rs_lastRequest s) delay s.

Definition succeeded `{Readings} (c : Controller) (key : string) (s : routeState) (rps : float)
    (k : Clock) (metadata : option RateLimitMetadata) : Controller :=
  let delay := retryDelay metadata in
  if 0 <? delay then
    <[key := set_rs_pace (later (rs_nextRequest s) (time_add (ck_next k) delay))
               (rs_lastRequest s) delay s]> c
  else
    let s := set_rs_pace
               (earlier (rs_nextRequest s) (time_add (ck_next k) (requestInterval rps)))
               (rs_lastRequest s) 0 s in
    if non_positive rps && negb (hasTokenAdmissionState s) then delete key c
    else <[key := s]> c.

(** [other_failure]: the error is a provider failure of another kind than a rate
    limit. The error [Observe] returns is not modelled. *)
Definition Observe `{Readings} (c : Controller) (key : string) (rps : float) (status : Z)
    (header : Header) (other_failure : bool) (k : Clock) : Controller :=
  let metadata := Metadata header (ck_now k) in
  if other_failure && (status =? StatusTooManyRequests) then c else
  let s := applyTokenHeaders (route_of c key (ck_state k)) header (ck_now k) in
  if status =? StatusTooManyRequests then <[key := penalised s rps k metadata]> c else
  if (status =? StatusSwitchingProtocols) || ((200 <=? status) && (status <? 300)) then
    succeeded c key s rps k metadata
  else <[key := s]> c.

(** ** Histories *)

(** A call of a controller. *)
Inductive call `{Readings} :=
  | CallDecide (key : string) (required limit now : Z)
  | CallTryReserve (key : string) (required limit now clock : Z)
  | CallReserve (key : string) (tokens now clock : Z)
  | CallObserve (key : string) (rps : float) (status : Z) (header : Header)
      (other_failure : bool) (k : Clock)
  | CallWait (key : string) (rps : float) (clock now : Z).

Definition perform `{Readings} (c : Controller) (o : call) : option Decision * Controller :=
  match o with
  | CallDecide key required limit now =>
      let '(d, c) := Decide c key required limit now in (Some d, c)
  | CallTryReserve key required limit now clock =>
      let '(d, c) := TryReserve c key required limit now clock in (Some d, c)
  | CallReserve key tokens now clock => (None, Reserve c key tokens now clock)
  | CallObserve key rps status header other k =>
      (None, Observe c key rps status header other k)
  | CallWait key rps clock now => (None, (wait_turn c key rps clock now).2)
  end.

Definition admits (d : option Decision) : bool :=
  match d with Some d => dn_Status d == StatusAdmit | None => false end.

(** The tokens a call takes from the window of [key], with the time. *)
Definition taken `{Readings} (key : string) (o : call) (d : option Decision) : list tokenCommit :=
  match o with
  | CallTryReserve k required _ now _ =>
      if (k == key) && admits d then [mkCommit required now] else []
  | _ => []
  end.

(** A history from the empty controller, with what it took from the window of
    [key]. *)
Inductive history `{Readings} (key : string) : list tokenCommit → list call → Controller → Prop :=
  | history_nil : history key [] [] ∅
  | history_call log calls c o d c' :
      history key log calls c → perform c o = (d, c') →
      history key (log ++ taken key o d) (calls ++ [o]) c'.

(** The tokens of [log] taken in the window that ends at [t]. *)
Definition in_window (t : Z) (log : list tokenCommit) : list tokenCommit :=
  filter (λ commit, t - TokenWindow < cm_at commit ≤ t) log.
Definition total (log : list tokenCommit) : Z := foldr (λ commit n, cm_tokens commit + n) 0 log.
