(* ===== verification/RateLimitLaws.v ===== *)
(** The theorems about rate limits: no window of sixty seconds admits more tokens than
    its limit, the announced wait is exact, and a route whose remaining count ran out
    stays closed. *)
From S2P Require Import Prelude.
From S2P Require Import GoStrings.
From S2P Require Import RateLimit.

(** ** Sums and windows *)

Lemma total_cons x l : total (x :: l) = cm_tokens x + total l.
Proof. done. Qed.

Lemma total_app l k : total (l ++ k) = total l + total k.
Proof. induction l as [|x l IH]; [done|]. cbn [app]. rewrite !total_cons, IH. lia. Qed.

Lemma sum_tokens_total l : sum_tokens l = u64 (total l).
Proof.
  unfold sum_tokens.
  enough (H : ∀ n, foldl (λ used commit, u64 (used + cm_tokens commit)) (u64 n) l = u64 (n + total l))
    by apply (H 0).
  induction l as [|x l IH]; intros n; cbn [foldl]; [by rewrite Z.add_0_r|].
  rewrite total_cons. unfold u64 at 2. unfold u64 at 2. rewrite Zplus_mod_idemp_l.
  fold (u64 (n + cm_tokens x)). rewrite IH. f_equal. lia.
Qed.

Definition counts (l : list tokenCommit) : Prop := Forall (λ commit, 0 ≤ cm_tokens commit) l.

Lemma total_nonneg l : counts l → 0 ≤ total l.
Proof. induction 1 as [|x l Hx Hl IH]; [done|]. rewrite total_cons. lia. Qed.

Lemma total_filter_le (P Q : tokenCommit → Prop)
    `{∀ x, base.Decision (P x)} `{∀ x, base.Decision (Q x)} l :
  counts l → (∀ x, x ∈ l → 0 < cm_tokens x → P x → Q x) → total (filter P l) ≤ total (filter Q l).
Proof.
  induction 1 as [|x l Hx Hl IH]; intros HPQ; [done|]. rewrite !filter_cons.
  assert (IH' : total (filter P l) ≤ total (filter Q l)).
  { apply IH. intros y Hy. apply HPQ. by right. }
  specialize (HPQ x (list_elem_of_here _ _)).
  repeat case_decide; rewrite ?total_cons; try lia.
  destruct (Z_lt_dec 0 (cm_tokens x)); [naive_solver|lia].
Qed.

Lemma counts_filter (P : tokenCommit → Prop) `{∀ x, base.Decision (P x)} l :
  counts l → counts (filter P l).
Proof. induction 1; [constructor|]. rewrite filter_cons. case_decide; [by constructor|done]. Qed.

(** ** One decision *)

Lemma prune_prune s now : prune (prune s now) now = prune s now.
Proof.
  unfold prune, pruneCommits, set_rs_commits. cbn. f_equal.
  rewrite list_filter_filter. apply list_filter_iff. tauto.
Qed.

Definition used_at (s : routeState) (now : Z) : Z := sum_tokens (rs_commits (prune s now)).

(** What is available of a limit [limit] at [now]. *)
Definition headroom (s : routeState) (limit now : Z) : Z :=
  let rolling := if used_at s now <? limit then limit - used_at s now else 0 in
  match rs_remaining s with
  | Some remaining => if used_at s now <? limit then
                        (if rolling <? remaining then rolling else remaining)
                      else 0
  | None => rolling
  end.

Lemma tokenAvailable_known s limit now :
  0 < limit →
  tokenAvailable (Some s) limit now = ((headroom s limit now, true), Some (prune s now)).
Proof.
  intros Hl. unfold tokenAvailable, headroom, committedTokens. cbn [mbind option_bind].
  fold (used_at s now). rewrite (proj2 (Z.ltb_lt _ _) Hl), (proj2 (Z.eqb_neq _ _)) by lia.
  destruct (rs_remaining s).
  - by destruct (used_at s now <? limit).
  - rewrite Z.leb_antisym. by destruct (used_at s now <? limit).
Qed.

Lemma tokenWait_state s required limit now :
  (tokenWait (Some (prune s now)) required limit now).2 = Some (prune s now).
Proof.
  unfold tokenWait, committedTokens. rewrite prune_prune.
  destruct (now <? _); [done|]. destruct (_ || _); [done|]. by destruct (_ <=? _).
Qed.

(** The decision on a known route under an operator's limit. *)
Lemma decide_route_known s required limit now :
  0 < limit →
  let r := decide_route (Some s) required limit now in
  r.2 = Some (prune s now) ∧ dn_Source r.1 = SourceOperator ∧
  (dn_Status r.1 = StatusAdmit ↔ required ≤ limit ∧ required ≤ headroom s limit now).
Proof.
  intros Hl. unfold decide_route, resolveTokenLimit. cbv zeta.
  rewrite (proj2 (Z.ltb_lt _ _) Hl), tokenAvailable_known, (proj2 (Z.ltb_lt _ _) Hl) by done.
  cbn [andb negb].
  destruct (Z.ltb_spec limit required); cbn [andb].
  { (split; [done|]; split; [done|]; cbn; split); [done|lia]. }
  destruct (Z.leb_spec required (headroom s limit now)).
  { (split; [done|]; split; [done|]; cbn; split); [lia|done]. }
  pose proof (tokenWait_state s required limit now) as Hs.
  destruct (tokenWait _ _ _ _) as [wait state]. cbn in Hs. subst.
  destruct (wait <=? 0); (split; [done|]; split; [done|]; cbn; split); done || lia.
Qed.

Lemma decide_route_new required limit now :
  0 < limit →
  let r := decide_route None required limit now in
  r.2 = None ∧ dn_Source r.1 = SourceOperator ∧
  (dn_Status r.1 = StatusAdmit ↔ required ≤ limit).
Proof.
  intros Hl. unfold decide_route, resolveTokenLimit, tokenAvailable, committedTokens, tokenWait.
  cbv zeta.
  rewrite (proj2 (Z.ltb_lt _ _) Hl), (proj2 (Z.eqb_neq _ _)), (proj2 (Z.leb_gt _ _) Hl) by lia.
  cbn [mbind option_bind]. rewrite (proj2 (Z.ltb_lt _ _) Hl). cbn [andb negb].
  destruct (Z.ltb_spec limit required).
  { (split; [done|]; split; [done|]; cbn; split); [done|lia]. }
  rewrite (proj2 (Z.leb_le _ _)) by lia. (split; [done|]; split; [done|]; cbn; split); [lia|done].
Qed.

(** ** Histories *)

Section paced.
Context `{Readings} (key : string) (L : Z).

(** When a call reads the window of the route. *)
Definition call_time (o : call) : option Z :=
  match o with
  | CallDecide k _ _ now | CallTryReserve k _ _ now _ => if k == key then Some now else None
  | _ => None
  end.

(** The calls on the route pass its limit [L] and do not reserve without asking. *)
Definition within_limit (o : call) : Prop :=
  match o with
  | CallDecide k required limit _ | CallTryReserve k required limit _ _ =>
      k = key → limit = L ∧ 0 ≤ required
  | CallReserve k _ _ _ => k ≠ key
  | _ => True
  end.

(** Such calls, at times that do not go back. *)
Definition paced (calls : list call) : Prop :=
  Forall within_limit calls ∧ StronglySorted Z.le (omap call_time calls).

Definition commits_of (c : Controller) : list tokenCommit :=
  match c !! key with Some s => rs_commits s | None => [] end.

(** The tokens of the window a controller keeps after it was read at [p]. *)
Definition kept (p : Z) (log : list tokenCommit) : list tokenCommit :=
  filter (λ commit, p - TokenWindow < cm_at commit ∧ 0 < cm_tokens commit) log.

Record window_invariant (log : list tokenCommit) (calls : list call) (c : Controller) : Prop := {
  wi_counts : counts log;
  wi_times : ∀ commit, commit ∈ log → cm_at commit ∈ omap call_time calls;
  wi_sorted : StronglySorted Z.le (cm_at <$> log);
  wi_bound : ∀ t, total (in_window t log) ≤ L;
  wi_kept : ∃ p, commits_of c = kept p log ∧ (log = [] ∨ p ∈ omap call_time calls);
}.

Lemma prune_kept p now log :
  p ≤ now → pruneCommits (kept p log) now = kept now log.
Proof.
  intros Hp. unfold pruneCommits, kept, time_add. rewrite list_filter_filter.
  apply list_filter_iff. intros x. lia.
Qed.

(** All that is kept of a log that ends before [now] is in the window of [now]. *)
Lemma kept_total now log :
  counts log → (∀ commit, commit ∈ log → cm_at commit ≤ now) →
  total (kept now log) = total (in_window now log).
Proof.
  intros Hc Hb. unfold kept, in_window.
  apply Z.le_antisymm; apply total_filter_le; auto; intros x Hx Hp; specialize (Hb x Hx); lia.
Qed.

Lemma in_window_later now t log :
  counts log → (∀ commit, commit ∈ log → cm_at commit ≤ now) → now ≤ t →
  total (in_window t log) ≤ total (in_window now log).
Proof.
  intros Hc Hb Ht. apply total_filter_le; auto. intros x Hx _. specialize (Hb x Hx). lia.
Qed.

(** Other calls leave the commits of the route alone. *)
Lemma commits_of_insert c k s :
  (k = key → rs_commits s = commits_of c) → commits_of (<[k := s]> c) = commits_of c.
Proof.
  intros Hs. unfold commits_of. destruct (String.eqb_spec k key) as [->|].
  - rewrite lookup_insert_eq. by rewrite Hs.
  - by rewrite lookup_insert_ne.
Qed.

Lemma commits_of_route c clock :
  rs_commits (route_of c key clock) = commits_of c.
Proof. unfold route_of, commits_of. by destruct (c !! key). Qed.

Lemma apply_headers_commits s header now :
  rs_commits (applyTokenHeaders s header now) = rs_commits s.
Proof. unfold applyTokenHeaders. by repeat case_match. Qed.

Lemma observe_commits c k rps status header other clk :
  commits_of (Observe c k rps status header other clk) = commits_of c.
Proof.
  unfold Observe, succeeded. destruct (_ && _); [done|].
  set (s := applyTokenHeaders _ _ _).
  assert (Hs : k = key → rs_commits s = commits_of c).
  { intros ->. unfold s. rewrite apply_headers_commits. apply commits_of_route. }
  assert (Hset : ∀ a b d, k = key → rs_commits (set_rs_pace a b d s) = commits_of c) by done.
  repeat case_match; try (apply commits_of_insert; auto; done).
  destruct (String.eqb_spec k key) as [->|].
  - rewrite <-Hs by done. unfold commits_of. rewrite lookup_delete_eq.
    match goal with E : _ && _ = true |- _ => apply andb_true_iff in E as [_ E] end.
    unfold hasTokenAdmissionState in *. cbn in *.
    destruct (rs_commits s); [done|].
    by rewrite ?orb_true_r in *.
  - unfold commits_of. by rewrite lookup_delete_ne.
Qed.

Lemma wait_commits c k rps clock now :
  commits_of (wait_turn c k rps clock now).2 = commits_of c.
Proof.
  unfold wait_turn. case_match; apply commits_of_insert; intros ->; apply commits_of_route.
Qed.

Lemma pruned_commits s now : rs_commits (prune s now) = pruneCommits (rs_commits s) now.
Proof. done. Qed.

Lemma decide_commits c required now :
  0 < L →
  commits_of (Decide c key required L now).2 = pruneCommits (commits_of c) now ∧
  dn_Source (Decide c key required L now).1 = SourceOperator.
Proof.
  intros HL. unfold Decide, decideLocked, commits_of at 2.
  destruct (c !! key) as [s|] eqn:E.
  - destruct (decide_route_known s required L now HL) as (Hs & Hsrc & _).
    destruct (decide_route _ _ _ _) as [d st]. cbn in *. subst st. split; [|done].
    unfold commits_of. cbn. by rewrite lookup_insert_eq.
  - destruct (decide_route_new required L now HL) as (Hs & Hsrc & _).
    destruct (decide_route _ _ _ _) as [d st]. cbn in *. subst st. split; [|done].
    unfold commits_of. cbn. by rewrite E.
Qed.

Lemma decide_other c k required limit now :
  k ≠ key → commits_of (Decide c k required limit now).2 = commits_of c.
Proof.
  intros Hk. unfold Decide, decideLocked.
  destruct (decide_route _ _ _ _) as [d [s|]]; cbn; [|done]. by apply commits_of_insert.
Qed.

Lemma reserve_other c k tokens now clock :
  k ≠ key → commits_of (reserveLocked c k tokens now clock) = commits_of c.
Proof. intros Hk. unfold reserveLocked. case_match; [done|]. by apply commits_of_insert. Qed.

Lemma reserve_commits c tokens now clock :
  0 < tokens →
  commits_of (reserveLocked c key tokens now clock)
  = pruneCommits (commits_of c) now ++ [mkCommit tokens now].
Proof.
  intros Ht. unfold reserveLocked, commits_of. rewrite (proj2 (Z.eqb_neq _ _)) by lia.
  rewrite lookup_insert_eq. unfold reserve_route, route_of.
  destruct (c !! key) as [s|]; cbn; [|done]. by destruct (rs_remaining s).
Qed.

(** An admitted call fits into what the window leaves. *)
Lemma decide_admits c required now :
  0 < L < 2 ^ 64 → 0 ≤ total (pruneCommits (commits_of c) now) ≤ L →
  dn_Status (Decide c key required L now).1 = StatusAdmit →
  required ≤ L - total (pruneCommits (commits_of c) now).
Proof.
  intros HL Hu. unfold Decide, decideLocked, commits_of in *.
  destruct (c !! key) as [s|] eqn:E.
  - destruct (decide_route_known s required L now) as (_ & _ & Ha); [lia|].
    destruct (decide_route _ _ _ _) as [d st]. cbn [fst] in *. intros Hd. apply Ha in Hd as [_ Hr].
    unfold headroom, used_at in Hr. rewrite sum_tokens_total, pruned_commits in Hr.
    unfold u64 in Hr. rewrite Z.mod_small in Hr by lia.
    destruct (rs_remaining s); [|case_match; lia].
    destruct (Z.ltb_spec (total (pruneCommits (rs_commits s) now)) L); [|lia].
    destruct (Z.ltb_spec (L - total (pruneCommits (rs_commits s) now)) z); lia.
  - destruct (decide_route_new required L now) as (_ & _ & Ha); [lia|].
    destruct (decide_route _ _ _ _) as [d st]. cbn [fst] in *. intros Hd. apply Ha in Hd. cbn. lia.
Qed.

(** A read of the window at a time that is not in the past. *)
Lemma window_after_read log calls c now :
  window_invariant log calls c → (∀ t, t ∈ omap call_time calls → t ≤ now) →
  (∀ commit, commit ∈ log → cm_at commit ≤ now) ∧
  pruneCommits (commits_of c) now = kept now log.
Proof.
  intros [Hc Ht _ _ (p & -> & Hp)] Hnow. split; [auto|].
  destruct Hp as [->|Hp]; [done|]. apply prune_kept. auto.
Qed.

Lemma total_window_snoc t log commit :
  total (in_window t (log ++ [commit]))
  = total (in_window t log)
    + (if decide (t - TokenWindow < cm_at commit ≤ t) then cm_tokens commit else 0).
Proof.
  unfold in_window. rewrite filter_app, total_app, filter_cons.
  case_decide; cbn; lia.
Qed.

(** The calls that do not touch the window of the route. *)
Lemma invariant_idle log calls c c' o :
  window_invariant log calls c → call_time o = None → commits_of c' = commits_of c →
  window_invariant log (calls ++ [o]) c'.
Proof.
  intros [Hc Ht Hs Hb Hk] Ho Hc'. assert (E : omap call_time (calls ++ [o]) = omap call_time calls).
  { rewrite omap_app. cbn. rewrite Ho. by rewrite app_nil_r. }
  split; [done|by rewrite E|done|done|by rewrite Hc', E].
Qed.

(** A read at [now] that takes nothing. *)
Lemma invariant_read log calls c c' o now :
  window_invariant log calls c → call_time o = Some now →
  (∀ t, t ∈ omap call_time calls → t ≤ now) →
  commits_of c' = pruneCommits (commits_of c) now →
  window_invariant log (calls ++ [o]) c'.
Proof.
  intros Hi Ho Hnow Hc'. destruct (window_after_read _ _ _ _ Hi Hnow) as [_ Hr].
  destruct Hi as [Hc Ht Hs Hb Hk].
  assert (E : omap call_time (calls ++ [o]) = omap call_time calls ++ [now]).
  { rewrite omap_app. cbn. by rewrite Ho. }
  split; [done| |done|done|].
  - intros x Hx. rewrite E. apply elem_of_app. auto.
  - exists now. rewrite Hc', Hr, E. split; [done|]. right. apply elem_of_app. right. by left.
Qed.

(** A read at [now] that takes [tokens]. *)
Lemma invariant_take log calls c c' o now tokens :
  window_invariant log calls c → call_time o = Some now →
  (∀ t, t ∈ omap call_time calls → t ≤ now) →
  0 ≤ tokens ≤ L - total (pruneCommits (commits_of c) now) →
  commits_of c' = pruneCommits (commits_of c) now
    ++ (if 0 <? tokens then [mkCommit tokens now] else []) →
  window_invariant (log ++ [mkCommit tokens now]) (calls ++ [o]) c'.
Proof.
  intros Hi Ho Hnow Ht Hc'. destruct (window_after_read _ _ _ _ Hi Hnow) as [Hle Hr].
  destruct Hi as [Hc Htm Hs Hb Hk]. rewrite Hr in Ht, Hc'.
  assert (E : omap call_time (calls ++ [o]) = omap call_time calls ++ [now]).
  { rewrite omap_app. cbn. by rewrite Ho. }
  rewrite kept_total in Ht by done. split.
  - apply Forall_app. split; [done|]. constructor; [cbn; lia|done].
  - intros x. rewrite E, !elem_of_app, !list_elem_of_singleton. intros [Hx| ->]; auto.
  - rewrite fmap_app. apply StronglySorted_app_2; [|done|repeat constructor].
    intros x y (commit & -> & Hx)%list_elem_of_fmap Hy. apply list_elem_of_singleton in Hy as ->.
    by apply Hle.
  - intros t. rewrite total_window_snoc. cbn. specialize (Hb t).
    case_decide; [|lia].
    pose proof (in_window_later now t log Hc Hle). lia.
  - exists now. rewrite Hc', E. split; [|right; apply elem_of_app; right; by left].
    unfold kept. rewrite filter_app, filter_cons. cbn. unfold TokenWindow, Minute, Second.
    destruct (Z.ltb_spec 0 tokens); case_decide; (done || lia).
Qed.

(** [TryReserve] on the route. *)
Lemma invariant_try log calls c r now clock d c' :
  0 < L < 2 ^ 64 → window_invariant log calls c → 0 ≤ r →
  (∀ t, t ∈ omap call_time calls → t ≤ now) →
  TryReserve c key r L now clock = (d, c') →
  window_invariant (log ++ taken key (CallTryReserve key r L now clock) (Some d))
    (calls ++ [CallTryReserve key r L now clock]) c'.
Proof.
  intros HL IH Hr Hnow Hp.
  assert (Ht : call_time (CallTryReserve key r L now clock) = Some now)
    by (cbn; by rewrite String.eqb_refl).
  destruct (window_after_read _ _ _ _ IH Hnow) as [Hb Hw].
  destruct (decide_commits c r now) as [Hc Hsrc]; [lia|].
  pose proof (decide_admits c r now HL) as Hadm.
  rewrite Hw, kept_total in Hadm by (done || apply IH).
  pose proof (wi_bound _ _ _ IH now).
  pose proof (total_nonneg (in_window now log) (counts_filter _ _ (wi_counts _ _ _ IH))).
  unfold TryReserve in Hp. fold (Decide c key r L now) in Hp.
  destruct (Decide c key r L now) as [dec cm]. cbn [fst snd] in *.
  rewrite Hsrc in Hp. cbn [negb String.eqb] in Hp. cbn [taken]. rewrite String.eqb_refl.
  destruct (String.eqb_spec (dn_Status dec) StatusAdmit) as [Ha|Ha]; cbn in Hp; simplify_eq;
    cbn [admits andb].
  - rewrite Ha. cbn [String.eqb]. specialize (Hadm ltac:(lia) Ha).
    eapply invariant_take; [done|exact Ht|exact Hnow| |].
    { rewrite Hw, kept_total by (done || apply IH). lia. }
    destruct (Z.ltb_spec 0 r).
    { rewrite reserve_commits, Hc by done. by rewrite Hw, prune_kept by lia. }
    unfold reserveLocked. rewrite (proj2 (Z.eqb_eq _ _)) by lia. by rewrite Hc, app_nil_r.
  - rewrite (proj2 (String.eqb_neq _ _) Ha), app_nil_r.
    by eapply invariant_read; [|exact Ht|exact Hnow|].
Qed.

Lemma history_invariant log calls c :
  0 < L < 2 ^ 64 → history key log calls c → paced calls → window_invariant log calls c.
Proof.
  intros HL. induction 1 as [|log calls c o d c' Hh IH Hp]; intros [Hfit Hsorted].
  { split; [constructor|intros x; inversion 1|constructor|intros t; cbn; lia|].
    exists 0. split; [done|by left]. }
  apply Forall_app in Hfit as [Hfit Ho]. rewrite Forall_singleton in Ho.
  rewrite omap_app in Hsorted. apply StronglySorted_app in Hsorted as (Hle & Hsorted & _).
  specialize (IH (conj Hfit Hsorted)).
  assert (Hnow : ∀ now, call_time o = Some now → ∀ t, t ∈ omap call_time calls → t ≤ now).
  { intros now E t Ht. apply Hle; [done|]. cbn. rewrite E. by left. }
  destruct o as [k r lim now|k r lim now clock|k tokens now clock|k rps st hd other clk|k rps clock now];
    cbn [perform taken within_limit] in *; rewrite ?app_nil_r.
  - destruct (String.eqb_spec k key) as [->|Hk].
    + destruct (Ho eq_refl) as [-> _]. destruct (decide_commits c r now) as [Hc _]; [lia|].
      destruct (Decide _ _ _ _ _). simplify_eq.
      eapply invariant_read; [done| |eapply Hnow|exact Hc]; cbn; by rewrite String.eqb_refl.
    + pose proof (decide_other c k r lim now Hk). destruct (Decide _ _ _ _ _). simplify_eq.
      eapply invariant_idle; [done| |done]. cbn. by rewrite (proj2 (String.eqb_neq _ _) Hk).
  - destruct (String.eqb_spec k key) as [->|Hk].
    + destruct (Ho eq_refl) as [-> Hr].
      destruct (TryReserve _ _ _ _ _ _) as [dec cm] eqn:E. simplify_eq.
      pose proof (invariant_try _ _ _ _ _ _ _ _ HL IH Hr (Hnow now ltac:(cbn; by rewrite String.eqb_refl)) E)
        as Hi. cbn [taken] in Hi. by rewrite String.eqb_refl in Hi.
    + cbn [andb]. rewrite app_nil_r. eapply invariant_idle; [done|cbn; by rewrite (proj2 (String.eqb_neq _ _) Hk)|].
      unfold TryReserve in Hp. pose proof (decide_other c k r lim now Hk) as Hc. unfold Decide in Hc.
      destruct (decideLocked _ _ _ _ _) as [dec cm]. cbn in Hc.
      destruct (_ && _); simplify_eq; [by rewrite reserve_other|done].
  - simplify_eq. eapply invariant_idle; [done|done|]. by apply reserve_other.
  - simplify_eq. eapply invariant_idle; [done|done|]. apply observe_commits.
  - simplify_eq. eapply invariant_idle; [done|done|]. apply wait_commits.
Qed.
End paced.

(** ** The announced wait *)

Lemma release_loop_spec l cutoff now need released earliest :
  counts l → (∀ x, x ∈ l → cutoff ≤ cm_at x) → 0 ≤ released < need →
  need ≤ released + total l < 2 ^ 64 →
  ∃ l1 x l2, l = l1 ++ x :: l2 ∧ released + total l1 < need ≤ released + total l1 + cm_tokens x ∧
    release_loop l cutoff now need released earliest
    = Z.max (time_sub (time_add (cm_at x) TokenWindow) now) 0.
Proof.
  intros Hc. revert released earliest. induction Hc as [|x l Hx Hl IH]; intros released earliest Hcut Hr Hn.
  { cbn in Hn. lia. }
  rewrite total_cons in Hn. pose proof (total_nonneg l Hl). cbn [release_loop].
  rewrite (proj2 (Z.ltb_ge _ _)) by (apply Hcut; by left).
  assert (Hu : u64 (released + cm_tokens x) = released + cm_tokens x).
  { unfold u64. rewrite Z.mod_small; lia. }
  rewrite Hu. destruct (Z.leb_spec need (released + cm_tokens x)).
  - exists [], x, l. cbn. split_and!; [done|lia|lia|done].
  - destruct (IH (released + cm_tokens x)
      (Some (match earliest with
             | Some e => if time_add (cm_at x) TokenWindow <? e
                         then time_add (cm_at x) TokenWindow else e
             | None => time_add (cm_at x) TokenWindow end))) as (l1 & y & l2 & -> & Hb & E);
      [intros y Hy; apply Hcut; by right|lia|lia|].
    exists (x :: l1), y, l2. rewrite total_cons. split_and!; [done|lia|lia|done].
Qed.

(** A route under an operator's limit without provider data: its commits in the order of
    their times, none later than [now]. *)
Record plain_route (s : routeState) (now : Z) : Prop := {
  pr_remaining : rs_remaining s = None;
  pr_resetAt : rs_resetAt s ≤ now;
  pr_counts : counts (rs_commits s);
  pr_sorted : StronglySorted Z.le (cm_at <$> rs_commits s);
  pr_past : ∀ x, x ∈ rs_commits s → cm_at x ≤ now;
}.

Lemma sorted_split (l1 l2 : list tokenCommit) x :
  StronglySorted Z.le (cm_at <$> l1 ++ x :: l2) →
  (∀ y, y ∈ l1 → cm_at y ≤ cm_at x) ∧ (∀ y, y ∈ l2 → cm_at x ≤ cm_at y).
Proof.
  rewrite fmap_app, fmap_cons. intros (H12 & _ & H2)%StronglySorted_app.
  apply StronglySorted_cons in H2 as [H2 _]. rewrite Forall_forall in H2. split; intros y Hy.
  - apply H12; [by apply list_elem_of_fmap_2|by left].
  - apply H2. by apply list_elem_of_fmap_2.
Qed.

(** The window at a later time, once the commits up to [x] are what has to expire. *)
Lemma later_window (l1 l2 : list tokenCommit) x t :
  counts (l1 ++ x :: l2) → StronglySorted Z.le (cm_at <$> l1 ++ x :: l2) →
  let used := total (pruneCommits (l1 ++ x :: l2) t) in
  (cm_at x + TokenWindow ≤ t → used ≤ total l2) ∧
  (t < cm_at x + TokenWindow → cm_tokens x + total l2 ≤ used).
Proof.
  intros Hc Hs used. destruct (sorted_split _ _ _ Hs) as [H1 H2].
  apply Forall_app in Hc as [Hc1 Hc2]. apply Forall_cons in Hc2 as [Hx Hc2].
  unfold used, pruneCommits, time_add. rewrite filter_app, filter_cons, total_app.
  assert (Hall : total l2 = total (filter (λ _, True) l2)).
  { f_equal. clear. induction l2 as [|y l IH]; [done|]. rewrite filter_cons.
    case_decide; [by f_equal|tauto]. }
  split; intros Ht.
  - assert (Hle : total (filter (λ y, t + - TokenWindow < cm_at y) l2) ≤ total l2).
    { rewrite Hall. apply total_filter_le; auto. }
    assert (Hz : filter (λ y, t + - TokenWindow < cm_at y) l1 = []).
    { clear -H1 Ht. induction l1 as [|y l IH]; [done|]. rewrite filter_cons.
      rewrite decide_False by (specialize (H1 y (list_elem_of_here _ _)); lia).
      apply IH. intros z Hz. apply H1. by right. }
    rewrite Hz, decide_False by lia. cbn. lia.
  - rewrite decide_True by lia. rewrite total_cons.
    pose proof (total_nonneg _ (counts_filter (λ y, t + - TokenWindow < cm_at y) l1 Hc1)).
    enough (total l2 ≤ total (filter (λ y, t + - TokenWindow < cm_at y) l2)) by lia.
    rewrite Hall. apply total_filter_le; auto. intros y Hy _ _. specialize (H2 y Hy). lia.
Qed.

(** The decision on such a route. *)
Lemma plain_decision s required L now :
  plain_route s now → 0 < L → 0 ≤ required →
  total (pruneCommits (rs_commits s) now) + required < 2 ^ 64 →
  let used := total (pruneCommits (rs_commits s) now) in
  let d := (decide_route (Some s) required L now).1 in
  if decide (L < required) then dn_Status d = StatusRefuse else
  if decide (required = 0 ∨ used + required ≤ L) then dn_Status d = StatusAdmit else
  used + required > L ∧ dn_Status d =
    (if dn_Wait d <=? 0 then StatusRefuse else StatusWait) ∧
  dn_Wait d = release_loop (pruneCommits (rs_commits s) now) (now - TokenWindow) now
                (used + required - L) 0 None.
Proof.
  intros [Hrem Hreset Hc Hs Hp] HL Hr Hu used d.
  pose proof (total_nonneg _ (counts_filter (λ x, time_add now (- TokenWindow) < cm_at x) _ Hc)) as Hn.
  fold (pruneCommits (rs_commits s) now) in Hn.
  assert (Eused : used_at s now = used).
  { unfold used_at. rewrite sum_tokens_total, pruned_commits. unfold u64. by rewrite Z.mod_small by lia. }
  destruct (decide_route_known s required L now HL) as (_ & _ & Hadm). fold d in Hadm.
  unfold headroom in Hadm. rewrite Hrem, Eused in Hadm.
  case_decide as HLr.
  { unfold d, decide_route, resolveTokenLimit.
    rewrite (proj2 (Z.ltb_lt _ _) HL), tokenAvailable_known, (proj2 (Z.ltb_lt _ _) HL) by done.
    cbn [andb negb]. by rewrite (proj2 (Z.ltb_lt _ _) HLr). }
  case_decide as Hfit.
  { apply Hadm. destruct (Z.ltb_spec used L); lia. }
  split; [lia|]. unfold d, decide_route, resolveTokenLimit.
  rewrite (proj2 (Z.ltb_lt _ _) HL), tokenAvailable_known, (proj2 (Z.ltb_lt _ _) HL) by done.
  cbn [andb negb]. rewrite (proj2 (Z.ltb_ge _ _)) by lia.
  rewrite (proj2 (Z.leb_gt _ _)); cycle 1.
  { unfold headroom. rewrite Hrem, Eused. destruct (Z.ltb_spec used L); lia. }
  unfold tokenWait, committedTokens. rewrite prune_prune. cbn [rs_resetAt prune set_rs_commits].
  rewrite (proj2 (Z.ltb_ge now (rs_resetAt s)) Hreset).
  rewrite (proj2 (Z.eqb_neq L 0)), (proj2 (Z.eqb_neq required 0)) by lia.
  cbn [orb rs_commits]. fold (used_at s now). rewrite Eused.
  assert (E1 : u64 (used + required) = used + required) by (unfold u64; rewrite Z.mod_small; lia).
  assert (E2 : u64 (used + required - L) = used + required - L) by (unfold u64; rewrite Z.mod_small; lia).
  rewrite E1, E2, (proj2 (Z.leb_gt _ _)) by lia. unfold time_add. rewrite Z.add_opp_r.
  set (w := release_loop _ _ _ _ _ _).
  destruct (w <=? 0) eqn:Ew; cbn [fst dn_Status dn_Wait]; by rewrite Ew.
Qed.

Lemma sorted_filter (P : tokenCommit → Prop) `{∀ x, base.Decision (P x)} l :
  StronglySorted Z.le (cm_at <$> l) → StronglySorted Z.le (cm_at <$> filter P l).
Proof.
  induction l as [|x l IH]; [done|]. rewrite fmap_cons. intros [Hx Hl]%StronglySorted_cons.
  rewrite filter_cons. case_decide; [|auto]. rewrite fmap_cons. apply StronglySorted_cons.
  split; [|auto]. rewrite Forall_forall in *. intros y (z & -> & Hz)%list_elem_of_fmap.
  apply Hx. apply list_elem_of_fmap_2. by apply list_elem_of_filter in Hz as [_ Hz].
Qed.

Lemma wait_is_exact s required L now :
  plain_route s now → 0 < L → 0 ≤ required →
  total (pruneCommits (rs_commits s) now) + required < 2 ^ 64 →
  let d := (decide_route (Some s) required L now).1 in
  (dn_Status d = StatusRefuse ↔ L < required) ∧
  (dn_Status d = StatusWait → 0 < dn_Wait d ≤ TokenWindow ∧
     ∀ t, now ≤ t → (dn_Status (decide_route (Some (prune s now)) required L t).1 = StatusAdmit
                     ↔ now + dn_Wait d ≤ t)).
Proof.
  intros Hs HL Hr Hu d. pose proof (plain_decision s required L now Hs HL Hr Hu) as Hd.
  cbv zeta in Hd. fold d in Hd.
  destruct Hs as [Hrem Hreset Hc Hsorted Hp].
  set (pr := pruneCommits (rs_commits s) now) in *.
  assert (Hcp : counts pr) by (by apply counts_filter).
  assert (Hsp : StronglySorted Z.le (cm_at <$> pr)) by (by apply sorted_filter).
  case_decide as HLr; [rewrite Hd; split; [by split|discriminate]|].
  case_decide as Hfit; [rewrite Hd; split; [split; [discriminate|lia]|discriminate]|].
  destruct Hd as (Hover & Hst & Hw).
  destruct (release_loop_spec pr (now - TokenWindow) now (total pr + required - L) 0 None)
    as (l1 & x & l2 & El & Hneed & Eloop); [done| |lia|lia|].
  { intros y Hy. apply list_elem_of_filter in Hy as [Hy _]. unfold time_add in Hy. lia. }
  assert (Hx : x ∈ pr) by (rewrite El; apply elem_of_app; right; by left).
  apply list_elem_of_filter in Hx as [Hx1 Hx2]. apply Hp in Hx2. unfold time_add in Hx1.
  assert (Ew : dn_Wait d = cm_at x + TokenWindow - now).
  { rewrite Hw, Eloop. unfold time_sub, time_add, max_duration, TokenWindow, Minute, Second in *. lia. }
  rewrite (proj2 (Z.leb_gt (dn_Wait d) 0)) in Hst by lia.
  rewrite Hst. split; [split; [discriminate|lia]|]. intros _. split; [lia|]. intros t Ht.
  destruct (decide_route_known (prune s now) required L t HL) as (_ & _ & ->).
  unfold headroom, used_at. rewrite sum_tokens_total, pruned_commits. cbn [rs_remaining prune set_rs_commits].
  rewrite Hrem, pruned_commits. fold pr.
  pose proof Hcp as Hcp'. rewrite El in Hcp', Hsp.
  destruct (later_window l1 l2 x t Hcp' Hsp) as [Hafter Hbefore].
  rewrite <-El in Hafter, Hbefore. set (ut := total (pruneCommits pr t)) in *.
  assert (Hut : 0 ≤ ut ≤ total pr).
  { split; [by apply total_nonneg, counts_filter|].
    assert (Hid : total pr = total (filter (λ _, True) pr)).
    { f_equal. clear. induction pr as [|y l IH]; [done|]. rewrite filter_cons.
      case_decide; [by f_equal|tauto]. }
    rewrite Hid. by apply total_filter_le. }
  assert (Eu : u64 ut = ut) by (unfold u64; rewrite Z.mod_small; lia). rewrite Eu.
  assert (Htot : total pr = total l1 + (cm_tokens x + total l2)).
  { rewrite El, total_app, total_cons. done. }
  destruct (Z_lt_le_dec t (cm_at x + TokenWindow)) as [Hlt|Hge].
  - specialize (Hbefore Hlt). destruct (Z.ltb_spec ut L); lia.
  - specialize (Hafter Hge). destruct (Z.ltb_spec ut L); lia.
Qed.

(** ** The theorems *)

(** C28: Whatever calls are made on a controller, responses observed between them included,
    as long as its callers pass the limit [L] of a route and clocks that do not go back,
    the tokens admitted on the route in any window of sixty seconds stay within [L]. *)
Theorem window_admits_at_most_limit `{Readings} (key : string) (L : Z) log calls c (t : Z) :
  0 < L < 2 ^ 64 → history key log calls c → paced key L calls →
  total (in_window t log) ≤ L.
Proof. intros HL Hh Hp. by apply (history_invariant key L log calls c HL Hh Hp). Qed.

(** C29: On a route of which the provider reported no remaining count and no
    later reset, a request is refused exactly when it exceeds the limit; otherwise, when it has to
    wait, the announced wait is at most the window, and repeated at any later time it is admitted
    exactly from the announced time on. *)
Theorem announced_wait_is_exact `{Readings} (key : string) (L : Z) log calls c s required now d c' :
  0 < L < 2 ^ 63 → history key log calls c → paced key L calls →
  (∀ t, t ∈ omap (call_time key) calls → t ≤ now) →
  c !! key = Some s → rs_remaining s = None → rs_resetAt s ≤ now →
  0 ≤ required < 2 ^ 63 → Decide c key required L now = (d, c') →
  (dn_Status d = StatusRefuse ↔ L < required) ∧
  (dn_Status d = StatusWait → 0 < dn_Wait d ≤ TokenWindow ∧
     ∀ t, now ≤ t →
       (dn_Status (Decide c' key required L t).1 = StatusAdmit ↔ now + dn_Wait d ≤ t)).
Proof.
  intros HL Hh Hp Hnow Hc Hrem Hreset Hr Hd.
  pose proof (history_invariant key L log calls c ltac:(lia) Hh Hp) as Hi.
  destruct (window_after_read _ _ _ _ _ _ Hi Hnow) as [Hb Hw].
  destruct Hi as [Hcnt _ Hsorted Hbound (p & Hk & Hpp)].
  assert (Ec : commits_of key c = rs_commits s) by (unfold commits_of; by rewrite Hc).
  rewrite Ec in Hw, Hk.
  assert (Hplain : plain_route s now).
  { split; [done|done|..]; rewrite Hk; unfold kept.
    - by apply counts_filter.
    - by apply sorted_filter.
    - intros x Hx. apply list_elem_of_filter in Hx as [_ Hx]. auto. }
  assert (Htot : total (pruneCommits (rs_commits s) now) ≤ L).
  { rewrite Hw, kept_total by done. apply Hbound. }
  pose proof (wait_is_exact s required L now Hplain ltac:(lia) ltac:(lia) ltac:(lia)) as Hex.
  destruct (decide_route_known s required L now ltac:(lia)) as (Hst & _ & _).
  unfold Decide, decideLocked in Hd. rewrite Hc in Hd.
  destruct (decide_route (Some s) required L now) as [d0 st]. cbn [fst snd] in *. subst st.
  simplify_eq. destruct Hex as [Hrefuse Hwait]. split; [done|]. intros Hdw.
  destruct (Hwait Hdw) as [Hpos Ht]. split; [done|]. intros t Htn. rewrite <-(Ht t Htn).
  unfold Decide, decideLocked. cbn [store_route]. rewrite lookup_insert_eq.
  by destruct (decide_route (Some (prune s now)) required L t).
Qed.

Lemma committed_remaining s now :
  rs_remaining <$> (committedTokens (Some s) now).2 = Some (rs_remaining s).
Proof. done. Qed.

(** A decision on a route whose remaining count is known. *)
Lemma decide_route_remaining s r required limit now :
  rs_remaining s = Some r → 0 ≤ r →
  let d := decide_route (Some s) required limit now in
  (dn_Status d.1 = StatusAdmit → required ≤ r) ∧ rs_remaining <$> d.2 = Some (Some r).
Proof.
  intros Hr Hpos. unfold decide_route.
  destruct (resolveTokenLimit limit (Some s)) as [lim source].
  assert (Hav : ∃ a st, tokenAvailable (Some s) lim now = ((a, true), Some st)
                ∧ a ≤ r ∧ rs_remaining st = Some r).
  { unfold tokenAvailable, committedTokens. cbn [mbind option_bind]. rewrite Hr.
    destruct (0 <? lim); [|eauto with lia].
    destruct (_ <? lim); [|by eauto with lia].
    eexists _, _. split; [done|]. split; [|done]. case_match; lia. }
  destruct Hav as (a & st & -> & Ha & Hst). cbn [andb negb].
  assert (Hwait : rs_remaining <$> (tokenWait (Some st) required lim now).2 = Some (Some r)).
  { unfold tokenWait, committedTokens. destruct (now <? _); [by cbn; rewrite Hst|].
    destruct (_ || _); [by cbn; rewrite Hst|]. destruct (_ <=? lim); by cbn; rewrite Hst. }
  destruct (_ && _). { cbn. rewrite Hst. split; [discriminate|done]. }
  destruct (Z.leb_spec required a). { cbn. rewrite Hst. split; [lia|done]. }
  destruct (tokenWait _ _ _ _) as [w st']. cbn in Hwait.
  destruct (w <=? 0); cbn; rewrite Hwait; (split; [discriminate|done]).
Qed.

Section starved.
Context `{Readings} (key : string).

(** No response to a request of the route reports a remaining count. *)
Definition no_news (o : call) : Prop :=
  match o with
  | CallObserve k _ _ header _ _ => k = key → parseTokenCount header tokenRemainingHeaders = None
  | CallTryReserve _ tokens _ _ _ | CallReserve _ tokens _ _ => 0 ≤ tokens
  | _ => True
  end.

(** The controller after the calls. *)
Definition after_calls (c : Controller) (calls : list call) : Controller :=
  foldl (λ c o, (perform c o).2) c calls.

Definition at_most (c : Controller) (r : Z) : Prop :=
  ∃ s r', c !! key = Some s ∧ rs_remaining s = Some r' ∧ 0 ≤ r' ≤ r.

Lemma at_most_other c k s r : k ≠ key → at_most c r → at_most (<[k := s]> c) r.
Proof. intros Hk (s' & r' & Hs & ?). exists s', r'. by rewrite lookup_insert_ne. Qed.

Lemma at_most_insert c s r r' : rs_remaining s = Some r' → 0 ≤ r' ≤ r → at_most (<[key := s]> c) r.
Proof. intros. exists s, r'. by rewrite lookup_insert_eq. Qed.

Lemma at_most_decide c k required limit now r :
  at_most c r → at_most (decideLocked c k required limit now).2 r.
Proof.
  intros Hc. unfold decideLocked. destruct (String.eqb_spec k key) as [->|Hk].
  - destruct Hc as (s & r' & Hs & Hr & Hb). rewrite Hs.
    destruct (decide_route_remaining s r' required limit now Hr ltac:(lia)) as [_ Hd].
    destruct (decide_route _ _ _ _) as [d [s'|]]; cbn in Hd; simplify_eq.
    by apply (at_most_insert _ _ _ r').
  - destruct (decide_route _ _ _ _) as [d [s'|]]; cbn; [by apply at_most_other|done].
Qed.

Lemma at_most_reserve c k tokens now clock r :
  0 ≤ tokens → at_most c r → at_most (reserveLocked c k tokens now clock) r.
Proof.
  intros Ht Hc. unfold reserveLocked. case_match; [done|].
  destruct (String.eqb_spec k key) as [->|Hk]; [|by apply at_most_other].
  destruct Hc as (s & r' & Hs & Hr & Hb). unfold route_of, reserve_route. rewrite Hs. cbn. rewrite Hr.
  eapply at_most_insert; [done|]. destruct (Z.ltb_spec tokens r'); lia.
Qed.

Lemma apply_headers_remaining s header now :
  parseTokenCount header tokenRemainingHeaders = None →
  rs_remaining (applyTokenHeaders s header now) = rs_remaining s.
Proof. intros Hn. unfold applyTokenHeaders. rewrite Hn. by repeat case_match. Qed.

Lemma at_most_observe c k rps status header other clk r :
  (k = key → parseTokenCount header tokenRemainingHeaders = None) → at_most c r →
  at_most (Observe c k rps status header other clk) r.
Proof.
  intros Hn Hc. unfold Observe, succeeded. destruct (_ && _); [done|].
  destruct (String.eqb_spec k key) as [->|Hk].
  - destruct Hc as (s & r' & Hs & Hr & Hb). specialize (Hn eq_refl).
    unfold route_of. rewrite Hs. change (default _ (Some s)) with s.
    set (s' := applyTokenHeaders s header (ck_now clk)).
    assert (Hr' : rs_remaining s' = Some r') by (unfold s'; by rewrite apply_headers_remaining).
    assert (Hset : ∀ a b d, rs_remaining (set_rs_pace a b d s') = Some r') by done.
    repeat case_match; try (eapply at_most_insert; [apply Hset || exact Hr'|done]).
    exfalso.
    match goal with E : _ && negb (hasTokenAdmissionState _) = true |- _ =>
      apply andb_true_iff in E as [_ E]; unfold hasTokenAdmissionState in E;
      cbn [rs_remaining set_rs_pace] in E; rewrite Hr', bool_decide_true, orb_true_r in E by done
    end. done.
  - repeat case_match; try (by apply at_most_other).
    destruct Hc as (s & r' & Hs & ?). exists s, r'. by rewrite lookup_delete_ne.
Qed.

Lemma at_most_wait c k rps clock now r : at_most c r → at_most (wait_turn c k rps clock now).2 r.
Proof.
  intros Hc. unfold wait_turn. destruct (String.eqb_spec k key) as [->|Hk].
  - destruct Hc as (s & r' & Hs & Hr & Hb). unfold route_of. rewrite Hs. cbn [default].
    case_match; by apply (at_most_insert _ _ _ r').
  - case_match; by apply at_most_other.
Qed.

Lemma at_most_calls calls c r : Forall no_news calls → at_most c r → at_most (after_calls c calls) r.
Proof.
  intros Hn. revert c. induction Hn as [|o calls Ho _ IH]; intros c Hc; [done|]. cbn. apply IH.
  destruct o; cbn in *.
  - unfold Decide. pose proof (at_most_decide c key0 required limit now r Hc) as Hd.
    by destruct (decideLocked _ _ _ _ _).
  - unfold TryReserve. pose proof (at_most_decide c key0 required limit now r Hc) as Hd.
    destruct (decideLocked _ _ _ _ _) as [d c']. cbn in Hd.
    destruct (_ && _); cbn; [by apply at_most_reserve|done].
  - by apply at_most_reserve.
  - by apply at_most_observe.
  - by apply at_most_wait.
Qed.

(** Once a provider reported that [r] tokens remain on a route, no request of more than
    [r] tokens is admitted until a response reports a new count, at whatever
    time, under whatever limit, and however long the announced reset has passed. *)
Theorem exhausted_route_stays_closed c calls s r required limit now :
  c !! key = Some s → rs_remaining s = Some r → 0 ≤ r < required →
  Forall no_news calls →
  dn_Status (Decide (after_calls c calls) key required limit now).1 ≠ StatusAdmit.
Proof.
  intros Hs Hr Hb Hn.
  destruct (at_most_calls calls c r Hn) as (s' & r' & Hs' & Hr' & Hb').
  { exists s, r. split_and!; [done|done|lia|lia]. }
  unfold Decide, decideLocked. rewrite Hs'.
  destruct (decide_route_remaining s' r' required limit now Hr' ltac:(lia)) as [Hd _].
  destruct (decide_route _ _ _ _) as [d st]. cbn in *. intros E. apply Hd in E. lia.
Qed.
End starved.

(** ** Concrete histories *)

(** The history of a list of calls. *)
Definition record `{Readings} (key : string) (calls : list call) : list tokenCommit * Controller :=
  foldl (λ '(log, c) o, let '(d, c') := perform c o in (log ++ taken key o d, c')) ([], ∅) calls.

Lemma history_record `{Readings} key calls :
  history key (record key calls).1 calls (record key calls).2.
Proof.
  induction calls as [|o calls IH] using rev_ind; [constructor|].
  unfold record in *. rewrite foldl_app. cbn.
  destruct (foldl _ _ calls) as [log c]. cbn in IH.
  destruct (perform c o) as [d c'] eqn:E. by eapply history_call.
Qed.

Definition sample_readings : Readings := {|
  float := Z;
  parse_float := parse_uint;
  of_int n := n;
  to_int n := n;
  fsub := Z.sub;
  fmul := Z.mul;
  fdiv := Z.div;
  fabs := Z.abs;
  flt := Z.ltb;
  fle := Z.leb;
  parse_http_time value := None;
|}.
#[local] Existing Instance sample_readings.

Definition no_header : Header := λ _, "".
Definition spent_header : Header := λ name,
  if name == "X-RateLimit-Remaining-Tokens" then "1000"
  else if name == "X-RateLimit-Reset-Tokens" then "60" else "".

Definition sample_calls : list call :=
  [CallTryReserve "route" 400000 500000 0 0;
   CallObserve "route" (0 : @float sample_readings) 200 no_header false (mkClock 1 1 1 1);
   CallTryReserve "route" 200000 500000 (10 * Second) 0;
   CallDecide "other" 1 2 5;
   CallTryReserve "route" 200000 500000 (60 * Second) 0].

Lemma sample_paced : paced "route" 500000 sample_calls.
Proof.
  split.
  - unfold sample_calls. repeat constructor; done.
  - vm_compute. repeat constructor; done.
Qed.

Example sample_log :
  (record "route" sample_calls).1 = [mkCommit 400000 0; mkCommit 200000 (60 * Second)].
Proof. vm_compute. reflexivity. Qed.

Theorem window_admits_at_most_limit_witness :
  total (in_window (60 * Second) (record "route" sample_calls).1) ≤ 500000.
Proof.
  exact (window_admits_at_most_limit "route" 500000 _ _ _ (60 * Second) ltac:(lia)
    (history_record "route" sample_calls) sample_paced).
Defined.

Definition sample_route : routeState :=
  mkRoute time_zero 0 0 [mkCommit 400000 0] 0 None time_zero time_zero.

Definition first_calls : list call := take 3 sample_calls.

Lemma first_paced : paced "route" 500000 first_calls.
Proof.
  split.
  - unfold first_calls, sample_calls. cbn. repeat constructor; done.
  - vm_compute. repeat constructor; done.
Qed.

Lemma first_times t : t ∈ omap (call_time "route") first_calls → t ≤ 20 * Second.
Proof.
  intros Ht. assert (E : omap (call_time "route") first_calls = [0; 10 * Second]) by done.
  rewrite E in Ht. unfold Second in *. set_solver by lia.
Qed.

Lemma first_route : (record "route" first_calls).2 !! "route" = Some sample_route.
Proof. vm_compute. reflexivity. Qed.

Lemma sample_reset : rs_resetAt sample_route ≤ 20 * Second.
Proof. discriminate. Qed.

Definition first_decision : Decision * Controller :=
  Decide (record "route" first_calls).2 "route" 200000 500000 (20 * Second).

(** Twenty seconds into the window, a request that does not fit waits forty more. *)
Theorem announced_wait_is_exact_witness :
  dn_Status first_decision.1 = StatusWait ∧ dn_Wait first_decision.1 = 40 * Second ∧
  dn_Status (Decide first_decision.2 "route" 200000 500000 (60 * Second)).1 = StatusAdmit ∧
  dn_Status (Decide first_decision.2 "route" 200000 500000 (60 * Second - 1)).1 ≠ StatusAdmit.
Proof.
  assert (Hd : dn_Status first_decision.1 = StatusWait) by (vm_compute; reflexivity).
  assert (Hw : dn_Wait first_decision.1 = 40 * Second) by (vm_compute; reflexivity).
  destruct (announced_wait_is_exact "route" 500000 _ _ _ sample_route 200000 (20 * Second)
    first_decision.1 first_decision.2 ltac:(lia) (history_record "route" first_calls)
    first_paced first_times first_route eq_refl sample_reset ltac:(lia) (surjective_pairing _)) as [_ Hexact].
  destruct (Hexact Hd) as [_ Hthen]. rewrite Hw in Hthen. split; [done|]. split; [done|]. split.
  - apply Hthen; unfold Second; lia.
  - rewrite Hthen; unfold Second; lia.
Defined.

Definition start : Z := 10 ^ 18.
Definition spent : Controller :=
  Observe ∅ "route" (0 : @float sample_readings) 200 spent_header false
    (mkClock start start start start).

Definition spent_route : routeState :=
  mkRoute time_zero start 0 [] 0 (Some 1000) start (start + 60 * Second).
Lemma spent_lookup : spent !! "route" = Some spent_route.
Proof. vm_compute. reflexivity. Qed.

(** A year after the announced reset the route still refuses. *)
Theorem exhausted_route_stays_closed_witness :
  dn_Status (Decide (after_calls spent [CallWait "route" (0 : @float sample_readings) 1 1]) "route" 2000 500000
    (start + 365 * 24 * 3600 * Second)).1 ≠ StatusAdmit.
Proof.
  apply (exhausted_route_stays_closed "route" spent [CallWait "route" (0 : @float sample_readings) 1 1] spent_route
    1000 2000 500000 (start + 365 * 24 * 3600 * Second) spent_lookup eq_refl); [lia|by repeat constructor].
Defined.

Example year_later_refused :
  (Decide spent "route" 2000 500000 (start + 365 * 24 * 3600 * Second)).1
  = mkDecision StatusRefuse 0 2000 1000 500000 ReasonRemainingTooLow SourceOperator.
Proof. vm_compute. reflexivity. Qed.
