(* ===== verification/EventHub.v ===== *)
(** The event hub of a runtime, [internal/runtime/app/eventhub], and the in-memory event
    store ([runtime/app/store.go]).

    The hub numbers events, stores them and hands them to subscribers. A subscription
    starts with the stored history after its cursor and goes on with the live
    events. Publishing, subscribing, reading the history, handing over and receiving run in
    different goroutines. What one of them does while it holds a lock of the hub is one
    function here, and [step] interleaves the functions freely; the history of a
    subscriber is read outside every lock.

    The store is an interface: class [EventStore] with the laws [EventStoreLaws], which the
    in-memory store implements. The theorems are in [EventHubLaws].

    Sequence numbers and subscriber identities are not wrapped: a hub that stored
    [2^64] events is out of scope. *)
From S2P Require Import Prelude.
From S2P Require Import GoStrings.

(** ** Events and stores *)

(** An event, as far as the hub looks at it. *)
Record Event := mkEvent { ev_ID : string; ev_Sequence : Z; ev_Data : string }.
#[export] Instance Event_eq_dec : EqDecision Event.
Proof. solve_decision. Defined.

(** [Store], and the optional [IdentityStore], [LimitedStore] and [FencedStore]. The [history]
    is every event the store ever accepted, for the specification only. *)
Class EventStore : Type := {
  store : Type;
  history : store → list Event;
  Append : store → Event → res string unit * store;
  Replay : store → Z → res string (list Event);
  LastSequence : store → res string Z;
  EventByID : option (store → string → res string (option Event));
  ReplayLimit : option (store → Z → Z → res string (list Event * bool));
  ReplayThrough : option (store → Z → Z → Z → res string (list Event * bool));
}.

(** The stored events after [cursor], and those up to [through]. *)
Definition suffix_after (cursor : Z) (log : list Event) : list Event :=
  filter (λ e, cursor < ev_Sequence e) log.
Definition between (cursor through : Z) (log : list Event) : list Event :=
  filter (λ e, cursor < ev_Sequence e ≤ through) log.

(** A page of at most [limit] events (all of them when it is not positive), and whether more
    follow. *)
Definition page (limit : Z) (l : list Event) : list Event * bool :=
  if limit <=? 0 then (l, false)
  else (take (Z.to_nat limit) l, Z.to_nat limit <? length l)%nat.

(** Events are numbered from one without gaps; an append that reports an error may have
    stored its event all the same; a read that succeeds is complete. *)
Class EventStoreLaws `{EventStore} : Prop := {
  history_contiguous st : ev_Sequence <$> history st = seqZ 1 (Z.of_nat (length (history st)));
  append_ok st e st' : Append st e = (Ok tt, st') → history st' = history st ++ [e];
  append_err st e err st' :
    Append st e = (Err err, st') → history st' = history st ∨ history st' = history st ++ [e];
  last_sequence_ok st n : LastSequence st = Ok n → n = Z.of_nat (length (history st));
  replay_ok st cursor l : Replay st cursor = Ok l → l = suffix_after cursor (history st);
  replay_limit_ok f st cursor limit l more :
    ReplayLimit = Some f → 0 < limit → f st cursor limit = Ok (l, more) →
    l = (page limit (suffix_after cursor (history st))).1;
  replay_through_ok f st cursor through limit r :
    ReplayThrough = Some f → f st cursor through limit = Ok r →
    r = page limit (between cursor through (history st));
  event_by_id_ok f st id e :
    EventByID = Some f → f st id = Ok (Some e) → e ∈ history st ∧ ev_ID e = id;
}.

(** ** The hub *)

(** [sb_events] is the channel's buffer; [sb_closed] the error it was closed with. *)
Record subscription := mkSubscription {
  sb_events : list Event;
  sb_capacity : Z;
  sb_floor : Z;
  sb_closed : option string;
}.

(** [hb_subs] holds every subscription ever made, since callers keep theirs after
    the hub dropped it; [hb_subscribers] the identities the hub's map still has. *)
Record Hub := mkHub {
  hb_last : Z;
  hb_next : Z;
  hb_subs : gmap Z subscription;
  hb_subscribers : gset Z;
  hb_pending : gset string;
  hb_closed : bool;
}.

Record Config := mkConfig {
  cf_Buffer : Z;
  cf_Closed : string;
  cf_CursorAhead : string;
  cf_ReplayOverflow : Z → Z → string;
}.

Definition ErrSubscriptionOverflow : string := "event subscription buffer overflow".
Definition ErrNoIdentity : string := "stable event requires identity store".

Definition set_hb_last (n : Z) (h : Hub) : Hub :=
  mkHub n (hb_next h) (hb_subs h) (hb_subscribers h) (hb_pending h) (hb_closed h).
Definition set_hb_pending (p : gset string) (h : Hub) : Hub :=
  mkHub (hb_last h) (hb_next h) (hb_subs h) (hb_subscribers h) p (hb_closed h).
Definition set_hb_subscriber (id : Z) (s : subscription) (registered : gset Z) (h : Hub) : Hub :=
  mkHub (hb_last h) (hb_next h) (<[id := s]> (hb_subs h)) registered (hb_pending h) (hb_closed h).

Definition raise_last (n : Z) (h : Hub) : Hub := set_hb_last (Z.max (hb_last h) n) h.

(** [newSubscription] with its floor. *)
Definition newSubscription (capacity floor : Z) : subscription :=
  mkSubscription [] capacity floor None.

(** [s.close(err)], effective once. *)
Definition close_subscription (err : string) (s : subscription) : subscription :=
  match sb_closed s with
  | Some _ => s
  | None => mkSubscription (sb_events s) (sb_capacity s) (sb_floor s) (Some err)
  end.

(** Takes a subscriber out of the map and closes it. *)
Definition drop_subscriber (id : Z) (err : string) (h : Hub) : Hub :=
  match hb_subs h !! id with
  | Some s => set_hb_subscriber id (close_subscription err s) (hb_subscribers h ∖ {[id]}) h
  | None => h
  end.

Definition remove (id : Z) (err : string) (h : Hub) : Hub :=
  if bool_decide (id ∈ hb_subscribers h) then drop_subscriber id err h else h.

Section hub.
Context `{EventStore} (config : Config).

Definition New (st : store) : Hub :=
  mkHub (match LastSequence st with Ok last => last | Err _ => 0 end) 0 ∅ ∅ ∅ false.

Definition replayFence (h : Hub) (st : store) (cursor : Z) : res string Z * Hub :=
  if hb_closed h then (Err (cf_Closed config), h) else
  match LastSequence st with
  | Err e => (Err e, h)
  | Ok stored =>
      let h := raise_last stored h in
      let through := hb_last h in
      if through <? cursor then (Err (cf_CursorAhead config), h) else (Ok through, h)
  end.

(** The first critical section of [Events]: fence and registration. *)
Definition open_events (h : Hub) (st : store) (cursor : Z) : res string (Z * Z) * Hub :=
  let '(fence, h) := replayFence h st cursor in
  match fence with
  | Err e => (Err e, h)
  | Ok through =>
      let id := hb_next h + 1 in
      let s := newSubscription (Z.max (cf_Buffer config) 1) through in
      (Ok (id, through),
       mkHub (hb_last h) id (<[id := s]> (hb_subs h)) (hb_subscribers h ∪ {[id]})
         (hb_pending h) (hb_closed h))
  end.

(** What [Snapshot] tells: the last sequence number and the number of subscribers. *)
Definition Snapshot (h : Hub) : Z * nat := (hb_last h, size (hb_subscribers h)).

Definition max_int : Z := 2 ^ 63 - 1.

(** The events up to the first one past the fence. *)
Fixpoint cut_through (through : Z) (l : list Event) : list Event :=
  match l with
  | e :: l => if through <? ev_Sequence e then [] else e :: cut_through through l
  | [] => []
  end.

Definition replay (st : store) (cursor through limit : Z) : res string (list Event * bool) :=
  match ReplayThrough with
  | Some fenced => fenced st cursor through limit
  | None =>
      let fetched :=
        if (0 <? limit) && (limit <? max_int) then
          match ReplayLimit with
          | Some limited => '(l, _) ← limited st cursor (limit + 1); Ok l
          | None => Replay st cursor
          end
        else Replay st cursor in
      l ← fetched;
      let l := cut_through through l in
      if (0 <? limit) && (limit <? Z.of_nat (length l)) then Ok (take (Z.to_nat limit) l, true)
      else Ok (l, false)
  end.

(** [Hub.Replay]: the fence under the publish lock, then the history outside it. *)
Definition replay_page (h : Hub) (st : store) (cursor limit : Z)
    : res string (list Event * bool) * Hub :=
  let '(fence, h) := replayFence h st cursor in
  (through ← fence; replay st cursor through limit, h).

(** The last critical section of [Events]: the channel the caller gets holds the history
    and then what was buffered since. *)
Definition handoff (h : Hub) (id : Z) (fetched : list Event) (ctx_err : option string)
    : res string unit * Hub :=
  match hb_subs h !! id with
  | None => (Ok tt, h)
  | Some s =>
      if negb (bool_decide (id ∈ hb_subscribers h)) then (Err (default "" (sb_closed s)), h) else
      match ctx_err with
      | Some err => (Err err, drop_subscriber id err h)
      | None =>
          let s :=
            if bool_decide (fetched = []) then s
            else mkSubscription (fetched ++ sb_events s)
                   (Z.of_nat (length fetched) + Z.max (cf_Buffer config) 1)
                   (sb_floor s) (sb_closed s) in
          (Ok tt, set_hb_subscriber id s (hb_subscribers h) h)
      end
  end.

(** One turn of the loop of [fanout]; the select takes the default branch when the buffer is
    full. *)
Definition fan_one (e : Event) (h : Hub) (id : Z) : Hub :=
  match hb_subs h !! id with
  | None => h
  | Some s =>
      if ev_Sequence e <=? sb_floor s then h else
      if Z.of_nat (length (sb_events s)) <? sb_capacity s then
        set_hb_subscriber id
          (mkSubscription (sb_events s ++ [e]) (sb_capacity s) (sb_floor s) (sb_closed s))
          (hb_subscribers h) h
      else drop_subscriber id ErrSubscriptionOverflow h
  end.

Definition fanout (h : Hub) (e : Event) : Hub :=
  foldl (fan_one e) h (elements (hb_subscribers h)).

(** The result, the hub and the events announced to [OnEvent] and the subscribers. *)
Definition projectAndAnnounce (h : Hub) (e : Event) (trackPending announce : bool)
    (project : Event → res string unit) : res string unit * Hub * list Event :=
  match project e with
  | Err err =>
      (Err err,
       if trackPending && announce && (ev_ID e != "")
       then set_hb_pending ({[ev_ID e]} ∪ hb_pending h) h else h, [])
  | Ok _ =>
      if negb announce then (Ok tt, h, []) else
      (Ok tt, fanout (set_hb_pending (hb_pending h ∖ {[ev_ID e]}) h) e, [e])
  end.

Definition joined (a b : string) : string := a +:+ String (ascii_of_nat 10) "" +:+ b.

(** The attempts of [publish], numbered from zero; [make] is [NewEvent] with the metadata and
    data of the call. *)
Fixpoint publish_loop (attempts : nat) (h : Hub) (st : store) (id : string) (last : Z)
    (make : nat → Z → res string Event) (project : Event → res string unit)
    : res string unit * Hub * store * list Event :=
  match make attempts (last + 1) with
  | Err err => (Err err, h, st, [])
  | Ok e =>
      let stable := id != "" in
      match Append st e with
      | (Ok _, st) =>
          let '(r, h, out) := projectAndAnnounce (set_hb_last (ev_Sequence e) h) e stable true project in
          (r, h, st, out)
      | (Err err, st) =>
          let again (h : Hub) :=
            match LastSequence st with
            | Err _ => (Err err, h, st, [])
            | Ok storedLast =>
                match attempts with
                | O => (Err err, h, st, [])
                | S attempts =>
                    publish_loop attempts (raise_last storedLast h) st id (Z.max last storedLast)
                      make project
                end
            end in
          match EventByID with
          | Some lookup =>
              if negb stable then again h else
              match lookup st id with
              | Err lookupErr => (Err (joined err lookupErr), h, st, [])
              | Ok (Some existing) =>
                  let '(r, h, out) :=
                    projectAndAnnounce (raise_last (ev_Sequence existing) h) existing true true project in
                  (r, h, st, out)
              | Ok None => again h
              end
          | None => again h
          end
      end
  end.

(** [publish]; the identity is empty for [Publish]. *)
Definition publish (h : Hub) (st : store) (id : string) (make : nat → Z → res string Event)
    (project : Event → res string unit) : res string unit * Hub * store * list Event :=
  if hb_closed h then (Err (cf_Closed config), h, st, []) else
  let last := hb_last h in
  if id == "" then publish_loop 3 h st id last make project else
  match EventByID with
  | None => (Err ErrNoIdentity, h, st, [])
  | Some lookup =>
      match lookup st id with
      | Err err => (Err err, h, st, [])
      | Ok (Some e) =>
          let h := raise_last (ev_Sequence e) h in
          let '(r, h, out) :=
            projectAndAnnounce h e true (bool_decide (ev_ID e ∈ hb_pending h)) project in
          (r, h, st, out)
      | Ok None => publish_loop 3 h st id last make project
      end
  end.

Definition Publish (h : Hub) (st : store) (make : nat → Z → res string Event)
    (project : Event → res string unit) : res string unit * Hub * store * list Event :=
  publish h st "" make project.
Definition PublishStable (h : Hub) (st : store) (id : string)
    (make : nat → Z → res string Event) (project : Event → res string unit)
    : res string unit * Hub * store * list Event :=
  publish h st id make project.

(** [Restore], and the hub's part of [Close]. *)
Definition Restore (sequence : Z) (h : Hub) : Hub := raise_last sequence h.

Definition Close (h : Hub) : Hub :=
  foldl (λ h id, drop_subscriber id (cf_Closed config) h)
    (mkHub (hb_last h) (hb_next h) (hb_subs h) (hb_subscribers h) (hb_pending h) true)
    (elements (hb_subscribers h)).

(** ** Interleaving *)

(** [publish] holds the publish lock from end to end, as the registration of a subscription
    does. The steps that may fall into the middle of it (reading the history up to a fence,
    handing over, receiving, cancelling) use neither the store past the fence nor the
    last sequence, so [publish] is one step and they come before it. Other writers of the
    store ([step_store]) append between publishes, not inside one.

    Where a call of [Events] stands: registered, history read, channel handed out, or
    failed. *)
Inductive phase :=
  | Opened
  | Fetched (fetched : list Event)
  | Streaming
  | Failed (err : string).

Record Call := mkCall {
  cl_cursor : Z;
  cl_limit : Z;
  cl_phase : phase;
  cl_taken : list Event;
}.

Record World := mkWorld { w_hub : Hub; w_store : store; w_calls : gmap Z Call }.

(** What an observer of the hub sees. *)
Inductive label :=
  | LOpen (id : Z)
  | LStored (e : Event)
  | LAnnounced (e : Event).

Definition set_phase (p : phase) (c : Call) : Call :=
  mkCall (cl_cursor c) (cl_limit c) p (cl_taken c).

Definition take_event (e : Event) (c : Call) : Call :=
  mkCall (cl_cursor c) (cl_limit c) (cl_phase c) (cl_taken c ++ [e]).

(** [make] yields events with the number it was asked for. *)
Definition numbers (make : nat → Z → res string Event) : Prop :=
  ∀ n seq e, make n seq = Ok e → ev_Sequence e = seq.

Inductive step : World → list label → World → Prop :=
  (** [Events] up to the release of the publish lock. *)
  | step_open h st calls cursor limit id through h' :
      0 ≤ cursor →
      open_events h st cursor = (Ok (id, through), h') →
      step (mkWorld h st calls) [LOpen id]
        (mkWorld h' st (<[id := mkCall cursor limit Opened []]> calls))
  | step_open_fails h st calls cursor err h' :
      open_events h st cursor = (Err err, h') →
      step (mkWorld h st calls) [] (mkWorld h' st calls)
  (** It reads the history, outside the locks. *)
  | step_fetch h st calls id c s fetched :
      calls !! id = Some c → cl_phase c = Opened → hb_subs h !! id = Some s →
      replay st (cl_cursor c) (sb_floor s) (cl_limit c) = Ok (fetched, false) →
      step (mkWorld h st calls) [] (mkWorld h st (<[id := set_phase (Fetched fetched) c]> calls))
  (** The read fails, is cancelled, or finds more than the limit. *)
  | step_fetch_fails h st calls id c err :
      calls !! id = Some c → cl_phase c = Opened →
      step (mkWorld h st calls) []
        (mkWorld (remove id err h) st (<[id := set_phase (Failed err) c]> calls))
  (** It hands the channel out, or finds itself dropped or cancelled. *)
  | step_handoff h st calls id c fetched ctx_err h' :
      calls !! id = Some c → cl_phase c = Fetched fetched →
      handoff h id fetched ctx_err = (Ok tt, h') →
      step (mkWorld h st calls) [] (mkWorld h' st (<[id := set_phase Streaming c]> calls))
  | step_handoff_fails h st calls id c fetched ctx_err err h' :
      calls !! id = Some c → cl_phase c = Fetched fetched →
      handoff h id fetched ctx_err = (Err err, h') →
      step (mkWorld h st calls) [] (mkWorld h' st (<[id := set_phase (Failed err) c]> calls))
  (** The consumer receives from its channel. *)
  | step_receive h st calls id c s e rest :
      calls !! id = Some c → cl_phase c = Streaming → hb_subs h !! id = Some s →
      sb_events s = e :: rest →
      step (mkWorld h st calls) []
        (mkWorld (set_hb_subscriber id
                    (mkSubscription rest (sb_capacity s) (sb_floor s) (sb_closed s))
                    (hb_subscribers h) h) st (<[id := take_event e c]> calls))
  (** The goroutine of a subscription sees its context end. *)
  | step_cancel h st calls id err :
      step (mkWorld h st calls) [] (mkWorld (remove id err h) st calls)
  | step_publish h st calls id make project r h' st' out stored :
      numbers make →
      publish h st id make project = (r, h', st', out) →
      history st' = history st ++ stored →
      step (mkWorld h st calls) ((LStored <$> stored) ++ (LAnnounced <$> out))
        (mkWorld h' st' calls)
  (** Another writer of a shared store appends, or the store's faults change. *)
  | step_store h st calls st' stored :
      history st' = history st ++ stored →
      step (mkWorld h st calls) (LStored <$> stored) (mkWorld h st' calls)
  | step_restore h st calls sequence :
      sequence ≤ Z.of_nat (length (history st)) →
      step (mkWorld h st calls) [] (mkWorld (Restore sequence h) st calls)
  | step_close h st calls :
      step (mkWorld h st calls) [] (mkWorld (Close h) st calls).

(** Runs from a new hub, with everything seen on the way. *)
Inductive run (st0 : store) : list label → World → Prop :=
  | run_new : run st0 [] (mkWorld (New st0) st0 ∅)
  | run_step trace w labels w' :
      run st0 trace w → step w labels w' → run st0 (trace ++ labels) w'.

(** The events announced, and those stored, since a subscription was opened. *)
Definition announced_since (id : Z) (trace : list label) : list Event :=
  foldl (λ acc l, match l with
                  | LOpen id' => if decide (id' = id) then [] else acc
                  | LAnnounced e => acc ++ [e]
                  | LStored _ => acc
                  end) [] trace.
Definition stored_since (id : Z) (trace : list label) : list Event :=
  foldl (λ acc l, match l with
                  | LOpen id' => if decide (id' = id) then [] else acc
                  | LStored e => acc ++ [e]
                  | LAnnounced _ => acc
                  end) [] trace.
End hub.
