(* ===== verification/EventMemory.v ===== *)
(** The in-memory event store, [runtime/app/store.go]: it keeps the last events up to its
    capacity and refuses a cursor whose next event it has dropped. It implements the
    interface of the hub. *)
From S2P Require Import Prelude.
From S2P Require Import GoStrings.
From S2P Require Import EventHub.

(** ** The store *)

Record MemoryEventStore := mkMemoryEventStore {
  me_capacity : Z;
  me_events : list Event;
  me_last : Z;
  me_closed : bool;
}.

Definition ErrClosed : string := "runtime is closed".
Definition ErrCursorAhead : string := "event cursor is ahead of runtime".
Definition ErrNotContiguous : string := "event sequence is not contiguous".
Definition ErrInvalidEvent : string := "invalid event".

Record CursorGapError := mkCursorGapError {
  ga_Requested : Z;
  ga_OldestAvailable : Z;
  ga_Latest : Z;
}.

Definition gap_text (e : CursorGapError) : string :=
  "event cursor " +:+ itoa (ga_Requested e) +:+ " is stale; oldest available event is "
    +:+ itoa (ga_OldestAvailable e) +:+ " and latest is " +:+ itoa (ga_Latest e).

(** On the nil pointer it is zero too. *)
Definition RecoveryCursor (e : CursorGapError) : Z :=
  if ga_OldestAvailable e =? 0 then 0 else ga_OldestAvailable e - 1.

Definition NewMemoryEventStore (capacity : Z) : MemoryEventStore :=
  mkMemoryEventStore (if capacity <=? 0 then 256 else capacity) [] 0 false.

(** [event.Validate()]. *)
Class EventValidity : Type := valid_event : Event → bool.

(** [l[len(l)-n:]] when [l] is longer than [n]. *)
Definition keep_last (n : Z) (l : list Event) : list Event :=
  if n <? Z.of_nat (length l) then drop (length l - Z.to_nat n) l else l.

Definition memory_append `{EventValidity} (s : MemoryEventStore) (e : Event)
    : res string unit * MemoryEventStore :=
  if negb (valid_event e) then (Err ErrInvalidEvent, s) else
  if me_closed s then (Err ErrClosed, s) else
  if negb (ev_Sequence e =? me_last s + 1) then (Err ErrNotContiguous, s) else
  (Ok tt, mkMemoryEventStore (me_capacity s) (keep_last (me_capacity s) (me_events s ++ [e]))
            (ev_Sequence e) (me_closed s)).

(** The loop of [replay]; [count] events are in the result. *)
Fixpoint replay_loop (events : list Event) (cursor : Z) (through : option Z) (limit count : Z)
    : list Event * bool :=
  match events with
  | [] => ([], false)
  | e :: events =>
      if match through with Some t => t <? ev_Sequence e | None => false end then ([], false) else
      if cursor <? ev_Sequence e then
        if (0 <? limit) && (count =? limit) then ([], true) else
        let '(result, more) := replay_loop events cursor through limit (count + 1) in
        (e :: result, more)
      else replay_loop events cursor through limit count
  end.

(** The history no longer has the event after the cursor. *)
Definition gap (s : MemoryEventStore) (cursor : Z) : option CursorGapError :=
  match me_events s with
  | e :: _ =>
      if cursor + 1 <? ev_Sequence e then Some (mkCursorGapError cursor (ev_Sequence e) (me_last s))
      else None
  | [] => None
  end.

Definition memory_replay (s : MemoryEventStore) (cursor : Z) (through : option Z) (limit : Z)
    : res string (list Event * bool) :=
  if me_closed s then Err ErrClosed else
  if me_last s <? cursor then Err ErrCursorAhead else
  match gap s cursor with
  | Some e => Err (gap_text e)
  | None => Ok (replay_loop (me_events s) cursor through limit 0)
  end.

Definition memory_event_by_id (s : MemoryEventStore) (id : string) : res string (option Event) :=
  if me_closed s then Err ErrClosed else
  Ok (head (filter (λ e, ev_ID e = id) (me_events s))).

(** Under [ReplayTurn] and [ReplayKind], which differ in [keep]. *)
Definition filterReplay (s : MemoryEventStore) (keep : Event → bool) : res string (list Event) :=
  if me_closed s then Err ErrClosed else Ok (filter keep (me_events s)).

Definition memory_last_sequence (s : MemoryEventStore) : res string Z :=
  if me_closed s then Err ErrClosed else Ok (me_last s).

Definition close_store (s : MemoryEventStore) : MemoryEventStore :=
  mkMemoryEventStore (me_capacity s) (me_events s) (me_last s) true.

(** ** What it remembers *)

(** The store is at the end of the history [log]: it holds the events from the [k]th on. *)
Definition at_end_of (log : list Event) (s : MemoryEventStore) : Prop :=
  0 < me_capacity s ∧
  me_last s = Z.of_nat (length log) ∧
  ev_Sequence <$> log = seqZ 1 (Z.of_nat (length log)) ∧
  ∃ k, me_events s = drop k log ∧ (me_events s = [] → log = []).

Lemma log_sequence log i e :
  ev_Sequence <$> log = seqZ 1 (Z.of_nat (length log)) → log !! i = Some e →
  ev_Sequence e = 1 + Z.of_nat i.
Proof.
  intros Hs Hi. assert (E : (ev_Sequence <$> log) !! i = Some (ev_Sequence e))
    by (by rewrite list_lookup_fmap, Hi).
  rewrite Hs in E. apply lookup_seqZ in E. lia.
Qed.

Lemma at_end_of_new capacity : at_end_of [] (NewMemoryEventStore capacity).
Proof.
  split_and!; [|done|done|by exists O].
  unfold NewMemoryEventStore. cbn [me_capacity]. destruct (Z.leb_spec capacity 0); lia.
Qed.

Lemma keep_last_drop n l : 0 < n → ∃ k, keep_last n l = drop k l ∧ (keep_last n l = [] → l = []).
Proof.
  intros Hn. unfold keep_last. destruct (Z.ltb_spec n (Z.of_nat (length l))); [|by exists O].
  eexists. split; [done|]. intros E. apply (f_equal length) in E. rewrite length_drop in E.
  cbn [length] in E. exfalso. lia.
Qed.

Lemma at_end_of_append `{EventValidity} log s e s' :
  at_end_of log s → memory_append s e = (Ok tt, s') → at_end_of (log ++ [e]) s'.
Proof.
  intros (Hc & Hl & Hs & k & Hk & Hne). unfold memory_append.
  destruct (negb (valid_event e)); [done|]. destruct (me_closed s); [done|].
  destruct (Z.eqb_spec (ev_Sequence e) (me_last s + 1)) as [Es|]; [|done]. cbn. intros [= <-].
  rewrite Hl in Es.
  split_and!; cbn; [done| | |].
  - rewrite length_app. cbn. lia.
  - rewrite fmap_app, Hs, length_app. cbn [fmap list_fmap length].
    replace (Z.of_nat (length log + 1)) with (Z.of_nat (length log) + 1) by lia.
    rewrite seqZ_app by lia. f_equal.
    rewrite (seqZ_cons _ 1), seqZ_nil by lia. f_equal. lia.
  - destruct (keep_last_drop (me_capacity s) (me_events s ++ [e]) Hc) as (j & Ej & Hj).
    assert (Eall : ∃ k', me_events s ++ [e] = drop k' (log ++ [e])).
    { destruct (decide (me_events s = [])) as [E0|].
      - exists O. by rewrite E0, (Hne E0).
      - exists k. rewrite Hk, drop_app_le; [done|].
        destruct (Nat.le_gt_cases k (length log)); [done|].
        rewrite drop_ge in Hk by lia. done. }
    destruct Eall as (k' & Ek). exists (k' + j)%nat. rewrite Ej, Ek, drop_drop. split; [done|].
    rewrite <-drop_drop, <-Ek, <-Ej. intros E0. apply Hj in E0. by destruct (me_events s).
Qed.

(** ** What it reads *)

Definition wanted (cursor : Z) (through : option Z) (e : Event) : Prop :=
  cursor < ev_Sequence e ∧ match through with Some t => ev_Sequence e ≤ t | None => True end.
#[export] Instance wanted_dec cursor through e : Decision (wanted cursor through e).
Proof. unfold wanted. destruct through; apply _. Defined.

Definition page_from (limit count : Z) (l : list Event) : list Event * bool :=
  if limit <=? 0 then (l, false)
  else (take (Z.to_nat (limit - count)) l, Z.to_nat (limit - count) <? length l)%nat.

Lemma drop_ascending k log :
  ev_Sequence <$> log = seqZ 1 (Z.of_nat (length log)) →
  StronglySorted Z.lt (ev_Sequence <$> drop k log).
Proof.
  intros Hs. pose proof (seqZ_lt_sorted 1 (length log)) as H. rewrite <-Hs in H.
  rewrite <-(take_drop k log), fmap_app in H. by apply StronglySorted_app_1_r in H.
Qed.

Lemma replay_loop_page events cursor through limit count :
  StronglySorted Z.lt (ev_Sequence <$> events) → (0 < limit → count ≤ limit) →
  replay_loop events cursor through limit count
  = page_from limit count (filter (wanted cursor through) events).
Proof.
  revert count. induction events as [|e events IH]; intros count Hs Hb.
  { unfold page_from. cbn. rewrite take_nil. by case_match. }
  rewrite fmap_cons in Hs. apply StronglySorted_cons in Hs as [Hx Hs]. cbn [replay_loop].
  rewrite filter_cons. unfold page_from in *.
  destruct (match through with Some t => t <? ev_Sequence e | None => false end) eqn:Et.
  { destruct through as [t|]; [|done]. apply Z.ltb_lt in Et.
    rewrite decide_False by (unfold wanted; lia).
    assert (E : filter (wanted cursor (Some t)) events = []).
    { clear -Hx Et. induction events as [|y l IH]; [done|].
      rewrite fmap_cons in Hx. apply Forall_cons in Hx as [Hy Hl]. rewrite filter_cons.
      rewrite decide_False by (unfold wanted; lia). by apply IH. }
    rewrite E, take_nil. by case_match. }
  assert (Hw : wanted cursor through e ↔ cursor < ev_Sequence e).
  { unfold wanted. destruct through; [apply Z.ltb_ge in Et|]; tauto. }
  destruct (Z.ltb_spec cursor (ev_Sequence e)) as [Hlt|Hge].
  - rewrite decide_True by tauto. destruct (Z.leb_spec limit 0).
    + rewrite (proj2 (Z.ltb_ge _ _)) by lia. cbn [andb]. rewrite IH by (done || lia).
      done.
    + rewrite (proj2 (Z.ltb_lt _ _)) by lia. cbn [andb].
      destruct (Z.eqb_spec count limit) as [->|].
      * by rewrite Z.sub_diag.
      * rewrite IH by (done || lia).
        replace (Z.to_nat (limit - count)) with (S (Z.to_nat (limit - (count + 1)))) by lia. done.
  - rewrite decide_False by (rewrite Hw; lia). by apply IH.
Qed.

(** Whatever the store still holds, a read that it answers is complete. *)
Lemma memory_replay_spec log s cursor through limit r :
  at_end_of log s → memory_replay s cursor through limit = Ok r →
  r = page limit (filter (wanted cursor through) log).
Proof.
  intros (_ & Hl & Hs & k & Hk & Hne) Hr. unfold memory_replay in Hr.
  destruct (me_closed s); [done|]. destruct (me_last s <? cursor); [done|].
  destruct (gap s cursor) eqn:Egap; [done|]. unfold gap in Egap.
  apply Ok_inj in Hr as <-. rewrite replay_loop_page; [|by rewrite Hk; apply drop_ascending|lia].
  unfold page_from, page. rewrite Z.sub_0_r.
  enough (E : filter (wanted cursor through) (me_events s) = filter (wanted cursor through) log)
    by (by rewrite E).
  destruct (me_events s) as [|e l] eqn:Ee; [by rewrite (Hne eq_refl)|].
  destruct (Z.ltb_spec (cursor + 1) (ev_Sequence e)); [done|].
  rewrite <-(take_drop k log) at 1. rewrite filter_app, Hk.
  enough (Ez : filter (wanted cursor through) (take k log) = []) by (by rewrite Ez).
  assert (Hfirst : ev_Sequence e = 1 + Z.of_nat k).
  { apply (log_sequence log); [done|]. rewrite <-(Nat.add_0_r k), <-lookup_drop, <-Hk. done. }
  destruct (filter _ (take k log)) as [|y l'] eqn:Ef; [done|].
  assert (Hy : y ∈ filter (wanted cursor through) (take k log)) by (rewrite Ef; by left).
  apply list_elem_of_filter in Hy as [[Hy _] (i & Hi)%list_elem_of_lookup].
  apply lookup_take_Some in Hi as [Hi Hik]. pose proof (log_sequence _ _ _ Hs Hi). lia.
Qed.

(** A reader that fell behind gets everything the store still holds from the recovery
    cursor of its error. *)
Lemma recovery_cursor_reads log s cursor e :
  at_end_of log s → me_closed s = false → gap s cursor = Some e →
  memory_replay s (RecoveryCursor e) None 0 = Ok (me_events s, false).
Proof.
  intros (_ & Hl & Hs & k & Hk & Hne) Hc Hgap. unfold gap in Hgap.
  destruct (me_events s) as [|x l] eqn:Ee; [done|].
  destruct (Z.ltb_spec (cursor + 1) (ev_Sequence x)); [|done]. injection Hgap as <-.
  assert (Hx : log !! k = Some x)
    by (rewrite <-(Nat.add_0_r k), <-lookup_drop, <-Hk; done).
  pose proof (log_sequence _ _ _ Hs Hx) as Hfirst. apply lookup_lt_Some in Hx.
  unfold memory_replay, gap, RecoveryCursor. cbn [ga_OldestAvailable]. rewrite Hc, Ee.
  rewrite (proj2 (Z.eqb_neq _ _)) by lia.
  rewrite (proj2 (Z.ltb_ge _ _)) by lia. rewrite (proj2 (Z.ltb_ge _ _)) by lia.
  pose proof (drop_ascending k log Hs) as Hsort. rewrite <-Hk in Hsort.
  rewrite replay_loop_page by (done || lia). unfold page_from. cbn [Z.leb Z.compare].
  f_equal. f_equal. rewrite fmap_cons in Hsort. apply StronglySorted_cons in Hsort as [Hf _].
  rewrite filter_cons_True by (split; [lia|done]).
  f_equal. clear -Hf Hfirst. induction l as [|y l IH]; [done|]. rewrite fmap_cons in Hf.
  apply Forall_cons in Hf as [Hy Hf]. rewrite filter_cons_True by (split; [lia|done]).
  by rewrite IH.
Qed.

(** ** The interface *)

(** The store with its history. *)
Record tracked := mkTracked {
  tr_store : MemoryEventStore;
  tr_history : list Event;
  tr_ok : at_end_of tr_history tr_store;
}.

Section instance.
Context `{EventValidity}.

Definition tracked_append (t : tracked) (e : Event) : res string unit * tracked :=
  match memory_append (tr_store t) e as r return memory_append (tr_store t) e = r → _ with
  | (Ok tt, s) => λ E, (Ok tt, mkTracked s (tr_history t ++ [e]) (at_end_of_append _ _ _ _ (tr_ok t) E))
  | (Err err, s) => λ _, (Err err, t)
  end eq_refl.

#[export] Instance memory_store : EventStore := {|
  store := tracked;
  history := tr_history;
  Append := tracked_append;
  Replay t cursor := '(l, _) ← memory_replay (tr_store t) cursor None 0; Ok l;
  LastSequence t := memory_last_sequence (tr_store t);
  EventByID := Some (λ t id, memory_event_by_id (tr_store t) id);
  ReplayLimit := None;
  ReplayThrough := Some (λ t cursor through limit,
    memory_replay (tr_store t) cursor (Some through) limit);
|}.

#[export] Instance memory_store_laws : EventStoreLaws.
Proof.
  split.
  - intros t. by destruct (tr_ok t) as (_ & _ & Hs & _).
  - intros t e t'. cbn. unfold tracked_append.
    generalize (eq_refl (memory_append (tr_store t) e)).
    destruct (memory_append (tr_store t) e) as [[[]|err] s] at 2 3; intros; by simplify_eq.
  - intros t e err t'. cbn. unfold tracked_append.
    generalize (eq_refl (memory_append (tr_store t) e)).
    destruct (memory_append (tr_store t) e) as [[[]|err'] s] at 2 3; intros; simplify_eq. by left.
  - intros t n. cbn. unfold memory_last_sequence. destruct (me_closed _); [done|]. intros [= <-].
    by destruct (tr_ok t) as (_ & -> & _).
  - intros t cursor l. cbn. intros (r & Hr & Hl)%bind_Ok. destruct r as [l' more].
    apply Ok_inj in Hl as ->. apply (memory_replay_spec _ _ _ _ _ _ (tr_ok t)) in Hr.
    injection Hr as -> _. apply list_filter_iff. intros e. unfold wanted. tauto.
  - done.
  - intros f t cursor through limit r [= <-] Hr.
    apply (memory_replay_spec _ _ _ _ _ _ (tr_ok t)) in Hr as ->. done.
  - intros f t id e [= <-]. unfold memory_event_by_id. destruct (me_closed _); [done|].
    intros [= He]. destruct (filter _ _) as [|x l] eqn:Ef; [done|]. cbn in He. simplify_eq.
    assert (Hin : e ∈ filter (λ e, ev_ID e = id) (me_events (tr_store t))) by (rewrite Ef; by left).
    apply list_elem_of_filter in Hin as [Hid Hin]. split; [|done].
    destruct (tr_ok t) as (_ & _ & _ & k & Hk & _). rewrite Hk in Hin.
    change (e ∈ tr_history t). rewrite <-(take_drop k (tr_history t)). apply elem_of_app. by right.
Qed.
End instance.
