(* ===== verification/EventHubLaws.v ===== *)
(** The theorems about the event hub: the history a subscription starts with ends at its fence
    whatever the store can do, and a consumer receives the history and then every
    announced event, once and in order, however the goroutines interleave. *)
From S2P Require Import Prelude.
From S2P Require Import GoStrings.
From S2P Require Import EventHub.
From S2P Require Import EventMemory.

(** ** Stored events are numbered *)

Section store.
Context `{EventStoreLaws}.
Implicit Types st : store.

Definition size st : Z := Z.of_nat (length (history st)).

Lemma history_lookup st i e : history st !! i = Some e → ev_Sequence e = 1 + Z.of_nat i.
Proof.
  intros Hi. assert (Hs : (ev_Sequence <$> history st) !! i = Some (ev_Sequence e))
    by (by rewrite list_lookup_fmap, Hi).
  rewrite history_contiguous in Hs. apply lookup_seqZ in Hs. lia.
Qed.

Lemma history_bounds st e : e ∈ history st → 1 ≤ ev_Sequence e ≤ size st.
Proof.
  intros (i & Hi)%list_elem_of_lookup. pose proof (history_lookup _ _ _ Hi).
  apply lookup_lt_Some in Hi. unfold size. lia.
Qed.

Lemma append_sequence st st' e : history st' = history st ++ [e] → ev_Sequence e = size st + 1.
Proof.
  intros E. rewrite (history_lookup st' (length (history st)) e); [unfold size; lia|].
  rewrite E. by apply list_lookup_middle.
Qed.

Definition ascending (l : list Event) : Prop := StronglySorted Z.lt (ev_Sequence <$> l).

Lemma history_ascending st : ascending (history st).
Proof. unfold ascending. rewrite history_contiguous. apply seqZ_lt_sorted. Qed.

Lemma ascending_filter (P : Event → Prop) `{∀ e, Decision (P e)} l : ascending l → ascending (filter P l).
Proof.
  unfold ascending. induction l as [|x l IH]; [done|].
  rewrite fmap_cons, filter_cons. intros [Hx Hl]%StronglySorted_cons.
  case_decide; [|auto]. rewrite fmap_cons. apply StronglySorted_cons. split; [|auto].
  rewrite Forall_forall in *. intros y (z & -> & Hz)%list_elem_of_fmap.
  apply Hx, list_elem_of_fmap_2. by apply list_elem_of_filter in Hz as [_ Hz].
Qed.

(** ** Reading the history *)

Lemma cut_through_filter through l :
  ascending l → cut_through through l = filter (λ e, ev_Sequence e ≤ through) l.
Proof.
  unfold ascending. induction l as [|x l IH]; [done|]. rewrite fmap_cons, filter_cons.
  intros [Hx Hl]%StronglySorted_cons. cbn [cut_through].
  destruct (Z.ltb_spec through (ev_Sequence x)).
  - rewrite decide_False by lia. symmetry. rewrite <-(IH Hl).
    destruct l as [|y l]; [done|]. rewrite fmap_cons in Hx. apply Forall_cons in Hx as [Hxy _].
    cbn [cut_through]. by rewrite (proj2 (Z.ltb_lt _ _)) by lia.
  - rewrite decide_True by lia. by rewrite IH.
Qed.

Lemma cut_suffix cursor through st :
  cut_through through (suffix_after cursor (history st)) = between cursor through (history st).
Proof.
  rewrite cut_through_filter by apply ascending_filter, history_ascending.
  unfold suffix_after, between. rewrite list_filter_filter. apply list_filter_iff. intros e. lia.
Qed.

Lemma cut_through_take through n l : cut_through through (take n l) = take n (cut_through through l).
Proof.
  revert n. induction l as [|x l IH]; intros [|n]; try done; cbn [take cut_through].
  case_match; [done|]. cbn [take]. by rewrite IH.
Qed.

(** The history [replay] returns is the page of the stored events after the cursor and up
    to the fence, whichever of its reads the store offers. *)
Lemma replay_spec st cursor through limit r :
  replay st cursor through limit = Ok r →
  r = page limit (between cursor through (history st)).
Proof.
  unfold replay. destruct ReplayThrough as [fenced|] eqn:Ef.
  { intros Hr. by eapply replay_through_ok. }
  intros (l & Hl & Hr)%bind_Ok. unfold page.
  set (whole := between cursor through (history st)).
  assert (Hcut : cut_through through l = whole ∨
    (0 < limit ∧ cut_through through l = take (Z.to_nat (limit + 1)) whole)).
  { destruct (_ && _) eqn:Eb; [destruct ReplayLimit as [limited|] eqn:El|].
    - apply andb_true_iff in Eb as [Hpos _]. apply Z.ltb_lt in Hpos. right. split; [done|].
      destruct (limited _ _ _) as [[l' more]|] eqn:E; [|done]. cbn in Hl. simplify_eq.
      eapply replay_limit_ok in E; [|done|lia]. rewrite E. unfold page.
      rewrite (proj2 (Z.leb_gt _ _)) by lia. cbn [fst]. by rewrite cut_through_take, cut_suffix.
    - left. apply replay_ok in Hl as ->. apply cut_suffix.
    - left. apply replay_ok in Hl as ->. apply cut_suffix. }
  destruct (Z.leb_spec limit 0) as [Hneg|Hpos].
  { rewrite (proj2 (Z.ltb_ge _ _)) in Hr by lia. cbn [andb] in Hr. apply Ok_inj in Hr as <-.
    f_equal. destruct Hcut as [Hcut|[? _]]; [done|lia]. }
  rewrite (proj2 (Z.ltb_lt _ _)) in Hr by lia. cbn [andb] in Hr.
  destruct Hcut as [Hcut|[_ Hcut]]; rewrite Hcut in Hr.
  - destruct (Z.ltb_spec limit (Z.of_nat (length whole))); apply Ok_inj in Hr as <-.
    + by rewrite (proj2 (Nat.ltb_lt _ _)) by lia.
    + rewrite (proj2 (Nat.ltb_ge _ _)) by lia. by rewrite take_ge by lia.
  - rewrite length_take in Hr. destruct (Z.ltb_spec limit (Z.of_nat (Z.to_nat (limit + 1) `min` length whole)));
      apply Ok_inj in Hr as <-.
    + rewrite (proj2 (Nat.ltb_lt _ _)) by lia. by rewrite take_take, Nat.min_l by lia.
    + rewrite (proj2 (Nat.ltb_ge _ _)) by lia. by rewrite !take_ge by lia.
Qed.

(** The history up to a fence does not change any more. *)
Lemma between_stable st st' stored cursor through :
  history st' = history st ++ stored → through ≤ size st →
  between cursor through (history st') = between cursor through (history st).
Proof.
  intros E Ht. unfold between. rewrite E, filter_app.
  enough (H' : filter (λ e, cursor < ev_Sequence e ≤ through) stored = []) by (by rewrite H', app_nil_r).
  destruct (filter _ stored) as [|e l] eqn:Ef; [done|].
  assert (He : e ∈ filter (λ e, cursor < ev_Sequence e ≤ through) stored) by (rewrite Ef; by left).
  apply list_elem_of_filter in He as [Hb (i & Hi)%list_elem_of_lookup].
  assert (Hs : ev_Sequence e = 1 + Z.of_nat (length (history st) + i)).
  { apply (history_lookup st'). rewrite E, lookup_app_r by lia.
    by replace (length (history st) + i - length (history st))%nat with i by lia. }
  unfold size in Ht. lia.
Qed.
End store.

(** ** Subscriptions one by one *)

(** What a hub holds of a subscription: the object, and whether it is registered. *)
Definition view : Type := option subscription * bool.
Definition view_of (h : Hub) (id : Z) : view :=
  (hb_subs h !! id, bool_decide (id ∈ hb_subscribers h)).

(** An operation that acts on the views of its argument alone, as [F] does. *)
Record local (f : Hub → Z → Hub) (F : view → view) : Prop := {
  local_other h id id' : id' ≠ id → view_of (f h id) id' = view_of h id';
  local_this h id : view_of (f h id) id = F (view_of h id);
  local_rest h id : hb_last (f h id) = hb_last h ∧ hb_next (f h id) = hb_next h;
}.

Lemma local_foldl f F l h :
  local f F → NoDup l →
  (∀ id, view_of (foldl f h l) id = if decide (id ∈ l) then F (view_of h id) else view_of h id) ∧
  hb_last (foldl f h l) = hb_last h ∧ hb_next (foldl f h l) = hb_next h.
Proof.
  intros Hf Hl. revert h. induction Hl as [|x l Hx Hl IH]; intros h; cbn [foldl].
  { split; [|done]. intros id. rewrite decide_False; [done|]. by intros ?%elem_of_nil. }
  destruct (IH (f h x)) as (Hv & Hla & Hn). destruct (local_rest _ _ Hf h x) as [Hla' Hn'].
  rewrite Hla, Hn, Hla', Hn'. split; [|done]. intros id. rewrite Hv.
  destruct (decide (id = x)) as [->|Hne].
  - rewrite decide_False by done. rewrite decide_True by (by left). by apply local_this.
  - rewrite (local_other _ _ Hf) by done.
    destruct (decide (id ∈ l)).
    + by rewrite decide_True by (by right).
    + rewrite decide_False; [done|]. intros [?|?]%elem_of_cons; done.
Qed.

Definition drop_view (err : string) (v : view) : view :=
  match v with
  | (Some s, _) => (Some (close_subscription err s), false)
  | (None, b) => (None, b)
  end.

Definition fan_view (e : Event) (v : view) : view :=
  match v with
  | (Some s, b) =>
      if ev_Sequence e <=? sb_floor s then (Some s, b) else
      if Z.of_nat (length (sb_events s)) <? sb_capacity s then
        (Some (mkSubscription (sb_events s ++ [e]) (sb_capacity s) (sb_floor s) (sb_closed s)), b)
      else drop_view ErrSubscriptionOverflow (Some s, b)
  | (None, b) => (None, b)
  end.

Lemma view_set id s reg h id' :
  view_of (set_hb_subscriber id s reg h) id'
  = (if decide (id' = id) then Some s else hb_subs h !! id', bool_decide (id' ∈ reg)).
Proof.
  unfold view_of. cbn. case_decide; [subst; by rewrite lookup_insert_eq|].
  by rewrite lookup_insert_ne.
Qed.

Lemma local_drop err : local (λ h id, drop_subscriber id err h) (drop_view err).
Proof.
  split.
  - intros h id id' Hne. unfold drop_subscriber. destruct (hb_subs h !! id); [|done].
    rewrite view_set, decide_False by done. unfold view_of. f_equal.
    apply bool_decide_ext. set_solver.
  - intros h id. unfold drop_subscriber, view_of at 2. destruct (hb_subs h !! id) eqn:E.
    + rewrite view_set, decide_True by done. cbn. f_equal. apply bool_decide_eq_false. set_solver.
    + cbn. unfold view_of. by rewrite E.
  - intros h id. unfold drop_subscriber. by destruct (hb_subs h !! id).
Qed.

Lemma local_fan e : local (fan_one e) (fan_view e).
Proof.
  split.
  - intros h id id' Hne. unfold fan_one. destruct (hb_subs h !! id) as [s|]; [|done].
    destruct (_ <=? _); [done|]. destruct (_ <? _).
    + by rewrite view_set, decide_False.
    + by apply (local_drop ErrSubscriptionOverflow).
  - intros h id. unfold fan_one, view_of at 2. destruct (hb_subs h !! id) as [s|] eqn:E; cbn [fan_view].
    + destruct (_ <=? _); [unfold view_of; by rewrite E|]. destruct (_ <? _).
      * by rewrite view_set, decide_True.
      * rewrite (local_this _ _ (local_drop _)). unfold view_of. by rewrite E.
    + unfold view_of. by rewrite E.
  - intros h id. unfold fan_one. destruct (hb_subs h !! id) as [s|]; [|done].
    destruct (_ <=? _); [done|]. destruct (_ <? _); [done|]. by apply (local_drop ErrSubscriptionOverflow).
Qed.

(** [fanout] treats every registered subscriber alike and no other. *)
Lemma fanout_view h e id :
  view_of (fanout h e) id = if (view_of h id).2 then fan_view e (view_of h id) else view_of h id.
Proof.
  unfold fanout. destruct (local_foldl _ _ (elements (hb_subscribers h)) h (local_fan e)) as (Hv & _);
    [apply NoDup_elements|].
  rewrite Hv. unfold view_of at 3. cbn [snd].
  destruct (decide (id ∈ elements (hb_subscribers h))) as [Hin|Hin];
    rewrite elem_of_elements in Hin.
  - by rewrite bool_decide_true.
  - by rewrite bool_decide_false.
Qed.

Lemma fanout_rest h e : hb_last (fanout h e) = hb_last h ∧ hb_next (fanout h e) = hb_next h.
Proof.
  unfold fanout. by apply (local_foldl _ _ _ h (local_fan e)), NoDup_elements.
Qed.

Definition remove_from (err : string) (v : view) : view := if v.2 then drop_view err v else v.

Lemma remove_view id err h id' :
  view_of (remove id err h) id'
  = if decide (id' = id) then remove_from err (view_of h id) else view_of h id'.
Proof.
  unfold remove, remove_from. change ((view_of h id).2) with (bool_decide (id ∈ hb_subscribers h)).
  case_bool_decide; case_decide; subst; try done.
  - by apply (local_this _ _ (local_drop err)).
  - by apply (local_other _ _ (local_drop err)).
Qed.

Lemma remove_rest id err h : hb_last (remove id err h) = hb_last h ∧ hb_next (remove id err h) = hb_next h.
Proof. unfold remove. case_bool_decide; [|done]. by apply (local_drop err). Qed.

Lemma close_view config h id :
  view_of (Close config h) id
  = remove_from (cf_Closed config) (view_of h id).
Proof.
  unfold Close. set (h1 := mkHub _ _ _ _ _ true).
  destruct (local_foldl _ _ (elements (hb_subscribers h)) h1 (local_drop (cf_Closed config)))
    as (Hv & _); [apply NoDup_elements|].
  rewrite Hv. change (view_of h1 id) with (view_of h id). unfold remove_from.
  change ((view_of h id).2) with (bool_decide (id ∈ hb_subscribers h)).
  destruct (decide (id ∈ elements (hb_subscribers h))) as [Hin|Hin];
    rewrite elem_of_elements in Hin.
  - by rewrite bool_decide_true.
  - by rewrite bool_decide_false.
Qed.

Lemma close_rest config h : hb_last (Close config h) = hb_last h ∧ hb_next (Close config h) = hb_next h.
Proof.
  unfold Close. set (h1 := mkHub _ _ _ _ _ true).
  by apply (local_foldl _ _ _ h1 (local_drop (cf_Closed config))), NoDup_elements.
Qed.

(** ** Publishing *)

Definition fan_to (e : Event) (v : view) : view := if v.2 then fan_view e v else v.

(** What the announcements of one call do to the subscriptions. *)
Definition announced (h : Hub) (out : list Event) (h' : Hub) : Prop :=
  (out = [] ∧ ∀ id, view_of h' id = view_of h id) ∨
  (∃ e, out = [e] ∧ ∀ id, view_of h' id = fan_to e (view_of h id)).

Lemma announced_same h0 h1 out h' :
  (∀ id, view_of h1 id = view_of h0 id) → announced h1 out h' → announced h0 out h'.
Proof.
  intros Hs [[-> Hv]|(e & -> & Hv)]; [left|right; exists e]; (split; [done|]);
    intros id; by rewrite Hv, Hs.
Qed.

Lemma project_spec h e trackPending announce project r h' out :
  projectAndAnnounce h e trackPending announce project = (r, h', out) →
  hb_last h' = hb_last h ∧ hb_next h' = hb_next h ∧ announced h out h'.
Proof.
  unfold projectAndAnnounce. destruct (project e) as [|err].
  - destruct announce; cbn [negb]; intros Hp; simplify_eq; [|split_and!; [done|done|by left]].
    destruct (fanout_rest (set_hb_pending (hb_pending h ∖ {[ev_ID e]}) h) e) as [-> ->].
    split_and!; [done|done|]. right. exists e. split; [done|]. intros id. apply fanout_view.
  - intros Hp. simplify_eq. destruct (_ && _); (split_and!; [done|done|by left]).
Qed.

Section publish.
Context `{EventStoreLaws} (config : Config).
Implicit Types st : store.

(** A call of [publish]: what it stored and announced. *)
Definition published (h : Hub) (st : store) (h' : Hub) (st' : store) (out : list Event) : Prop :=
  ∃ stored, history st' = history st ++ stored ∧ hb_last h' ≤ size st' ∧
    hb_next h' = hb_next h ∧ announced h out h'.

Lemma published_nothing h st : hb_last h ≤ size st → published h st h st [].
Proof. intros Hl. exists []. rewrite app_nil_r. split_and!; [done|done|done|by left]. Qed.

Lemma published_later h0 h1 st0 st1 stored h' st' out :
  history st1 = history st0 ++ stored → (∀ id, view_of h1 id = view_of h0 id) →
  hb_next h1 = hb_next h0 →
  published h1 st1 h' st' out → published h0 st0 h' st' out.
Proof.
  intros Hs Hv Hn (more & Hm & Hl & Hn' & Ha). exists (stored ++ more).
  rewrite Hm, Hs, app_assoc. split_and!; [done|done|congruence|by eapply announced_same].
Qed.

Lemma published_project h st e trackPending announce project r h' out :
  hb_last h ≤ size st → projectAndAnnounce h e trackPending announce project = (r, h', out) →
  published h st h' st out.
Proof.
  intros Hl Hp. apply project_spec in Hp as (El & En & Ha). exists [].
  rewrite app_nil_r. split_and!; [done|lia|done|done].
Qed.

Lemma size_app st st' stored : history st' = history st ++ stored → size st ≤ size st'.
Proof. intros E. unfold size. rewrite E, length_app. lia. Qed.

Lemma existing_size st id f e : EventByID = Some f → f st id = Ok (Some e) → ev_Sequence e ≤ size st.
Proof.
  intros Hf He. destruct (event_by_id_ok _ _ _ _ Hf He) as [Hin _].
  by apply history_bounds in Hin as [_ ?].
Qed.

Lemma publish_loop_spec attempts h st id last make project r h' st' out :
  hb_last h ≤ size st →
  publish_loop attempts h st id last make project = (r, h', st', out) →
  published h st h' st' out.
Proof.
  revert h st last. induction attempts as [|attempts IH]; intros h st last Hl; cbn [publish_loop].
  all: destruct (make _ _) as [e|]; [|intros; simplify_eq; by apply published_nothing].
  all: destruct (Append st e) as [[[]|err] st1] eqn:Ea.
  1, 3: apply append_ok in Ea; pose proof (append_sequence _ _ _ Ea) as Es;
    destruct (projectAndAnnounce _ _ _ _ _) as [[r1 h1] out1] eqn:Ep; intros; simplify_eq;
    eapply (published_later _ (set_hb_last (ev_Sequence e) h)); [exact Ea|done|done|];
    eapply published_project; [|exact Ep]; unfold size in *; rewrite Ea, length_app; cbn in *; lia.
  all: assert (Hg : ∃ stored, history st1 = history st ++ stored)
    by (apply append_err in Ea as [Ea|Ea]; rewrite Ea; [exists []; by rewrite app_nil_r|eauto]);
    destruct Hg as [stored Hg]; pose proof (size_app _ _ _ Hg) as Hsz; clear Ea.
  all: assert (Hnothing : published h st h st1 [])
    by (eapply published_later; [exact Hg|done|done|]; apply published_nothing; lia).
  - destruct EventByID as [f|] eqn:Ef; [destruct (negb _); [|destruct (f st1 id) as [[ex|]|] eqn:Ex]|];
      [destruct (LastSequence st1)| |destruct (LastSequence st1)| |destruct (LastSequence st1)];
      try (intros; by simplify_eq).
    destruct (projectAndAnnounce _ _ _ _ _) as [[r1 h1] out1] eqn:Ep. intros. simplify_eq.
    pose proof (existing_size _ _ _ _ Ef Ex).
    eapply (published_later _ (raise_last (ev_Sequence ex) h)); [exact Hg|done|done|].
    eapply published_project; [|exact Ep]. cbn. lia.
  - assert (Hagain : ∀ storedLast, LastSequence st1 = Ok storedLast →
      publish_loop attempts (raise_last storedLast h) st1 id (Z.max last storedLast) make project
        = (r, h', st', out) → published h st h' st' out).
    { intros storedLast Hs Hp. apply last_sequence_ok in Hs.
      eapply (published_later _ (raise_last storedLast h)); [exact Hg|done|done|].
      eapply IH; [|exact Hp]. cbn. unfold size in *. lia. }
    destruct EventByID as [f|] eqn:Ef; [destruct (negb _); [|destruct (f st1 id) as [[ex|]|] eqn:Ex]|];
      [destruct (LastSequence st1) eqn:El| |destruct (LastSequence st1) eqn:El|
      |destruct (LastSequence st1) eqn:El]; try (intros; by simplify_eq); try (by apply Hagain).
    destruct (projectAndAnnounce _ _ _ _ _) as [[r1 h1] out1] eqn:Ep. intros. simplify_eq.
    pose proof (existing_size _ _ _ _ Ef Ex).
    eapply (published_later _ (raise_last (ev_Sequence ex) h)); [exact Hg|done|done|].
    eapply published_project; [|exact Ep]. cbn. lia.
Qed.

Lemma publish_spec h st id make project r h' st' out :
  hb_last h ≤ size st →
  publish config h st id make project = (r, h', st', out) → published h st h' st' out.
Proof.
  intros Hl. unfold publish.
  destruct (hb_closed h); [intros; simplify_eq; by apply published_nothing|].
  destruct (id == ""); [by apply publish_loop_spec|].
  destruct EventByID as [f|] eqn:Ef; [|intros; simplify_eq; by apply published_nothing].
  destruct (f st id) as [[ex|]|] eqn:Ex; [|by apply publish_loop_spec|intros; simplify_eq; by apply published_nothing].
  destruct (projectAndAnnounce _ _ _ _ _) as [[r1 h1] out1] eqn:Ep. intros. simplify_eq.
  pose proof (existing_size _ _ _ _ Ef Ex).
  eapply (published_later _ (raise_last (ev_Sequence ex) h) _ _ []); [by rewrite app_nil_r|done|done|].
  eapply published_project; [|exact Ep]. cbn. lia.
Qed.
End publish.

(** ** The invariant of a subscription *)

Definition live_part (floor : Z) (l : list Event) : list Event :=
  filter (λ e, floor < ev_Sequence e) l.

Lemma announced_since_app id trace l :
  announced_since id (trace ++ l)
  = foldl (λ acc l, match l with
                    | LOpen id' => if decide (id' = id) then [] else acc
                    | LAnnounced e => acc ++ [e]
                    | LStored _ => acc
                    end) (announced_since id trace) l.
Proof. apply foldl_app. Qed.

Lemma announced_since_stored id trace l :
  announced_since id (trace ++ (LStored <$> l)) = announced_since id trace.
Proof. rewrite announced_since_app. induction l as [|e l IH]; [done|apply IH]. Qed.

Lemma announced_since_announced id trace l :
  announced_since id (trace ++ (LAnnounced <$> l)) = announced_since id trace ++ l.
Proof.
  rewrite announced_since_app. generalize (announced_since id trace).
  induction l as [|e l IH]; intros acc; cbn; [by rewrite app_nil_r|]. by rewrite IH, <-app_assoc.
Qed.

Lemma stored_since_app id trace l :
  stored_since id (trace ++ l)
  = foldl (λ acc l, match l with
                    | LOpen id' => if decide (id' = id) then [] else acc
                    | LStored e => acc ++ [e]
                    | LAnnounced _ => acc
                    end) (stored_since id trace) l.
Proof. apply foldl_app. Qed.

Lemma stored_since_stored id trace l :
  stored_since id (trace ++ (LStored <$> l)) = stored_since id trace ++ l.
Proof.
  rewrite stored_since_app. generalize (stored_since id trace).
  induction l as [|e l IH]; intros acc; cbn; [by rewrite app_nil_r|]. by rewrite IH, <-app_assoc.
Qed.

Lemma stored_since_announced id trace l :
  stored_since id (trace ++ (LAnnounced <$> l)) = stored_since id trace.
Proof. rewrite stored_since_app. induction l as [|e l IH]; [done|apply IH]. Qed.

Lemma since_open id id' trace :
  announced_since id (trace ++ [LOpen id']) = (if decide (id' = id) then [] else announced_since id trace) ∧
  stored_since id (trace ++ [LOpen id']) = (if decide (id' = id) then [] else stored_since id trace).
Proof. by rewrite announced_since_app, stored_since_app. Qed.

Section delivery.
Context `{EventStoreLaws} (config : Config).

(** What the consumer of a call is due: the history up to the floor, then the announced events
    past it. *)
Definition due (cursor floor : Z) (log live : list Event) : list Event :=
  between cursor floor log ++ live_part floor live.

(** A call of [Events] with cursor [cursor], given the subscription and whether it is
    registered, the stored events, and those announced and stored since. *)
Record call_ok (log live stored : list Event) (c : Call) (s : subscription) (registered : bool)
    : Prop := {
  ok_floor : 0 ≤ cl_cursor c ≤ sb_floor s;
  ok_log : sb_floor s ≤ Z.of_nat (length log);
  ok_stored : log = take (Z.to_nat (sb_floor s)) log ++ stored;
  ok_buffer : Z.of_nat (length (sb_events s)) ≤ sb_capacity s;
  ok_phase :
    match cl_phase c with
    | Opened => cl_taken c = [] ∧ sb_capacity s = Z.max (cf_Buffer config) 1 ∧
        (registered → sb_events s = live_part (sb_floor s) live)
    | Fetched fetched => cl_taken c = [] ∧ sb_capacity s = Z.max (cf_Buffer config) 1 ∧
        fetched = between (cl_cursor c) (sb_floor s) log ∧
        (registered → sb_events s = live_part (sb_floor s) live)
    | Streaming =>
        (registered → cl_taken c ++ sb_events s = due (cl_cursor c) (sb_floor s) log live) ∧
        cl_taken c ++ sb_events s `prefix_of` due (cl_cursor c) (sb_floor s) log live
    | Failed _ => cl_taken c = [] ∧ registered = false
    end;
}.

Record world_ok (trace : list label) (w : World) : Prop := {
  wo_last : hb_last (w_hub w) ≤ size (w_store w);
  wo_next : ∀ id, hb_next (w_hub w) < id → hb_subs (w_hub w) !! id = None ∧ w_calls w !! id = None;
  wo_calls : ∀ id c, w_calls w !! id = Some c → ∃ s registered,
    view_of (w_hub w) id = (Some s, registered) ∧
    call_ok (history (w_store w)) (announced_since id trace) (stored_since id trace) c s registered;
}.

(** An operation on the views that a call survives. *)
Lemma call_ok_drop log live stored c s registered err :
  call_ok log live stored c s registered →
  call_ok log live stored c (close_subscription err s) false.
Proof.
  intros [Hf Hl Hs Hb Hp]. unfold close_subscription.
  assert (Hcase : call_ok log live stored c s false).
  { split; [done..|]. destruct (cl_phase c).
    - destruct Hp as (? & ? & ?). split_and!; done.
    - destruct Hp as (? & ? & ? & ?). split_and!; done.
    - destruct Hp as (? & ?). split_and!; done.
    - destruct Hp as (? & ?). split_and!; done. }
  destruct (sb_closed s); [done|]. by destruct Hcase; split.
Qed.

Lemma live_snoc floor live e :
  live_part floor (live ++ [e])
  = live_part floor live ++ (if decide (floor < ev_Sequence e) then [e] else []).
Proof. unfold live_part. rewrite filter_app, filter_cons. by case_decide. Qed.

(** The announcement of one event. *)
Lemma call_ok_fan log live stored c s registered e :
  call_ok log live stored c s registered →
  ∃ s' registered', fan_to e (Some s, registered) = (Some s', registered') ∧
    call_ok log (live ++ [e]) stored c s' registered'.
Proof.
  intros Hok. assert (Hlive : registered = false ∨ ev_Sequence e ≤ sb_floor s →
    call_ok log (live ++ [e]) stored c s registered).
  { intros Hr. destruct Hok as [Hf Hl Hs Hb Hp]. split; [done..|].
    assert (Hsame : registered → live_part (sb_floor s) (live ++ [e]) = live_part (sb_floor s) live).
    { intros Ht. rewrite live_snoc, decide_False, app_nil_r; [done|].
      destruct Hr as [->|]; [done|lia]. }
    assert (Hpre : due (cl_cursor c) (sb_floor s) log live
      `prefix_of` due (cl_cursor c) (sb_floor s) log (live ++ [e])).
    { unfold due. rewrite live_snoc, app_assoc. by apply prefix_app_r. }
    destruct (cl_phase c).
    - destruct Hp as (? & ? & Hev). split_and!; [done..|]. intros Ht. by rewrite Hsame, Hev.
    - destruct Hp as (? & ? & ? & Hev). split_and!; [done..|]. intros Ht. by rewrite Hsame, Hev.
    - destruct Hp as (Hev & Hpr). split; [|by etrans].
      intros Ht. unfold due. rewrite Hsame by done. by apply Hev.
    - done. }
  unfold fan_to. cbn [snd]. destruct registered; [|eauto 10]. cbn [fan_view].
  destruct (Z.leb_spec (ev_Sequence e) (sb_floor s)); [eauto 10|].
  destruct (Z.ltb_spec (Z.of_nat (length (sb_events s))) (sb_capacity s)).
  - eexists _, _. split; [done|]. destruct Hok as [Hf Hl Hs Hb Hp]. split; cbn; [done..| |].
    { rewrite length_app. cbn. lia. }
    assert (Hsn : live_part (sb_floor s) (live ++ [e]) = live_part (sb_floor s) live ++ [e])
      by (by rewrite live_snoc, decide_True).
    destruct (cl_phase c).
    + destruct Hp as (? & ? & Hev). split_and!; [done..|]. intros Ht. by rewrite Hsn, Hev.
    + destruct Hp as (? & ? & ? & Hev). split_and!; [done..|]. intros Ht. by rewrite Hsn, Hev.
    + destruct Hp as (Hev & _).
      assert (Ed : cl_taken c ++ sb_events s ++ [e] = due (cl_cursor c) (sb_floor s) log (live ++ [e])).
      { unfold due. rewrite Hsn, !app_assoc. f_equal. by rewrite Hev. }
      split; [done|by rewrite Ed].
    + by destruct Hp.
  - eexists _, _. split; [done|].
    pose proof (call_ok_drop _ _ _ _ _ _ ErrSubscriptionOverflow Hok) as Hd.
    destruct Hd as [Hf Hl Hs Hb Hp]. split; [done..|].
    destruct (cl_phase c).
    + destruct Hp as (? & ? & ?). done.
    + destruct Hp as (? & ? & ? & ?). done.
    + destruct Hp as (_ & Hpr). split; [done|]. etrans; [exact Hpr|].
      unfold due. rewrite live_snoc, app_assoc. by apply prefix_app_r.
    + done.
Qed.

(** The history grows. *)
Lemma call_ok_stored (st st' : store) live stored more c s registered :
  history st' = history st ++ more →
  call_ok (history st) live stored c s registered →
  call_ok (history st') live (stored ++ more) c s registered.
Proof.
  intros E [Hf Hl Hs Hb Hp].
  assert (Hbt : between (cl_cursor c) (sb_floor s) (history st') = between (cl_cursor c) (sb_floor s) (history st))
    by (eapply between_stable; [done|exact Hl]).
  split; [done| | |done|].
  - rewrite E, length_app. lia.
  - rewrite E at 1. rewrite E, take_app_le by lia. by rewrite app_assoc, <-Hs.
  - unfold due in *. by rewrite Hbt.
Qed.

(** ** Every step keeps it *)

Lemma call_ok_remove log live stored c s registered err :
  call_ok log live stored c s registered →
  ∃ s', remove_from err (Some s, registered) = (Some s', false) ∧
    call_ok log live stored c s' false ∧ (registered = false → s' = s).
Proof.
  intros Hok. unfold remove_from. cbn [snd]. destruct registered.
  - eexists. split; [done|]. split; [by eapply call_ok_drop|done].
  - eauto.
Qed.

(** A call, once its registration is gone, may fail. *)
Lemma call_ok_failed log live stored c s err :
  call_ok log live stored c s false → (∀ t, cl_phase c ≠ Failed t) → cl_phase c ≠ Streaming →
  call_ok log live stored (set_phase (Failed err) c) s false.
Proof.
  intros [Hf Hl Hs Hb Hp] Hn Hns. split; [done..|]. cbn. split; [|done].
  destruct (cl_phase c) eqn:E; [by destruct Hp|by destruct Hp|done|by destruct (Hn err0)].
Qed.

Section step.
Context (trace : list label) (h : Hub) (st : store) (calls : gmap Z Call).
Context (Hw : world_ok trace (mkWorld h st calls)).
#[local] Notation log := (history st).
#[local] Notation live id := (announced_since id trace).
#[local] Notation kept id := (stored_since id trace).

Lemma known_id id : hb_next h < id → hb_subs h !! id = None ∧ calls !! id = None.
Proof. apply Hw. Qed.

Lemma known_call id c :
  calls !! id = Some c → ∃ s registered,
    view_of h id = (Some s, registered) ∧ call_ok log (live id) (kept id) c s registered.
Proof. apply Hw. Qed.

(** The hub changes, the calls do not. *)
Lemma hub_step h' :
  hb_last h' ≤ size st → hb_next h' = hb_next h →
  (∀ id s, hb_subs h !! id = None → hb_subs h' !! id = Some s → False) →
  (∀ id c s registered, calls !! id = Some c → view_of h id = (Some s, registered) →
     call_ok log (live id) (kept id) c s registered →
     ∃ s' registered', view_of h' id = (Some s', registered') ∧
       call_ok log (live id) (kept id) c s' registered') →
  world_ok trace (mkWorld h' st calls).
Proof.
  intros Hl Hn Hnew Hc. split; [done| |].
  - cbn. intros id Hid. rewrite Hn in Hid. destruct (known_id id Hid) as [Hs ?]. split; [|done].
    destruct (hb_subs h' !! id) eqn:E; [|done]. by destruct (Hnew id s).
  - cbn. intros id c Hid. destruct (known_call id c Hid) as (s & b & Hv & Hok). eauto.
Qed.

(** A step of one call, with the part of the hub that belongs to it. *)
Lemma call_step h' id c c' :
  calls !! id = Some c →
  hb_last h' = hb_last h → hb_next h' = hb_next h →
  (∀ id', id' ≠ id → view_of h' id' = view_of h id') →
  (∀ s registered, view_of h id = (Some s, registered) →
     call_ok log (live id) (kept id) c s registered →
     ∃ s' registered', view_of h' id = (Some s', registered') ∧
       call_ok log (live id) (kept id) c' s' registered') →
  world_ok trace (mkWorld h' st (<[id := c']> calls)).
Proof.
  intros Hid Hl Hn Hother Hthis. split.
  - cbn. rewrite Hl. apply Hw.
  - cbn. intros id' Hid'. rewrite Hn in Hid'. destruct (known_id id' Hid') as [Hs Hc].
    assert (Hne : id' ≠ id) by congruence. rewrite lookup_insert_ne by done. split; [|done].
    specialize (Hother id' Hne). unfold view_of in Hother. congruence.
  - cbn. intros id' c0 Hc0. destruct (decide (id' = id)) as [->|Hne].
    + rewrite lookup_insert_eq in Hc0. simplify_eq.
      destruct (known_call id c Hid) as (s & b & Hv & Hok). eauto.
    + rewrite lookup_insert_ne in Hc0 by done. rewrite Hother by done. by apply known_call.
Qed.

Lemma open_step cursor limit id through h' :
  0 ≤ cursor → open_events config h st cursor = (Ok (id, through), h') →
  world_ok (trace ++ [LOpen id]) (mkWorld h' st (<[id := mkCall cursor limit Opened []]> calls)).
Proof.
  intros Hcur. unfold open_events, replayFence.
  destruct (hb_closed h); [done|]. destruct (LastSequence st) as [n|] eqn:En; [|done].
  apply last_sequence_ok in En. cbn [hb_last raise_last set_hb_last].
  destruct (Z.ltb_spec (Z.max (hb_last h) n) cursor); [done|]. intros Ho. simplify_eq.
  pose proof (wo_last _ _ Hw) as Hlast. cbn in Hlast. unfold size in Hlast.
  split; cbn.
  - unfold size. lia.
  - intros id Hid. destruct (known_id id) as [Hs Hc]; [lia|].
    rewrite !lookup_insert_ne by lia. done.
  - intros id c Hc. destruct (since_open id (hb_next h + 1) trace) as [-> ->].
    destruct (decide (id = hb_next h + 1)) as [->|Hne].
    + rewrite lookup_insert_eq in Hc. simplify_eq. rewrite !decide_True by done.
      eexists _, true. split.
      { unfold view_of. cbn. rewrite lookup_insert_eq, bool_decide_true by set_solver. done. }
      split; cbn; [lia|lia| |lia|done].
      rewrite take_ge, app_nil_r by lia. done.
    + rewrite lookup_insert_ne in Hc by done. rewrite !decide_False by done.
      destruct (known_call id c Hc) as (s & b & Hv & Hok). exists s, b. split; [|done].
      rewrite <-Hv. unfold view_of. cbn. rewrite lookup_insert_ne by done. f_equal.
      apply bool_decide_ext. set_solver.
Qed.

Lemma open_fails_step cursor err h' :
  open_events config h st cursor = (Err err, h') → world_ok trace (mkWorld h' st calls).
Proof.
  intros Ho. assert (Hh : h' = h ∨ h' = raise_last (size st) h).
  { revert Ho. unfold open_events, replayFence.
    destruct (hb_closed h); [intros; simplify_eq; by left|].
    destruct (LastSequence st) as [n|] eqn:En; [|intros; simplify_eq; by left].
    apply last_sequence_ok in En as ->. destruct (_ <? _); intros Ho; [|done].
    injection Ho as _ <-. by right. }
  destruct Hh as [->| ->]; [done|]. pose proof (wo_last _ _ Hw) as Hlast. cbn in Hlast.
  apply hub_step; [cbn; lia|done|cbn; congruence|]. intros id c s b _ Hv Hok. eauto.
Qed.

Lemma remove_step id err : world_ok trace (mkWorld (remove id err h) st calls).
Proof.
  destruct (remove_rest id err h) as [El En]. pose proof (wo_last _ _ Hw) as Hlast. cbn in Hlast.
  apply hub_step; [lia|done| |].
  - intros id' s Hs Hs'. pose proof (remove_view id err h id') as Hv. unfold view_of at 1 in Hv.
    case_decide; subst; unfold remove_from, drop_view, view_of in Hv; cbn in Hv;
      rewrite Hs, Hs' in Hv; repeat case_match; simplify_eq.
  - intros id' c s b Hc Hv Hok. rewrite remove_view. case_decide; [|eauto]. subst. rewrite Hv.
    destruct (call_ok_remove _ _ _ _ _ _ err Hok) as (s' & -> & Hok' & _). eauto.
Qed.

Lemma fetch_step id c s fetched :
  calls !! id = Some c → cl_phase c = Opened → hb_subs h !! id = Some s →
  replay st (cl_cursor c) (sb_floor s) (cl_limit c) = Ok (fetched, false) →
  world_ok trace (mkWorld h st (<[id := set_phase (Fetched fetched) c]> calls)).
Proof.
  intros Hc Hp Hs Hr. eapply call_step; [done..|]. intros s' b Hv [Hf Hl Hst Hb Hph].
  assert (s' = s) as -> by (unfold view_of in Hv; congruence).
  exists s, b. split; [done|]. rewrite Hp in Hph. destruct Hph as (Ht & Hcap & Hev).
  split; [done..|]. cbn. split_and!; [done|done| |done].
  apply replay_spec in Hr. unfold page in Hr.
  destruct (cl_limit c <=? 0); [by simplify_eq|]. injection Hr as -> Hlen.
  symmetry in Hlen. apply Nat.ltb_ge in Hlen. by rewrite take_ge by lia.
Qed.

Lemma remove_other id err id' : id' ≠ id → view_of (remove id err h) id' = view_of h id'.
Proof. intros Hne. by rewrite remove_view, decide_False. Qed.

Lemma fetch_fails_step id c err :
  calls !! id = Some c → cl_phase c = Opened →
  world_ok trace (mkWorld (remove id err h) st (<[id := set_phase (Failed err) c]> calls)).
Proof.
  intros Hc Hp. destruct (remove_rest id err h) as [El En].
  eapply call_step; [done|done|done|apply remove_other|]. intros s b Hv Hok.
  rewrite remove_view, decide_True, Hv by done.
  destruct (call_ok_remove _ _ _ _ _ _ err Hok) as (s' & -> & Hok' & _).
  eexists _, _. split; [done|]. by apply call_ok_failed; rewrite ?Hp.
Qed.

Lemma handoff_step id c fetched ctx_err h' :
  calls !! id = Some c → cl_phase c = Fetched fetched →
  handoff config h id fetched ctx_err = (Ok tt, h') →
  world_ok trace (mkWorld h' st (<[id := set_phase Streaming c]> calls)).
Proof.
  intros Hc Hp Hh. destruct (known_call id c Hc) as (s & b & Hv & _).
  assert (Es : hb_subs h !! id = Some s ∧ bool_decide (id ∈ hb_subscribers h) = b)
    by (unfold view_of in Hv; split; congruence).
  destruct Es as [Es Eb]. unfold handoff in Hh. rewrite Es, Eb in Hh.
  destruct b; [|done]. cbn [negb] in Hh. destruct ctx_err; [done|]. injection Hh as <-.
  eapply call_step; [done|done|done| |].
  { intros id' Hne. by rewrite view_set, decide_False. }
  intros s0 b0 Hv0 [Hf Hl Hst Hbu Hph]. rewrite Hv in Hv0. simplify_eq.
  rewrite view_set, decide_True, Eb by done. eexists _, true. split; [done|].
  rewrite Hp in Hph. destruct Hph as (Ht & Hcap & -> & Hev). specialize (Hev I).
  set (hist := between (cl_cursor c) (sb_floor s0) log) in *.
  assert (Ed : due (cl_cursor c) (sb_floor s0) log (live id) = hist ++ sb_events s0)
    by (unfold due; by rewrite Hev).
  destruct (bool_decide_reflect (hist = [])) as [Hnil|_]; (split; [done..| |]); cbn.
  - done.
  - rewrite Ht, Ed, Hnil. split; [done|reflexivity].
  - rewrite length_app. lia.
  - rewrite Ht, Ed. split; [done|reflexivity].
Qed.

Lemma handoff_fails_step id c fetched ctx_err err h' :
  calls !! id = Some c → cl_phase c = Fetched fetched →
  handoff config h id fetched ctx_err = (Err err, h') →
  world_ok trace (mkWorld h' st (<[id := set_phase (Failed err) c]> calls)).
Proof.
  intros Hc Hp Hh. destruct (known_call id c Hc) as (s & b & Hv & _).
  assert (Es : hb_subs h !! id = Some s ∧ bool_decide (id ∈ hb_subscribers h) = b)
    by (unfold view_of in Hv; split; congruence).
  destruct Es as [Es Eb]. unfold handoff in Hh. rewrite Es, Eb in Hh. destruct b; cbn [negb] in Hh.
  - destruct ctx_err as [cause|]; [|done]. injection Hh as -> <-.
    destruct (local_rest _ _ (local_drop err) h id) as [El En].
    eapply call_step; [done|exact El|exact En| |].
    { intros id' Hne. by apply (local_other _ _ (local_drop err)). }
    intros s0 b0 Hv0 Hok. rewrite (local_this _ _ (local_drop err)), Hv0. cbn [drop_view].
    eexists _, _. split; [done|]. apply call_ok_failed; rewrite ?Hp; [|done..].
    by eapply call_ok_drop.
  - injection Hh as <- <-. eapply call_step; [done..|]. intros s0 b0 Hv0 Hok.
    rewrite Hv in Hv0. simplify_eq. eexists _, _. split; [done|].
    by apply call_ok_failed; rewrite ?Hp.
Qed.

Lemma receive_step id c s e rest :
  calls !! id = Some c → cl_phase c = Streaming → hb_subs h !! id = Some s →
  sb_events s = e :: rest →
  world_ok trace
    (mkWorld (set_hb_subscriber id (mkSubscription rest (sb_capacity s) (sb_floor s) (sb_closed s))
                (hb_subscribers h) h) st (<[id := take_event e c]> calls)).
Proof.
  intros Hc Hp Hs He. eapply call_step; [done|done|done| |].
  { intros id' Hne. by rewrite view_set, decide_False. }
  intros s0 b Hv [Hf Hl Hst Hb Hph].
  assert (s0 = s ∧ bool_decide (id ∈ hb_subscribers h) = b) as [-> Eb]
    by (unfold view_of in Hv; split; congruence).
  rewrite view_set, decide_True, Eb by done. eexists _, _. split; [done|].
  rewrite Hp in Hph. rewrite He in *. cbn in Hb. split; cbn; [done..|lia|].
  rewrite Hp. rewrite <-app_assoc. exact Hph.
Qed.

Lemma publish_step id make project r h' st' out stored :
  publish config h st id make project = (r, h', st', out) →
  history st' = log ++ stored →
  world_ok (trace ++ (LStored <$> stored) ++ (LAnnounced <$> out)) (mkWorld h' st' calls).
Proof.
  intros Hp E. pose proof (wo_last _ _ Hw) as Hlast. cbn in Hlast.
  destruct (publish_spec config h st id make project r h' st' out Hlast Hp)
    as (stored' & E' & Hl & Hn & Ha).
  rewrite E in E'. apply app_inv_head in E'. subst stored'. rewrite app_assoc.
  assert (Hcalls : ∀ id c, calls !! id = Some c → ∃ s registered, view_of h' id = (Some s, registered) ∧
    call_ok (history st') (live id ++ out) (kept id ++ stored) c s registered).
  { intros id' c Hc. destruct (known_call id' c Hc) as (s & b & Hv & Hok).
    pose proof (call_ok_stored st st' _ _ _ _ _ _ E Hok) as Hok'.
    destruct Ha as [[-> Hs]|(e & -> & Hs)]; rewrite Hs, Hv.
    - rewrite app_nil_r. eauto.
    - by apply call_ok_fan. }
  split; [done| |].
  - cbn. intros id' Hid. rewrite Hn in Hid. destruct (known_id id' Hid) as [Hs Hc]. split; [|done].
    destruct Ha as [[-> Hvs]|(e & -> & Hvs)]; specialize (Hvs id').
    + unfold view_of in Hvs. congruence.
    + unfold fan_to, fan_view, view_of in Hvs. cbn in Hvs. rewrite Hs in Hvs.
      case_match; congruence.
  - cbn. intros id' c Hc. rewrite announced_since_announced, announced_since_stored,
      stored_since_announced, stored_since_stored. by apply Hcalls.
Qed.

Lemma store_step st' stored :
  history st' = log ++ stored →
  world_ok (trace ++ (LStored <$> stored)) (mkWorld h st' calls).
Proof.
  intros E. pose proof (wo_last _ _ Hw) as Hlast. cbn in Hlast.
  split; cbn.
  - pose proof (size_app _ _ _ E). lia.
  - apply known_id.
  - intros id c Hc. rewrite announced_since_stored, stored_since_stored.
    destruct (known_call id c Hc) as (s & b & Hv & Hok). exists s, b. split; [done|].
    by eapply call_ok_stored.
Qed.

Lemma close_step : world_ok trace (mkWorld (Close config h) st calls).
Proof.
  destruct (close_rest config h) as [El En]. pose proof (wo_last _ _ Hw) as Hlast. cbn in Hlast.
  apply hub_step; [lia|done| |].
  - intros id s Hs Hs'. pose proof (close_view config h id) as Hv. unfold view_of at 1 in Hv.
    unfold remove_from, drop_view, view_of in Hv. cbn in Hv. rewrite Hs, Hs' in Hv.
    repeat case_match; simplify_eq.
  - intros id c s b Hc Hv Hok. rewrite close_view, Hv.
    destruct (call_ok_remove _ _ _ _ _ _ (cf_Closed config) Hok) as (s' & -> & Hok' & _). eauto.
Qed.
End step.

Lemma step_world_ok trace w labels w' :
  world_ok trace w → step config w labels w' → world_ok (trace ++ labels) w'.
Proof.
  intros Hw Hs. destruct Hs; rewrite ?app_nil_r.
  - by eapply open_step.
  - by eapply open_fails_step.
  - by eapply fetch_step.
  - by eapply fetch_fails_step.
  - by eapply handoff_step.
  - by eapply handoff_fails_step.
  - by eapply receive_step.
  - by apply remove_step.
  - by eapply publish_step.
  - by eapply store_step.
  - pose proof (wo_last _ _ Hw) as Hlast. cbn in Hlast.
    eapply hub_step; [exact Hw|cbn; unfold size in *; lia|done|cbn; congruence|]. eauto.
  - by apply close_step.
Qed.

Lemma run_world_ok st0 trace w : run config st0 trace w → world_ok trace w.
Proof.
  induction 1 as [|trace w labels w' _ IH Hs]; [|by eapply step_world_ok].
  split; cbn.
  - destruct (LastSequence st0) eqn:E; [|unfold size; lia]. apply last_sequence_ok in E. unfold size. lia.
  - done.
  - intros id c Hc. by rewrite lookup_empty in Hc.
Qed.
End delivery.

(** ** The theorems *)

Lemma suffix_split `{EventStoreLaws} (st : store) cursor floor stored :
  0 ≤ floor → floor ≤ size st → cursor ≤ floor →
  history st = take (Z.to_nat floor) (history st) ++ stored →
  due cursor floor (history st) stored = suffix_after cursor (history st).
Proof.
  intros Hpos Hf Hc E. unfold due, live_part.
  assert (Hold : ∀ e, e ∈ take (Z.to_nat floor) (history st) → ev_Sequence e ≤ floor).
  { intros e (i & Hi)%list_elem_of_lookup. apply lookup_take_Some in Hi as [Hi Hlt].
    apply history_lookup in Hi. lia. }
  assert (Hnew : ∀ e, e ∈ stored → floor < ev_Sequence e).
  { intros e (i & Hi)%list_elem_of_lookup.
    assert (Hh : history st !! (Z.to_nat floor + i)%nat = Some e).
    { rewrite E, lookup_app_r; rewrite length_take_le by (unfold size in Hf; lia); [|lia].
      by replace (Z.to_nat floor + i - Z.to_nat floor)%nat with i by lia. }
    apply history_lookup in Hh. lia. }
  unfold suffix_after, between. rewrite E, !filter_app.
  assert (Hz : filter (λ e, cursor < ev_Sequence e ≤ floor) stored = []).
  { clear -Hnew. induction stored as [|x l IH]; [done|]. rewrite filter_cons.
    rewrite decide_False by (specialize (Hnew x (list_elem_of_here _ _)); lia).
    apply IH. intros e He. apply Hnew. by right. }
  rewrite Hz, app_nil_r. f_equal.
  - generalize dependent (take (Z.to_nat floor) (history st)). clear. intros l _ Hold.
    induction l as [|x l IH]; [done|]. rewrite !filter_cons.
    specialize (Hold x (list_elem_of_here _ _)) as Hx.
    rewrite IH by (intros e He; apply Hold; by right). repeat case_decide; (done || lia).
  - clear -Hnew Hc. induction stored as [|x l IH]; [done|]. rewrite !filter_cons.
    specialize (Hnew x (list_elem_of_here _ _)) as Hx.
    rewrite !decide_True by lia. f_equal. apply IH. intros e He. apply Hnew. by right.
Qed.

Lemma between_all `{EventStoreLaws} (st : store) cursor :
  between cursor (size st) (history st) = suffix_after cursor (history st).
Proof.
  unfold between, suffix_after.
  assert (Hb : ∀ e, e ∈ history st → ev_Sequence e ≤ size st) by (intros e He; by apply history_bounds).
  induction (history st) as [|x l IH]; [done|]. rewrite !filter_cons.
  specialize (Hb x (list_elem_of_here _ _)) as Hx.
  rewrite IH by (intros e He; apply Hb; by right). repeat case_decide; (done || lia).
Qed.

(** C32: [Hub.Replay] fences under the lock and reads outside it. Whatever was appended
    between the two, by this hub or by another writer of the store, the page it returns is
    the page of the events stored at the fence, with its flag for more; this holds whether the
    store reads up to a fence, up to a limit, or only everything. *)
Theorem replay_is_fenced `{EventStoreLaws} (config : Config) h st cursor through h' st' stored limit r :
  hb_last h ≤ size st →
  replayFence config h st cursor = (Ok through, h') →
  history st' = history st ++ stored →
  replay st' cursor through limit = Ok r →
  r = page limit (suffix_after cursor (history st)).
Proof.
  intros Hlast Hf E Hr. apply replay_spec in Hr as ->.
  assert (through = size st) as ->.
  { revert Hf. unfold replayFence. destruct (hb_closed h); [done|].
    destruct (LastSequence st) as [n|] eqn:En; [|done]. apply last_sequence_ok in En.
    cbn. case_match; [done|]. intros [= <- <-]. unfold size in *. lia. }
  by rewrite (between_stable _ _ _ _ _ E), between_all by done.
Qed.

(** C31: However publishing, subscribing, reading the history, handing over, receiving,
    cancelling, closing and other writers of the store interleave: what the consumer of a
    subscription received and has in its channel is the stored history after its cursor up
    to the fence, then the events announced since that lie past the fence, once each and in
    order; a subscription that was dropped has received a prefix of that. As long as every event
    stored since is announced by this hub, in that order, it is exactly the stored
    events after the cursor. The channel never holds more than its capacity, so neither
    the fanout nor the handover blocks under the lock. *)
Theorem delivery_is_exact `{EventStoreLaws} (config : Config) st0 trace w id c s :
  run config st0 trace w →
  w_calls w !! id = Some c → hb_subs (w_hub w) !! id = Some s → cl_phase c = Streaming →
  let got := cl_taken c ++ sb_events s in
  let all := due (cl_cursor c) (sb_floor s) (history (w_store w)) (announced_since id trace) in
  got `prefix_of` all ∧
  (id ∈ hb_subscribers (w_hub w) → got = all) ∧
  (id ∈ hb_subscribers (w_hub w) → announced_since id trace = stored_since id trace →
     got = suffix_after (cl_cursor c) (history (w_store w))) ∧
  Z.of_nat (length (sb_events s)) ≤ sb_capacity s.
Proof.
  intros Hrun Hc Hs Hp. apply run_world_ok in Hrun.
  destruct (wo_calls _ _ _ Hrun id c Hc) as (s' & b & Hv & [Hf Hl Hst Hb Hph]).
  assert (s' = s ∧ bool_decide (id ∈ hb_subscribers (w_hub w)) = b) as [-> <-]
    by (unfold view_of in Hv; split; congruence).
  rewrite Hp in Hph. destruct Hph as [Heq Hpre]. cbv zeta.
  assert (Heq' : id ∈ hb_subscribers (w_hub w) → cl_taken c ++ sb_events s
    = due (cl_cursor c) (sb_floor s) (history (w_store w)) (announced_since id trace)).
  { intros Hin. apply Heq. by apply bool_decide_pack. }
  split; [done|]. split; [done|]. split; [|done]. intros Hin Ea.
  rewrite (Heq' Hin), Ea. apply suffix_split; [lia|exact Hl|lia|exact Hst].
Qed.

(** ** A concrete run *)

Section runs.
Context `{EventStore} (config : Config) (st0 : store).

Definition publish_world (w : World) (id : string) (make : nat → Z → res string Event) : World :=
  let p := publish config (w_hub w) (w_store w) id make (λ _, Ok tt) in
  mkWorld p.1.1.2 p.1.2 (w_calls w).

Definition publish_labels (w : World) (id : string) (make : nat → Z → res string Event)
    (stored : list Event) : list label :=
  (LStored <$> stored)
    ++ (LAnnounced <$> (publish config (w_hub w) (w_store w) id make (λ _, Ok tt)).2).

Lemma run_publish trace w id make stored :
  run config st0 trace w → numbers make →
  history (w_store (publish_world w id make)) = history (w_store w) ++ stored →
  run config st0 (trace ++ publish_labels w id make stored) (publish_world w id make).
Proof.
  intros Hr Hn Hs. eapply run_step; [done|]. destruct w as [h st calls].
  unfold publish_labels, publish_world in *. cbn in *.
  eapply (step_publish config h st calls id make (λ _, Ok tt)
    (publish config h st id make (λ _, Ok tt)).1.1.1); [done| |exact Hs].
  by destruct (publish _ _ _ _ _ _) as [[[? ?] ?] ?].
Qed.
End runs.

Section sample.
#[local] Instance any_event : EventValidity := λ _, true.
#[local] Existing Instance memory_store.
#[local] Existing Instance memory_store_laws.

Definition sample_config : Config := mkConfig 4 "closed" "ahead" (λ _ _, "overflow").
Definition sample_store : tracked := mkTracked (NewMemoryEventStore 8) [] (at_end_of_new 8).
Definition sample_event (n : Z) : Event := mkEvent "e" n "text".
Definition sample_make (_ : nat) (seq : Z) : res string Event := Ok (sample_event seq).

Lemma sample_numbers : numbers sample_make.
Proof. intros n seq e [= <-]. done. Qed.

(** One event, a subscription, an event before the history is read, the history, one
    after it, the handover, and the first event received. *)
Definition world1 : World := publish_world sample_config (mkWorld (New sample_store) sample_store ∅) "" sample_make.
Definition opened := open_events sample_config (w_hub world1) (w_store world1) 0.
Definition world2 : World := mkWorld opened.2 (w_store world1) (<[1 := mkCall 0 0 Opened []]> (w_calls world1)).
Definition world3 : World := publish_world sample_config world2 "" sample_make.
Definition world4 : World :=
  mkWorld (w_hub world3) (w_store world3)
    (<[1 := mkCall 0 0 (Fetched [sample_event 1]) []]> (w_calls world3)).
Definition world5 : World := publish_world sample_config world4 "" sample_make.
Definition world6 : World :=
  mkWorld (handoff sample_config (w_hub world5) 1 [sample_event 1] None).2 (w_store world5)
    (<[1 := mkCall 0 0 Streaming []]> (w_calls world5)).
Definition world7 : World :=
  mkWorld (set_hb_subscriber 1 (mkSubscription [sample_event 2; sample_event 3] 5 1 None)
             (hb_subscribers (w_hub world6)) (w_hub world6)) (w_store world6)
    (<[1 := mkCall 0 0 Streaming [sample_event 1]]> (w_calls world6)).

Definition sample_trace : list label :=
  [LStored (sample_event 1); LAnnounced (sample_event 1); LOpen 1;
   LStored (sample_event 2); LAnnounced (sample_event 2);
   LStored (sample_event 3); LAnnounced (sample_event 3)].

Lemma labels1 : publish_labels sample_config (mkWorld (New sample_store) sample_store ∅) "" sample_make
  [sample_event 1] = [LStored (sample_event 1); LAnnounced (sample_event 1)].
Proof. vm_compute. reflexivity. Qed.
Lemma labels3 : publish_labels sample_config world2 "" sample_make [sample_event 2]
  = [LStored (sample_event 2); LAnnounced (sample_event 2)].
Proof. vm_compute. reflexivity. Qed.
Lemma labels5 : publish_labels sample_config world4 "" sample_make [sample_event 3]
  = [LStored (sample_event 3); LAnnounced (sample_event 3)].
Proof. vm_compute. reflexivity. Qed.

Lemma sample_run : run sample_config sample_store sample_trace world7.
Proof.
  change sample_trace with
    ((((((([] ++ [LStored (sample_event 1); LAnnounced (sample_event 1)]) ++ [LOpen 1])
       ++ [LStored (sample_event 2); LAnnounced (sample_event 2)]) ++ [])
       ++ [LStored (sample_event 3); LAnnounced (sample_event 3)]) ++ []) ++ []).
  rewrite <-labels1, <-labels3, <-labels5.
  apply (run_step _ _ _ world6); [|eapply (step_receive _ (w_hub world6) (w_store world6) (w_calls world6)
    1 (mkCall 0 0 Streaming []) (mkSubscription [sample_event 1; sample_event 2; sample_event 3] 5 1 None));
    vm_compute; reflexivity].
  apply (run_step _ _ _ world5); [|eapply (step_handoff _ (w_hub world5) (w_store world5) (w_calls world5)
    1 (mkCall 0 0 (Fetched [sample_event 1]) []) [sample_event 1] None); vm_compute; reflexivity].
  apply run_publish; [|apply sample_numbers|vm_compute; reflexivity].
  apply (run_step _ _ _ world3); [|eapply (step_fetch _ (w_hub world3) (w_store world3) (w_calls world3)
    1 (mkCall 0 0 Opened []) (mkSubscription [sample_event 2] 4 1 None)); vm_compute; reflexivity].
  apply run_publish; [|apply sample_numbers|vm_compute; reflexivity].
  apply (run_step _ _ _ world1); [|eapply (step_open _ (w_hub world1) (w_store world1) (w_calls world1)
    0 0 1 1); [done|vm_compute; reflexivity]].
  apply run_publish; [constructor|apply sample_numbers|vm_compute; reflexivity].
Qed.

(** The consumer has the first event and finds the two live ones in its channel. *)
Theorem delivery_is_exact_witness :
  [sample_event 1] ++ [sample_event 2; sample_event 3]
  = suffix_after 0 (history (w_store world7)).
Proof.
  refine (proj1 (proj2 (proj2 (delivery_is_exact sample_config sample_store sample_trace world7 1
    (mkCall 0 0 Streaming [sample_event 1])
    (mkSubscription [sample_event 2; sample_event 3] 5 1 None) sample_run _ _ eq_refl))) _ _);
    vm_compute; reflexivity.
Defined.

(** Two events are appended between the fence and the read. *)
Theorem replay_is_fenced_witness :
  replay (w_store world5) 0 1 2 = Ok ([sample_event 1], false) ∧
  ([sample_event 1], false) = page 2 (suffix_after 0 (history (w_store world1))).
Proof.
  split; [vm_compute; reflexivity|].
  refine (replay_is_fenced sample_config (w_hub world1) (w_store world1) 0 1 (w_hub world1)
    (w_store world5) [sample_event 2; sample_event 3] 2 _ _ _ _ _);
    [vm_compute; discriminate|vm_compute; reflexivity..].
Defined.
End sample.
