(* ===== verification/ExecAuthority.v ===== *)
(** The authority a sandbox is handed ([security/sandbox/authority.go]): the consistency it
    demands, which paths it denies, what it makes of the controls a backend reports, and its
    projection into a copy of the workspace. Digests of authorities are of their JSON
    text. *)
From S2P Require Import Prelude.
From S2P Require Import GoStrings.
From S2P Require Import Sha256.
From S2P Require Import Json.
From S2P Require Import Paths.
From S2P Require Import Controls.

Definition Enforcement : Type := string.
Definition EnforcementStrong : Enforcement := "strong".
Definition EnforcementNone : Enforcement := "none".
Definition Enforcement_Valid (e : Enforcement) : bool :=
  (e == EnforcementStrong) || (e == EnforcementNone).

(** ** Authorities *)

Record ExecutionAuthority := mkExecutionAuthority {
  ea_HostExecution : bool;
  ea_FullAccess : bool;
  ea_Digest : string;
  ea_Enforcement : Enforcement;
  ea_WorkspaceRoot : string;
  ea_WorkspaceBaseWrite : bool;
  ea_ReadPaths : list string;
  ea_WorkspaceWritePaths : list string;
  ea_NetworkTargets : list string;
  ea_ManagedProxyPort : Z;
  ea_AllowLoopback : bool;
  ea_AllowNetwork : bool;
  ea_AllowProcess : bool;
  ea_RequiredControls : Controls;
  ea_EffectiveControls : Controls;
}.

Definition empty {A} (l : list A) : bool := match l with [] => true | _ => false end.

(** A grant of local ports that does not claim the egress proxy. *)
Definition LoopbackOnly (a : ExecutionAuthority) : bool :=
  ea_AllowLoopback a && (ea_ManagedProxyPort a =? 0) && empty (ea_NetworkTargets a).

Definition host_consistent (a : ExecutionAuthority) : bool :=
  let c := ea_EffectiveControls a in
  negb (ea_FullAccess a || (ea_Enforcement a != EnforcementNone) || negb (ea_AllowProcess a)
        || negb (ea_WorkspaceBaseWrite a) || negb (ea_AllowNetwork a)
        || negb (ea_ManagedProxyPort a =? 0) || ea_AllowLoopback a
        || negb (empty (ea_WorkspaceWritePaths a)) || negb (empty (ea_NetworkTargets a))
        || (ct_FilesystemRead c != "unrestricted") || (ct_FilesystemWrite c != "unrestricted")
        || (ct_Network c != NetworkDirect) || (ct_Syscall c != "unrestricted")
        || (ct_IPC c != "unrestricted") || (ct_CrossProcess c != "unrestricted")
        || (ct_ProcessTree c != ProcessTreeGroupKill) || (ct_PathIdentity c != "descriptor_relative")).

Definition full_access_writes (a : ExecutionAuthority) : res error unit :=
  if ea_WorkspaceBaseWrite a then
    refuse (negb (empty (ea_WorkspaceWritePaths a))
            || (ct_FilesystemWrite (ea_EffectiveControls a) != "unrestricted"))
      (ErrText "full access write scope is inconsistent")
  else
    refuse (empty (ea_WorkspaceWritePaths a)
            || (ct_FilesystemWrite (ea_EffectiveControls a) != "exact_paths"))
      (ErrText "full access requires explicit restricted write paths").

Definition full_access_network (a : ExecutionAuthority) : res error unit :=
  let network := ct_Network (ea_EffectiveControls a) in
  if network == NetworkDirect then
    refuse (negb (ea_AllowNetwork a) || negb (ea_ManagedProxyPort a =? 0) || ea_AllowLoopback a
            || negb (empty (ea_NetworkTargets a)))
      (ErrText "full access direct network has scoped grants")
  else if network == NetworkLoopbackAny then
    refuse (negb (ea_AllowNetwork a) || negb (LoopbackOnly a))
      (ErrText "full access loopback scope is inconsistent")
  else if network == NetworkProxyTargets then
    refuse (negb (ea_AllowNetwork a) || (ea_ManagedProxyPort a =? 0) || empty (ea_NetworkTargets a))
      (ErrText "full access proxy scope is inconsistent")
  else if network == NetworkDenied then
    refuse (ea_AllowNetwork a || negb (ea_ManagedProxyPort a =? 0))
      (ErrText "full access network denial is inconsistent")
  else Err (ErrText "full access network control is invalid").

Definition validate_authority (a : ExecutionAuthority) : res error unit :=
  require (String.length (ea_Digest a) =? 64)%nat
    (ErrText "execution authority requires a SHA-256 digest");;
  require (Enforcement_Valid (ea_Enforcement a)) (ErrText "execution authority enforcement is invalid");;
  refuse (ea_HostExecution a && negb (host_consistent a))
    (ErrText "host execution requires explicit unrestricted process controls without a sandbox");;
  (if ea_FullAccess a then
     refuse ((ea_Enforcement a != EnforcementStrong) || negb (ea_AllowProcess a)
             || (ct_FilesystemRead (ea_EffectiveControls a) != "unrestricted"))
       (ErrText "full access requires consistent compiled process controls");;
     full_access_writes a;;
     full_access_network a
   else Ok tt);;
  refuse ((ea_Enforcement a == EnforcementStrong) && blank (ea_WorkspaceRoot a))
    (ErrText "strong execution authority requires a workspace");;
  validate_controls true (ea_RequiredControls a);;
  (if bool_decide (ea_EffectiveControls a = zero_controls) then Ok tt
   else validate_controls false (ea_EffectiveControls a)).

(** ** Paths *)

(** What is left of [target] after [base]. *)
Fixpoint strip_segments (base target : list string) : option (list string) :=
  match base, target with
  | [], _ => Some target
  | b :: base, t :: target => if b == t then strip_segments base target else None
  | _ :: _, [] => None
  end.

(** [filepath.Rel(root, path)] when it succeeds without climbing out of the root. *)
Definition rel_inside (root path : string) : option string :=
  if bool_decide (is_abs root = is_abs path) then
    match strip_segments (clean_segments root) (clean_segments path) with
    | Some (segment :: rest) =>
        if segment == ".." then None else Some (unsplit false (segment :: rest))
    | Some [] => Some "."
    | None => None
    end
  else None.

Definition inside (root path : string) : bool :=
  match rel_inside root path with Some _ => true | None => false end.

(** The first requested path below none of the allowed ones. *)
Definition deniedPath (requested allowed : list string) : option string :=
  let canonical := sort_strings (clean <$> allowed) in
  head (filter (λ path,
    negb (contains canonical (clean path) || existsb (λ root, inside root (clean path)) canonical)
    = true) requested).

Definition DeniedReadPath (a : ExecutionAuthority) (paths : list string) : option string :=
  deniedPath paths (ea_ReadPaths a).
Definition DeniedWritePath (a : ExecutionAuthority) (paths : list string) : option string :=
  if ea_WorkspaceBaseWrite a then None else deniedPath paths (ea_WorkspaceWritePaths a).

Definition AllowsWritePaths (a : ExecutionAuthority) (paths : list string) : bool :=
  ea_WorkspaceBaseWrite a
  || (let allowed := sort_strings (clean <$> ea_WorkspaceWritePaths a) in
      forallb (λ path, contains allowed (clean path)) paths).

(** ** Prepared commands *)

(** The controls with two dimensions taken from the authority, and the verdict. *)
Definition VerifyPrepared (a : ExecutionAuthority) (prepared : Controls)
    : Controls * res error unit :=
  let c := ea_EffectiveControls a in
  let prepared :=
    if bool_decide (c = zero_controls) then prepared
    else mkControls (ct_FilesystemRead prepared) (ct_FilesystemWrite prepared) (ct_Network prepared)
           (ct_ProcessTree prepared) (ct_CrossProcess prepared) (ct_Syscall prepared)
           (ct_IPC prepared) (ct_PathIdentity prepared) (ct_ArtifactOrigin c)
           (ct_DurableRecovery c) in
  (prepared,
   SatisfiedBy (ea_RequiredControls a) prepared;;
   (if (ea_Enforcement a == EnforcementStrong) && (ct_Network c != "") then
      match SatisfiedBy (mkControls "" "" (ct_Network c) "" "" "" "" "" "" "") prepared with
      | Ok _ => Ok tt
      | Err e => Err (ErrWrap "prepared network exceeds the compiled authority: %w" [] e)
      end
    else Ok tt);;
   refuse (ea_FullAccess a
           && ((ct_FilesystemRead prepared != ct_FilesystemRead c)
               || (ct_FilesystemWrite prepared != ct_FilesystemWrite c)
               || (ct_Network prepared != ct_Network c) || (ct_Syscall prepared != ct_Syscall c)
               || (ct_IPC prepared != ct_IPC c)))
     (ErrText "prepared controls differ from the compiled Full Access grants")).

(** ** Isolated copies *)

Definition json_controls (c : Controls) : json :=
  JObj (omit_str "filesystem_read" (ct_FilesystemRead c)
        ++ omit_str "filesystem_write" (ct_FilesystemWrite c)
        ++ omit_str "network" (ct_Network c) ++ omit_str "process_tree" (ct_ProcessTree c)
        ++ omit_str "cross_process" (ct_CrossProcess c) ++ omit_str "syscall" (ct_Syscall c)
        ++ omit_str "ipc" (ct_IPC c) ++ omit_str "path_identity" (ct_PathIdentity c)
        ++ omit_str "artifact_origin" (ct_ArtifactOrigin c)
        ++ omit_str "durable_recovery" (ct_DurableRecovery c)).

(** An empty list is a nil slice, as every profile hands it out. *)
Definition json_paths (l : list string) : json :=
  match l with [] => JNull | _ => JArr (JStr <$> l) end.

Definition json_authority (a : ExecutionAuthority) : json :=
  JObj [("HostExecution", JBool (ea_HostExecution a)); ("FullAccess", JBool (ea_FullAccess a));
        ("Digest", JStr (ea_Digest a)); ("Enforcement", JStr (ea_Enforcement a));
        ("WorkspaceRoot", JStr (ea_WorkspaceRoot a));
        ("WorkspaceBaseWrite", JBool (ea_WorkspaceBaseWrite a));
        ("ReadPaths", json_paths (ea_ReadPaths a));
        ("WorkspaceWritePaths", json_paths (ea_WorkspaceWritePaths a));
        ("NetworkTargets", json_paths (ea_NetworkTargets a));
        ("ManagedProxyPort", JInt (ea_ManagedProxyPort a));
        ("AllowLoopback", JBool (ea_AllowLoopback a)); ("AllowNetwork", JBool (ea_AllowNetwork a));
        ("AllowProcess", JBool (ea_AllowProcess a));
        ("RequiredControls", json_controls (ea_RequiredControls a));
        ("EffectiveControls", json_controls (ea_EffectiveControls a))].

Definition relocate (source target path : string) : option string :=
  relative ← rel_inside source path; Some (path_join target relative).

(** The write paths of the copy, or the first one outside the workspace. *)
Fixpoint relocate_writes (source target : string) (paths : list string) : res error (list string) :=
  match paths with
  | [] => Ok []
  | path :: paths =>
      match relocate source target path with
      | None => Err (ErrFmt "isolated write grant %q is outside the original workspace" [ArgS path])
      | Some mapped => rest ← relocate_writes source target paths; Ok (mapped :: rest)
      end
  end.

Definition RelocateWorkspace (a : ExecutionAuthority) (source target : string)
    : res error ExecutionAuthority :=
  validate_authority a;;
  refuse (negb (is_abs source) || negb (is_abs target) || (clean (ea_WorkspaceRoot a) != clean source))
    (ErrText "isolated authority requires the original workspace identity and an absolute target");;
  writes ← relocate_writes source target (ea_WorkspaceWritePaths a);
  let projected digest :=
    mkExecutionAuthority (ea_HostExecution a) (ea_FullAccess a) digest (ea_Enforcement a)
      (clean target) (ea_WorkspaceBaseWrite a)
      ((λ path, default path (relocate source target path)) <$> ea_ReadPaths a) writes
      (ea_NetworkTargets a) (ea_ManagedProxyPort a) (ea_AllowLoopback a) (ea_AllowNetwork a)
      (ea_AllowProcess a) (ea_RequiredControls a) (ea_EffectiveControls a) in
  let result := projected (sha256_hex (encode (json_authority (projected (ea_Digest a))))) in
  validate_authority result;; Ok result.
