(* ===== verification/Operation.v ===== *)
(** Execution operations ([security/authority/operation.go], [managed_process.go],
    [managed_file.go]): what a tool call is about to do, in normal form and under a digest of its
    JSON text, which a lease binds; and the operations that brokers build themselves. The ones
    compiled from a policy decision are in [CompiledAuthority]. *)
From S2P Require Import Prelude.
From S2P Require Import GoStrings.
From S2P Require Import Sha256.
From S2P Require Import Json.
From S2P Require Import Paths.
From S2P Require Import SecurityModel.
From S2P Require Import Controls.
From S2P Require Import ExecAuthority.

Definition OperationSchemaVersion : Z := 3.

(** ** Resources *)

Definition ResourceNamespace : Type := string.
Definition NamespaceWorkspace : ResourceNamespace := "workspace".
Definition NamespaceSandboxHome : ResourceNamespace := "sandbox_home".
Definition NamespaceBrokerArtifact : ResourceNamespace := "broker_artifact".
Definition NamespaceHostToolchain : ResourceNamespace := "host_toolchain".
Definition NamespaceHostConfig : ResourceNamespace := "host_config".
Definition NamespaceCache : ResourceNamespace := "cache".
Definition NamespaceSharedUserTemp : ResourceNamespace := "shared_user_temp".
Definition NamespaceCredential : ResourceNamespace := "credential".
Definition NamespaceControlState : ResourceNamespace := "control_state".
Definition NamespaceNetwork : ResourceNamespace := "network".
Definition NamespaceProcess : ResourceNamespace := "process".
Definition NamespaceRuntime : ResourceNamespace := "runtime".

(** [authority.Resource]. *)
Record OpResource := mkOpResource {
  or_Namespace : ResourceNamespace;
  or_RootID : string;
  or_RelativePath : string;
  or_RootGeneration : Z;
  or_FileIdentity : string;
  or_Kind : string;
  or_ID : string;
  or_Access : Access;
  or_Tree : bool;
  or_Protocol : string;
  or_Port : Z;
  or_Methods : list string;
  or_AllowPrivate : bool;
}.

Definition json_op_resource (r : OpResource) : json :=
  JObj ([("namespace", JStr (or_Namespace r))] ++ omit_str "root_id" (or_RootID r)
        ++ omit_str "relative_path" (or_RelativePath r)
        ++ omit_int "root_generation" (or_RootGeneration r)
        ++ omit_str "file_identity" (or_FileIdentity r)
        ++ [("kind", JStr (or_Kind r))] ++ omit_str "id" (or_ID r)
        ++ [("access", JStr (or_Access r))] ++ omit_bool "tree" (or_Tree r)
        ++ omit_str "protocol" (or_Protocol r) ++ omit_int "port" (or_Port r)
        ++ omit_strs "methods" (or_Methods r) ++ omit_bool "allow_private" (or_AllowPrivate r)).

(** [digestValue]; [json.Marshal] does not fail on the types of the package. *)
Definition digestValue (v : json) : string := sha256_hex (encode v).
Definition DigestString (value : string) : string := sha256_hex value.

Definition validDigest (value : string) : bool :=
  (String.length value =? 64)%nat && is_hex (bytes value).

Definition resourceKey (r : OpResource) : string := encode (json_op_resource r).
Definition resourceDigest (r : OpResource) : string := digestValue (json_op_resource r).

Definition bindsFilesystem (r : OpResource) : bool :=
  if contains [NamespaceWorkspace; NamespaceSandboxHome; NamespaceBrokerArtifact;
               NamespaceHostToolchain; NamespaceCache; NamespaceSharedUserTemp;
               NamespaceControlState] (or_Namespace r) then true
  else (or_Namespace r == NamespaceHostConfig) && (or_Kind r != "env").

(** A relative path leaves its root. *)
Definition climbs (path : string) : bool := (path == "..") || has_prefix path "../".

Definition validate_op_resource (r : OpResource) : res error unit :=
  refuse ((or_Namespace r == "") || blank (or_Kind r) || (or_Access r == ""))
    (ErrText "operation resource is incomplete");;
  require (contains [NamespaceWorkspace; NamespaceSandboxHome; NamespaceBrokerArtifact;
      NamespaceHostToolchain; NamespaceHostConfig; NamespaceCache; NamespaceSharedUserTemp;
      NamespaceCredential; NamespaceControlState; NamespaceNetwork; NamespaceProcess;
      NamespaceRuntime] (or_Namespace r))
    (ErrText "operation resource namespace is invalid");;
  require (contains [Read; Write; Tree; Use] (or_Access r))
    (ErrText "operation resource access is invalid");;
  refuse ((or_Access r == Use) && (or_Namespace r != NamespaceCredential))
    (ErrText "access use is only valid for credential resources");;
  refuse ((or_Namespace r == NamespaceCredential) && (or_Access r != Use))
    (ErrText "credential resources must use access use");;
  refuse ((or_Namespace r == NamespaceCredential) && blank (or_ID r))
    (ErrText "credential resource identity is required");;
  (if bindsFilesystem r then
     refuse (or_RelativePath r == "") (ErrText "operation resource relative path is required");;
     refuse (is_abs (or_RelativePath r) || climbs (or_RelativePath r))
       (ErrText "operation resource path is not relative");;
     refuse (negb (validDigest (or_RootID r)) || (or_RootGeneration r =? 0))
       (ErrText "operation resource root binding is incomplete")
   else
     refuse ((or_RelativePath r != "") || (or_RootID r != "") || negb (or_RootGeneration r =? 0))
       (ErrText "non-filesystem resource carries a root binding"));;
  refuse ((or_Namespace r == NamespaceNetwork) && blank (or_ID r))
    (ErrText "network resource target is required");;
  refuse ((or_Namespace r == NamespaceHostConfig) && (or_Kind r == "env") && blank (or_ID r))
    (ErrText "host_config env resource identity is required").

(** [sort.Slice] by key, which is an insertion sort up to twelve elements. *)
Definition resource_le (a b : OpResource) : Prop := String.le (resourceKey a) (resourceKey b).
#[export] Instance resource_le_dec a b : Decision (resource_le a b).
Proof. unfold resource_le. apply _. Defined.

(** The first of each run of equal keys; [last] is the key of the last one kept. *)
Fixpoint keep_first (last : option string) (l : list OpResource) : list OpResource :=
  match l with
  | [] => []
  | r :: l =>
      let key := resourceKey r in
      if bool_decide (last = Some key) then keep_first last l else r :: keep_first (Some key) l
  end.

Definition normalizeResources (l : list OpResource) : list OpResource :=
  keep_first None (merge_sort resource_le l).

(** [slices] of strings in order, without blanks and repetitions; its argument is not used again. *)
Definition uniqueSorted (values : list string) : list string :=
  compact (filter (λ v, (v != "") = true) (sort_strings (trim_space <$> values))).

(** ** Effects and intents *)

Definition WorkspaceTransactionNone : string := "none".
Definition WorkspaceTransactionBeforeImage : string := "before_image".

Record EffectContract := mkEffectContract {
  ec_Kind : EffectKind;
  ec_Reversibility : Reversibility;
  ec_Risk : Risk;
  ec_WorkspaceTransaction : string;
  ec_RequireReadBeforeWrite : bool;
}.

Definition json_contract (e : EffectContract) : json :=
  JObj ([("kind", JStr (ec_Kind e)); ("reversibility", JStr (ec_Reversibility e));
         ("risk", JStr (ec_Risk e)); ("workspace_transaction", JStr (ec_WorkspaceTransaction e))]
        ++ omit_bool "require_read_before_write" (ec_RequireReadBeforeWrite e)).

Definition validate_contract (e : EffectContract) : res error unit :=
  require (contains [WorkspaceTransactionNone; WorkspaceTransactionBeforeImage]
             (ec_WorkspaceTransaction e)) (ErrText "workspace transaction is invalid");;
  validate_effect (mkEffect (ec_Kind e) (ec_Risk e) (ec_Reversibility e));;
  refuse (ec_RequireReadBeforeWrite e
          && (ec_WorkspaceTransaction e != WorkspaceTransactionBeforeImage))
    (ErrText "read-before-write requires a workspace transaction").

Record ProcessIntent := mkProcessIntent {
  pi_PreparedCommandDigest : string;
  pi_Kind : string;
  pi_Tool : string;
  pi_ArgumentsDigest : string;
}.
Record NetworkIntent := mkNetworkIntent { ni_Targets : list string; ni_LoopbackAny : bool }.
Record FileIntent := mkFileIntent { fi_ResourceDigests : list string; fi_MutationDigest : string }.
Record ArtifactIntent := mkArtifactIntent { ai_ManifestDigest : string; ai_Generation : Z }.

(** [op_Resources] is [None] for a nil slice, which [json.Marshal] tells from an empty one. *)
Record ExecutionOperation := mkExecutionOperation {
  op_SchemaVersion : Z;
  op_ID : string;
  op_Tool : string;
  op_WorkspaceID : string;
  op_WorkspaceGeneration : Z;
  op_Subject : Subject;
  op_Effect : EffectContract;
  op_Required : Controls;
  op_Resources : option (list OpResource);
  op_Process : option ProcessIntent;
  op_Network : option NetworkIntent;
  op_File : option FileIntent;
  op_Artifact : option ArtifactIntent;
  op_Digest : string;
}.

Definition resources_of (o : ExecutionOperation) : list OpResource := default [] (op_Resources o).

Definition with_digest (digest : string) (o : ExecutionOperation) : ExecutionOperation :=
  mkExecutionOperation (op_SchemaVersion o) (op_ID o) (op_Tool o) (op_WorkspaceID o)
    (op_WorkspaceGeneration o) (op_Subject o) (op_Effect o) (op_Required o) (op_Resources o)
    (op_Process o) (op_Network o) (op_File o) (op_Artifact o) digest.

Definition json_subject (s : Subject) : json :=
  JObj [("kind", JStr (sj_Kind s)); ("id", JStr (sj_ID s)); ("trust", JStr (sj_Trust s));
        ("digest", JStr (sj_Digest s)); ("generation", JInt (sj_Generation s))].

Definition json_process (p : ProcessIntent) : json :=
  JObj (omit_str "prepared_command_digest" (pi_PreparedCommandDigest p)
        ++ [("kind", JStr (pi_Kind p)); ("tool", JStr (pi_Tool p));
            ("arguments_digest", JStr (pi_ArgumentsDigest p))]).
Definition json_network (n : NetworkIntent) : json :=
  JObj (omit_strs "targets" (ni_Targets n) ++ omit_bool "loopback_any" (ni_LoopbackAny n)).
Definition json_file (f : FileIntent) : json :=
  JObj ([("resource_digests", JArr (JStr <$> fi_ResourceDigests f))]
        ++ omit_str "mutation_digest" (fi_MutationDigest f)).
Definition json_artifact (a : ArtifactIntent) : json :=
  JObj [("manifest_digest", JStr (ai_ManifestDigest a)); ("generation", JInt (ai_Generation a))].

Definition json_operation (o : ExecutionOperation) : json :=
  JObj ([("schema_version", JInt (op_SchemaVersion o)); ("id", JStr (op_ID o));
         ("tool", JStr (op_Tool o)); ("workspace_id", JStr (op_WorkspaceID o));
         ("workspace_generation", JInt (op_WorkspaceGeneration o));
         ("subject", json_subject (op_Subject o)); ("effect", json_contract (op_Effect o));
         ("required_controls", json_controls (op_Required o));
         ("resources", from_option (λ l, JArr (json_op_resource <$> l)) JNull (op_Resources o))]
        ++ omit_opt "process" json_process (op_Process o)
        ++ omit_opt "network" json_network (op_Network o)
        ++ omit_opt "file" json_file (op_File o)
        ++ omit_opt "artifact" json_artifact (op_Artifact o)
        ++ [("digest", JStr (op_Digest o))]).

Definition operationDigest (o : ExecutionOperation) : string :=
  digestValue (json_operation (with_digest "" o)).

(** ** Validation *)

(** [sort.StringsAreSorted], and [sort.SliceIsSorted] on keys. *)
Fixpoint strings_sorted (l : list string) : bool :=
  match l with
  | x :: ((y :: _) as l') => bool_decide (String.le x y) && strings_sorted l'
  | _ => true
  end.

(** Some element equals the one before it. *)
Fixpoint repeats (l : list string) : bool :=
  match l with
  | x :: ((y :: _) as l') => (x == y) || repeats l'
  | _ => false
  end.

Definition validate_process (tool : string) (p : ProcessIntent) : res error unit :=
  refuse ((pi_Kind p != "tool") || (pi_Tool p != tool) || negb (validDigest (pi_ArgumentsDigest p))
          || ((pi_PreparedCommandDigest p != "") && negb (validDigest (pi_PreparedCommandDigest p))))
    (ErrText "execution process intent is invalid").

Definition validate_network (n : NetworkIntent) : res error unit :=
  refuse ((bool_decide (ni_Targets n = []) && negb (ni_LoopbackAny n))
          || negb (strings_sorted (ni_Targets n)))
    (ErrText "execution network intent is invalid");;
  refuse (existsb blank (ni_Targets n) || repeats (ni_Targets n))
    (ErrText "execution network targets are invalid").

Definition validate_file (f : FileIntent) : res error unit :=
  refuse (bool_decide (fi_ResourceDigests f = []) || negb (strings_sorted (fi_ResourceDigests f)))
    (ErrText "execution file intent is invalid");;
  refuse (existsb (λ d, negb (validDigest d)) (fi_ResourceDigests f)
          || repeats (fi_ResourceDigests f))
    (ErrText "execution file resource digest is invalid");;
  refuse ((fi_MutationDigest f != "") && negb (validDigest (fi_MutationDigest f)))
    (ErrText "execution file mutation digest is invalid").

Definition validate_artifact (a : ArtifactIntent) : res error unit :=
  refuse (negb (validDigest (ai_ManifestDigest a)) || (ai_Generation a =? 0))
    (ErrText "execution artifact intent is invalid").

(** A check of an optional part. *)
Definition if_present {A} (f : A → res error unit) (o : option A) : res error unit :=
  match o with Some a => f a | None => Ok tt end.

Definition validate_operation (o : ExecutionOperation) : res error unit :=
  refuse (negb (op_SchemaVersion o =? OperationSchemaVersion) || blank (op_ID o) || blank (op_Tool o)
          || negb (validDigest (op_WorkspaceID o)) || (op_WorkspaceGeneration o =? 0))
    (ErrText "execution operation identity is incomplete");;
  validate_subject (op_Subject o);;
  validate_contract (op_Effect o);;
  (match validate_controls true (op_Required o) with
   | Ok _ => Ok tt
   | Err e => Err (ErrWrap "required controls: %w" [] e)
   end);;
  iterM validate_op_resource (resources_of o);;
  require (strings_sorted (resourceKey <$> resources_of o))
    (ErrText "execution operation resources are not normalized");;
  refuse (repeats (resourceKey <$> resources_of o))
    (ErrText "execution operation resources are duplicated");;
  if_present (validate_process (op_Tool o)) (op_Process o);;
  if_present validate_network (op_Network o);;
  if_present validate_file (op_File o);;
  if_present validate_artifact (op_Artifact o);;
  require (validDigest (op_Digest o) && (op_Digest o == operationDigest o))
    (ErrText "execution operation digest mismatch").

(** The digest is put in and the whole is validated. *)
Definition finalize (o : ExecutionOperation) : res error ExecutionOperation :=
  let o := with_digest (operationDigest o) o in
  validate_operation o;; Ok o.

(** ** Operations brokers build *)

(** [slices] of strings in JSON: nil is [null]. *)
Definition json_strings (l : option (list string)) : json :=
  from_option (λ l, JArr (JStr <$> l)) JNull l.

Definition ManagedProcessArgumentsDigest (executable : string)
    (args environment : option (list string)) (workingDirectory : string) : string :=
  digestValue (JObj [("executable", JStr (clean executable)); ("args", json_strings args);
                     ("working_directory", JStr (clean workingDirectory));
                     ("environment", json_strings environment)]).

Record ManagedProcessInput := mkManagedProcessInput {
  mp_ID : string;
  mp_Tool : string;
  mp_WorkspaceID : string;
  mp_WorkspaceGeneration : Z;
  mp_Subject : Subject;
  mp_Executable : string;
  mp_Args : option (list string);
  mp_WorkingDirectory : string;
  mp_Environment : option (list string);
  mp_Effect : EffectContract;
  mp_Required : Controls;
}.

Definition BuildManagedProcessOperation (input : ManagedProcessInput)
    : res error ExecutionOperation :=
  validate_subject (mp_Subject input);;
  refuse (blank (mp_ID input) || blank (mp_Tool input) || negb (validDigest (mp_WorkspaceID input))
          || (mp_WorkspaceGeneration input =? 0) || blank (mp_Executable input)
          || blank (mp_WorkingDirectory input))
    (ErrText "managed process operation is incomplete");;
  let argumentsDigest :=
    ManagedProcessArgumentsDigest (mp_Executable input) (mp_Args input) (mp_Environment input)
      (mp_WorkingDirectory input) in
  finalize (mkExecutionOperation OperationSchemaVersion (mp_ID input) (mp_Tool input)
    (mp_WorkspaceID input) (mp_WorkspaceGeneration input) (mp_Subject input) (mp_Effect input)
    (mp_Required input)
    (Some [mkOpResource NamespaceProcess "" "" 0 "" "process" (mp_Tool input) Write false "" 0 [] false])
    (Some (mkProcessIntent "" "tool" (mp_Tool input) argumentsDigest)) None None None "").

(** The subject's digest is of its [material], an argument of any type in the code. *)
Definition NewManagedProcessSubject (kind id trust : string) (generation : Z) (material : json)
    : res error Subject :=
  let subject := mkSubject kind (trim_space id) trust (digestValue material) generation in
  validate_subject subject;; Ok subject.

Definition ManagedProcessEffect (risk : Risk) : EffectContract :=
  mkEffectContract ProcessReadOnly Bounded risk WorkspaceTransactionNone false.

Record ManagedFileInput := mkManagedFileInput {
  mf_ID : string;
  mf_Tool : string;
  mf_WorkspaceRoot : string;
  mf_WorkspaceID : string;
  mf_WorkspaceGeneration : Z;
  mf_Subject : Subject;
  mf_Paths : list string;
  mf_MutationDigest : string;
  mf_Risk : Risk;
}.

(** The controls an exact file mutation requires. *)
Definition file_required : Controls :=
  mkControls "exact_paths" "exact_paths" "" "" "" "" "" "descriptor_relative" "" "external_journal".

(** A loop that appends what [f] yields, up to its first error. *)
Definition collect {E A B} (f : A → res E B) (l : list A) : res E (list B) :=
  foldM (λ acc x, b ← f x; Ok (acc ++ [b])) l [].

(** One path of a file operation. *)
Definition file_resource (input : ManagedFileInput) (path : string) : res error OpResource :=
  let path := clean path in
  refuse ((path == "") || (path == ".") || is_abs path || climbs path)
    (ErrText "managed file path is invalid");;
  let resource :=
    mkOpResource NamespaceWorkspace (mf_WorkspaceID input) path (mf_WorkspaceGeneration input) ""
      "path" "" Write false "" 0 [] false in
  validate_op_resource resource;; Ok resource.

Definition BuildManagedFileOperation (input : ManagedFileInput) : res error ExecutionOperation :=
  validate_subject (mf_Subject input);;
  refuse (blank (mf_ID input) || blank (mf_Tool input) || blank (mf_WorkspaceRoot input)
          || negb (validDigest (mf_WorkspaceID input)) || (mf_WorkspaceGeneration input =? 0)
          || negb (validDigest (mf_MutationDigest input)) || bool_decide (mf_Paths input = []))
    (ErrText "managed file operation is incomplete");;
  resources ← collect (file_resource input) (mf_Paths input);
  let resources := normalizeResources resources in
  let digests := sort_strings (resourceDigest <$> resources) in
  finalize (mkExecutionOperation OperationSchemaVersion (mf_ID input) (mf_Tool input)
    (mf_WorkspaceID input) (mf_WorkspaceGeneration input) (mf_Subject input)
    (mkEffectContract WorkspaceEdit Reversible (mf_Risk input) WorkspaceTransactionBeforeImage true)
    file_required (Some resources) None None (Some (mkFileIntent digests (mf_MutationDigest input)))
    None "").

Definition FallbackSandboxPolicyID (workspaceRoot backend : string) (controls : Controls) : string :=
  if blank workspaceRoot || blank backend then ""
  else digestValue (JObj [("WorkspaceRoot", JStr (clean workspaceRoot)); ("Backend", JStr backend);
                          ("Controls", json_controls controls)]).

(** ** Examples *)

Definition sample_file : ManagedFileInput :=
  mkManagedFileInput "call" "edit" "/ws" (String.concat "" (replicate 64 "a")) 1
    (mkSubject "builtin" "edit" "builtin" "" 1) [] "" RiskLow.

Example file_paths_are_relative :
  is_ok (file_resource sample_file "a/../../b") = false ∧ is_ok (file_resource sample_file "/ws/a") = false
  ∧ (r ← file_resource sample_file "./a//b/../c"; Ok (or_RelativePath r)) = Ok "a/c".
Proof. vm_compute. split_and!; reflexivity. Qed.

(** Two paths that are not valid UTF-8 have the same JSON text: their resources are taken
    for repetitions of one, and their operations share a digest. *)
Definition byte_path (z : Z) : string := of_bytes [z].

Example invalid_paths_collide :
  byte_path 0xFF ≠ byte_path 0xFE ∧
  (r ← file_resource sample_file (byte_path 0xFF); Ok (resourceKey r))
  = (r ← file_resource sample_file (byte_path 0xFE); Ok (resourceKey r)) ∧
  is_ok (file_resource sample_file (byte_path 0xFF)) = true.
Proof. vm_compute. split_and!; [discriminate|reflexivity..]. Qed.
