(* ===== verification/Profile.v ===== *)
(** Permission profiles ([security/authority/profile.go], [amendment.go], [managed_process.go],
    [managed_file.go]): the ceiling of one execution, under a digest of its JSON text, and how an
    approved denial widens it. *)
From S2P Require Import Prelude.
From S2P Require Import GoStrings.
From S2P Require Import Sha256.
From S2P Require Import Json.
From S2P Require Import Paths.
From S2P Require Import PathPattern.
From S2P Require Import Netpolicy.
From S2P Require Import SecurityModel.
From S2P Require Import Controls.
From S2P Require Import ExecAuthority.
From S2P Require Import Operation.

Definition SchemaVersion : Z := 5.

(** ** Profiles *)

Record FilesystemAuthority := mkFilesystemAuthority {
  fs_WorkspaceRoot : string;
  fs_ReadRoots : list string;
  fs_WritePaths : list string;
  fs_DeniedWriteRoots : list string;
  fs_WorkspaceBaseWrite : bool;
}.

Record NetworkAuthority := mkNetworkAuthority {
  na_Targets : list string;
  na_ProxyPort : Z;
  na_Loopback : bool;
}.

Record ProcessAuthority := mkProcessAuthority {
  pa_HostExecution : bool;
  pa_FullAccess : bool;
  pa_Allowed : bool;
  pa_Enforcement : Enforcement;
  pa_Backend : string;
}.

Record AuthoritySource := mkAuthoritySource {
  sr_Kind : string;
  sr_Value : string;
  sr_Digest : string;
  sr_Revision : Z;
}.

(** Nil and empty provenances are not told apart: every profile of the package has one. *)
Record EffectivePermissionProfile := mkProfile {
  pr_SchemaVersion : Z;
  pr_Revision : Z;
  pr_Tool : string;
  pr_Capability : Capability;
  pr_Access : Access;
  pr_Filesystem : FilesystemAuthority;
  pr_Network : NetworkAuthority;
  pr_Process : ProcessAuthority;
  pr_Controls : Controls;
  pr_Provenance : list AuthoritySource;
  pr_Digest : string;
}.

Definition json_filesystem (f : FilesystemAuthority) : json :=
  JObj ([("workspace_root", JStr (fs_WorkspaceRoot f))] ++ omit_strs "read_roots" (fs_ReadRoots f)
        ++ omit_strs "write_paths" (fs_WritePaths f)
        ++ omit_strs "denied_write_roots" (fs_DeniedWriteRoots f)
        ++ omit_bool "workspace_base_write" (fs_WorkspaceBaseWrite f)).

Definition json_reach (n : NetworkAuthority) : json :=
  JObj (omit_strs "targets" (na_Targets n) ++ omit_int "proxy_port" (na_ProxyPort n)
        ++ omit_bool "loopback" (na_Loopback n)).

Definition json_launch (p : ProcessAuthority) : json :=
  JObj (omit_bool "host_execution" (pa_HostExecution p) ++ omit_bool "full_access" (pa_FullAccess p)
        ++ [("allowed", JBool (pa_Allowed p)); ("enforcement", JStr (pa_Enforcement p));
            ("backend", JStr (pa_Backend p))]).

Definition json_source (s : AuthoritySource) : json :=
  JObj ([("kind", JStr (sr_Kind s)); ("value", JStr (sr_Value s))]
        ++ omit_str "digest" (sr_Digest s) ++ omit_int "revision" (sr_Revision s)).

Definition json_profile (p : EffectivePermissionProfile) : json :=
  JObj [("schema_version", JInt (pr_SchemaVersion p)); ("revision", JInt (pr_Revision p));
        ("tool", JStr (pr_Tool p)); ("capability", JStr (pr_Capability p));
        ("access", JStr (pr_Access p)); ("filesystem", json_filesystem (pr_Filesystem p));
        ("network", json_reach (pr_Network p)); ("process", json_launch (pr_Process p));
        ("controls", json_controls (pr_Controls p));
        ("provenance", JArr (json_source <$> pr_Provenance p)); ("digest", JStr (pr_Digest p))].

Definition with_profile_digest (digest : string) (p : EffectivePermissionProfile)
    : EffectivePermissionProfile :=
  mkProfile (pr_SchemaVersion p) (pr_Revision p) (pr_Tool p) (pr_Capability p) (pr_Access p)
    (pr_Filesystem p) (pr_Network p) (pr_Process p) (pr_Controls p) (pr_Provenance p) digest.

Definition profileDigest (p : EffectivePermissionProfile) : string :=
  digestValue (json_profile (with_profile_digest "" p)).

Definition executionAuthority (p : EffectivePermissionProfile) (required : Controls)
    : ExecutionAuthority :=
  mkExecutionAuthority (pa_HostExecution (pr_Process p)) (pa_FullAccess (pr_Process p)) (pr_Digest p)
    (pa_Enforcement (pr_Process p)) (fs_WorkspaceRoot (pr_Filesystem p))
    (fs_WorkspaceBaseWrite (pr_Filesystem p) || (pa_Enforcement (pr_Process p) == EnforcementNone))
    (fs_ReadRoots (pr_Filesystem p)) (fs_WritePaths (pr_Filesystem p)) (na_Targets (pr_Network p))
    (na_ProxyPort (pr_Network p)) (na_Loopback (pr_Network p))
    (ct_Network (pr_Controls p) != NetworkDenied) (pa_Allowed (pr_Process p)) required
    (pr_Controls p).

Definition wrapped (format : string) (r : res error unit) : res error unit :=
  match r with Ok _ => Ok tt | Err e => Err (ErrWrap format [] e) end.

Definition validate_profile (p : EffectivePermissionProfile) : res error unit :=
  refuse (negb (pr_SchemaVersion p =? SchemaVersion) || (pr_Revision p =? 0) || (pr_Tool p == "")
          || (pr_Capability p == "") || (pr_Digest p == ""))
    (ErrText "effective permission profile is incomplete");;
  require (profileDigest p == pr_Digest p)
    (ErrText "effective permission profile digest mismatch");;
  require (Enforcement_Valid (pa_Enforcement (pr_Process p)))
    (ErrText "effective permission profile enforcement is invalid");;
  (if pa_FullAccess (pr_Process p) || pa_HostExecution (pr_Process p) then
     wrapped "full access profile: %w" (validate_authority (executionAuthority p zero_controls))
   else Ok tt);;
  refuse ((pa_Enforcement (pr_Process p) == EnforcementStrong) && (pa_Backend (pr_Process p) == ""))
    (ErrText "controlled profile has no sandbox backend");;
  wrapped "effective controls: %w" (validate_controls false (pr_Controls p)).

(** The controls an operation is in fact enforced with. *)
Definition effectiveControls (p : EffectivePermissionProfile) (o : ExecutionOperation) : Controls :=
  let c := pr_Controls p in
  mkControls (ct_FilesystemRead c) (ct_FilesystemWrite c) (ct_Network c) (ct_ProcessTree c)
    (ct_CrossProcess c) (ct_Syscall c) (ct_IPC c) (ct_PathIdentity c)
    (match op_Artifact o with Some _ => "broker_snapshot" | None => ct_ArtifactOrigin c end)
    (if ec_WorkspaceTransaction (op_Effect o) == WorkspaceTransactionBeforeImage
     then "external_journal" else ct_DurableRecovery c).

Definition ExecutionAuthorityFor (p : EffectivePermissionProfile) (o : ExecutionOperation)
    : ExecutionAuthority :=
  let a := executionAuthority p (op_Required o) in
  mkExecutionAuthority (ea_HostExecution a) (ea_FullAccess a) (ea_Digest a) (ea_Enforcement a)
    (ea_WorkspaceRoot a) (ea_WorkspaceBaseWrite a) (ea_ReadPaths a) (ea_WorkspaceWritePaths a)
    (ea_NetworkTargets a) (ea_ManagedProxyPort a) (ea_AllowLoopback a) (ea_AllowNetwork a)
    (ea_AllowProcess a) (ea_RequiredControls a) (effectiveControls p o).

(** ** Normal form *)

(** By kind, then value; [sort.Slice] is an insertion sort up to twelve elements. *)
Definition source_le (a b : AuthoritySource) : Prop :=
  if sr_Kind a == sr_Kind b then String.le (sr_Value a) (sr_Value b)
  else String.le (sr_Kind a) (sr_Kind b).
#[export] Instance source_le_dec a b : Decision (source_le a b).
Proof. unfold source_le. case_match; apply _. Defined.

Definition normalize (p : EffectivePermissionProfile) : EffectivePermissionProfile :=
  let f := pr_Filesystem p in
  let n := pr_Network p in
  mkProfile (pr_SchemaVersion p) (pr_Revision p) (pr_Tool p) (pr_Capability p) (pr_Access p)
    (mkFilesystemAuthority (fs_WorkspaceRoot f) (uniqueSorted (fs_ReadRoots f))
       (uniqueSorted (fs_WritePaths f)) (uniqueSorted (fs_DeniedWriteRoots f))
       (fs_WorkspaceBaseWrite f))
    (mkNetworkAuthority (uniqueSorted (na_Targets n)) (na_ProxyPort n) (na_Loopback n))
    (pr_Process p) (pr_Controls p) (merge_sort source_le (pr_Provenance p)) (pr_Digest p).

(** Normal form, digest, validation. *)
Definition seal (p : EffectivePermissionProfile) : res error EffectivePermissionProfile :=
  let p := normalize p in
  let p := with_profile_digest (profileDigest p) p in
  validate_profile p;; Ok p.

Definition unrestrictedControls : Controls :=
  mkControls "unrestricted" "unrestricted" NetworkDirect ProcessTreeUnmanaged "unrestricted"
    "unrestricted" "unrestricted" "lexical" "unverified_path" "memory_only".

(** ** Profiles brokers build *)

Record ManagedProfileInput := mkManagedProfileInput {
  mi_Operation : ExecutionOperation;
  mi_Revision : Z;
  mi_WorkspaceRoot : string;
  mi_WorkspaceBaseWrite : bool;
  mi_ReadRoots : list string;
  mi_AllowNetwork : bool;
  mi_NetworkTargets : list string;
  mi_ManagedProxyPort : Z;
  mi_Enforcement : Enforcement;
  mi_Backend : string;
  mi_Controls : Controls;
}.

Definition set_ct_Network (network : string) (c : Controls) : Controls :=
  mkControls (ct_FilesystemRead c) (ct_FilesystemWrite c) network (ct_ProcessTree c)
    (ct_CrossProcess c) (ct_Syscall c) (ct_IPC c) (ct_PathIdentity c) (ct_ArtifactOrigin c)
    (ct_DurableRecovery c).

Definition BuildManagedProcessProfile (input : ManagedProfileInput)
    : res error EffectivePermissionProfile :=
  let controls :=
    if bool_decide (mi_Controls input = zero_controls) && (mi_Enforcement input == EnforcementNone)
    then unrestrictedControls else mi_Controls input in
  let controls := if mi_AllowNetwork input then controls else set_ct_Network NetworkDenied controls in
  let proxyPort := if ct_Network controls == NetworkProxyTargets then mi_ManagedProxyPort input else 0 in
  let o := mi_Operation input in
  seal (mkProfile SchemaVersion (mi_Revision input) (op_Tool o) CapabilityProcess Read
    (mkFilesystemAuthority (mi_WorkspaceRoot input) (mi_WorkspaceRoot input :: mi_ReadRoots input) []
       [] (mi_WorkspaceBaseWrite input))
    (mkNetworkAuthority (mi_NetworkTargets input) proxyPort false)
    (mkProcessAuthority false false true (mi_Enforcement input) (mi_Backend input))
    controls
    [mkAuthoritySource "managed_process" (sj_ID (op_Subject o)) (sj_Digest (op_Subject o))
       (sj_Generation (op_Subject o))] "").

Definition BuildManagedFileProfile (o : ExecutionOperation) (revision : Z) (workspaceRoot : string)
    : res error EffectivePermissionProfile :=
  validate_operation o;;
  match op_File o with
  | None => Err (ErrText "managed file profile is incomplete")
  | Some _ =>
      refuse (revision =? 0) (ErrText "managed file profile is incomplete");;
      seal (mkProfile SchemaVersion revision (op_Tool o) CapabilityWrite Tree
        (mkFilesystemAuthority workspaceRoot []
           ((λ r, path_join workspaceRoot (or_RelativePath r)) <$> resources_of o) [] false)
        (mkNetworkAuthority [] 0 false)
        (mkProcessAuthority false false false EnforcementNone "file_broker")
        (mkControls "exact_paths" "exact_paths" NetworkDenied ProcessTreeUnmanaged "unrestricted"
           "unrestricted" "unrestricted" "descriptor_relative" "unverified_path" "external_journal")
        [mkAuthoritySource "file_broker" (sj_ID (op_Subject o)) (sj_Digest (op_Subject o))
           (sj_Generation (op_Subject o))] "")
  end.

(** ** Amendments *)

Definition AdditionalPathRead : string := "path_read".
Definition AdditionalPathWrite : string := "path_write".
Definition AdditionalNetwork : string := "network".
Definition AdditionalProcess : string := "process".

Record AdditionalPermission := mkPermission {
  ap_Kind : string;
  ap_Resource : string;
  ap_Protocol : string;
  ap_Port : Z;
  ap_Capability : Capability;
}.

Record AdditionalPermissionRequest := mkPermissionRequest {
  ar_BaseProfileDigest : string;
  ar_Permission : AdditionalPermission;
}.

Definition json_permission_request (r : AdditionalPermissionRequest) : json :=
  let p := ar_Permission r in
  JObj [("base_profile_digest", JStr (ar_BaseProfileDigest r));
        ("permission", JObj ([("kind", JStr (ap_Kind p)); ("resource", JStr (ap_Resource p))]
           ++ omit_str "protocol" (ap_Protocol p) ++ omit_int "port" (ap_Port p)
           ++ omit_str "capability" (ap_Capability p)))].

(** [sandbox.Denial]. *)
Record Denial := mkDenial {
  dn_Backend : string;
  dn_Operation : string;
  dn_Resource : string;
  dn_ReasonCode : string;
  dn_Protocol : string;
  dn_Port : Z;
}.

Definition Amendable (d : Denial) : bool :=
  contains ["path_read_not_authorized"; "path_write_not_authorized"; "network_target_not_authorized";
            "process_capability_not_authorized"] (dn_ReasonCode d).

Definition validateAbsolutePath (path : string) : res error unit :=
  refuse (blank path || negb (is_abs path) || (clean path == "/"))
    (ErrText "additional permission requires one absolute non-root path").

(** Of cleaned paths. *)
Definition pathWithin (root path : string) : bool := inside root path.

(** [strings.ContainsAny(host, "/\@")]. *)
Definition contains_any (host : string) (chars : list ascii) : bool := existsb (has_byte host) chars.
Definition host_separators : list ascii := ["/"%char; ascii_of_N 92; "@"%char].

(** [net.ParseIP(host) != nil]: an address without a zone. *)
Definition parses_as_ip (host : string) : bool :=
  match ParseAddr host with Some _ => negb (has_byte host "%"%char) | None => false end.

Section unicode.
Context `{Unicode}.

Definition validateAdditionalPermission (p : EffectivePermissionProfile) (a : AdditionalPermission)
    : res error unit :=
  if ap_Kind a == AdditionalPathRead then validateAbsolutePath (ap_Resource a)
  else if ap_Kind a == AdditionalPathWrite then
    validateAbsolutePath (ap_Resource a);;
    let path := clean (ap_Resource a) in
    require (pathWithin (fs_WorkspaceRoot (pr_Filesystem p)) path)
      (ErrText "additional write path is outside the workspace");;
    refuse (existsb (λ denied, pathWithin denied path) (fs_DeniedWriteRoots (pr_Filesystem p)))
      (ErrText "additional write path intersects an immutable deny")
  else if ap_Kind a == AdditionalNetwork then
    let host := trim_space (ap_Resource a) in
    refuse ((host == "") || contains_any host host_separators)
      (ErrText "additional network permission requires one host");;
    refuse (negb (parses_as_ip host) && has_byte host ":"%char)
      (ErrText "additional network host is invalid");;
    require (contains ["http"; "https"; "tcp"] (to_lower (ap_Protocol a)))
      (ErrText "additional network protocol is invalid");;
    refuse (ap_Port a =? 0) (ErrText "additional network port is required")
  else if ap_Kind a == AdditionalProcess then
    require (contains [CapabilityProcess; CapabilityExternal] (ap_Capability a))
      (ErrText "additional process capability is invalid")
  else Err (ErrText "additional permission kind is invalid").

Definition RequestFromDenial (p : EffectivePermissionProfile) (d : Denial)
    : res error AdditionalPermissionRequest :=
  validate_profile p;;
  require (Amendable d) (ErrText "sandbox denial is not amendable");;
  let permission kind capability :=
    mkPermission kind (trim_space (dn_Resource d)) (to_lower (trim_space (dn_Protocol d)))
      (dn_Port d) capability in
  permission ←
    (if dn_Operation d == "read" then Ok (permission AdditionalPathRead "")
     else if dn_Operation d == "write" then Ok (permission AdditionalPathWrite "")
     else if dn_Operation d == "network" then Ok (permission AdditionalNetwork "")
     else if dn_Operation d == "process" then Ok (permission AdditionalProcess (dn_Resource d))
     else Err (ErrText "unsupported sandbox denial operation"));
  validateAdditionalPermission p permission;;
  Ok (mkPermissionRequest (pr_Digest p) permission).

(** [strings.Trim(host, "[]")]. *)
Definition bracket (a : ascii) : bool := Ascii.eqb a "["%char || Ascii.eqb a "]"%char.
Fixpoint trim_brackets_left (s : string) : string :=
  match s with
  | String a s' => if bracket a then trim_brackets_left s' else s
  | "" => ""
  end.
Definition trim_brackets (s : string) : string :=
  string_rev (trim_brackets_left (string_rev (trim_brackets_left s))).

Definition networkTarget (a : AdditionalPermission) : string :=
  let host := ap_Resource a in
  let host := if has_byte host ":"%char then "[" +:+ trim_brackets host +:+ "]" else host in
  to_lower (ap_Protocol a) +:+ "://" +:+ join_host_port host (itoa (ap_Port a)).

(** The grant itself. *)
Definition widen (p : EffectivePermissionProfile) (a : AdditionalPermission)
    : FilesystemAuthority * NetworkAuthority * ProcessAuthority :=
  let f := pr_Filesystem p in
  let n := pr_Network p in
  let l := pr_Process p in
  if ap_Kind a == AdditionalPathRead then
    (mkFilesystemAuthority (fs_WorkspaceRoot f) (fs_ReadRoots f ++ [clean (ap_Resource a)])
       (fs_WritePaths f) (fs_DeniedWriteRoots f) (fs_WorkspaceBaseWrite f), n, l)
  else if ap_Kind a == AdditionalPathWrite then
    (mkFilesystemAuthority (fs_WorkspaceRoot f) (fs_ReadRoots f)
       (fs_WritePaths f ++ [clean (ap_Resource a)]) (fs_DeniedWriteRoots f)
       (fs_WorkspaceBaseWrite f), n, l)
  else if ap_Kind a == AdditionalNetwork then
    (f, mkNetworkAuthority (na_Targets n ++ [networkTarget a]) (na_ProxyPort n) (na_Loopback n), l)
  else if ap_Kind a == AdditionalProcess then
    (f, n, mkProcessAuthority (pa_HostExecution l) (pa_FullAccess l) true (pa_Enforcement l)
             (pa_Backend l))
  else (f, n, l).

Definition Amend (base : EffectivePermissionProfile) (request : AdditionalPermissionRequest)
    (revision : Z) : res error EffectivePermissionProfile :=
  validate_profile base;;
  require (ar_BaseProfileDigest request == pr_Digest base)
    (ErrText "additional permission belongs to another profile");;
  refuse (revision <=? pr_Revision base) (ErrText "additional permission revision must advance");;
  validateAdditionalPermission base (ar_Permission request);;
  let '(f, n, l) := widen base (ar_Permission request) in
  seal (mkProfile (pr_SchemaVersion base) revision (pr_Tool base) (pr_Capability base)
    (pr_Access base) f n l (pr_Controls base)
    (pr_Provenance base
       ++ [mkAuthoritySource "amendment" (ap_Kind (ar_Permission request))
             (digestValue (json_permission_request request)) 0]) (pr_Digest base)).

(** The resource a human is asked about; other kinds panic. *)
Definition PermissionResource (a : AdditionalPermission) : option Resource :=
  if ap_Kind a == AdditionalPathRead then
    Some (mkResource ClassPath Read (ap_Resource a) false "" None None false "" "")
  else if ap_Kind a == AdditionalPathWrite then
    Some (mkResource ClassPath Write (ap_Resource a) false "" None None false "" "")
  else if ap_Kind a == AdditionalNetwork then
    Some (mkResource ClassNetwork Write "" false ""
            (Some (mkTarget (to_lower (ap_Protocol a)) (ap_Resource a) (ap_Port a))) None false "" "")
  else if ap_Kind a == AdditionalProcess then
    Some (mkResource ClassProcess Write "" false "" None None false (ap_Capability a) "")
  else None.
End unicode.
