(* ===== verification/ProfileLaws.v ===== *)
(** What amending a permission profile can grant, and what it cannot. *)
From S2P Require Import Prelude.
From S2P Require Import GoStrings.
From S2P Require Import Paths.
From S2P Require Import PathPattern.
From S2P Require Import Netpolicy.
From S2P Require Import SecurityModel.
From S2P Require Import Controls.
From S2P Require Import ExecAuthority.
From S2P Require Import Operation.
From S2P Require Import Profile.

(** ** Lists in normal form *)

Lemma elem_of_compact x l : x ∈ compact l ↔ x ∈ l.
Proof.
  induction l as [|y l IH]; [done|]. destruct l as [|z l]; [done|].
  change (compact (y :: z :: l)) with (if y == z then compact (z :: l) else y :: compact (z :: l)).
  destruct (y == z) eqn:E.
  - apply String.eqb_eq in E as ->. rewrite IH. set_solver.
  - rewrite elem_of_cons, IH. set_solver.
Qed.

Lemma elem_of_uniqueSorted x l :
  x ∈ uniqueSorted l ↔ x ≠ "" ∧ ∃ y, y ∈ l ∧ x = trim_space y.
Proof.
  unfold uniqueSorted. rewrite elem_of_compact, list_elem_of_filter, elem_of_sort_strings,
    list_elem_of_fmap, negb_true_iff, String.eqb_neq. naive_solver.
Qed.

(** Lists as [uniqueSorted] leaves them. *)
Definition trimmed (l : list string) : Prop := ∀ x, x ∈ l → x ≠ "" ∧ trim_space x = x.

Lemma uniqueSorted_trimmed l : trimmed (uniqueSorted l).
Proof.
  intros x (Hne & y & _ & ->)%elem_of_uniqueSorted. split; [done|]. apply trim_space_idemp.
Qed.

Lemma compact_sorted l : StronglySorted String.le l → StronglySorted String.le (compact l) ∧ NoDup (compact l).
Proof.
  induction 1 as [|x l Hs IH Hx]; [split; constructor|]. destruct l as [|y l].
  { split; [repeat constructor|apply NoDup_singleton]. }
  change (compact (x :: y :: l)) with (if x == y then compact (y :: l) else x :: compact (y :: l)).
  destruct (x == y) eqn:E; [done|]. apply String.eqb_neq in E. destruct IH as [IHs IHn].
  assert (Hle : ∀ z, z ∈ compact (y :: l) → String.le x z).
  { intros z Hz. rewrite elem_of_compact in Hz. rewrite Forall_forall in Hx. by apply Hx. }
  split; [constructor; [done|]; by apply Forall_forall|]. apply NoDup_cons. split; [|done].
  intros Hin. rewrite elem_of_compact, elem_of_cons in Hin. destruct Hin as [?|Hin]; [done|].
  apply E, (anti_symm String.le); [apply Hle; rewrite elem_of_compact; left|].
  inversion Hs as [|? ? _ Hy]; subst. rewrite Forall_forall in Hy. by apply Hy.
Qed.

Lemma compact_NoDup l : NoDup l → compact l = l.
Proof.
  induction l as [|x l IH]; [done|]. intros [Hx Hl]%NoDup_cons. destruct l as [|y l]; [done|].
  change (compact (x :: y :: l)) with (if x == y then compact (y :: l) else x :: compact (y :: l)).
  rewrite IH by done. destruct (x == y) eqn:E; [|done]. apply String.eqb_eq in E as ->. set_solver.
Qed.

Lemma filter_sorted (P : string → Prop) `{∀ x, Decision (P x)} l :
  StronglySorted String.le l → StronglySorted String.le (filter P l).
Proof.
  induction 1 as [|x l Hs IH Hx]; [constructor|]. rewrite filter_cons. case_decide; [|done].
  constructor; [done|]. rewrite Forall_forall in *. intros y [_ ?]%list_elem_of_filter. by apply Hx.
Qed.

Lemma uniqueSorted_idemp l : uniqueSorted (uniqueSorted l) = uniqueSorted l.
Proof.
  destruct (compact_sorted (filter (λ v, (v != "") = true) (sort_strings (trim_space <$> l))))
    as [Hs Hn]; [apply filter_sorted, sort_strings_sorted|].
  fold (uniqueSorted l) in Hs, Hn. pose proof (uniqueSorted_trimmed l) as Ht.
  revert Hs Hn Ht. generalize (uniqueSorted l). intros k Hs Hn Ht. unfold uniqueSorted.
  assert (E1 : trim_space <$> k = k).
  { rewrite <-(list_fmap_id k) at 2. apply list_fmap_ext. intros i x Hx.
    by apply Ht, (list_elem_of_lookup_2 _ i). }
  assert (E2 : sort_strings k = k).
  { apply (StronglySorted_unique String.le); [apply sort_strings_sorted|done|].
    apply sort_strings_Permutation. }
  rewrite E1, E2. assert (E3 : filter (λ v, (v != "") = true) k = k).
  { clear -Ht. induction k as [|x k IH]; [done|]. rewrite filter_cons, IH by set_solver.
    rewrite decide_True; [done|]. apply negb_true_iff, String.eqb_neq, Ht. by left. }
  rewrite E3. by apply compact_NoDup.
Qed.

(** [l'] has what [l] has, and what was asked for, without the spaces around it. *)
Definition gained (asked l l' : list string) : Prop :=
  ∀ x, x ∈ l' ↔ x ∈ l ∨ x ≠ "" ∧ ∃ y, y ∈ asked ∧ x = trim_space y.

Lemma gained_uniqueSorted l asked : trimmed l → gained asked l (uniqueSorted (l ++ asked)).
Proof.
  intros Ht x. rewrite elem_of_uniqueSorted. split.
  - intros (Hne & y & [Hy|Hy]%elem_of_app & ->); [left|right; eauto].
    destruct (Ht y Hy) as [_ E]. by rewrite E.
  - intros [Hx|(Hne & y & Hy & ->)]; [|split; [done|]; exists y; set_solver].
    destruct (Ht x Hx) as [Hne E]. split; [done|]. exists x. set_solver.
Qed.

Lemma gained_nothing l : gained [] l l.
Proof. intros x. set_solver. Qed.

Lemma gained_trans a1 a2 l1 l2 l3 :
  gained a1 l1 l2 → gained a2 l2 l3 → gained (a1 ++ a2) l1 l3.
Proof. intros H1 H2 x. specialize (H1 x). specialize (H2 x). set_solver. Qed.

(** ** Sealing *)

Lemma seal_Ok p q :
  seal p = Ok q →
  validate_profile q = Ok tt ∧ q = with_profile_digest (profileDigest (normalize p)) (normalize p).
Proof. unfold seal. intros ([] & Hv & [= <-])%bind_Ok. done. Qed.

(** A profile as [seal] leaves it. *)
Record normal (p : EffectivePermissionProfile) : Prop := mkNormal {
  nm_valid : validate_profile p = Ok tt;
  nm_reads : trimmed (fs_ReadRoots (pr_Filesystem p));
  nm_writes : trimmed (fs_WritePaths (pr_Filesystem p));
  nm_targets : trimmed (na_Targets (pr_Network p));
  nm_denied : uniqueSorted (fs_DeniedWriteRoots (pr_Filesystem p))
              = fs_DeniedWriteRoots (pr_Filesystem p);
}.

Lemma seal_normal p q : seal p = Ok q → normal q.
Proof.
  intros [Hv ->]%seal_Ok. split; [done|apply uniqueSorted_trimmed..|apply uniqueSorted_idemp].
Qed.

Section unicode.
Context `{Unicode}.

Lemma Amend_Ok base request revision p :
  Amend base request revision = Ok p →
  validate_profile base = Ok tt ∧ ar_BaseProfileDigest request = pr_Digest base ∧
  pr_Revision base < revision ∧
  validateAdditionalPermission base (ar_Permission request) = Ok tt ∧
  let '(f, n, l) := widen base (ar_Permission request) in
  seal (mkProfile (pr_SchemaVersion base) revision (pr_Tool base) (pr_Capability base)
    (pr_Access base) f n l (pr_Controls base)
    (pr_Provenance base
       ++ [mkAuthoritySource "amendment" (ap_Kind (ar_Permission request))
             (digestValue (json_permission_request request)) 0]) (pr_Digest base)) = Ok p.
Proof.
  unfold Amend. intros ([] & Hv & ([] & Hd%require_Ok & ([] & Hr%refuse_Ok & ([] & Hp & Hs)%bind_Ok)%bind_Ok)%bind_Ok)%bind_Ok.
  apply String.eqb_eq in Hd. apply Z.leb_gt in Hr. repeat (split; [done|]).
  by destruct (widen _ _) as [[f n] l].
Qed.

(** What a write permission was checked for. *)
Definition admissible_write (p : EffectivePermissionProfile) (path : string) : Prop :=
  inside (fs_WorkspaceRoot (pr_Filesystem p)) path = true ∧
  ∀ denied, denied ∈ fs_DeniedWriteRoots (pr_Filesystem p) → inside denied path = false.

Lemma write_admissible base a :
  ap_Kind a = AdditionalPathWrite → validateAdditionalPermission base a = Ok tt →
  admissible_write base (clean (ap_Resource a)).
Proof.
  intros Hk. unfold validateAdditionalPermission. rewrite Hk. cbn [String.eqb Ascii.eqb Bool.eqb].
  change (AdditionalPathWrite == AdditionalPathRead) with false.
  change (AdditionalPathWrite == AdditionalPathWrite) with true. cbv iota.
  intros (_ & _ & ([] & Hw%require_Ok & Hd%refuse_Ok)%bind_Ok)%bind_Ok.
  split; [done|]. intros denied Hin. apply not_true_iff_false. intros Hi.
  apply not_true_iff_false in Hd. apply Hd, existsb_exists. exists denied. split; [|done].
  by apply list_elem_of_In.
Qed.

(** ** Chains of amendments *)

(** The ceilings [base] becomes by granting the requests, one after the other. *)
Inductive amended (base : EffectivePermissionProfile)
    : list AdditionalPermissionRequest → EffectivePermissionProfile → Prop :=
  | amended_none : amended base [] base
  | amended_once requests p request revision q :
      amended base requests p → Amend p request revision = Ok q →
      amended base (requests ++ [request]) q.

(** What the requests of one kind ask for. *)
Definition asked (kind : string) (what : AdditionalPermission → string)
    (requests : list AdditionalPermissionRequest) : list string :=
  what <$> filter (λ a, ap_Kind a = kind) (ar_Permission <$> requests).

Definition amendment_source (r : AdditionalPermissionRequest) : AuthoritySource :=
  mkAuthoritySource "amendment" (ap_Kind (ar_Permission r)) (digestValue (json_permission_request r)) 0.

(** The part of a profile no amendment touches. *)
Definition frame (p : EffectivePermissionProfile) :=
  (pr_SchemaVersion p, pr_Tool p, pr_Capability p, pr_Access p, pr_Controls p,
   (fs_WorkspaceRoot (pr_Filesystem p), fs_DeniedWriteRoots (pr_Filesystem p),
    fs_WorkspaceBaseWrite (pr_Filesystem p)),
   (na_ProxyPort (pr_Network p), na_Loopback (pr_Network p)),
   (pa_HostExecution (pr_Process p), pa_FullAccess (pr_Process p), pa_Enforcement (pr_Process p),
    pa_Backend (pr_Process p))).

(** All fields of [p] are those of [base], but for what the requests ask for. *)
Record confined (base : EffectivePermissionProfile) (requests : list AdditionalPermissionRequest)
    (p : EffectivePermissionProfile) : Prop := mkConfined {
  cf_frame : frame p = frame base;
  cf_revision : pr_Revision base + Z.of_nat (length requests) ≤ pr_Revision p;
  cf_reads : gained (asked AdditionalPathRead (λ a, clean (ap_Resource a)) requests)
               (fs_ReadRoots (pr_Filesystem base)) (fs_ReadRoots (pr_Filesystem p));
  cf_writes : gained (asked AdditionalPathWrite (λ a, clean (ap_Resource a)) requests)
                (fs_WritePaths (pr_Filesystem base)) (fs_WritePaths (pr_Filesystem p));
  cf_targets : gained (asked AdditionalNetwork networkTarget requests)
                 (na_Targets (pr_Network base)) (na_Targets (pr_Network p));
  cf_process : pa_Allowed (pr_Process p)
    = pa_Allowed (pr_Process base)
      || existsb (λ r, ap_Kind (ar_Permission r) == AdditionalProcess) requests;
  cf_provenance : pr_Provenance p ≡ₚ pr_Provenance base ++ (amendment_source <$> requests);
  cf_admissible r : r ∈ requests → ap_Kind (ar_Permission r) = AdditionalPathWrite →
    admissible_write base (clean (ap_Resource (ar_Permission r)));
}.

Lemma asked_app kind what r1 r2 : asked kind what (r1 ++ r2) = asked kind what r1 ++ asked kind what r2.
Proof. unfold asked. by rewrite fmap_app, filter_app, fmap_app. Qed.

Lemma confined_refl p : confined p [] p.
Proof.
  split; try done; [cbn; lia|apply gained_nothing..|by rewrite orb_false_r|by rewrite app_nil_r|].
  by intros r ?%elem_of_nil.
Qed.

Lemma admissible_frame p q path : frame p = frame q → admissible_write p path → admissible_write q path.
Proof. unfold frame, admissible_write. intros [= _ _ _ _ _ -> -> _ _ _ _ _ _ _]. done. Qed.

Lemma confined_trans base p q r1 r2 :
  confined base r1 p → confined p r2 q → confined base (r1 ++ r2) q.
Proof.
  intros [Hf Hr Hrd Hw Ht Hp Hs Ha] [Hf' Hr' Hrd' Hw' Ht' Hp' Hs' Ha']. split.
  - congruence.
  - rewrite length_app. lia.
  - rewrite asked_app. by eapply gained_trans.
  - rewrite asked_app. by eapply gained_trans.
  - rewrite asked_app. by eapply gained_trans.
  - by rewrite Hp', Hp, existsb_app, orb_assoc.
  - by rewrite Hs', Hs, fmap_app, app_assoc.
  - intros r [Hin|Hin]%elem_of_app Hk; [by apply Ha|].
    apply (admissible_frame p); [done|by apply Ha'].
Qed.

Ltac destruct_kinds :=
  repeat match goal with
         | |- context [if ?k == ?c then _ else _] =>
             let E := fresh "E" in destruct (k == c) eqn:E; [apply String.eqb_eq in E|]
         end.

Lemma asked_one kind what r :
  asked kind what [r] = if ap_Kind (ar_Permission r) == kind then [what (ar_Permission r)] else [].
Proof.
  unfold asked. change (ar_Permission <$> [r]) with [ar_Permission r]. rewrite filter_cons, filter_nil.
  destruct (String.eqb_spec (ap_Kind (ar_Permission r)) kind) as [E|E].
  - by rewrite decide_True.
  - by rewrite decide_False.
Qed.

Lemma Amend_normal p request revision q : Amend p request revision = Ok q → normal q.
Proof.
  intros (_ & _ & _ & _ & Hs)%Amend_Ok. destruct (widen _ _) as [[f n] l]. by apply seal_normal in Hs.
Qed.

(** A list nothing is asked for is put in normal form again. *)
Lemma gained_none l : trimmed l → gained [] l (uniqueSorted l).
Proof. intros Ht. rewrite <-(app_nil_r l) at 2. by apply gained_uniqueSorted. Qed.

Lemma Amend_confined p request revision q :
  normal p → Amend p request revision = Ok q → confined p [request] q.
Proof.
  intros [_ Hrd Hw Ht Hd] (_ & _ & Hr & Hp & Hs)%Amend_Ok.
  assert (Hadm : ap_Kind (ar_Permission request) = AdditionalPathWrite →
    admissible_write p (clean (ap_Resource (ar_Permission request)))).
  { intros Hk. by apply write_admissible. }
  clear Hp. revert Hs. unfold widen. destruct_kinds; intros (_ & ->)%seal_Ok;
    (split; rewrite ?asked_one; cbn -[uniqueSorted];
     [unfold frame; cbn -[uniqueSorted]; by rewrite Hd|lia|..]);
    try by rewrite merge_sort_Permutation.
  all: try by intros r ->%list_elem_of_singleton.
  all: repeat match goal with
              | E : ap_Kind _ = _ |- _ => rewrite E
              | E : (ap_Kind _ == _) = _ |- _ => rewrite E
              end.
  all: unfold AdditionalPathRead, AdditionalPathWrite, AdditionalNetwork, AdditionalProcess.
  all: rewrite ?eqb_refl; cbn -[uniqueSorted].
  all: first [by apply gained_uniqueSorted|by apply gained_none|by destruct (pa_Allowed _)].
Qed.

(** C36: However often a sealed ceiling is amended, it grows by exactly what the amendments ask for.
    Its read roots, its write paths and its network targets are those it had and the ones
    requested -- up to the spaces that are trimmed when the profile is put in normal form --,
    it launches processes if it did or if that was requested, and its provenance is extended by
    one entry for each request. A requested write path lies inside the workspace and outside every
    denied root. Everything else (tool, capability, controls, enforcement, backend, workspace,
    denied roots, proxy, host execution and full access) stays as it was, the
    revision grows with each amendment, and the result is valid. *)
Theorem amendments_are_confined draft base requests p :
  seal draft = Ok base → amended base requests p →
  confined base requests p ∧ validate_profile p = Ok tt.
Proof.
  intros Hs Ha. apply seal_normal in Hs.
  enough (confined base requests p ∧ normal p) as [? [? _ _ _ _]] by done.
  induction Ha as [|requests p request revision q Ha [Hc Hn] Hq]; [split; [apply confined_refl|done]|].
  split; [|by eapply Amend_normal]. eapply confined_trans; [done|by eapply Amend_confined].
Qed.
End unicode.

(** ** Concrete profiles *)

Section samples.
#[local] Existing Instance ascii_case.

Definition value_or {A} (x : A) (r : res error A) : A := match r with Ok a => a | Err _ => x end.

(** A ceiling as compiled for a sandboxed process in [/ws]. *)
Definition bare_profile : EffectivePermissionProfile :=
  mkProfile SchemaVersion 1 "shell" CapabilityProcess Read
    (mkFilesystemAuthority "/ws" ["/ws"] [] ["/ws/.git"; "/ws/.qcode"] false)
    (mkNetworkAuthority [] 0 false) (mkProcessAuthority false false true EnforcementStrong "bwrap")
    (mkControls "declared_roots" "exact_paths" NetworkDenied ProcessTreeGroupKill "isolated"
       "allowlist" "unix_only" "descriptor_relative" "unverified_path" "memory_only")
    [mkAuthoritySource "policy" "snapshot" "" 1] "".
Definition base_profile : EffectivePermissionProfile := Eval vm_compute in
  value_or bare_profile (seal bare_profile).

Definition write_denial (path : string) : Denial :=
  mkDenial "bwrap" "write" path "path_write_not_authorized" "" 0.

Definition amend_for (base : EffectivePermissionProfile) (denial : Denial)
    : res error EffectivePermissionProfile :=
  request ← RequestFromDenial base denial; Amend base request (pr_Revision base + 1).

Example amend_inside :
  (p ← amend_for base_profile (write_denial "/ws/out/log"); Ok (fs_WritePaths (pr_Filesystem p)))
  = Ok ["/ws/out/log"].
Proof. vm_compute. reflexivity. Qed.

Example amend_denied :
  is_ok (amend_for base_profile (write_denial "/ws/.git/config")) = false
  ∧ is_ok (amend_for base_profile (write_denial "/etc/passwd")) = false.
Proof. vm_compute. split; reflexivity. Qed.

(** An address of the sixth version is bracketed twice, and names no target. *)
Example ipv6_target :
  let permission := mkPermission AdditionalNetwork "::1" "tcp" 80 "" in
  validateAdditionalPermission base_profile permission = Ok tt
  ∧ networkTarget permission = "tcp://[[::1]]:80"
  ∧ (r ← PermissionResource permission; t ← rs_Network r; Some (Target_Key t)) = Some "tcp://[::1]:80".
Proof. vm_compute. split_and!; reflexivity. Qed.

Definition log_profile : EffectivePermissionProfile := Eval vm_compute in
  value_or bare_profile (amend_for base_profile (write_denial "/ws/out/log")).

Definition log_request : AdditionalPermissionRequest :=
  mkPermissionRequest (pr_Digest base_profile) (mkPermission AdditionalPathWrite "/ws/out/log" "" 0 "").
Definition fetch_request : AdditionalPermissionRequest :=
  mkPermissionRequest (pr_Digest log_profile) (mkPermission AdditionalNetwork "example.com" "TCP" 443 "").
Definition fetch_profile : EffectivePermissionProfile := Eval vm_compute in
  value_or bare_profile (Amend log_profile fetch_request 5).

Theorem amendments_are_confined_witness :
  seal bare_profile = Ok base_profile ∧ frame fetch_profile = frame base_profile ∧
  na_Targets (pr_Network fetch_profile) = ["tcp://example.com:443"] ∧
  admissible_write base_profile "/ws/out/log".
Proof.
  assert (Hs : seal bare_profile = Ok base_profile) by (vm_compute; reflexivity).
  split; [exact Hs|].
  destruct (amendments_are_confined bare_profile base_profile [log_request; fetch_request] fetch_profile)
    as [[Hf _ _ _ _ _ _ Ha] _]; [exact Hs| |].
  - refine (amended_once _ [log_request] log_profile fetch_request 5 _ _ _).
    + refine (amended_once _ [] base_profile log_request 2 _ (amended_none _) _). vm_compute. reflexivity.
    + vm_compute. reflexivity.
  - split; [exact Hf|]. split; [reflexivity|]. refine (Ha log_request _ eq_refl). left.
Defined.

Definition open_request : AdditionalPermissionRequest :=
  mkPermissionRequest (pr_Digest base_profile) (mkPermission AdditionalPathWrite "/ws/.git /" "" 0 "").
Definition opened_profile : EffectivePermissionProfile := Eval vm_compute in
  value_or bare_profile (Amend base_profile open_request 2).

(** A denied root can be opened. The check of a write path precedes the trimming of the
    list it is put in, so the path of a denied root followed by a space and a slash passes
    the check and ends up as that root itself: the amended ceiling is valid, and the authority
    handed to the sandbox then permits writes below the root, which it refused before. *)
Theorem denied_root_can_be_opened :
  ∃ request p,
    validate_profile base_profile = Ok tt ∧
    fs_DeniedWriteRoots (pr_Filesystem base_profile) = ["/ws/.git"; "/ws/.qcode"] ∧
    RequestFromDenial base_profile (write_denial "/ws/.git /") = Ok request ∧
    Amend base_profile request 2 = Ok p ∧
    fs_WritePaths (pr_Filesystem p) = ["/ws/.git"] ∧
    DeniedWritePath (executionAuthority base_profile zero_controls) ["/ws/.git/config"]
      = Some "/ws/.git/config" ∧
    DeniedWritePath (executionAuthority p zero_controls) ["/ws/.git/config"] = None.
Proof.
  exists open_request, opened_profile.
  split; [vm_compute; reflexivity|]. split; [reflexivity|]. split; [vm_compute; reflexivity|].
  split; [vm_compute; reflexivity|]. split; [reflexivity|]. split; vm_compute; reflexivity.
Qed.
End samples.
