(* ===== verification/Artifact.v ===== *)
(** Artifact manifests ([security/authority/artifact.go]): the files a broker took a snapshot of, in
    the order of their paths and under one digest, which an operation binds as evidence. *)
From Stdlib Require Import Sorting.Sorted.
From S2P Require Import Prelude.
From S2P Require Import GoStrings.
From S2P Require Import Json.
From S2P Require Import Paths.
From S2P Require Import ExecAuthority.
From S2P Require Import Operation.

Definition ArtifactManifestVersion : Z := 1.

Record ArtifactEntry := mkArtifactEntry {
  ae_Path : string;
  ae_Digest : string;
  ae_Mode : Z;
  ae_Size : Z;
  ae_Executable : bool;
}.

(** [am_Entries] is [None] for a nil slice. *)
Record ArtifactManifest := mkArtifactManifest {
  am_Version : Z;
  am_ID : string;
  am_Generation : Z;
  am_SourceWorkspaceID : string;
  am_SourceWorkspaceGeneration : Z;
  am_ProducerOperationDigest : string;
  am_Entries : option (list ArtifactEntry);
  am_Digest : string;
}.

Definition entries_of (m : ArtifactManifest) : list ArtifactEntry := default [] (am_Entries m).

Definition json_entry (e : ArtifactEntry) : json :=
  JObj ([("path", JStr (ae_Path e)); ("digest", JStr (ae_Digest e)); ("mode", JInt (ae_Mode e));
         ("size", JInt (ae_Size e))] ++ omit_bool "executable" (ae_Executable e)).

Definition json_manifest (m : ArtifactManifest) : json :=
  JObj [("version", JInt (am_Version m)); ("id", JStr (am_ID m));
        ("generation", JInt (am_Generation m));
        ("source_workspace_id", JStr (am_SourceWorkspaceID m));
        ("source_workspace_generation", JInt (am_SourceWorkspaceGeneration m));
        ("producer_operation_digest", JStr (am_ProducerOperationDigest m));
        ("entries", from_option (λ l, JArr (json_entry <$> l)) JNull (am_Entries m));
        ("digest", JStr (am_Digest m))].

Definition with_manifest_digest (digest : string) (m : ArtifactManifest) : ArtifactManifest :=
  mkArtifactManifest (am_Version m) (am_ID m) (am_Generation m) (am_SourceWorkspaceID m)
    (am_SourceWorkspaceGeneration m) (am_ProducerOperationDigest m) (am_Entries m) digest.

Definition artifactManifestDigest (m : ArtifactManifest) : string :=
  digestValue (json_manifest (with_manifest_digest "" m)).

(** One turn of the loop over the entries; [previous] is the path before. *)
Definition check_entry (previous : string) (e : ArtifactEntry) : res error string :=
  let path := ae_Path e in
  refuse ((path == "") || (path == ".") || is_abs path || climbs path
          || negb (validDigest (ae_Digest e)) || (ae_Size e <? 0))
    (ErrText "artifact manifest entry is invalid");;
  refuse ((previous != "") && bool_decide (String.le path previous))
    (ErrText "artifact manifest entries are not unique and sorted");;
  Ok path.

Definition validate_manifest (m : ArtifactManifest) : res error unit :=
  refuse (negb (am_Version m =? ArtifactManifestVersion) || blank (am_ID m) || (am_Generation m =? 0)
          || negb (validDigest (am_SourceWorkspaceID m)) || (am_SourceWorkspaceGeneration m =? 0)
          || negb (validDigest (am_ProducerOperationDigest m)) || negb (validDigest (am_Digest m))
          || empty (entries_of m))
    (ErrText "artifact manifest is incomplete");;
  foldM check_entry (entries_of m) "";;
  require (artifactManifestDigest m == am_Digest m) (ErrText "artifact manifest digest mismatch").

Definition clean_entry (e : ArtifactEntry) : ArtifactEntry :=
  mkArtifactEntry (clean (trim_space (ae_Path e))) (ae_Digest e) (ae_Mode e) (ae_Size e)
    (ae_Executable e).

(** By path; the order of equal paths does not matter, since they are refused. *)
Definition entry_le (a b : ArtifactEntry) : Prop := String.le (ae_Path a) (ae_Path b).
#[export] Instance entry_le_dec a b : Decision (entry_le a b).
Proof. unfold entry_le. apply _. Defined.

(** A copy of an empty slice of entries is nil. *)
Definition NewArtifactManifest (m : ArtifactManifest) : res error ArtifactManifest :=
  let entries := merge_sort entry_le (clean_entry <$> entries_of m) in
  let m := mkArtifactManifest ArtifactManifestVersion (am_ID m) (am_Generation m)
             (am_SourceWorkspaceID m) (am_SourceWorkspaceGeneration m) (am_ProducerOperationDigest m)
             (if empty entries then None else Some entries) "" in
  let m := with_manifest_digest (artifactManifestDigest m) m in
  validate_manifest m;; Ok m.

(** ** Facts *)

Definition path_lt (a b : string) : Prop := ¬ String.le b a.

(** Accepted entries stay below their root, and their paths ascend strictly. *)
Lemma checked_entries l previous last :
  foldM check_entry l previous = Ok last →
  Forall (λ e, ae_Path e ≠ "" ∧ is_abs (ae_Path e) = false ∧ climbs (ae_Path e) = false) l ∧
  (previous ≠ "" → HdRel path_lt previous (ae_Path <$> l)) ∧ Sorted path_lt (ae_Path <$> l).
Proof.
  revert previous. induction l as [|e l IH]; intros previous; cbn [foldM].
  { intros _. split; [done|]. split; [constructor|constructor]. }
  unfold check_entry at 1.
  intros (p & ([] & H1%refuse_Ok & ([] & H2%refuse_Ok & [= <-])%bind_Ok)%bind_Ok & (Hf & Hh & Hs)%IH)%bind_Ok.
  repeat match goal with H : _ || _ = false |- _ => apply orb_false_iff in H as [H ?] end.
  assert (ae_Path e ≠ "") as He by by apply String.eqb_neq.
  split; [by constructor|]. split; [|cbn; constructor; [done|by apply Hh]].
  intros Hp. cbn. constructor. apply andb_false_iff in H2 as [H2|H2].
  - apply negb_false_iff, String.eqb_eq in H2. done.
  - by apply bool_decide_eq_false in H2.
Qed.

(** A new manifest holds the entries it was given, in the order of their cleaned paths, all of
    them relative, below their root and different; it is valid under its digest. *)
Theorem manifest_is_canonical m m' :
  NewArtifactManifest m = Ok m' →
  validate_manifest m' = Ok tt ∧ am_Digest m' = artifactManifestDigest m' ∧
  entries_of m' ≡ₚ clean_entry <$> entries_of m ∧ Sorted path_lt (ae_Path <$> entries_of m') ∧
  Forall (λ e, ae_Path e ≠ "" ∧ is_abs (ae_Path e) = false ∧ climbs (ae_Path e) = false) (entries_of m').
Proof.
  unfold NewArtifactManifest. intros ([] & Hv & <-%Ok_inj)%bind_Ok. split; [exact Hv|]. split; [done|].
  apply bind_Ok in Hv as (_ & _ & (last & Hc & _)%bind_Ok).
  apply checked_entries in Hc as (Hf & _ & Hs). split; [|split; [exact Hs|exact Hf]].
  unfold entries_of at 1. cbn.
  pose proof (merge_sort_Permutation entry_le (clean_entry <$> entries_of m)) as Hp.
  destruct (merge_sort _ _) eqn:E; cbn; by rewrite <-Hp.
Qed.
