(* ===== verification/Lease.v ===== *)
(** Execution leases ([security/authority/lease.go], [start.go], [settle.go],
    [process_handle.go]): a lease binds one operation, its ceiling and the facts it was
    authorised under; it is consumed once, before it expires and on unchanged facts, launches at most
    one process, is settled, and gives out handles on that process.

    Every operation holds the mutex of the authority from its first look at the tables on, so
    the calls of all goroutines are a list here ([call], [perform], [trace]). The clock and the
    tokens drawn from the random source are arguments. The receiver is not nil. *)
From S2P Require Import Prelude.
From S2P Require Import GoStrings.
From S2P Require Import SecurityModel.
From S2P Require Import Controls.
From S2P Require Import ExecAuthority.
From S2P Require Import Operation.
From S2P Require Import Profile.

(** ** Leases *)

(** An instant, and the clock reading and location that [==] compares too. The zero time is
    the instant 0. *)
Record Time := mkTime { tm_instant : Z; tm_form : Z }.
#[export] Instance Time_eq_dec : EqDecision Time.
Proof. solve_decision. Defined.

Definition IsZero (t : Time) : bool := tm_instant t =? 0.
Definition After (t u : Time) : bool := tm_instant u <? tm_instant t.

Inductive LeaseState := LeaseIssued | LeaseConsumed | LeaseSettled | LeaseExpired | LeaseRevoked.
#[export] Instance LeaseState_eq_dec : EqDecision LeaseState.
Proof. solve_decision. Defined.

Record ResourceBinding := mkResourceBinding {
  rb_Namespace : ResourceNamespace;
  rb_RootID : string;
  rb_RootGeneration : Z;
  rb_ResourceDigest : string;
}.

Record ExecutionLease := mkLease {
  ls_id : string;
  ls_nonce : string;
  ls_operationDigest : string;
  ls_workspaceID : string;
  ls_workspaceGeneration : Z;
  ls_subjectDigest : string;
  ls_subjectGeneration : Z;
  ls_policyRevision : Z;
  ls_sandboxPolicyID : string;
  ls_resourceBindings : list ResourceBinding;
  ls_artifactDigest : string;
  ls_profile : EffectivePermissionProfile;
  ls_attempt : Z;
  ls_expiresAt : Time;
}.

Record LeaseIssueRequest := mkIssueRequest {
  lr_Operation : ExecutionOperation;
  lr_Profile : EffectivePermissionProfile;
  lr_PolicyRevision : Z;
  lr_SandboxPolicyID : string;
  lr_Attempt : Z;
  lr_ExpiresAt : Time;
}.

Record LeaseValidation := mkLeaseValidation {
  lv_Operation : ExecutionOperation;
  lv_PolicyRevision : Z;
  lv_WorkspaceID : string;
  lv_WorkspaceGeneration : Z;
  lv_SubjectDigest : string;
  lv_SubjectGeneration : Z;
  lv_SandboxPolicyID : string;
  lv_ArtifactDigest : string;
  lv_Attempt : Z;
}.

Record Settlement := mkSettlement { sm_Status : string; sm_Reason : string; sm_CompletedAt : Time }.
#[export] Instance Settlement_eq_dec : EqDecision Settlement.
Proof. solve_decision. Defined.
Definition no_settlement : Settlement := mkSettlement "" "" (mkTime 0 0).

Record leaseRecord := mkLeaseRecord {
  lc_started : bool;
  lc_lease : ExecutionLease;
  lc_state : LeaseState;
  lc_settlement : Settlement;
}.

(** ** Process handles *)

Definition ProcessAction : Type := string.
Definition ProcessObserve : ProcessAction := "observe".
Definition ProcessStdin : ProcessAction := "stdin".
Definition ProcessSignal : ProcessAction := "signal".
Definition ProcessWait : ProcessAction := "wait".
Definition ProcessCancel : ProcessAction := "cancel".

Record ProcessHandleCapability := mkHandle {
  ph_id : string;
  ph_nonce : string;
  ph_leaseID : string;
  ph_sessionID : string;
  ph_threadID : string;
  ph_turnID : string;
  ph_operationDigest : string;
  ph_processID : string;
  ph_generation : Z;
  ph_actions : list ProcessAction;
}.

Record ProcessHandleRequest := mkHandleRequest {
  hq_SessionID : string;
  hq_ThreadID : string;
  hq_TurnID : string;
  hq_ProcessID : string;
  hq_Generation : Z;
  hq_Actions : list ProcessAction;
}.

Record processHandleRecord := mkHandleRecord {
  hr_handle : ProcessHandleCapability;
  hr_terminal : bool;
}.

(** ** The authority *)

Record LeaseAuthority := mkLeaseAuthority {
  la_leases : gmap string leaseRecord;
  la_handles : gmap string processHandleRecord;
}.

Definition NewLeaseAuthority : LeaseAuthority := mkLeaseAuthority ∅ ∅.

Definition put_lease (id : string) (r : leaseRecord) (a : LeaseAuthority) : LeaseAuthority :=
  mkLeaseAuthority (<[id := r]> (la_leases a)) (la_handles a).
Definition put_handle (id : string) (r : processHandleRecord) (a : LeaseAuthority) : LeaseAuthority :=
  mkLeaseAuthority (la_leases a) (<[id := r]> (la_handles a)).
Definition set_lc_state (s : LeaseState) (r : leaseRecord) : leaseRecord :=
  mkLeaseRecord (lc_started r) (lc_lease r) s (lc_settlement r).

(** What [io.ReadFull] yields of 32 bytes. *)
Definition randomToken (read : res error (list Z)) : res error string :=
  value ← read; Ok (hex_encode value).

Definition resourceBindings (resources : list OpResource) : list ResourceBinding :=
  (λ r, mkResourceBinding (or_Namespace r) (or_RootID r) (or_RootGeneration r) (resourceDigest r))
    <$> resources.

Definition artifact_of (o : ExecutionOperation) : string :=
  from_option ai_ManifestDigest "" (op_Artifact o).

(** The lease a request asks for. *)
Definition leased (request : LeaseIssueRequest) (id nonce : string) : ExecutionLease :=
  let o := lr_Operation request in
  mkLease id nonce (op_Digest o) (op_WorkspaceID o) (op_WorkspaceGeneration o)
    (sj_Digest (op_Subject o)) (sj_Generation (op_Subject o)) (lr_PolicyRevision request)
    (lr_SandboxPolicyID request) (resourceBindings (resources_of o)) (artifact_of o)
    (lr_Profile request) (lr_Attempt request) (lr_ExpiresAt request).

(** The checks of [Issue] that need no lock. *)
Definition issuable (request : LeaseIssueRequest) (now : Time) : res error unit :=
  validate_operation (lr_Operation request);;
  validate_profile (lr_Profile request);;
  refuse ((lr_PolicyRevision request =? 0) || (lr_Attempt request =? 0)
          || IsZero (lr_ExpiresAt request) || negb (After (lr_ExpiresAt request) now))
    (ErrText "lease issue request is incomplete");;
  require (pr_Revision (lr_Profile request) =? lr_Attempt request)
    (ErrText "lease attempt does not match permission revision");;
  require (pr_Tool (lr_Profile request) == op_Tool (lr_Operation request))
    (ErrText "lease operation does not match permission tool");;
  refuse ((pa_Enforcement (pr_Process (lr_Profile request)) == EnforcementStrong)
          && (lr_SandboxPolicyID request == ""))
    (ErrText "strong execution lease requires a sandbox policy");;
  SatisfiedBy (op_Required (lr_Operation request))
    (effectiveControls (lr_Profile request) (lr_Operation request)).

Definition Issue (a : LeaseAuthority) (request : LeaseIssueRequest) (now : Time)
    (id_read nonce_read : res error (list Z)) : res error ExecutionLease * LeaseAuthority :=
  match (issuable request now;;
         id ← randomToken id_read; nonce ← randomToken nonce_read; Ok (leased request id nonce))
  with
  | Err e => (Err e, a)
  | Ok lease =>
      match la_leases a !! ls_id lease with
      | Some _ => (Err (ErrText "execution lease identity collision"), a)
      | None =>
          (Ok lease, put_lease (ls_id lease) (mkLeaseRecord false lease LeaseIssued no_settlement) a)
      end
  end.

Definition authenticRecord (a : LeaseAuthority) (lease : ExecutionLease) : res error leaseRecord :=
  refuse ((ls_id lease == "") || (ls_nonce lease == "")) (ErrText "execution lease is invalid");;
  match la_leases a !! ls_id lease with
  | Some record =>
      if ls_nonce (lc_lease record) == ls_nonce lease then Ok record
      else Err (ErrText "execution lease is not authentic")
  | None => Err (ErrText "execution lease is not authentic")
  end.

Definition validateLeaseCurrent (lease : ExecutionLease) (current : LeaseValidation)
    : res error unit :=
  require (op_Digest (lv_Operation current) == ls_operationDigest lease)
    (ErrText "execution lease operation changed");;
  require (lv_WorkspaceID current == ls_workspaceID lease)
    (ErrText "execution lease workspace changed");;
  require (lv_WorkspaceGeneration current =? ls_workspaceGeneration lease)
    (ErrText "execution lease workspace generation changed");;
  require (lv_SubjectDigest current == ls_subjectDigest lease)
    (ErrText "execution lease subject changed");;
  require (lv_SubjectGeneration current =? ls_subjectGeneration lease)
    (ErrText "execution lease subject generation changed");;
  require (lv_PolicyRevision current =? ls_policyRevision lease)
    (ErrText "execution lease policy revision changed");;
  require (lv_SandboxPolicyID current == ls_sandboxPolicyID lease)
    (ErrText "execution lease sandbox policy changed");;
  refuse ((lv_ArtifactDigest current != ls_artifactDigest lease)
          || (artifact_of (lv_Operation current) != ls_artifactDigest lease))
    (ErrText "execution lease artifact changed");;
  require (lv_Attempt current =? ls_attempt lease) (ErrText "execution lease attempt changed").

Definition Consume (a : LeaseAuthority) (lease : ExecutionLease) (current : LeaseValidation)
    (now : Time) : res error unit * LeaseAuthority :=
  match (validate_operation (lv_Operation current);; authenticRecord a lease) with
  | Err e => (Err e, a)
  | Ok record =>
      if negb (bool_decide (lc_state record = LeaseIssued))
      then (Err (ErrText "execution lease is not issuable"), a)
      else if negb (After (ls_expiresAt (lc_lease record)) now)
      then (Err (ErrText "execution lease expired"),
            put_lease (ls_id lease) (set_lc_state LeaseExpired record) a)
      else match validateLeaseCurrent (lc_lease record) current with
           | Err e => (Err e, a)
           | Ok _ => (Ok tt, put_lease (ls_id lease) (set_lc_state LeaseConsumed record) a)
           end
  end.

Definition Settle (a : LeaseAuthority) (lease : ExecutionLease) (settlement : Settlement)
    : res error unit * LeaseAuthority :=
  match (refuse ((sm_Status settlement == "") || IsZero (sm_CompletedAt settlement))
           (ErrText "lease settlement is incomplete");;
         authenticRecord a lease) with
  | Err e => (Err e, a)
  | Ok record =>
      match lc_state record with
      | LeaseSettled =>
          if bool_decide (lc_settlement record = settlement) then (Ok tt, a)
          else (Err (ErrText "execution lease was settled with another result"), a)
      | LeaseConsumed =>
          (Ok tt, put_lease (ls_id lease)
                    (mkLeaseRecord (lc_started record) (lc_lease record) LeaseSettled settlement) a)
      | _ => (Err (ErrText "only a consumed execution lease can settle"), a)
      end
  end.

Definition Revoke (a : LeaseAuthority) (lease : ExecutionLease) : res error unit * LeaseAuthority :=
  match authenticRecord a lease with
  | Err e => (Err e, a)
  | Ok record =>
      match lc_state record with
      | LeaseIssued => (Ok tt, put_lease (ls_id lease) (set_lc_state LeaseRevoked record) a)
      | LeaseRevoked => (Ok tt, a)
      | _ => (Err (ErrText "execution lease can no longer be revoked"), a)
      end
  end.

(** [Snapshot]: the record tells all of it. *)
Definition Snapshot (a : LeaseAuthority) (lease : ExecutionLease)
    : res error (ExecutionLease * LeaseState) :=
  record ← authenticRecord a lease; Ok (lc_lease record, lc_state record).

(** The loop of [Release] over the handles, in the order the map yields them; whether an
    active handle stopped it, and the handles left. *)
Fixpoint release_handles (lease : string) (visit : list string)
    (handles : gmap string processHandleRecord) : bool * gmap string processHandleRecord :=
  match visit with
  | [] => (false, handles)
  | id :: visit =>
      match handles !! id with
      | Some handle =>
          if ph_leaseID (hr_handle handle) == lease then
            if hr_terminal handle then release_handles lease visit (delete id handles)
            else (true, handles)
          else release_handles lease visit handles
      | None => release_handles lease visit handles
      end
  end.

Definition Release (a : LeaseAuthority) (lease : ExecutionLease) (visit : list string)
    : res error unit * LeaseAuthority :=
  match authenticRecord a lease with
  | Err e => (Err e, a)
  | Ok record =>
      match lc_state record with
      | LeaseSettled | LeaseExpired | LeaseRevoked =>
          let '(active, handles) := release_handles (ls_id lease) visit (la_handles a) in
          if active
          then (Err (ErrText "execution lease has an active process handle"),
                mkLeaseAuthority (la_leases a) handles)
          else (Ok tt, mkLeaseAuthority (delete (ls_id lease) (la_leases a)) handles)
      | _ => (Err (ErrText "execution lease is not terminal"), a)
      end
  end.

(** [start] is the result of the callback, which must not reenter the authority; whether it ran
    comes last. *)
Definition Start (a : LeaseAuthority) (lease : ExecutionLease) (now : Time)
    (start : res error unit) : res error unit * LeaseAuthority * bool :=
  match authenticRecord a lease with
  | Err e => (Err e, a, false)
  | Ok record =>
      if negb (bool_decide (lc_state record = LeaseConsumed)) || lc_started record
         || negb (After (ls_expiresAt lease) now)
      then (Err (ErrText "execution lease is not eligible for process start"), a, false)
      else (start,
            put_lease (ls_id lease)
              (mkLeaseRecord true (lc_lease record) (lc_state record) (lc_settlement record)) a,
            true)
  end.

(** ** Handle operations *)

Definition normalizeProcessActions (actions : list ProcessAction) : res error (list ProcessAction) :=
  let result := compact (sort_strings actions) in
  require (forallb (contains [ProcessObserve; ProcessStdin; ProcessSignal; ProcessWait; ProcessCancel])
             result)
    (ErrText "process handle action is invalid");;
  refuse (empty result) (ErrText "process handle requires at least one action");;
  Ok result.

Definition IssueProcessHandle (a : LeaseAuthority) (lease : ExecutionLease)
    (request : ProcessHandleRequest) (id_read nonce_read : res error (list Z))
    : res error ProcessHandleCapability * LeaseAuthority :=
  match (actions ← normalizeProcessActions (hq_Actions request);
         refuse (blank (hq_SessionID request) || blank (hq_ThreadID request)
                 || blank (hq_TurnID request) || blank (hq_ProcessID request)
                 || (hq_Generation request =? 0))
           (ErrText "process handle identity is incomplete");;
         id ← randomToken id_read; nonce ← randomToken nonce_read;
         record ← authenticRecord a lease;
         require (bool_decide (lc_state record = LeaseConsumed))
           (ErrText "process handle requires a consumed execution lease");;
         Ok (mkHandle id nonce (ls_id lease) (hq_SessionID request) (hq_ThreadID request)
               (hq_TurnID request) (ls_operationDigest lease) (hq_ProcessID request)
               (hq_Generation request) actions))
  with
  | Err e => (Err e, a)
  | Ok handle =>
      match la_handles a !! ph_id handle with
      | Some _ => (Err (ErrText "process handle identity collision"), a)
      | None => (Ok handle, put_handle (ph_id handle) (mkHandleRecord handle false) a)
      end
  end.

Definition authenticHandle (a : LeaseAuthority) (handle : ProcessHandleCapability)
    : res error processHandleRecord :=
  refuse ((ph_id handle == "") || (ph_nonce handle == "")) (ErrText "process handle is invalid");;
  match la_handles a !! ph_id handle with
  | Some record =>
      if ph_nonce (hr_handle record) == ph_nonce handle then Ok record
      else Err (ErrText "process handle is not authentic")
  | None => Err (ErrText "process handle is not authentic")
  end.

Definition ValidateProcessHandle (a : LeaseAuthority) (handle : ProcessHandleCapability)
    (sessionID threadID turnID processID : string) (generation : Z) (action : ProcessAction)
    : res error unit :=
  record ← authenticHandle a handle;
  refuse (hr_terminal record) (ErrText "process handle is terminal");;
  let held := hr_handle record in
  refuse ((ph_sessionID held != sessionID) || (ph_threadID held != threadID)
          || (ph_turnID held != turnID) || (ph_processID held != processID)
          || negb (ph_generation held =? generation))
    (ErrText "process handle binding changed");;
  require (contains (ph_actions held) action) (ErrText "process handle action is not authorized").

Definition CompleteProcessHandle (a : LeaseAuthority) (handle : ProcessHandleCapability)
    : res error unit * LeaseAuthority :=
  match authenticHandle a handle with
  | Err e => (Err e, a)
  | Ok record => (Ok tt, put_handle (ph_id handle) (mkHandleRecord (hr_handle record) true) a)
  end.

(** [ProcessHandleSnapshot]. *)
Definition HandleSnapshot (a : LeaseAuthority) (handle : ProcessHandleCapability)
    : res error (ProcessHandleCapability * bool) :=
  record ← authenticHandle a handle; Ok (hr_handle record, hr_terminal record).

(** ** Brokered execution *)

(** The errors [errors.Join] collects. *)
Definition errors (l : list (res error unit)) : list error :=
  omap (λ r, match r with Err e => Some e | Ok _ => None end) l.

(** [fn] may call the authority and others may while it runs; [completedAt] is
    [now().UTC()] after it returned. *)
Definition RunSettled (a : LeaseAuthority) (lease : ExecutionLease) (validation : LeaseValidation)
    (failureReason : string) (now completedAt : Time)
    (fn : Settlement → LeaseAuthority → Settlement * res error unit * LeaseAuthority)
    : Settlement * list error * LeaseAuthority :=
  match Consume a lease validation now with
  | (Err e, a) => (no_settlement, [e], a)
  | (Ok _, a) =>
      let '(settlement, r, a) := fn (mkSettlement "failed" failureReason (mkTime 0 0)) a in
      let settlement := mkSettlement (sm_Status settlement) (sm_Reason settlement) completedAt in
      let '(settled, a) := Settle a lease settlement in
      (settlement, errors [r; settled], a)
  end.

(** ** Calls of all goroutines *)

Inductive call :=
  | CIssue (request : LeaseIssueRequest) (now : Time) (id nonce : res error (list Z))
  | CConsume (lease : ExecutionLease) (current : LeaseValidation) (now : Time)
  | CSettle (lease : ExecutionLease) (settlement : Settlement)
  | CRevoke (lease : ExecutionLease)
  | CRelease (lease : ExecutionLease) (visit : list string)
  | CStart (lease : ExecutionLease) (now : Time) (start : res error unit)
  | CHandle (lease : ExecutionLease) (request : ProcessHandleRequest) (id nonce : res error (list Z))
  | CComplete (handle : ProcessHandleCapability).

(** What a call did; a call that changed nothing did nothing. *)
Inductive event :=
  | EIssued (request : LeaseIssueRequest) (lease : ExecutionLease) (now : Time)
  | EConsumed (lease : ExecutionLease) (current : LeaseValidation) (now : Time)
  | EExpired (lease : ExecutionLease) (now : Time)
  | ESettled (lease : ExecutionLease) (settlement : Settlement)
  | ERevoked (lease : ExecutionLease)
  | EReleased (lease : ExecutionLease)
  | EStarted (lease : ExecutionLease) (now : Time)
  | EHandle (lease : ExecutionLease) (handle : ProcessHandleCapability)
  | ECompleted (handle : ProcessHandleCapability).

Definition state_of (a : LeaseAuthority) (id : string) : option LeaseState :=
  lc_state <$> la_leases a !! id.

(** The state of a lease moved. *)
Definition moved (a a' : LeaseAuthority) (id : string) : bool :=
  negb (bool_decide (state_of a id = state_of a' id)).

Definition perform (a : LeaseAuthority) (c : call) : LeaseAuthority * list event :=
  match c with
  | CIssue request now id nonce =>
      match Issue a request now id nonce with
      | (Ok lease, a') => (a', [EIssued request lease now])
      | (Err _, a') => (a', [])
      end
  | CConsume lease current now =>
      match Consume a lease current now with
      | (Ok _, a') => (a', [EConsumed lease current now])
      | (Err _, a') => (a', if moved a a' (ls_id lease) then [EExpired lease now] else [])
      end
  | CSettle lease settlement =>
      let '(_, a') := Settle a lease settlement in
      (a', if moved a a' (ls_id lease) then [ESettled lease settlement] else [])
  | CRevoke lease =>
      let '(_, a') := Revoke a lease in
      (a', if moved a a' (ls_id lease) then [ERevoked lease] else [])
  | CRelease lease visit =>
      match Release a lease visit with
      | (Ok _, a') => (a', [EReleased lease])
      | (Err _, a') => (a', [])
      end
  | CStart lease now start =>
      let '(_, a', ran) := Start a lease now start in
      (a', if ran then [EStarted lease now] else [])
  | CHandle lease request id nonce =>
      match IssueProcessHandle a lease request id nonce with
      | (Ok handle, a') => (a', [EHandle lease handle])
      | (Err _, a') => (a', [])
      end
  | CComplete handle =>
      match CompleteProcessHandle a handle with
      | (Ok _, a') => (a', [ECompleted handle])
      | (Err _, a') => (a', [])
      end
  end.

Definition then_perform (s : LeaseAuthority * list event) (c : call) : LeaseAuthority * list event :=
  let '(a, trace) := s in
  let '(a', events) := perform a c in
  (a', trace ++ events).

(** All that happened to a new authority. *)
Definition history (calls : list call) : LeaseAuthority * list event :=
  foldl then_perform (NewLeaseAuthority, []) calls.

(** ** Callers that cannot forge *)

(** The fields of leases and handles are private to the package, so a caller presents a value
    it was given or the zero value; and no two tokens of the random source are the same. *)
Definition tokens (trace : list event) : list string :=
  omap (λ e, match e with
             | EIssued _ lease _ => Some (ls_nonce lease)
             | EHandle _ handle => Some (ph_nonce handle)
             | _ => None
             end) trace.

Definition holds (trace : list event) (lease : ExecutionLease) : Prop :=
  ls_id lease = "" ∨ ∃ request now, EIssued request lease now ∈ trace.
Definition holds_handle (trace : list event) (handle : ProcessHandleCapability) : Prop :=
  ph_id handle = "" ∨ ∃ lease, EHandle lease handle ∈ trace.
Definition unused (trace : list event) (nonce : res error (list Z)) : Prop :=
  ∀ n, randomToken nonce = Ok n → n ∉ tokens trace.

(** What a call may present; [Release] meets every handle, in some order. *)
Definition legal (a : LeaseAuthority) (trace : list event) (c : call) : Prop :=
  match c with
  | CIssue _ _ _ nonce => unused trace nonce
  | CConsume lease _ _ | CSettle lease _ | CRevoke lease | CStart lease _ _ => holds trace lease
  | CRelease lease visit =>
      holds trace lease ∧ (map_to_list (la_handles a)).*1 ⊆ visit
  | CHandle lease _ _ nonce => holds trace lease ∧ unused trace nonce
  | CComplete handle => holds_handle trace handle
  end.

Inductive run : LeaseAuthority → list event → Prop :=
  | run_new : run NewLeaseAuthority []
  | run_call a trace c a' events :
      run a trace → legal a trace c → perform a c = (a', events) → run a' (trace ++ events).
