(* ===== verification/LeaseLaws.v ===== *)
(** What leases promise: the life of a lease, when a process is launched, what a handle is
    good for, and that a brokered execution settles. *)
From S2P Require Import Prelude.
From S2P Require Import GoStrings.
From S2P Require Import SecurityModel.
From S2P Require Import Controls.
From S2P Require Import ExecAuthority.
From S2P Require Import Operation.
From S2P Require Import Profile.
From S2P Require Import Lease.

(** ** The operations on one lease *)

Lemma authentic_Ok a lease record :
  authenticRecord a lease = Ok record ↔
  ls_id lease ≠ "" ∧ ls_nonce lease ≠ "" ∧
  la_leases a !! ls_id lease = Some record ∧ ls_nonce (lc_lease record) = ls_nonce lease.
Proof.
  unfold authenticRecord. destruct (ls_id lease == "") eqn:Ei; cbn [orb].
  { apply String.eqb_eq in Ei. naive_solver. }
  destruct (ls_nonce lease == "") eqn:En.
  { apply String.eqb_eq in En. naive_solver. }
  apply String.eqb_neq in Ei, En. cbn.
  destruct (la_leases a !! ls_id lease) as [r|] eqn:El; [|naive_solver].
  destruct (ls_nonce (lc_lease r) == ls_nonce lease) eqn:Er.
  - apply String.eqb_eq in Er. naive_solver.
  - apply String.eqb_neq in Er. naive_solver.
Qed.

Lemma Issue_spec a request now id nonce r a' :
  Issue a request now id nonce = (r, a') →
  match r with
  | Ok lease =>
      issuable request now = Ok tt ∧ la_leases a !! ls_id lease = None ∧
      randomToken nonce = Ok (ls_nonce lease) ∧
      lease = leased request (ls_id lease) (ls_nonce lease) ∧
      a' = put_lease (ls_id lease) (mkLeaseRecord false lease LeaseIssued no_settlement) a
  | Err _ => a' = a
  end.
Proof.
  unfold Issue. destruct (_ ≫= _) as [lease|e] eqn:E; [|by intros [= <- <-]].
  apply bind_Ok in E as ([] & Hi & (i & _ & (n & Hn & El)%bind_Ok)%bind_Ok).
  apply Ok_inj in El as <-. cbn.
  destruct (la_leases a !! i) eqn:Ea; intros [= <- <-]; [done|]. done.
Qed.

Lemma Consume_spec a lease current now r a' :
  Consume a lease current now = (r, a') →
  match r with
  | Ok _ =>
      ∃ record, authenticRecord a lease = Ok record ∧ lc_state record = LeaseIssued ∧
        After (ls_expiresAt (lc_lease record)) now = true ∧
        validate_operation (lv_Operation current) = Ok tt ∧
        validateLeaseCurrent (lc_lease record) current = Ok tt ∧
        a' = put_lease (ls_id lease) (set_lc_state LeaseConsumed record) a
  | Err _ =>
      a' = a ∨ ∃ record, authenticRecord a lease = Ok record ∧ lc_state record = LeaseIssued ∧
        After (ls_expiresAt (lc_lease record)) now = false ∧
        a' = put_lease (ls_id lease) (set_lc_state LeaseExpired record) a
  end.
Proof.
  unfold Consume. destruct (_ ≫= _) as [record|e] eqn:E; [|intros [= <- <-]; by left].
  apply bind_Ok in E as ([] & Hv & Ha).
  destruct (bool_decide_reflect (lc_state record = LeaseIssued)) as [Hs|]; cbn [negb];
    [|intros [= <- <-]; by left].
  destruct (After _ now) eqn:Et; cbn [negb]; [|intros [= <- <-]; right; eauto].
  destruct (validateLeaseCurrent _ _) as [[]|e] eqn:Ec; intros [= <- <-]; [|by left]. eauto 10.
Qed.

(** A settlement that may be recorded. *)
Definition complete (settlement : Settlement) : bool :=
  (sm_Status settlement != "") && negb (IsZero (sm_CompletedAt settlement)).

Lemma Settle_spec a lease settlement r a' :
  Settle a lease settlement = (r, a') →
  a' = a ∨ ∃ record, authenticRecord a lease = Ok record ∧ lc_state record = LeaseConsumed ∧
    complete settlement = true ∧
    a' = put_lease (ls_id lease)
           (mkLeaseRecord (lc_started record) (lc_lease record) LeaseSettled settlement) a.
Proof.
  unfold Settle. destruct (_ ≫= _) as [record|e] eqn:E; [|intros [= <- <-]; by left].
  apply bind_Ok in E as (_ & Hc%refuse_Ok & Ha).
  assert (complete settlement = true).
  { unfold complete. by destruct (sm_Status settlement == ""), (IsZero _). }
  destruct (lc_state record) eqn:Es; repeat case_match; intros [= <- <-]; eauto 10.
Qed.

Lemma Revoke_spec a lease r a' :
  Revoke a lease = (r, a') →
  a' = a ∨ ∃ record, authenticRecord a lease = Ok record ∧ lc_state record = LeaseIssued ∧
    a' = put_lease (ls_id lease) (set_lc_state LeaseRevoked record) a.
Proof.
  unfold Revoke. destruct (authenticRecord a lease) as [record|e] eqn:Ha; [|intros [= <- <-]; by left].
  destruct (lc_state record) eqn:Es; intros [= <- <-]; eauto 10.
Qed.

Definition ended (s : LeaseState) : bool :=
  match s with LeaseSettled | LeaseExpired | LeaseRevoked => true | _ => false end.

Lemma Release_spec a lease visit r a' :
  Release a lease visit = (r, a') →
  match r with
  | Ok _ =>
      ∃ record, authenticRecord a lease = Ok record ∧ ended (lc_state record) = true ∧
        release_handles (ls_id lease) visit (la_handles a) = (false, la_handles a') ∧
        la_leases a' = delete (ls_id lease) (la_leases a)
  | Err _ =>
      a' = a ∨ la_leases a' = la_leases a ∧
        release_handles (ls_id lease) visit (la_handles a) = (true, la_handles a')
  end.
Proof.
  unfold Release. destruct (authenticRecord a lease) as [record|e] eqn:Ha; [|intros [= <- <-]; by left].
  destruct (lc_state record) eqn:Es; try (intros [= <- <-]; by left);
    destruct (release_handles _ _ _) as [[] handles] eqn:Er; intros [= <- <-]; cbn; eauto;
    exists record; rewrite Es; auto.
Qed.

Lemma Start_spec a lease now start r a' ran :
  Start a lease now start = (r, a', ran) →
  if ran then
    ∃ record, authenticRecord a lease = Ok record ∧ lc_state record = LeaseConsumed ∧
      lc_started record = false ∧ After (ls_expiresAt lease) now = true ∧
      a' = put_lease (ls_id lease)
             (mkLeaseRecord true (lc_lease record) (lc_state record) (lc_settlement record)) a
  else a' = a.
Proof.
  unfold Start. destruct (authenticRecord a lease) as [record|e] eqn:Ha; [|by intros [= <- <- <-]].
  destruct (bool_decide_reflect (lc_state record = LeaseConsumed)); cbn [negb orb];
    [|by intros [= <- <- <-]].
  destruct (lc_started record) eqn:Es; [by intros [= <- <- <-]|].
  destruct (After _ _) eqn:Et; intros [= <- <- <-]; [|done]. exists record. by rewrite Es.
Qed.

Lemma IssueProcessHandle_spec a lease request id nonce r a' :
  IssueProcessHandle a lease request id nonce = (r, a') →
  match r with
  | Ok handle =>
      ∃ record, authenticRecord a lease = Ok record ∧ lc_state record = LeaseConsumed ∧
        la_handles a !! ph_id handle = None ∧ randomToken nonce = Ok (ph_nonce handle) ∧
        ph_leaseID handle = ls_id lease ∧ ph_operationDigest handle = ls_operationDigest lease ∧
        normalizeProcessActions (hq_Actions request) = Ok (ph_actions handle) ∧
        a' = put_handle (ph_id handle) (mkHandleRecord handle false) a
  | Err _ => a' = a
  end.
Proof.
  unfold IssueProcessHandle. destruct (_ ≫= _) as [handle|e] eqn:E; [|by intros [= <- <-]].
  apply bind_Ok in E as (actions & Hact & (? & _ & (i & _ & (n & Hn & (record & Ha & E)%bind_Ok)%bind_Ok)
    %bind_Ok)%bind_Ok).
  apply bind_Ok in E as (? & Hs%require_Ok & Eh). apply bool_decide_eq_true in Hs.
  apply Ok_inj in Eh as <-. cbn.
  destruct (la_handles a !! i) eqn:Eh; intros [= <- <-]; [done|]. exists record. cbn. auto 10.
Qed.

Lemma CompleteProcessHandle_spec a handle r a' :
  CompleteProcessHandle a handle = (r, a') →
  match r with
  | Ok _ =>
      ∃ record, la_handles a !! ph_id handle = Some record ∧
        ph_nonce (hr_handle record) = ph_nonce handle ∧
        a' = put_handle (ph_id handle) (mkHandleRecord (hr_handle record) true) a
  | Err _ => a' = a
  end.
Proof.
  unfold CompleteProcessHandle, authenticHandle.
  destruct (refuse _ _) as [[]|]; cbn; [|by intros [= <- <-]].
  destruct (la_handles a !! ph_id handle) as [record|] eqn:E; [|by intros [= <- <-]].
  destruct (ph_nonce (hr_handle record) == ph_nonce handle) eqn:En; intros [= <- <-]; [|done].
  apply String.eqb_eq in En. eauto.
Qed.

(** ** The life of a lease *)

Definition lease_of (e : event) : option ExecutionLease :=
  match e with
  | EIssued _ l _ | EConsumed l _ _ | EExpired l _ | ESettled l _ | ERevoked l | EReleased l
  | EStarted l _ | EHandle l _ => Some l
  | ECompleted _ => None
  end.

#[export] Instance FilesystemAuthority_eq_dec : EqDecision FilesystemAuthority.
Proof. solve_decision. Defined.
#[export] Instance NetworkAuthority_eq_dec : EqDecision NetworkAuthority.
Proof. solve_decision. Defined.
#[export] Instance ProcessAuthority_eq_dec : EqDecision ProcessAuthority.
Proof. solve_decision. Defined.
#[export] Instance AuthoritySource_eq_dec : EqDecision AuthoritySource.
Proof. solve_decision. Defined.
#[export] Instance EffectivePermissionProfile_eq_dec : EqDecision EffectivePermissionProfile.
Proof. solve_decision. Defined.
#[export] Instance ResourceBinding_eq_dec : EqDecision ResourceBinding.
Proof. solve_decision. Defined.
#[export] Instance ExecutionLease_eq_dec : EqDecision ExecutionLease.
Proof. solve_decision. Defined.

(** All there is to know about one identity: nothing, or its record. *)
Definition life : Type := option leaseRecord.

(** The moves of one lease. Each says when it may be made, what of the record it changes, and
    nothing else of the record changes; a move out of order, or made with a lease of another
    nonce, is none. *)
Definition own_step (l : life) (e : event) : option life :=
  match e, l with
  | EIssued request lease now, None =>
      guard (is_ok (issuable request now) = true
             ∧ lease = leased request (ls_id lease) (ls_nonce lease));;
      Some (Some (mkLeaseRecord false lease LeaseIssued no_settlement))
  | EConsumed lease current now, Some r =>
      guard (lc_state r = LeaseIssued ∧ After (ls_expiresAt (lc_lease r)) now = true
             ∧ is_ok (validate_operation (lv_Operation current)) = true
             ∧ is_ok (validateLeaseCurrent (lc_lease r) current) = true);;
      Some (Some (mkLeaseRecord (lc_started r) (lc_lease r) LeaseConsumed (lc_settlement r)))
  | EExpired lease now, Some r =>
      guard (lc_state r = LeaseIssued ∧ After (ls_expiresAt (lc_lease r)) now = false);;
      Some (Some (mkLeaseRecord (lc_started r) (lc_lease r) LeaseExpired (lc_settlement r)))
  | ERevoked lease, Some r =>
      guard (lc_state r = LeaseIssued);;
      Some (Some (mkLeaseRecord (lc_started r) (lc_lease r) LeaseRevoked (lc_settlement r)))
  | ESettled lease settlement, Some r =>
      guard (lc_state r = LeaseConsumed ∧ complete settlement = true);;
      Some (Some (mkLeaseRecord (lc_started r) (lc_lease r) LeaseSettled settlement))
  | EStarted lease now, Some r =>
      guard (lc_state r = LeaseConsumed ∧ lc_started r = false
             ∧ After (ls_expiresAt lease) now = true);;
      Some (Some (mkLeaseRecord true (lc_lease r) LeaseConsumed (lc_settlement r)))
  | EHandle lease handle, Some r =>
      guard (lc_state r = LeaseConsumed ∧ ph_leaseID handle = ls_id lease
             ∧ ph_operationDigest handle = ls_operationDigest lease);;
      Some l
  | EReleased lease, Some r => guard (ended (lc_state r) = true);; Some None
  | _, _ => None
  end.

(** The presented lease has the nonce of the recorded one. *)
Definition authentic (l : life) (lease : ExecutionLease) : Prop :=
  match l with Some r => ls_nonce (lc_lease r) = ls_nonce lease | None => True end.
#[export] Instance authentic_dec l lease : Decision (authentic l lease).
Proof. destruct l; cbn; apply _. Defined.

(** What an event makes of the identity [id]. *)
Definition life_step (id : string) (l : life) (e : event) : option life :=
  match lease_of e with
  | Some lease => if ls_id lease == id then guard (authentic l lease);; own_step l e else Some l
  | None => Some l
  end.

Definition lives (id : string) (l : option life) (trace : list event) : option life :=
  foldl (λ l e, l ← l; life_step id l e) l trace.

Definition life_of (a : LeaseAuthority) (id : string) : life := la_leases a !! id.

Lemma life_of_put a id id' r :
  life_of (put_lease id r a) id' = if decide (id = id') then Some r else life_of a id'.
Proof. unfold life_of, put_lease. cbn. rewrite lookup_insert. by case_decide. Qed.

Lemma guard_intro {A} (P : Prop) `{Decision P} (m : option A) : P → (guard P;; m) = m.
Proof. intros. by rewrite option_guard_True. Qed.

Lemma step_other id l e lease : lease_of e = Some lease → ls_id lease ≠ id → life_step id l e = Some l.
Proof. intros E Hne. unfold life_step. by rewrite E, (proj2 (String.eqb_neq _ _)). Qed.

Lemma step_own l e lease :
  lease_of e = Some lease → authentic l lease → life_step (ls_id lease) l e = own_step l e.
Proof. intros E Ha. unfold life_step. by rewrite E, eqb_refl, guard_intro. Qed.

(** The event of a call on one identity. *)
Lemma life_own id a a' lease l e :
  authentic (life_of a (ls_id lease)) lease → lease_of e = Some lease →
  own_step (life_of a (ls_id lease)) e = Some l →
  (∀ id, life_of a' id = if decide (ls_id lease = id) then l else life_of a id) →
  lives id (Some (life_of a id)) [e] = Some (life_of a' id).
Proof.
  intros Ha He Hs Ha'. unfold lives. cbn [foldl]. rewrite Ha'. case_decide as Hid.
  - subst id. rewrite <-Hs. by apply step_own.
  - by eapply step_other.
Qed.

Lemma life_record id a a' lease record l e :
  authenticRecord a lease = Ok record → lease_of e = Some lease →
  own_step (Some record) e = Some l →
  (∀ id, life_of a' id = if decide (ls_id lease = id) then l else life_of a id) →
  lives id (Some (life_of a id)) [e] = Some (life_of a' id).
Proof.
  intros (_ & _ & Hr & Hn)%authentic_Ok He Hs. eapply life_own; unfold life_of; rewrite ?Hr; done.
Qed.

Lemma moved_same a id : moved a a id = false.
Proof. unfold moved. by rewrite bool_decide_eq_true_2. Qed.

Lemma moved_put a lease record record' :
  authenticRecord a lease = Ok record → lc_state record ≠ lc_state record' →
  moved a (put_lease (ls_id lease) record' a) (ls_id lease) = true.
Proof.
  intros (_ & _ & E & _)%authentic_Ok Hne. unfold moved, state_of, put_lease. cbn.
  rewrite E, lookup_insert_eq. cbn. rewrite bool_decide_eq_false_2; [done|]. congruence.
Qed.

Lemma Ok_true {E} (r : res E unit) u : r = Ok u → is_ok r = true.
Proof. by intros ->. Qed.

Ltac own_move := eapply life_record;
  [done|reflexivity|cbn [own_step]; by rewrite guard_intro|intros; apply life_of_put].

Lemma perform_lives a c a' es id :
  perform a c = (a', es) → lives id (Some (life_of a id)) es = Some (life_of a' id).
Proof.
  destruct c; cbn [perform].
  - destruct (Issue _ _ _ _) as [[l|] a1] eqn:E; apply Issue_spec in E; intros [= <- <-]; [|by subst].
    destruct E as (Hi%Ok_true & El & _ & Hl & ->). fold (life_of a (ls_id l)) in El.
    eapply (life_own _ _ _ l); rewrite ?El; [done|done| |intros; apply life_of_put].
    cbn [own_step]. by rewrite guard_intro.
  - destruct (Consume _ _ _ _) as [[[]|] a1] eqn:E; apply Consume_spec in E; intros [= <- <-].
    + destruct E as (record & Ha & Hs & Ht & Hv%Ok_true & Hc%Ok_true & ->). own_move.
    + destruct E as [->|(record & Ha & Hs & Ht & ->)]; [by rewrite moved_same|].
      erewrite moved_put by (done || by rewrite Hs). own_move.
  - destruct (Settle _ _ _) as [r a1] eqn:E; apply Settle_spec in E; intros [= <- <-].
    destruct E as [->|(record & Ha & Hs & Hc & ->)]; [by rewrite moved_same|].
    erewrite moved_put by (done || by rewrite Hs). own_move.
  - destruct (Revoke _ _) as [r a1] eqn:E; apply Revoke_spec in E; intros [= <- <-].
    destruct E as [->|(record & Ha & Hs & ->)]; [by rewrite moved_same|].
    erewrite moved_put by (done || by rewrite Hs). own_move.
  - destruct (Release _ _ _) as [[[]|] a1] eqn:E; apply Release_spec in E; intros [= <- <-].
    + destruct E as (record & Ha & Hs & _ & El). eapply life_record; [done|done| |].
      * cbn [own_step]. by rewrite guard_intro.
      * intros id'. unfold life_of. rewrite El, lookup_delete. by case_decide.
    + cbn. unfold life_of. destruct E as [->|[-> _]]; done.
  - destruct (Start _ _ _ _) as [[r a1] []] eqn:E; apply Start_spec in E; intros [= <- <-]; [|by subst].
    destruct E as (record & Ha & Hs & Hb & Ht & ->). rewrite Hs. own_move.
  - destruct (IssueProcessHandle _ _ _ _ _) as [[h|] a1] eqn:E; apply IssueProcessHandle_spec in E;
      intros [= <- <-]; [|by subst].
    destruct E as (record & Ha & Hs & _ & _ & Hl & Hd & _ & ->). eapply life_record; [done|done| |].
    + cbn [own_step]. by rewrite guard_intro.
    + apply authentic_Ok in Ha as (_ & _ & Ha & _). intros id'. case_decide as Hid; [|done].
      subst id'. exact Ha.
  - destruct (CompleteProcessHandle _ _) as [[[]|] a1] eqn:E; apply CompleteProcessHandle_spec in E;
      intros [= <- <-]; [|by subst]. by destruct E as (record & _ & _ & ->).
Qed.

Lemma lives_app id l t1 t2 : lives id l (t1 ++ t2) = lives id (lives id l t1) t2.
Proof. apply foldl_app. Qed.

Lemma history_snoc calls c : history (calls ++ [c]) = then_perform (history calls) c.
Proof. unfold history. by rewrite foldl_app. Qed.

(** It happened to the lease [id]. *)
Definition of_lease (f : event → option ExecutionLease) (id : string) (e : event) : bool :=
  match f e with Some l => ls_id l == id | None => false end.

Definition count (f : event → option ExecutionLease) (id : string) (trace : list event) : nat :=
  length (filter (λ e, of_lease f id e = true) trace).

Definition issues (e : event) : option ExecutionLease :=
  match e with EIssued _ l _ => Some l | _ => None end.
Definition consumptions (e : event) : option ExecutionLease :=
  match e with EConsumed l _ _ => Some l | _ => None end.
Definition starts (e : event) : option ExecutionLease :=
  match e with EStarted l _ => Some l | _ => None end.
Definition settlements (e : event) : option ExecutionLease :=
  match e with ESettled l _ => Some l | _ => None end.

Definition expirations (e : event) : option ExecutionLease :=
  match e with EExpired l _ => Some l | _ => None end.
Definition revocations (e : event) : option ExecutionLease :=
  match e with ERevoked l => Some l | _ => None end.

Lemma count_snoc f id trace e :
  count f id (trace ++ [e])
  = (count f id trace + if of_lease f id e then 1 else 0)%nat.
Proof.
  unfold count. rewrite filter_app, length_app. f_equal. rewrite filter_cons, filter_nil.
  by destruct (of_lease f id e).
Qed.

Definition one (b : bool) : nat := if b then 1 else 0.

(** The step of an event that is none of the lease, and of one that is. *)
Lemma life_step_Some id l e l' :
  life_step id l e = Some l' →
  (∀ f, (∀ lease, f e = Some lease → lease_of e = Some lease) → of_lease f id e = false) ∧ l' = l
  ∨ ∃ lease, lease_of e = Some lease ∧ ls_id lease = id ∧ own_step l e = Some l'.
Proof.
  unfold life_step. destruct (lease_of e) as [lease|] eqn:El.
  - destruct (String.eqb_spec (ls_id lease) id) as [Hid|Hid].
    + case_guard; [|done]. cbn. eauto.
    + intros [= <-]. left. split; [|done]. intros f Hf. unfold of_lease.
      destruct (f e) as [l1|] eqn:E; [|done]. specialize (Hf _ eq_refl). simplify_eq.
      by apply String.eqb_neq.
  - intros [= <-]. left. split; [|done]. intros f Hf. unfold of_lease.
    destruct (f e) as [l1|]; [|done]. by specialize (Hf _ eq_refl).
Qed.
(** The lease was consumed and may have been settled since. *)
Definition spent (s : LeaseState) : bool :=
  match s with LeaseConsumed | LeaseSettled => true | _ => false end.

Definition releases (e : event) : option ExecutionLease :=
  match e with EReleased l => Some l | _ => None end.
Definition settlement_of (id : string) (e : event) : option Settlement :=
  match e with ESettled l s => if ls_id l == id then Some s else None | _ => None end.
Definition happened (f : event → option ExecutionLease) (id : string) (trace : list event) : bool :=
  existsb (of_lease f id) trace.

(** What a record tells of the events [after] the lease was issued. *)
Record story (id : string) (after : list event) (r : leaseRecord) : Prop := mkStory {
  sy_issued : happened issues id after = false;
  sy_released : happened releases id after = false;
  sy_consumed : happened consumptions id after = spent (lc_state r);
  sy_expired : happened expirations id after = bool_decide (lc_state r = LeaseExpired);
  sy_revoked : happened revocations id after = bool_decide (lc_state r = LeaseRevoked);
  sy_started : happened starts id after = lc_started r;
  sy_settled : omap (settlement_of id) after
    = if bool_decide (lc_state r = LeaseSettled) then [lc_settlement r] else [];
  sy_unsettled : lc_state r ≠ LeaseSettled → lc_settlement r = no_settlement;
  sy_facts lease current now : EConsumed lease current now ∈ after → ls_id lease = id →
    is_ok (validateLeaseCurrent (lc_lease r) current) = true
    ∧ After (ls_expiresAt (lc_lease r)) now = true;
}.

Lemma happened_snoc f id trace e : happened f id (trace ++ [e]) = happened f id trace || of_lease f id e.
Proof. unfold happened. rewrite existsb_app. cbn. by rewrite orb_false_r. Qed.

Lemma story_other id after e r :
  (∀ f, (∀ lease, f e = Some lease → lease_of e = Some lease) → of_lease f id e = false) →
  story id after r → story id (after ++ [e]) r.
Proof.
  intros He [H1 H2 H3 H4 H5 H6 H7 H8 H9].
  split; rewrite ?happened_snoc, ?He; rewrite ?orb_false_r; try done; try by destruct e.
  - rewrite omap_app, H7. destruct e; try by rewrite app_nil_r.
    specialize (He settlements ltac:(done)). unfold of_lease in He. cbn in *. by rewrite He, app_nil_r.
  - intros lease current now [?|Hin%list_elem_of_singleton]%elem_of_app Hid; [by eapply H9|]. subst.
    specialize (He consumptions ltac:(done)). unfold of_lease in He. cbn in He.
    by rewrite eqb_refl in He.
Qed.

Lemma story_move id after r e r' lease :
  lease_of e = Some lease → ls_id lease = id → own_step (Some r) e = Some (Some r') →
  story id after r → lc_lease r' = lc_lease r ∧ story id (after ++ [e]) r'.
Proof.
  destruct r as [b l s x]. intros El Hid Hs [H1 H2 H3 H4 H5 H6 H7 H8 H9].
  cbn in H3, H4, H5, H6, H7, H8, H9.
  destruct e; cbn [lease_of own_step] in *; try discriminate El; injection El as ->; try discriminate Hs;
    case_guard as Hg; try discriminate Hs; cbn in Hs, Hg; injection Hs as <-; (split; [done|]);
    destruct_and ?; subst s.
  all: split; rewrite ?happened_snoc, ?H1, ?H2, ?H3, ?H4, ?H5, ?H6, ?omap_app, ?H7; unfold of_lease; cbn;
    rewrite ?Hid, ?eqb_refl, ?orb_false_r, ?orb_true_r; try done.
  all: try (by intros _; apply H8).
  all: intros lease' current' now' [?|Hin%list_elem_of_singleton]%elem_of_app ?; [by eapply H9|].
  all: by simplify_eq.
Qed.

(** Every record of the table has a story: it was issued, and what it says follows from what
    happened to its lease since. *)
Lemma lives_story id trace r :
  lives id (Some None) trace = Some (Some r) →
  ∃ before request now after,
    trace = before ++ EIssued request (lc_lease r) now :: after ∧
    is_ok (issuable request now) = true ∧ ls_id (lc_lease r) = id ∧
    lc_lease r = leased request (ls_id (lc_lease r)) (ls_nonce (lc_lease r)) ∧
    story id after r.
Proof.
  revert r. induction trace as [|e trace IH] using rev_ind; intros r Hl; [done|].
  rewrite lives_app in Hl. destruct (lives id (Some None) trace) as [l0|]; [|done].
  unfold lives in Hl. cbn in Hl. apply life_step_Some in Hl as [[He <-]|(lease & El & Hid & Hs)].
  { destruct (IH r eq_refl) as (before & request & now & after & -> & Hi & Hr & Hlease & Hst).
    exists before, request, now, (after ++ [e]). rewrite <-app_assoc.
    do 4 (split; [done|]). by apply story_other. }
  destruct l0 as [r0|].
  - destruct (IH r0 eq_refl) as (before & request & now & after & -> & Hi & Hr & Hlease & Hst).
    destruct (story_move _ _ _ _ _ _ El Hid Hs Hst) as [E Hst'].
    exists before, request, now, (after ++ [e]). rewrite E, <-app_assoc. done.
  - destruct e; cbn [own_step] in Hs; try done. case_guard as Hg; [|done]. cbn in Hs, El.
    injection El as ->. injection Hs as <-. destruct Hg as [Hi Hlease].
    exists trace, request, now, []. do 4 (split; [done|]).
    split; try done. by intros ? ? ? ?%elem_of_nil.
Qed.

Lemma lives_counts id trace l :
  lives id (Some None) trace = Some l →
  let at_state P := one (from_option (λ r, P (lc_state r) (lc_started r)) false l) in
  (count consumptions id trace + at_state (λ s _, match s with LeaseIssued => true | _ => false end)
   ≤ count issues id trace)%nat ∧
  (count starts id trace + at_state (λ s b, match s with LeaseConsumed => negb b | _ => false end)
   ≤ count consumptions id trace)%nat ∧
  (count settlements id trace + at_state (λ s _, match s with LeaseConsumed => true | _ => false end)
   ≤ count consumptions id trace)%nat ∧
  (count releases id trace + one (match l with Some _ => true | None => false end) ≤ count issues id trace)%nat.
Proof.
  revert l. induction trace as [|e trace IH] using rev_ind; intros l Hl.
  { cbn in Hl. simplify_eq. cbn. lia. }
  rewrite lives_app in Hl. destruct (lives id (Some None) trace) as [l0|]; [|done].
  specialize (IH l0 eq_refl). unfold lives in Hl. cbn in Hl. rewrite !count_snoc.
  apply life_step_Some in Hl as [[He ->]|(lease & El & Hid & Hs)].
  { rewrite !He by (by destruct e). cbn zeta in *. lia. }
  destruct e; cbn [lease_of] in El; try discriminate El; injection El as ->;
    destruct l0 as [[b l1 s x]|]; cbn [own_step] in Hs; try discriminate Hs;
    case_guard as Hg; try discriminate Hs; cbn in Hs, Hg; injection Hs as <-;
    destruct_and ?; subst; unfold of_lease; cbn in *; rewrite ?eqb_refl;
    try (destruct b); try (destruct s; try done); cbn in *; lia.
Qed.

(** C38: Whoever calls the authority, with whatever leases and in whatever order, every lease
    goes its way. Under an unused identity it is issued as requested; it then expires, is revoked, or
    is consumed in time and on the facts it is bound to; consumed, it launches at most once
    and gives out handles until it is settled; ended, it may be released. Each step changes the
    state (or the launch, or the settlement) of the record and nothing else ([own_step]).
    So the lease of every record of the table is exactly the one of the last
    issue of its identity, whatever was presented since, and the record says what happened to it
    since: consumed on unchanged facts or not, launched or not, and the one settlement recorded if
    any. No identity is consumed or released more often than it was issued, nor launched or
    settled more often than consumed. *)
Theorem leases_follow_lifecycle calls id :
  let '(a, trace) := history calls in
  lives id (Some None) trace = Some (life_of a id) ∧
  (∀ r, la_leases a !! id = Some r →
     ∃ before request now after,
       trace = before ++ EIssued request (lc_lease r) now :: after ∧
       is_ok (issuable request now) = true ∧ ls_id (lc_lease r) = id ∧
       lc_lease r = leased request (ls_id (lc_lease r)) (ls_nonce (lc_lease r)) ∧
       story id after r) ∧
  (count consumptions id trace ≤ count issues id trace)%nat ∧
  (count releases id trace ≤ count issues id trace)%nat ∧
  (count starts id trace ≤ count consumptions id trace)%nat ∧
  (count settlements id trace ≤ count consumptions id trace)%nat.
Proof.
  assert (Hl : lives id (Some None) (history calls).2 = Some (life_of (history calls).1 id)).
  { induction calls as [|c calls IH] using rev_ind; [done|]. rewrite history_snoc.
    destruct (history calls) as [a trace]. unfold then_perform.
    destruct (perform a c) as [a' es] eqn:E. cbn [fst snd] in *. rewrite lives_app, IH.
    by apply (perform_lives _ _ _ _ id) in E. }
  destruct (history calls) as [a trace]. cbn [fst snd] in Hl. split; [done|]. split.
  - intros r Hr. apply lives_story. rewrite Hl. unfold life_of. by rewrite Hr.
  - destruct (lives_counts _ _ _ Hl) as (? & ? & ? & ?). cbn beta zeta in *. lia.
Qed.

(** ** Callers that cannot forge *)

Lemma NoDup_omap_inj {A B} (f : A → option B) l x y k :
  NoDup (omap f l) → x ∈ l → y ∈ l → f x = Some k → f y = Some k → x = y.
Proof.
  induction l as [|z l IH]; [by intros _ ?%elem_of_nil|].
  assert (Hmem : ∀ w, w ∈ l → f w = Some k → k ∈ omap f l) by (intros; apply list_elem_of_omap; eauto).
  cbn. intros Hnd Hx Hy Ex Ey. apply elem_of_cons in Hx, Hy.
  destruct Hx as [->|Hx], Hy as [->|Hy]; [done|rewrite Ex in Hnd|rewrite Ey in Hnd|];
    [apply NoDup_cons in Hnd as [Hk _]; destruct Hk; eauto..|].
  apply IH; [|done..]. by destruct (f z); [apply NoDup_cons in Hnd as [_ ?]|].
Qed.

Definition issued (trace : list event) (lease : ExecutionLease) : Prop :=
  ∃ request now, EIssued request lease now ∈ trace ∧ issuable request now = Ok tt
    ∧ lease = leased request (ls_id lease) (ls_nonce lease).
Definition consumed (trace : list event) (lease : ExecutionLease) : Prop :=
  ∃ current now, EConsumed lease current now ∈ trace ∧ validate_operation (lv_Operation current) = Ok tt
    ∧ validateLeaseCurrent lease current = Ok tt ∧ After (ls_expiresAt lease) now = true.

Record kept (trace : list event) (id : string) (r : leaseRecord) : Prop := mkKept {
  kp_id : ls_id (lc_lease r) = id;
  kp_issued : issued trace (lc_lease r);
  kp_consumed : spent (lc_state r) = true → consumed trace (lc_lease r);
  kp_unsettled s : lc_state r ≠ LeaseSettled → ESettled (lc_lease r) s ∉ trace;
  kp_unstarted now : lc_started r = false → EStarted (lc_lease r) now ∉ trace;
}.

Record handle_kept (a : LeaseAuthority) (trace : list event) (id : string) (h : processHandleRecord)
    : Prop := mkHandleKept {
  hk_id : ph_id (hr_handle h) = id;
  hk_lease : ∃ r, la_leases a !! ph_leaseID (hr_handle h) = Some r ∧ spent (lc_state r) = true
    ∧ EHandle (lc_lease r) (hr_handle h) ∈ trace
    ∧ ph_operationDigest (hr_handle h) = ls_operationDigest (lc_lease r);
  hk_open : hr_terminal h = false → ECompleted (hr_handle h) ∉ trace;
}.

Record run_ok (a : LeaseAuthority) (trace : list event) : Prop := mkRunOk {
  ro_leases id r : la_leases a !! id = Some r → kept trace id r;
  ro_handles id h : la_handles a !! id = Some h → handle_kept a trace id h;
  ro_issued e l : e ∈ trace → lease_of e = Some l → ∃ request now, EIssued request l now ∈ trace;
  ro_handle h : ECompleted h ∈ trace → ∃ l, EHandle l h ∈ trace;
  ro_tokens : NoDup (tokens trace);
  ro_open l h : EHandle l h ∈ trace → ECompleted h ∉ trace →
    la_handles a !! ph_id h = Some (mkHandleRecord h false);
}.

Section ok.
Context (a : LeaseAuthority) (trace : list event) (Hok : run_ok a trace).

Lemma issued_unique r1 l1 n1 r2 l2 n2 :
  EIssued r1 l1 n1 ∈ trace → EIssued r2 l2 n2 ∈ trace → ls_nonce l1 = ls_nonce l2 → l1 = l2.
Proof.
  intros H1 H2 E.
  assert (H : EIssued r1 l1 n1 = EIssued r2 l2 n2)
    by (eapply NoDup_omap_inj; [apply (ro_tokens _ _ Hok)|done|done|done|cbn; by rewrite E]).
  by injection H.
Qed.

Lemma handle_unique l1 h1 l2 h2 :
  EHandle l1 h1 ∈ trace → EHandle l2 h2 ∈ trace → ph_nonce h1 = ph_nonce h2 → l1 = l2 ∧ h1 = h2.
Proof.
  intros H1 H2 E.
  assert (H : EHandle l1 h1 = EHandle l2 h2)
    by (eapply NoDup_omap_inj; [apply (ro_tokens _ _ Hok)|done|done|done|cbn; by rewrite E]).
  by injection H.
Qed.

(** A caller that was given a lease presents the one of the table. *)
Lemma presented lease r :
  holds trace lease → authenticRecord a lease = Ok r →
  la_leases a !! ls_id lease = Some r ∧ lc_lease r = lease ∧ kept trace (ls_id lease) r.
Proof.
  intros [H0|(request & now & Hi)] (Hid & _ & E & En)%authentic_Ok; [done|].
  pose proof (ro_leases _ _ Hok _ _ E) as Hk. split; [done|]. split; [|done].
  destruct (kp_issued _ _ _ Hk) as (request' & now' & Hi' & _). by eapply issued_unique.
Qed.

Lemma presented_handle h r :
  holds_handle trace h → la_handles a !! ph_id h = Some r → ph_nonce (hr_handle r) = ph_nonce h →
  ph_id h ≠ "" → hr_handle r = h.
Proof.
  intros [H0|[l Hl]] E En Hid; [done|].
  destruct (hk_lease _ _ _ _ (ro_handles _ _ Hok _ _ E)) as (? & _ & _ & Hh & _).
  by destruct (handle_unique _ _ _ _ Hh Hl En).
Qed.
End ok.

(** What was kept is kept when other things happen. *)
Lemma kept_more trace id r es :
  kept trace id r →
  (∀ e l, e ∈ es → lease_of e = Some l → settlements e = Some l ∨ starts e = Some l → l ≠ lc_lease r) →
  kept (trace ++ es) id r.
Proof.
  intros [Hid Hi Hc Hu Hs] Hes. split; [done|..].
  - destruct Hi as (request & now & Hin & ?). exists request, now. set_solver.
  - intros Hsp. destruct (Hc Hsp) as (current & now & Hin & ?). exists current, now. set_solver.
  - intros s Hns [Hin|Hin]%elem_of_app; [by eapply Hu|]. by eapply (Hes _ (lc_lease r)); eauto.
  - intros now Hns [Hin|Hin]%elem_of_app; [by eapply Hs|]. by eapply (Hes _ (lc_lease r)); eauto.
Qed.

Lemma handle_kept_more a a' trace id h es :
  handle_kept a trace id h →
  (∀ r, la_leases a !! ph_leaseID (hr_handle h) = Some r → spent (lc_state r) = true →
     ∃ r', la_leases a' !! ph_leaseID (hr_handle h) = Some r' ∧ spent (lc_state r') = true
       ∧ lc_lease r' = lc_lease r) →
  (∀ h', ECompleted h' ∈ es → h' ≠ hr_handle h) →
  handle_kept a' (trace ++ es) id h.
Proof.
  intros [Hid (r & Hr & Hs & Hin & Hd) Ho] Ha Hes. split; [done|..].
  - destruct (Ha r Hr Hs) as (r' & Hr' & Hs' & El). exists r'. rewrite El. set_solver.
  - intros Ht [H|H]%elem_of_app; [by apply Ho|]. by eapply Hes.
Qed.

Lemma release_handles_spec lease visit handles stopped handles' :
  release_handles lease visit handles = (stopped, handles') →
  (∀ id h, handles' !! id = Some h → handles !! id = Some h) ∧
  (stopped = false → ∀ id h, id ∈ visit → handles' !! id = Some h → ph_leaseID (hr_handle h) ≠ lease) ∧
  (∀ id h, handles !! id = Some h → hr_terminal h = false → handles' !! id = Some h).
Proof.
  revert handles. induction visit as [|v visit IH]; intros handles; cbn [release_handles].
  { intros [= <- <-]. split_and!; [done|intros; set_solver|done]. }
  destruct (handles !! v) as [hv|] eqn:Ev; [|].
  - destruct (ph_leaseID (hr_handle hv) == lease) eqn:El; [destruct (hr_terminal hv) eqn:Et|].
    + intros (H1 & H2 & H3)%IH. apply String.eqb_eq in El. split_and!.
      * intros id h Hh. apply H1 in Hh. by apply lookup_delete_Some in Hh as [_ ?].
      * intros Hs id h Hin Hh. apply elem_of_cons in Hin as [->|]; [|by eapply H2].
        apply H1 in Hh. by rewrite lookup_delete_eq in Hh.
      * intros id h Hh Ht. apply H3; [|done]. rewrite lookup_delete_ne; [done|congruence].
    + by intros [= <- <-].
    + intros (H1 & H2 & H3)%IH. apply String.eqb_neq in El. split_and!; [done| |done].
      intros Hs id h Hin Hh. apply elem_of_cons in Hin as [->|]; [|by eapply H2].
      apply H1 in Hh. congruence.
  - intros (H1 & H2 & H3)%IH. split_and!; [done| |done].
    intros Hs id h Hin Hh. apply elem_of_cons in Hin as [->|]; [|by eapply H2].
    apply H1 in Hh. congruence.
Qed.

Lemma tokens_app t1 t2 : tokens (t1 ++ t2) = tokens t1 ++ tokens t2.
Proof. apply omap_app. Qed.

Lemma run_ok_nothing a trace : run_ok a trace → run_ok a (trace ++ []).
Proof. by rewrite app_nil_r. Qed.

(** One record moved. *)
Lemma lease_step a trace lease r r' e :
  run_ok a trace → holds trace lease → authenticRecord a lease = Ok r →
  lc_lease r' = lc_lease r → (spent (lc_state r) = true → spent (lc_state r') = true) →
  lease_of e = Some lease → tokens [e] = [] →
  kept (trace ++ [e]) (ls_id lease) r' →
  run_ok (put_lease (ls_id lease) r' a) (trace ++ [e]).
Proof.
  intros Hok Hh Ha Hr' Hsp He Ht Hk'.
  destruct (presented _ _ Hok _ _ Hh Ha) as (Hr & El & Hk).
  assert (Hin : ∃ request now, EIssued request lease now ∈ trace).
  { destruct (kp_issued _ _ _ Hk) as (request & now & Hi & _). rewrite El in Hi. eauto. }
  split.
  - intros id r0. cbn. intros [[<- <-]|[Hne Hr0]]%lookup_insert_Some; [done|].
    apply kept_more; [by apply (ro_leases _ _ Hok)|].
    intros e' l ->%list_elem_of_singleton Hl _ ->. rewrite He in Hl. injection Hl as ->.
    by destruct Hne; apply (kp_id _ _ _ (ro_leases _ _ Hok _ _ Hr0)).
  - intros id h Hid. cbn in Hid. eapply handle_kept_more; [by apply (ro_handles _ _ Hok)|..].
    + intros r0 Hr0 Hs0. cbn. rewrite lookup_insert. case_decide as Hid'; [|by eauto].
      exists r'. rewrite <-Hid', Hr in Hr0. injection Hr0 as <-. eauto.
    + intros h' Hh' ->. apply list_elem_of_singleton in Hh'. by subst.
  - intros e' l [Hin'|Hin']%elem_of_app Hl.
    + destruct (ro_issued _ _ Hok _ _ Hin' Hl) as (request & now & ?). exists request, now. set_solver.
    + apply list_elem_of_singleton in Hin' as ->. rewrite He in Hl. injection Hl as <-.
      destruct Hin as (request & now & ?). exists request, now. set_solver.
  - intros h [Hc|Hc]%elem_of_app.
    + destruct (ro_handle _ _ Hok _ Hc) as [l ?]. exists l. set_solver.
    + apply list_elem_of_singleton in Hc. by subst.
  - rewrite tokens_app, Ht, app_nil_r. apply (ro_tokens _ _ Hok).
  - intros l h [Hin'|Hin']%elem_of_app Hc; [|apply list_elem_of_singleton in Hin'; by subst].
    apply (ro_open _ _ Hok l); set_solver.
Qed.

Lemma release_step a trace lease visit r a' :
  run_ok a trace → (map_to_list (la_handles a)).*1 ⊆ visit → holds trace lease →
  Release a lease visit = (r, a') →
  run_ok a' (trace ++ match r with Ok _ => [EReleased lease] | Err _ => [] end).
Proof.
  intros Hok Hv Hh Hr. apply Release_spec in Hr.
  assert (Hdom : ∀ id h, la_handles a !! id = Some h → id ∈ visit).
  { intros id h Hid. apply Hv. apply list_elem_of_fmap. exists (id, h). split; [done|].
    by apply elem_of_map_to_list. }
  destruct r as [[]|e].
  - destruct Hr as (record & Ha & He & Hrel & El). apply release_handles_spec in Hrel as (H1 & H2 & H3).
    destruct (presented _ _ Hok _ _ Hh Ha) as (Hr & Elc & Hk).
    destruct (kp_issued _ _ _ Hk) as (request & now & Hi & _). rewrite Elc in Hi.
    split.
    + intros id r0. rewrite El. intros [Hne Hr0]%lookup_delete_Some.
      apply kept_more; [by apply (ro_leases _ _ Hok)|]. intros ? ? ->%list_elem_of_singleton _ [|]; done.
    + intros id h Hid. pose proof (H1 _ _ Hid) as Hid0.
      eapply handle_kept_more; [by apply (ro_handles _ _ Hok)|..].
      * intros r0 Hr0 Hs0. exists r0. rewrite El, lookup_delete_ne; [done|].
        intros ?. eapply H2; [done|by eapply Hdom|done|done].
      * intros h' Hh' ->. apply list_elem_of_singleton in Hh'. done.
    + intros e l [Hin| ->%list_elem_of_singleton]%elem_of_app Hl.
      * destruct (ro_issued _ _ Hok _ _ Hin Hl) as (q & t & ?). exists q, t. set_solver.
      * injection Hl as <-. exists request, now. set_solver.
    + intros h [Hc|Hc]%elem_of_app; [|by apply list_elem_of_singleton in Hc].
      destruct (ro_handle _ _ Hok _ Hc) as [l ?]. exists l. set_solver.
    + rewrite tokens_app, app_nil_r. apply (ro_tokens _ _ Hok).
    + intros l h [Hin|Hin%list_elem_of_singleton]%elem_of_app Hc; [|done].
      apply H3; [|done]. apply (ro_open _ _ Hok l); set_solver.
  - rewrite app_nil_r. destruct Hr as [->|[El Hrel]]; [done|].
    apply release_handles_spec in Hrel as (H1 & _ & H3). destruct Hok as [? Hhs ? ? ? Hop].
    split; [by rewrite El| |done..|intros l h Hin Hc; apply H3; [by eapply Hop|done]].
    intros id h Hid. destruct (Hhs id h (H1 _ _ Hid)) as [? Hl ?]. split; [done| |done].
    by rewrite El.
Qed.

Lemma issued_more trace es lease : issued trace lease → issued (trace ++ es) lease.
Proof. intros (request & now & Hin & ?). exists request, now. set_solver. Qed.
Lemma consumed_more trace es lease : consumed trace lease → consumed (trace ++ es) lease.
Proof. intros (current & now & Hin & ?). exists current, now. set_solver. Qed.

(** The ways a record moves. *)
Section moves.
Context (trace : list event) (id : string) (r : leaseRecord) (Hk : kept trace id r).

Lemma kept_move s b settlement e :
  (spent s = true → consumed (trace ++ [e]) (lc_lease r)) →
  (s ≠ LeaseSettled → lc_state r ≠ LeaseSettled ∧ ∀ x, e ≠ ESettled (lc_lease r) x) →
  (b = false → lc_started r = false ∧ ∀ t, e ≠ EStarted (lc_lease r) t) →
  kept (trace ++ [e]) id (mkLeaseRecord b (lc_lease r) s settlement).
Proof.
  destruct Hk as [Hid Hi Hc Hu Hs]. intros Hsp Hse Hst. split; cbn; [done|by apply issued_more|done|..].
  - intros x Hne [H|H%list_elem_of_singleton]%elem_of_app.
    + by apply (Hu x (proj1 (Hse Hne))).
    + by destruct (proj2 (Hse Hne) x).
  - intros t Hb [H|H%list_elem_of_singleton]%elem_of_app.
    + by apply (Hs t (proj1 (Hst Hb))).
    + by destruct (proj2 (Hst Hb) t).
Qed.
End moves.

Section step.
Context (a : LeaseAuthority) (trace : list event) (Hok : run_ok a trace).

Lemma consume_step lease current now r a' :
  holds trace lease → Consume a lease current now = (r, a') →
  run_ok a' (trace ++ match r with
                      | Ok _ => [EConsumed lease current now]
                      | Err _ => if moved a a' (ls_id lease) then [EExpired lease now] else []
                      end).
Proof.
  intros Hh Hc. apply Consume_spec in Hc. destruct r as [[]|e].
  - destruct Hc as (record & Ha & Hs & Ht & Hv & Hcur & ->).
    destruct (presented _ _ Hok _ _ Hh Ha) as (Hr & El & Hk).
    eapply lease_step; [done..|]. apply kept_move; [done|..].
    + intros _. rewrite El in *. exists current, now. set_solver.
    + intros _. by rewrite Hs.
    + done.
  - destruct Hc as [->|(record & Ha & Hs & _ & ->)]; [rewrite moved_same; by apply run_ok_nothing|].
    erewrite moved_put by (done || by rewrite Hs).
    destruct (presented _ _ Hok _ _ Hh Ha) as (Hr & El & Hk).
    eapply lease_step; [done..| |done|done|]; [cbn; by rewrite Hs|].
    apply kept_move; [done|done| |done]. intros _. by rewrite Hs.
Qed.

Lemma settle_step lease settlement r a' :
  holds trace lease → Settle a lease settlement = (r, a') →
  run_ok a' (trace ++ if moved a a' (ls_id lease) then [ESettled lease settlement] else []).
Proof.
  intros Hh Hc. apply Settle_spec in Hc.
  destruct Hc as [->|(record & Ha & Hs & _ & ->)]; [rewrite moved_same; by apply run_ok_nothing|].
  erewrite moved_put by (done || by rewrite Hs).
  destruct (presented _ _ Hok _ _ Hh Ha) as (Hr & El & Hk).
  eapply lease_step; [done..|]. apply kept_move; [done| |done|done].
  intros _. apply consumed_more, (kp_consumed _ _ _ Hk). by rewrite Hs.
Qed.

Lemma revoke_step lease r a' :
  holds trace lease → Revoke a lease = (r, a') →
  run_ok a' (trace ++ if moved a a' (ls_id lease) then [ERevoked lease] else []).
Proof.
  intros Hh Hc. apply Revoke_spec in Hc.
  destruct Hc as [->|(record & Ha & Hs & ->)]; [rewrite moved_same; by apply run_ok_nothing|].
  erewrite moved_put by (done || by rewrite Hs).
  destruct (presented _ _ Hok _ _ Hh Ha) as (Hr & El & Hk).
  eapply lease_step; [done..| |done|done|]; [cbn; by rewrite Hs|].
  apply kept_move; [done|done| |done]. intros _. by rewrite Hs.
Qed.

Lemma start_step lease now start r a' ran :
  holds trace lease → Start a lease now start = (r, a', ran) →
  run_ok a' (trace ++ if ran then [EStarted lease now] else []).
Proof.
  intros Hh Hc. apply Start_spec in Hc. destruct ran; [|subst; by apply run_ok_nothing].
  destruct Hc as (record & Ha & Hs & Hb & Ht & ->).
  destruct (presented _ _ Hok _ _ Hh Ha) as (Hr & El & Hk).
  eapply lease_step; [done..|]. apply kept_move; [done| |by rewrite Hs|done].
  intros Hsp. by apply consumed_more, (kp_consumed _ _ _ Hk).
Qed.

Lemma issue_step request now id nonce lease a' :
  unused trace nonce → Issue a request now id nonce = (Ok lease, a') →
  run_ok a' (trace ++ [EIssued request lease now]).
Proof.
  intros Hfresh Hc. apply Issue_spec in Hc as (Hi & Hnone & Hn & El & ->).
  assert (Hnew : ∀ e, e ∈ trace → lease_of e ≠ Some lease).
  { intros e Hin He. destruct (ro_issued _ _ Hok _ _ Hin He) as (q & t & Hq).
    apply (Hfresh _ Hn). apply list_elem_of_omap. eexists. split; [exact Hq|done]. }
  split.
  - intros id' r. cbn. intros [[<- <-]|[Hne Hr]]%lookup_insert_Some.
    + split; cbn; [done|exists request, now; set_solver|done|..].
      * intros s _ [H|H]%elem_of_app; [by apply (Hnew _ H)|by apply list_elem_of_singleton in H].
      * intros t _ [H|H]%elem_of_app; [by apply (Hnew _ H)|by apply list_elem_of_singleton in H].
    + apply kept_more; [by apply (ro_leases _ _ Hok)|].
      intros ? ? ->%list_elem_of_singleton _ [|]; done.
  - intros id' h Hid. eapply handle_kept_more; [by apply (ro_handles _ _ Hok)|..].
    + intros r Hr Hs. exists r. cbn. rewrite lookup_insert_ne; [done|]. intros E.
      by rewrite E, Hr in Hnone.
    + by intros h' Hh'%list_elem_of_singleton.
  - intros e l [Hin| ->%list_elem_of_singleton]%elem_of_app Hl.
    + destruct (ro_issued _ _ Hok _ _ Hin Hl) as (q & t & ?). exists q, t. set_solver.
    + injection Hl as <-. exists request, now. set_solver.
  - intros h [Hc|Hc]%elem_of_app; [|by apply list_elem_of_singleton in Hc].
    destruct (ro_handle _ _ Hok _ Hc) as [l ?]. exists l. set_solver.
  - rewrite tokens_app. cbn. apply NoDup_app. split; [apply (ro_tokens _ _ Hok)|].
    split; [|apply NoDup_singleton]. intros x Hx ->%list_elem_of_singleton. by apply (Hfresh _ Hn).
  - intros l h [Hin|Hin%list_elem_of_singleton]%elem_of_app Hc; [|done].
    apply (ro_open _ _ Hok l); set_solver.
Qed.

Lemma handle_step lease request id nonce handle a' :
  holds trace lease → unused trace nonce →
  IssueProcessHandle a lease request id nonce = (Ok handle, a') →
  run_ok a' (trace ++ [EHandle lease handle]).
Proof.
  intros Hh Hfresh Hc.
  apply IssueProcessHandle_spec in Hc as (record & Ha & Hs & Hnone & Hn & El & Ed & _ & ->).
  destruct (presented _ _ Hok _ _ Hh Ha) as (Hr & Elc & Hk).
  assert (Hnew : ∀ l, EHandle l handle ∉ trace).
  { intros l Hin. apply (Hfresh _ Hn). apply list_elem_of_omap. eexists. split; [exact Hin|done]. }
  split.
  - intros id' r Hr'. apply kept_more; [by apply (ro_leases _ _ Hok)|].
    intros ? ? ->%list_elem_of_singleton _ [|]; done.
  - intros id' h. cbn. intros [[<- <-]|[Hne Hid]]%lookup_insert_Some.
    + split; cbn; [done|exists record; rewrite El, Elc, Hs; set_solver|].
      intros _ [H|H]%elem_of_app; [|by apply list_elem_of_singleton in H].
      destruct (ro_handle _ _ Hok _ H) as [l Hl]. by apply (Hnew l).
    + eapply handle_kept_more; [by apply (ro_handles _ _ Hok)|by eauto|].
      by intros h' Hh'%list_elem_of_singleton.
  - intros e l [Hin| ->%list_elem_of_singleton]%elem_of_app Hl.
    + destruct (ro_issued _ _ Hok _ _ Hin Hl) as (q & t & ?). exists q, t. set_solver.
    + injection Hl as <-. destruct (kp_issued _ _ _ Hk) as (q & t & Hi & _). rewrite Elc in Hi.
      exists q, t. set_solver.
  - intros h [Hc|Hc]%elem_of_app; [|by apply list_elem_of_singleton in Hc].
    destruct (ro_handle _ _ Hok _ Hc) as [l ?]. exists l. set_solver.
  - rewrite tokens_app. cbn. apply NoDup_app. split; [apply (ro_tokens _ _ Hok)|].
    split; [|apply NoDup_singleton]. intros x Hx ->%list_elem_of_singleton. by apply (Hfresh _ Hn).
  - intros l h [Hin|Hin%list_elem_of_singleton]%elem_of_app Hcm; cbn.
    + assert (Hold := ro_open _ _ Hok l h Hin ltac:(set_solver)).
      rewrite lookup_insert_ne; [done|congruence].
    + injection Hin as -> ->. by rewrite lookup_insert_eq.
Qed.

Lemma complete_step handle a' :
  holds_handle trace handle → CompleteProcessHandle a handle = (Ok tt, a') →
  run_ok a' (trace ++ [ECompleted handle]).
Proof.
  intros Hh Hc. pose proof Hc as Hc'. apply CompleteProcessHandle_spec in Hc as (record & Hr & Hn & ->).
  assert (Hid : ph_id handle ≠ "").
  { intros E. unfold CompleteProcessHandle, authenticHandle in Hc'. rewrite E in Hc'. done. }
  pose proof (presented_handle _ _ Hok _ _ Hh Hr Hn Hid) as Eh.
  destruct Hh as [|[l Hl]]; [done|].
  split.
  - intros id' r Hr'. apply kept_more; [by apply (ro_leases _ _ Hok)|].
    intros ? ? ->%list_elem_of_singleton; done.
  - intros id' h. cbn. intros [[<- <-]|[Hne Hid']]%lookup_insert_Some.
    + destruct (ro_handles _ _ Hok _ _ Hr) as [E (r & ? & ? & ? & ?) _]. split; cbn; [done| |done].
      exists r. set_solver.
    + eapply handle_kept_more; [by apply (ro_handles _ _ Hok)|by eauto|].
      intros h' [= ->]%list_elem_of_singleton E. destruct Hne. rewrite E.
      apply (hk_id _ _ _ _ (ro_handles _ _ Hok _ _ Hid')).
  - intros e l' [Hin| ->%list_elem_of_singleton]%elem_of_app Hl'; [|done].
    destruct (ro_issued _ _ Hok _ _ Hin Hl') as (q & t & ?). exists q, t. set_solver.
  - intros h [Hc|[= ->]%list_elem_of_singleton]%elem_of_app; [|exists l; set_solver].
    destruct (ro_handle _ _ Hok _ Hc) as [l' ?]. exists l'. set_solver.
  - rewrite tokens_app, app_nil_r. apply (ro_tokens _ _ Hok).
  - intros l' h [Hin|Hin%list_elem_of_singleton]%elem_of_app Hcm; [|done]. cbn.
    assert (Hold := ro_open _ _ Hok l' h Hin ltac:(set_solver)).
    rewrite lookup_insert_ne; [done|]. intros E. rewrite <-E, Hr in Hold. injection Hold as ->.
    cbn in Eh. subst. apply Hcm. set_solver.
Qed.

Lemma any_call_step c a' es : legal a trace c → perform a c = (a', es) → run_ok a' (trace ++ es).
Proof.
  destruct c; cbn [legal perform].
  - intros Hf. destruct (Issue _ _ _ _) as [[l|] a1] eqn:E; intros [= <- <-]; [by eapply issue_step|].
    apply Issue_spec in E as ->. by apply run_ok_nothing.
  - intros Hh. destruct (Consume _ _ _ _) as [r a1] eqn:E. apply consume_step in E; [|done].
    destruct r; by intros [= <- <-].
  - intros Hh. destruct (Settle _ _ _) as [r a1] eqn:E. intros [= <- <-]. by eapply settle_step.
  - intros Hh. destruct (Revoke _ _) as [r a1] eqn:E. intros [= <- <-]. by eapply revoke_step.
  - intros [Hh Hv]. destruct (Release _ _ _) as [r a1] eqn:E. apply (release_step _ _ _ _ _ _ Hok Hv Hh) in E.
    destruct r; by intros [= <- <-].
  - intros Hh. destruct (Start _ _ _ _) as [[r a1] ran] eqn:E. intros [= <- <-]. by eapply start_step.
  - intros [Hh Hf]. destruct (IssueProcessHandle _ _ _ _ _) as [[h|] a1] eqn:E; intros [= <- <-];
      [by eapply handle_step|]. apply IssueProcessHandle_spec in E as ->. by apply run_ok_nothing.
  - intros Hh. destruct (CompleteProcessHandle _ _) as [[[]|] a1] eqn:E; intros [= <- <-];
      [by eapply complete_step|]. apply CompleteProcessHandle_spec in E as ->. by apply run_ok_nothing.
Qed.
End step.

Lemma run_run_ok a trace : run a trace → run_ok a trace.
Proof.
  induction 1 as [|a trace c a' es _ IH Hl Hp]; [|by eapply any_call_step].
  split; cbn; [by intros ?? []%lookup_empty_Some..|by intros ?? ?%elem_of_nil|by intros ? ?%elem_of_nil|constructor
    |by intros ?? ?%elem_of_nil].
Qed.

(** ** The theorems *)

Lemma perform_events a c a' es : perform a c = (a', es) → es = [] ∨ ∃ e, es = [e].
Proof.
  destruct c; cbn; repeat (case_match; simplify_eq); intros; simplify_eq; eauto.
Qed.

(** An event of a run happened in some call. *)
Lemma run_split a trace before e after :
  run a trace → trace = before ++ e :: after →
  ∃ a0 c a1, run a0 before ∧ legal a0 before c ∧ perform a0 c = (a1, [e]).
Proof.
  intros Hr. revert before e after. induction Hr as [|a trace c a' es Hr IH Hl Hp]; intros before e after E.
  { by destruct before. }
  destruct (perform_events _ _ _ _ Hp) as [->|[e0 ->]].
  { rewrite app_nil_r in E. by apply IH in E. }
  destruct after as [|e1 after _] using rev_ind.
  - apply app_inj_tail in E as [-> ->]. by exists a, c, a'.
  - rewrite app_comm_cons, app_assoc in E. apply app_inj_tail in E as [E ->]. by apply IH in E.
Qed.

(** What was true when a process was launched. *)
Lemma start_facts a trace before lease now after :
  run a trace → trace = before ++ EStarted lease now :: after →
  issued before lease ∧ consumed before lease ∧ After (ls_expiresAt lease) now = true ∧
  (∀ s, ESettled lease s ∉ before) ∧ ∀ t, EStarted lease t ∉ before.
Proof.
  intros Hr E. destruct (run_split _ _ _ _ _ Hr E) as (a0 & c & a1 & H0 & Hl & Hp).
  destruct c; cbn in Hp; repeat (case_match; simplify_eq). cbn in Hl.
  apply run_run_ok in H0.
  match goal with H : Start _ _ _ _ = _ |- _ => apply Start_spec in H as (record & Ha & Hs & Hb & Ht & _) end.
  destruct (presented _ _ H0 _ _ Hl Ha) as (_ & El & [_ Hi Hc Hu Hst]). rewrite El in *.
  split_and!; [done|by apply Hc; rewrite Hs|done|intros s; apply Hu; by rewrite Hs|by intros; apply Hst].
Qed.

(** C39: A process is launched only under a lease that was issued for a valid operation
    within a valid ceiling that satisfies the controls it requires, and consumed, before it
    expired, on the operation, workspace, subject, policy revision, sandbox policy, artifact and
    attempt it was issued for; not after it expired nor after it was settled; and never a
    second time. *)
Theorem launch_is_authorized a trace before lease now after :
  run a trace → trace = before ++ EStarted lease now :: after →
  (∃ request t, EIssued request lease t ∈ before ∧ issuable request t = Ok tt
     ∧ lease = leased request (ls_id lease) (ls_nonce lease)) ∧
  (∃ current t, EConsumed lease current t ∈ before
     ∧ validate_operation (lv_Operation current) = Ok tt
     ∧ validateLeaseCurrent lease current = Ok tt ∧ After (ls_expiresAt lease) t = true) ∧
  After (ls_expiresAt lease) now = true ∧
  (∀ s, ESettled lease s ∉ before) ∧
  ∀ t, EStarted lease t ∉ before ++ after.
Proof.
  intros Hr E. destruct (start_facts _ _ _ _ _ _ Hr E) as (Hi & Hc & Ht & Hs & Hb).
  split; [done|]. split; [done|]. split; [done|]. split; [done|].
  intros t [H|(l1 & l2 & ->)%list_elem_of_split]%elem_of_app; [by apply (Hb t)|].
  rewrite app_comm_cons, app_assoc in E.
  destruct (start_facts _ _ _ _ _ _ Hr E) as (_ & _ & _ & _ & Hb'). apply (Hb' now). set_solver.
Qed.

Lemma validate_handle_spec a handle record session thread turn process generation action :
  la_handles a !! ph_id handle = Some record → hr_handle record = handle →
  ph_id handle ≠ "" → ph_nonce handle ≠ "" →
  ValidateProcessHandle a handle session thread turn process generation action = Ok tt ↔
  hr_terminal record = false ∧ session = ph_sessionID handle ∧ thread = ph_threadID handle ∧
  turn = ph_turnID handle ∧ process = ph_processID handle ∧ generation = ph_generation handle ∧
  action ∈ ph_actions handle.
Proof.
  intros Hr Eh Hi Hn. unfold ValidateProcessHandle, authenticHandle.
  rewrite (proj2 (String.eqb_neq _ _)), (proj2 (String.eqb_neq _ _)) by done. cbn [orb refuse].
  cbn [mbind res_mbind res_bind]. rewrite Hr, Eh, eqb_refl. cbn [mbind res_mbind res_bind].
  split.
  - destruct (hr_terminal record); cbn; [done|]. rewrite Eh. intros (u & H1%refuse_Ok & H2)%bind_Ok.
    apply require_Ok, bool_decide_eq_true in H2.
    rewrite !orb_false_iff, !negb_false_iff, !String.eqb_eq, Z.eqb_eq in H1. naive_solver.
  - intros (-> & -> & -> & -> & -> & -> & Hin). cbn. rewrite Eh, !eqb_refl, Z.eqb_refl. cbn.
    unfold contains. by rewrite bool_decide_eq_true_2.
Qed.

(** An open handle keeps its lease from being revoked or released. *)
Lemma open_handle_pins a lease visit id h :
  (map_to_list (la_handles a)).*1 ⊆ visit → la_handles a !! id = Some h → hr_terminal h = false →
  ph_leaseID (hr_handle h) = ls_id lease → is_ok (Release a lease visit).1 = false.
Proof.
  intros Hv Hid Ht El. destruct (Release a lease visit) as [[[]|] a'] eqn:E; [|done].
  apply Release_spec in E as (record & _ & _ & Hrel & _).
  apply release_handles_spec in Hrel as (_ & H2 & H3).
  destruct (H2 eq_refl id h); [|by apply H3|done].
  apply Hv, list_elem_of_fmap. exists (id, h). split; [done|]. by apply elem_of_map_to_list.
Qed.

Lemma spent_not_revoked a lease record :
  la_leases a !! ls_id lease = Some record → spent (lc_state record) = true →
  ∃ e, Revoke a lease = (Err e, a).
Proof.
  intros Hr Hs. unfold Revoke. destruct (authenticRecord a lease) as [r|e] eqn:E; [|eauto].
  apply authentic_Ok in E as (_ & _ & E & _). rewrite Hr in E. injection E as <-.
  destruct (lc_state record); try done; eauto.
Qed.

(** C40: A handle works exactly until it is completed, and only for the session, thread, turn,
    process and generation it was issued for and the actions it lists. While it works, the lease it was
    issued under is in the table, consumed or settled, and it stays there: revoking it and releasing it are both
    refused. *)
Theorem handle_works_until_completed a trace lease handle session thread turn process generation action :
  run a trace → EHandle lease handle ∈ trace → ph_id handle ≠ "" → ph_nonce handle ≠ "" →
  (ValidateProcessHandle a handle session thread turn process generation action = Ok tt ↔
     ECompleted handle ∉ trace ∧ session = ph_sessionID handle ∧ thread = ph_threadID handle ∧
     turn = ph_turnID handle ∧ process = ph_processID handle ∧ generation = ph_generation handle ∧
     action ∈ ph_actions handle) ∧
  (ECompleted handle ∉ trace →
     ph_operationDigest handle = ls_operationDigest lease ∧
     ∃ record, la_leases a !! ls_id lease = Some record ∧ lc_lease record = lease ∧
       (lc_state record = LeaseConsumed ∨ lc_state record = LeaseSettled) ∧
       (∃ e, Revoke a lease = (Err e, a)) ∧
       ∀ visit, (map_to_list (la_handles a)).*1 ⊆ visit → is_ok (Release a lease visit).1 = false).
Proof.
  intros Hr Hin Hi Hn. apply run_run_ok in Hr. split.
  - split.
    + intros Hv. pose proof Hv as Hv0. unfold ValidateProcessHandle in Hv.
      apply bind_Ok in Hv as (record & Ha & _). unfold authenticHandle in Ha.
      rewrite (proj2 (String.eqb_neq _ _)), (proj2 (String.eqb_neq _ _)) in Ha by done. cbn in Ha.
      destruct (la_handles a !! ph_id handle) as [record'|] eqn:El; [|done].
      destruct (ph_nonce (hr_handle record') == ph_nonce handle) eqn:En; [|done].
      apply Ok_inj in Ha as ->. apply String.eqb_eq in En.
      assert (Eh : hr_handle record = handle)
        by (apply (presented_handle _ _ Hr); [right; eauto|done..]).
      apply (validate_handle_spec _ _ record) in Hv0 as (Ht & Hrest); [|done..].
      split; [|done]. rewrite <-Eh. by apply (hk_open _ _ _ _ (ro_handles _ _ Hr _ _ El)).
    + intros (Hc & Hrest). pose proof (ro_open _ _ Hr _ _ Hin Hc) as El.
      by apply (validate_handle_spec _ _ _ _ _ _ _ _ _ El).
  - intros Hc. pose proof (ro_open _ _ Hr _ _ Hin Hc) as El.
    destruct (ro_handles _ _ Hr _ _ El) as [_ (r & Hl & Hs & Hh & Hd) _]. cbn in *.
    destruct (handle_unique _ _ Hr _ _ _ _ Hh Hin eq_refl) as [<- _].
    pose proof (kp_id _ _ _ (ro_leases _ _ Hr _ _ Hl)) as E.
    split; [done|]. exists r. rewrite E. split; [done|]. split; [done|].
    split; [destruct (lc_state r); [done|by left|by right|done|done]|].
    split; [apply (spent_not_revoked _ _ r); [by rewrite E|done]|].
    intros visit Hv. eapply open_handle_pins; [done|exact El|done|by rewrite E].
Qed.

(** Calls of anyone, without a settlement of the lease [id]. *)
Definition settles (id : string) (c : call) : bool :=
  match c with CSettle lease _ => ls_id lease == id | _ => false end.
Definition then_calls (calls : list call) (a : LeaseAuthority) : LeaseAuthority :=
  foldl (λ a c, (perform a c).1) a calls.

Lemma stays_consumed a c a' es id r :
  perform a c = (a', es) → settles id c = false →
  la_leases a !! id = Some r → lc_state r = LeaseConsumed →
  ∃ r', la_leases a' !! id = Some r' ∧ lc_state r' = LeaseConsumed ∧ lc_lease r' = lc_lease r.
Proof.
  intros Hp Hns Hr Hs.
  assert (Hother : ∀ lease record record',
    authenticRecord a lease = Ok record → lc_state record ≠ LeaseConsumed →
    la_leases (put_lease (ls_id lease) record' a) !! id = Some r).
  { intros lease record record' (_ & _ & E & _)%authentic_Ok Hne. cbn.
    rewrite lookup_insert_ne; [done|congruence]. }
  destruct c; cbn in Hp.
  - destruct (Issue _ _ _ _) as [[l|] a1] eqn:E; apply Issue_spec in E; simplify_eq; [|by eauto].
    destruct E as (_ & Hnone & _ & _ & ->). exists r. cbn. rewrite lookup_insert_ne; [done|congruence].
  - destruct (Consume _ _ _ _) as [[[]|] a1] eqn:E; apply Consume_spec in E; simplify_eq.
    + destruct E as (record & Ha & Hi & _ & _ & _ & ->). exists r. split; [|done].
      eapply Hother; [done|by rewrite Hi].
    + destruct E as [->|(record & Ha & Hi & _ & ->)]; [by eauto|]. exists r. split; [|done].
      eapply Hother; [done|by rewrite Hi].
  - destruct (Settle _ _ _) as [x a1] eqn:E; apply Settle_spec in E; simplify_eq.
    apply String.eqb_neq in Hns.
    destruct E as [->|(record & Ha & Hi & _ & ->)]; [by eauto|]. exists r. cbn.
    by rewrite lookup_insert_ne.
  - destruct (Revoke _ _) as [x a1] eqn:E; apply Revoke_spec in E; simplify_eq.
    destruct E as [->|(record & Ha & Hi & ->)]; [by eauto|]. exists r. split; [|done].
    eapply Hother; [done|by rewrite Hi].
  - destruct (Release _ _ _) as [[[]|] a1] eqn:E; apply Release_spec in E; simplify_eq.
    + destruct E as (record & Ha & He & _ & El). exists r. rewrite El, lookup_delete_ne; [done|].
      apply authentic_Ok in Ha as (_ & _ & Ha & _). intros Eid. rewrite Eid, Hr in Ha.
      injection Ha as <-. by rewrite Hs in He.
    + destruct E as [->|[-> _]]; eauto.
  - destruct (Start _ _ _ _) as [[x a1] []] eqn:E; apply Start_spec in E; simplify_eq; [|by eauto].
    destruct E as (record & (_ & _ & Ha & _)%authentic_Ok & Hi & _ & _ & ->). cbn.
    rewrite lookup_insert. case_decide as Eid; [|by eauto]. subst id. rewrite Hr in Ha. injection Ha as <-.
    eexists. split; [done|]. by cbn.
  - destruct (IssueProcessHandle _ _ _ _ _) as [[h|] a1] eqn:E; apply IssueProcessHandle_spec in E;
      simplify_eq; [|by eauto]. destruct E as (record & _ & _ & _ & _ & _ & _ & _ & ->). eauto.
  - destruct (CompleteProcessHandle _ _) as [[[]|] a1] eqn:E; apply CompleteProcessHandle_spec in E;
      simplify_eq; [|by eauto]. destruct E as (record & _ & _ & ->). eauto.
Qed.

Lemma calls_stay_consumed calls a id r :
  forallb (λ c, negb (settles id c)) calls = true →
  la_leases a !! id = Some r → lc_state r = LeaseConsumed →
  ∃ r', la_leases (then_calls calls a) !! id = Some r' ∧ lc_state r' = LeaseConsumed
    ∧ lc_lease r' = lc_lease r.
Proof.
  revert a r. induction calls as [|c calls IH]; intros a r Hns Hr Hs; [by eauto|].
  cbn in Hns. apply andb_true_iff in Hns as [Hc Hns]. apply negb_true_iff in Hc.
  destruct (perform a c) as [a' es] eqn:Ep.
  destruct (stays_consumed _ _ _ _ _ _ Ep Hc Hr Hs) as (r' & Hr' & Hs' & El).
  destruct (IH _ _ Hns Hr' Hs') as (r'' & Hr'' & Hs'' & El').
  exists r''. unfold then_calls. cbn. rewrite Ep. split; [done|]. split; [done|congruence].
Qed.

(** A brokered execution whose lease could not be consumed runs nothing and reports that
    error alone. Otherwise, whatever [fn] returns and whoever calls the authority while it runs, as long
    as nobody settles the lease meanwhile and [fn] leaves a status, the lease ends up settled
    with exactly the settlement that is returned, and the errors are those of [fn]. *)
Theorem run_settled_settles a lease validation reason now completedAt calls status why r :
  let fn := λ _ a, (mkSettlement status why (mkTime 0 0), r, then_calls calls a) in
  let '(settlement, errs, a') := RunSettled a lease validation reason now completedAt fn in
  match Consume a lease validation now with
  | (Err e, a1) => settlement = no_settlement ∧ errs = [e] ∧ a' = a1
  | (Ok _, _) =>
      status ≠ "" → IsZero completedAt = false →
      forallb (λ c, negb (settles (ls_id lease) c)) calls = true →
      settlement = mkSettlement status why completedAt ∧ errs = errors [r] ∧
      ∃ record, la_leases a' !! ls_id lease = Some record ∧ lc_state record = LeaseSettled ∧
        lc_settlement record = settlement
  end.
Proof.
  unfold RunSettled. destruct (Consume a lease validation now) as [[[]|e] a1] eqn:Ec; [|done].
  destruct (Settle _ _ _) as [settled a2] eqn:Es.
  intros Hstatus Hzero Hcalls. apply Consume_spec in Ec as (record & Ha & Hi & _ & _ & _ & ->).
  apply authentic_Ok in Ha as (Hid & Hn & Hr & En).
  destruct (calls_stay_consumed calls (put_lease (ls_id lease) (set_lc_state LeaseConsumed record) a)
    (ls_id lease) (set_lc_state LeaseConsumed record)) as (r' & Hr' & Hs' & El); [done| |done|].
  { cbn. by rewrite lookup_insert_eq. }
  assert (Ha' : authenticRecord (then_calls calls
    (put_lease (ls_id lease) (set_lc_state LeaseConsumed record) a)) lease = Ok r').
  { apply authentic_Ok. by rewrite El. }
  unfold Settle in Es. cbn [sm_Status sm_CompletedAt] in Es.
  rewrite (proj2 (String.eqb_neq _ _)), Hzero in Es by done. cbn [orb refuse mbind res_mbind res_bind] in Es.
  rewrite Ha', Hs' in Es. injection Es as <- <-.
  split; [done|]. split; [by destruct r|]. eexists. cbn. rewrite lookup_insert_eq. done.
Qed.

(** ** A concrete run *)

Definition value_or {A} (x : A) (r : res error A) : A := match r with Ok a => a | Err _ => x end.

Definition sample_built : res error ExecutionOperation :=
  BuildManagedProcessOperation
    (mkManagedProcessInput "call" "shell" (DigestString "/ws") 1
       (mkSubject "builtin" "shell" "builtin" (DigestString "shell") 1) "/bin/ls" None "/ws" None
       (ManagedProcessEffect RiskLow)
       (mkControls "" "" NetworkDenied ProcessTreeGroupKill "" "" "" "" "" "")).
Definition no_operation : ExecutionOperation :=
  mkExecutionOperation 0 "" "" "" 0 (mkSubject "" "" "" "" 0) (ManagedProcessEffect RiskLow)
    zero_controls None None None None None "".
Definition sample_operation : ExecutionOperation := Eval vm_compute in
  value_or no_operation sample_built.

Definition sample_ceiling : res error EffectivePermissionProfile :=
  BuildManagedProcessProfile
    (mkManagedProfileInput sample_operation 1 "/ws" false [] false [] 0 EnforcementStrong "bwrap"
       (mkControls "declared_roots" "exact_paths" NetworkDenied ProcessTreeGroupKill "isolated"
          "allowlist" "unix_only" "descriptor_relative" "unverified_path" "memory_only")).
Definition no_profile : EffectivePermissionProfile :=
  mkProfile 0 0 "" "" "" (mkFilesystemAuthority "" [] [] [] false) (mkNetworkAuthority [] 0 false)
    (mkProcessAuthority false false false "" "") zero_controls [] "".
Definition sample_profile : EffectivePermissionProfile := Eval vm_compute in
  value_or no_profile sample_ceiling.

Definition at_time (n : Z) : Time := mkTime n 0.
Definition sample_request : LeaseIssueRequest :=
  mkIssueRequest sample_operation sample_profile 7 "policy" 1 (at_time 100).
Definition sample_lease : ExecutionLease := leased sample_request "01" "02".
Definition sample_current : LeaseValidation :=
  mkLeaseValidation sample_operation 7 (DigestString "/ws") 1 (DigestString "shell") 1 "policy" "" 1.
Definition sample_handle_request : ProcessHandleRequest :=
  mkHandleRequest "session" "thread" "turn" "42" 1 [ProcessWait; ProcessObserve; ProcessWait].

Definition call1 : call := CIssue sample_request (at_time 1) (Ok [1]) (Ok [2]).
Definition call2 : call := CConsume sample_lease sample_current (at_time 2).
Definition call3 : call := CHandle sample_lease sample_handle_request (Ok [3]) (Ok [4]).
Definition call4 : call := CStart sample_lease (at_time 3) (Ok tt).
Definition state1 := (perform NewLeaseAuthority call1).1.
Definition state2 := (perform state1 call2).1.
Definition state3 := (perform state2 call3).1.
Definition state4 := (perform state3 call4).1.
Definition sample_handle : ProcessHandleCapability :=
  mkHandle "03" "04" "01" "session" "thread" "turn" (ls_operationDigest sample_lease) "42" 1
    [ProcessObserve; ProcessWait].

Definition trace3 : list event :=
  [EIssued sample_request sample_lease (at_time 1); EConsumed sample_lease sample_current (at_time 2);
   EHandle sample_lease sample_handle].

Lemma held_sample trace :
  holds (EIssued sample_request sample_lease (at_time 1) :: trace) sample_lease.
Proof. right. exists sample_request, (at_time 1). set_solver. Qed.

Lemma run3 : run state3 trace3.
Proof.
  change trace3 with (([] ++ [EIssued sample_request sample_lease (at_time 1)])
    ++ [EConsumed sample_lease sample_current (at_time 2)] ++ [EHandle sample_lease sample_handle]).
  rewrite app_assoc.
  apply (run_call state2 _ call3); [apply (run_call state1 _ call2); [apply (run_call NewLeaseAuthority _ call1)|..]|..].
  - constructor.
  - intros n _. set_solver.
  - vm_compute. reflexivity.
  - unfold legal, call2. apply held_sample.
  - vm_compute. reflexivity.
  - unfold legal, call3. split; [apply held_sample|]. intros n [= <-]. cbn. intros ?%list_elem_of_singleton. done.
  - vm_compute. reflexivity.
Qed.

Lemma run4 : run state4 (trace3 ++ [EStarted sample_lease (at_time 3)]).
Proof.
  apply (run_call state3 _ call4); [apply run3| |vm_compute; reflexivity].
  unfold legal, call4. apply held_sample.
Qed.

Theorem launch_is_authorized_witness :
  (∃ request t, EIssued request sample_lease t ∈ trace3) ∧ ∀ t, EStarted sample_lease t ∉ trace3.
Proof.
  destruct (launch_is_authorized state4 (trace3 ++ [EStarted sample_lease (at_time 3)]) trace3
    sample_lease (at_time 3) [] run4 eq_refl) as ((request & t & H & _) & _ & _ & _ & Hs).
  split; [by exists request, t|]. intros t'. by rewrite <-(app_nil_r trace3).
Defined.

Theorem handle_works_until_completed_witness :
  ValidateProcessHandle state3 sample_handle "session" "thread" "turn" "42" 1 ProcessWait = Ok tt ∧
  ECompleted sample_handle ∉ trace3.
Proof.
  assert (H : ECompleted sample_handle ∉ trace3) by (intros H; repeat (apply elem_of_cons in H as [H|H]; [done|]); by apply elem_of_nil in H).
  split; [|exact H].
  apply (proj1 (handle_works_until_completed state3 trace3 sample_lease sample_handle "session" "thread"
    "turn" "42" 1 ProcessWait run3 ltac:(do 2 right; left) ltac:(done) ltac:(done))).
  split; [exact H|]. repeat (split; [reflexivity|]). right. left.
Defined.

(** A handle is issued, the process launched and the lease wrongly revoked meanwhile. *)
Definition sample_settled : Settlement * list error * LeaseAuthority :=
  RunSettled state1 sample_lease sample_current "broker" (at_time 2) (at_time 9)
    (λ _ a, (mkSettlement "ok" "" (mkTime 0 0), Ok tt,
             then_calls [call3; call4; CRevoke sample_lease] a)).

Theorem run_settled_settles_witness :
  let '(settlement, errs, a') := sample_settled in
  settlement = mkSettlement "ok" "" (at_time 9) ∧ errs = [].
Proof.
  pose proof (run_settled_settles state1 sample_lease sample_current "broker" (at_time 2) (at_time 9)
    [call3; call4; CRevoke sample_lease] "ok" "" (Ok tt)) as H.
  cbv zeta in H. fold sample_settled in H.
  assert (Ec : is_ok (Consume state1 sample_lease sample_current (at_time 2)).1 = true)
    by (vm_compute; reflexivity).
  destruct sample_settled as [[s errs] a'].
  destruct (Consume state1 sample_lease sample_current (at_time 2)) as [[[]|e] a1]; [|discriminate Ec].
  destruct H as (Hs & He & _); [discriminate|reflexivity|vm_compute; reflexivity|].
  split; [exact Hs|exact He].
Defined.
