(* ===== verification/Compile.v ===== *)
(** From a decision to a ceiling ([security/authority/profile.go], [compile.go],
    [security/sandbox/policy.go]): the permission profile of an authorised invocation, from its assessed
    resources, the sandbox and the backend, and the controls it requires. The file system is a
    parameter. The authority itself is in [CompiledAuthority]. *)
From S2P Require Import Prelude.
From S2P Require Import GoStrings.
From S2P Require Import Sha256.
From S2P Require Import Json.
From S2P Require Import GoFloat.
From S2P Require Import Paths.
From S2P Require Import PathPattern.
From S2P Require Import Netpolicy.
From S2P Require Import SecurityModel.
From S2P Require Import Controls.
From S2P Require Import Commands.
From S2P Require Import Guardian.
From S2P Require Import Grants.
From S2P Require Import Policy.
From S2P Require Import ExecAuthority.
From S2P Require Import Operation.
From S2P Require Import Profile.

(** ** Paths on disk ([security/pathpolicy/pathpolicy.go], [operation.go]) *)

(** An error of [filepath.EvalSymlinks], and [errors.Is(err, os.ErrNotExist)]. *)
Record LookupError := mkLookupError { le_error : error; le_missing : bool }.

(** [os.Getwd], [filepath.EvalSymlinks], a regular file by [os.Stat], and what [os.Open] and
    [io.Copy] read. *)
Class Disk : Type := {
  working_directory : res error string;
  eval_symlinks : string → res LookupError string;
  regular_file : string → bool;
  read_file : string → option string;
}.

(** A slice of rules of a runtime, by its name in the provenance, is nil, which [json.Marshal]
    tells from an empty one. *)
Class NilRules : Type := nil_rules : string → bool.

Section disk.
Context `{Disk}.

(** [filepath.Abs]. *)
Definition abs_path (path : string) : res error string :=
  if is_abs path then Ok (clean path)
  else directory ← working_directory; Ok (path_join directory path).

(** The loop of [CanonicalAllowMissing] at the path of some segments, the last one first, with the
    segments below it that are missing. *)
Fixpoint canonical_from (rooted : bool) (segments missing : list string) : res error string :=
  match eval_symlinks (unsplit rooted (rev segments)) with
  | Ok resolved => Ok (clean (foldl path_join resolved missing))
  | Err e =>
      if negb (le_missing e) then Err (le_error e)
      else match segments with
           | [] => Err (le_error e)
           | segment :: segments => canonical_from rooted segments (segment :: missing)
           end
  end.

Definition CanonicalAllowMissing (path : string) : res error string :=
  canonical_from (is_abs path) (rev (clean_segments path)) [].

(** The digest of what a path names. *)
Definition fileIdentity (path : string) : string :=
  match eval_symlinks path with
  | Err _ => ""
  | Ok resolved =>
      if negb (regular_file resolved) then DigestString resolved
      else match read_file resolved with
           | Some content => DigestString content
           | None => ""
           end
  end.
End disk.

(** ** Digests of rules *)

Definition json_rule (r : Rule) : json :=
  JObj ([("tool", JStr (ru_Tool r))] ++ omit_str "resource" (ru_Resource r)
        ++ omit_str "command_prefix" (ru_CommandPrefix r) ++ omit_str "grant_key" (ru_GrantKey r)
        ++ [("action", JStr (ru_Action r))] ++ omit_str "code" (ru_Code r)).

(** [digestJSON] of a rule, and of the rules of a source. *)
Definition rule_digest (r : Rule) : string := digestValue (json_rule r).
Definition rules_digest `{NilRules} (source : string) (rules : list Rule) : string :=
  digestValue (if empty rules && nil_rules source then JNull else JArr (json_rule <$> rules)).

(** ** The sandbox ([security/sandbox/policy.go], [backend.go]) *)

(** [sandbox.Capability]. *)
Record Backend := mkBackend {
  cp_Backend : string;
  cp_Available : bool;
  cp_Effective : Controls;
  cp_ManagedProxy : bool;
}.

(** [sandbox.Policy], as far as a compilation or a command reads it. *)
Record SandboxPolicy := mkSandboxPolicy {
  sp_FullAccess : bool;
  sp_ID : string;
  sp_WorkspaceRoot : string;
  sp_RuntimeReadRoots : list string;
  sp_HostReadRoots : list string;
  sp_HostReadFiles : list string;
  sp_AllowNetwork : bool;
  sp_ManagedProxyPort : Z;
  sp_ManagedProxyCredential : string;
}.

Inductive NetworkReach := ReachNone | ReachLoopback | ReachTargets.
#[export] Instance NetworkReach_eq_dec : EqDecision NetworkReach.
Proof. solve_decision. Defined.

Definition backend_enforces (capability : Backend) (desired : string) : bool :=
  if (desired == NetworkProxyTargets) && cp_ManagedProxy capability then cp_Available capability
  else CanEnforceNetwork (ct_Network (cp_Effective capability)) desired.

Definition NetworkControl (capability : Backend) (policy : SandboxPolicy) (reach : NetworkReach)
    : string :=
  let desired :=
    match reach with
    | ReachNone => NetworkDenied
    | ReachLoopback => NetworkLoopbackAny
    | ReachTargets =>
        if negb (sp_ManagedProxyPort policy =? 0) then NetworkProxyTargets
        else if sp_AllowNetwork policy then NetworkDirect
        else NetworkDenied
    end in
  if backend_enforces capability desired then desired else ct_Network (cp_Effective capability).

Definition EffectiveControls (capability : Backend) (policy : SandboxPolicy) : Controls :=
  set_ct_Network (NetworkControl capability policy ReachTargets) (cp_Effective capability).

(** ** Inputs *)

Record PreparedInvocation := mkPrepared {
  pp_CallID : string;
  pp_Tool : string;
  pp_Arguments : string;
  pp_Assessment : Assessment;
  pp_Subject : Subject;
  pp_Required : Controls;
}.

Record CompileInput := mkCompileInput {
  ci_Runtime : option Runtime;
  ci_Invocation : Invocation;
  ci_Prepared : PreparedInvocation;
  ci_Decision : Decision;
  ci_Authorized : bool;
  ci_Revision : Z;
  ci_Enforcement : Enforcement;
  ci_Capability : Backend;
  ci_SandboxPolicy : SandboxPolicy;
  ci_WorkspaceID : string;
  ci_WorkspaceGeneration : Z;
}.

Definition assessedNetworkReach (f : Facets) : NetworkReach :=
  if fc_Network f then ReachTargets
  else if fc_LoopbackReach f then ReachLoopback
  else ReachNone.

(** [decoder.UseNumber] and [json.Marshal] again: members sorted, the last one of a name kept,
    numbers as they were written. *)
Fixpoint canonical_text (v : json) : json :=
  match v with
  | JArr l => JArr (map canonical_text l)
  | JObj members => JObj (map_members (map (λ '(k, v), (k, canonical_text v)) members))
  | v => v
  end.

(** [parse] does not tell a text that is no JSON from one with something after its value. *)
Definition canonicalJSONDigest (raw : string) : res error string :=
  match parse raw with
  | Some v => Ok (digestValue (canonical_text v))
  | None => Err (ErrText "operation arguments contain trailing data")
  end.

(** ** Controls *)

Definition requiredControls (declared : Controls) (f : Facets) (reach : NetworkReach) : Controls :=
  if negb (fc_StrongSandbox f) then declared else
  let network :=
    match reach with
    | ReachTargets => NetworkProxyTargets
    | ReachLoopback => NetworkLoopbackAny
    | ReachNone => NetworkDenied
    end in
  let writes := fc_WritesWorkspace f in
  mkControls (ct_FilesystemRead declared)
    (if writes then "exact_paths" else ct_FilesystemWrite declared) network
    (ct_ProcessTree declared) (ct_CrossProcess declared) (ct_Syscall declared) (ct_IPC declared)
    (if writes then "descriptor_relative" else ct_PathIdentity declared)
    (ct_ArtifactOrigin declared) (ct_DurableRecovery declared).

(** The controls of an execution on the host. *)
Definition host_required : Controls :=
  mkControls "unrestricted" "unrestricted" NetworkDirect ProcessTreeGroupKill "" "" ""
    "descriptor_relative" "" "".

(** ** The ceiling *)

(** The parts a compilation fills in. *)
Record Ceiling := mkCeiling {
  ce_Access : Access;
  ce_Filesystem : FilesystemAuthority;
  ce_Network : NetworkAuthority;
  ce_Process : ProcessAuthority;
  ce_Controls : Controls;
}.

Definition add_read (path : string) (f : FilesystemAuthority) : FilesystemAuthority :=
  mkFilesystemAuthority (fs_WorkspaceRoot f) (fs_ReadRoots f ++ [path]) (fs_WritePaths f)
    (fs_DeniedWriteRoots f) (fs_WorkspaceBaseWrite f).
Definition add_write (path : string) (f : FilesystemAuthority) : FilesystemAuthority :=
  mkFilesystemAuthority (fs_WorkspaceRoot f) (fs_ReadRoots f) (fs_WritePaths f ++ [path])
    (fs_DeniedWriteRoots f) (fs_WorkspaceBaseWrite f).
Definition open_base (f : FilesystemAuthority) : FilesystemAuthority :=
  mkFilesystemAuthority (fs_WorkspaceRoot f) (fs_ReadRoots f) (fs_WritePaths f)
    (fs_DeniedWriteRoots f) true.
Definition allow_process (p : ProcessAuthority) : ProcessAuthority :=
  mkProcessAuthority (pa_HostExecution p) (pa_FullAccess p) true (pa_Enforcement p) (pa_Backend p).

Section compile.
Context `{Disk, NilRules, UrlSyntax, Unicode, BashSyntax}.

Definition canonicalRoot (path : string) : string :=
  if blank path then "" else match CanonicalAllowMissing path with Ok canonical => canonical | Err _ => clean path end.

(** One turn of [compileResources]; [root] is the canonical workspace. *)
Definition compile_resource (root : string) (journaled : bool) (c : Ceiling) (r : Resource) : Ceiling :=
  let filesystem f := mkCeiling (ce_Access c) f (ce_Network c) (ce_Process c) (ce_Controls c) in
  let network n := mkCeiling (ce_Access c) (ce_Filesystem c) n (ce_Process c) (ce_Controls c) in
  match rs_Class r with
  | ClassPath =>
      if negb (Writes r) then filesystem (add_read (rs_Path r) (ce_Filesystem c))
      else if rs_Tree r && (root != "") && (canonicalRoot (rs_Path r) == root)
      then filesystem (open_base (ce_Filesystem c))
      else if negb (rs_Tree r) && journaled then filesystem (open_base (ce_Filesystem c))
      else filesystem (add_write (rs_Path r) (ce_Filesystem c))
  | ClassLoopback =>
      network (mkNetworkAuthority (na_Targets (ce_Network c)) (na_ProxyPort (ce_Network c)) true)
  | ClassNetwork =>
      match rs_Network r with
      | Some target =>
          network (mkNetworkAuthority (na_Targets (ce_Network c) ++ [Target_Key target])
                     (na_ProxyPort (ce_Network c)) (na_Loopback (ce_Network c)))
      | None => c
      end
  | ClassProcess =>
      mkCeiling (ce_Access c) (ce_Filesystem c) (ce_Network c) (allow_process (ce_Process c))
        (ce_Controls c)
  | _ => c
  end.

Definition compileResources (c : Ceiling) (i : Invocation) (resources : list Resource) : Ceiling :=
  let root := canonicalRoot (fs_WorkspaceRoot (ce_Filesystem c)) in
  let c := foldl (compile_resource root (in_Journaled i)) c resources in
  if (in_Capability i == CapabilityProcess) || (in_Capability i == CapabilityExternal)
     || fc_StrongSandbox (in_Facets i)
  then mkCeiling (ce_Access c) (ce_Filesystem c) (ce_Network c) (allow_process (ce_Process c))
         (ce_Controls c)
  else c.

Definition compileSandboxCeiling (c : Ceiling) (input : CompileInput) (reach : NetworkReach)
    : Ceiling :=
  let p := ce_Process c in
  if ci_Enforcement input == EnforcementNone then
    mkCeiling (ce_Access c) (ce_Filesystem c) (ce_Network c)
      (mkProcessAuthority (pa_HostExecution p) (pa_FullAccess p) (pa_Allowed p) (pa_Enforcement p) "none")
      unrestrictedControls
  else
    let policy := ci_SandboxPolicy input in
    let f := ce_Filesystem c in
    let n := ce_Network c in
    let network := NetworkControl (ci_Capability input) policy reach in
    mkCeiling (ce_Access c)
      (mkFilesystemAuthority (fs_WorkspaceRoot f)
         (fs_ReadRoots f ++ [sp_WorkspaceRoot policy] ++ sp_RuntimeReadRoots policy
          ++ sp_HostReadRoots policy ++ sp_HostReadFiles policy)
         (fs_WritePaths f)
         (fs_DeniedWriteRoots f ++ (path_join (sp_WorkspaceRoot policy) <$> controlPlaneNames))
         (fs_WorkspaceBaseWrite f))
      (mkNetworkAuthority (na_Targets n)
         (if network == NetworkProxyTargets then sp_ManagedProxyPort policy else na_ProxyPort n)
         (na_Loopback n))
      p (set_ct_Network network (ce_Controls c)).

(** The widening of an execution on the host. *)
Definition host_ceiling (c : Ceiling) (reach : NetworkReach) : res error Ceiling :=
  refuse (negb (bool_decide (reach = ReachNone)) || negb (empty (fs_WritePaths (ce_Filesystem c))))
    (ErrText "host execution cannot enforce scoped writes or network grants");;
  let f := ce_Filesystem c in
  let p := ce_Process c in
  let k := ce_Controls c in
  Ok (mkCeiling Write
        (mkFilesystemAuthority (fs_WorkspaceRoot f) ["/"] (fs_WritePaths f) [] true)
        (mkNetworkAuthority [] 0 false)
        (mkProcessAuthority true (pa_FullAccess p) true (pa_Enforcement p) (pa_Backend p))
        (mkControls (ct_FilesystemRead k) (ct_FilesystemWrite k) (ct_Network k) ProcessTreeGroupKill
           (ct_CrossProcess k) (ct_Syscall k) (ct_IPC k) "descriptor_relative" (ct_ArtifactOrigin k)
           (ct_DurableRecovery k))).

(** The widening of Full Access. *)
Definition full_ceiling (c : Ceiling) (reach : NetworkReach) : Ceiling :=
  let f := ce_Filesystem c in
  let p := ce_Process c in
  let k := ce_Controls c in
  let base := empty (fs_WritePaths f) in
  let none := bool_decide (reach = ReachNone) in
  mkCeiling Write
    (mkFilesystemAuthority (fs_WorkspaceRoot f) ["/"] (fs_WritePaths f) (fs_DeniedWriteRoots f) base)
    (if none then mkNetworkAuthority [] 0 false else ce_Network c)
    (mkProcessAuthority (pa_HostExecution p) true (pa_Allowed p) (pa_Enforcement p) (pa_Backend p))
    (mkControls "unrestricted" (if base then "unrestricted" else "exact_paths")
       (if none then NetworkDirect else ct_Network k) (ct_ProcessTree k) (ct_CrossProcess k)
       "unrestricted" PlatformFiltered (ct_PathIdentity k) (ct_ArtifactOrigin k)
       (ct_DurableRecovery k)).

Definition provenance (runtime : Runtime) (input : CompileInput) : list AuthoritySource :=
  let i := ci_Invocation input in
  [mkAuthoritySource "policy" "snapshot" "" (rt_Revision runtime);
   mkAuthoritySource "mode" (rt_Mode runtime) "" 0;
   mkAuthoritySource "permission" (rt_Permission runtime) "" 0;
   mkAuthoritySource "tool" (in_Tool i) "" 0;
   mkAuthoritySource "constitution" "rules" (rules_digest "constitution" (rt_Constitution runtime)) 0;
   mkAuthoritySource "managed" "rules" (rules_digest "managed" (rt_Grants runtime)) 0;
   mkAuthoritySource "user" "rules" (rules_digest "user" (rt_User runtime)) 0;
   mkAuthoritySource "repository" "rules" (rules_digest "repository" (rt_Repository runtime)) 0;
   mkAuthoritySource "authorization" (de_Action (ci_Decision input)) "" 0;
   mkAuthoritySource "decision_layer" (de_Layer (ci_Decision input)) "" 0;
   mkAuthoritySource "sandbox" (ci_Enforcement input) (sp_ID (ci_SandboxPolicy input)) 0]
  ++ match ManagedGrant runtime i with
     | Some grant => [mkAuthoritySource "grant" "managed" (rule_digest grant) 0]
     | None => []
     end
  ++ match GrantForInvocation i with
     | Some grant => [mkAuthoritySource "grant_key" (gr_Kind grant) (gr_Key grant) 0]
     | None => []
     end.

Definition compileProfile (runtime : Runtime) (input : CompileInput) (resources : list Resource)
    (reach : NetworkReach) : res error EffectivePermissionProfile :=
  let i := ci_Invocation input in
  let c :=
    mkCeiling (bd_Access (Binding (in_Assessment i)))
      (mkFilesystemAuthority (sp_WorkspaceRoot (ci_SandboxPolicy input)) [] [] [] false)
      (mkNetworkAuthority [] 0 false)
      (mkProcessAuthority false false false (ci_Enforcement input) (cp_Backend (ci_Capability input)))
      (EffectiveControls (ci_Capability input) (ci_SandboxPolicy input)) in
  let c := compileSandboxCeiling (compileResources c i resources) input reach in
  c ← (if fc_HostExecution (in_Facets i) then host_ceiling c reach else Ok c);
  let c := if fc_FullAccess (in_Facets i) then full_ceiling c reach else c in
  seal (mkProfile SchemaVersion (ci_Revision input) (in_Tool i) (in_Capability i) (ce_Access c)
    (ce_Filesystem c) (ce_Network c) (ce_Process c) (ce_Controls c) (provenance runtime input) "").
End compile.
