(* ===== verification/CompiledAuthority.v ===== *)
(** Compiled authorities ([security/authority/compile.go], [operation.go]): the ceiling, the required
    controls and the operation of an authorised call, in one pass over its assessed resources;
    evidence that comes later is bound to the operation, and an amended ceiling is put
    under it. *)
From stdpp Require Import gmap.
From S2P Require Import Prelude.
From S2P Require Import GoStrings.
From S2P Require Import Sha256.
From S2P Require Import Json.
From S2P Require Import Paths.
From S2P Require Import PathPattern.
From S2P Require Import Netpolicy.
From S2P Require Import SecurityModel.
From S2P Require Import Controls.
From S2P Require Import Commands.
From S2P Require Import Grants.
From S2P Require Import Policy.
From S2P Require Import ExecAuthority.
From S2P Require Import Operation.
From S2P Require Import Profile.
From S2P Require Import Compile.

(** ** From assessed resources to operation resources ([operation.go]) *)

Record OperationInput := mkOperationInput {
  oi_WorkspaceRoot : string;
  oi_WorkspaceID : string;
  oi_WorkspaceGeneration : Z;
  oi_Invocation : PreparedInvocation;
  oi_Effect : Effect;
  oi_Journaled : bool;
  oi_RequireReadBeforeWrite : bool;
  oi_Required : Controls;
  oi_Artifact : option ArtifactIntent;
  oi_FileMutationDigest : string;
  oi_HostReadRoots : list string;
}.

(** A root and a path below it. *)
Record RootBinding := mkRootBinding {
  rb_Namespace : ResourceNamespace;
  rb_RootID : string;
  rb_Generation : Z;
  rb_RelativePath : string;
}.

Definition unbound (namespace : ResourceNamespace) : RootBinding := mkRootBinding namespace "" 0 "".

Section operation.
Context `{Disk, Unicode}.

(** The longest of the roots, resolved, that holds the path; the first of the longest. *)
Definition host_root_step (path selected candidate : string) : string :=
  if blank candidate then selected
  else match CanonicalAllowMissing candidate with
       | Err _ => selected
       | Ok root =>
           if inside root path && (String.length selected <? String.length root)%nat then root
           else selected
       end.

Definition authorizedHostRoot (path : string) (roots : list string) : res error string :=
  let selected := foldl (host_root_step path) "" roots in
  refuse (selected == "") (ErrText "operation resource path is outside authorized namespaces");;
  Ok selected.

(** The place of a path, and the path with its links resolved. *)
Definition bind_path (workspaceRoot workspaceID : string) (generation : Z) (hostReadRoots : list string)
    (path : string) : res error (RootBinding * string) :=
  absolute ← match abs_path path with
             | Ok absolute => Ok absolute
             | Err e => Err (ErrWrap "resolve operation resource path: %w" [] e)
             end;
  canonical ← match CanonicalAllowMissing absolute with
              | Ok canonical => Ok canonical
              | Err e => Err (ErrWrap "canonicalize operation resource path: %w" [] e)
              end;
  match rel_inside workspaceRoot canonical with
  | Some relative =>
      Ok (mkRootBinding NamespaceWorkspace workspaceID generation (clean relative), canonical)
  | None =>
      hostRoot ← authorizedHostRoot canonical hostReadRoots;
      match rel_inside hostRoot canonical with
      | Some relative =>
          Ok (mkRootBinding NamespaceHostToolchain (DigestString hostRoot) 1 relative, canonical)
      | None => Err (ErrText ("Rel: can't make " +:+ canonical +:+ " relative to " +:+ hostRoot))
      end
  end.

Definition normalizeResource (workspaceRoot workspaceID : string) (generation : Z)
    (hostReadRoots : list string) (source : Resource) : res error OpResource :=
  let methods := uniqueSorted ((λ m, to_upper (trim_space m)) <$> default [] (rs_Methods source)) in
  let resource kind id binding identity protocol port :=
    mkOpResource (rb_Namespace binding) (rb_RootID binding) (rb_RelativePath binding)
      (rb_Generation binding) identity kind id (rs_Access source) (rs_Tree source) protocol port
      methods (rs_AllowPrivate source) in
  let kind := class_string (rs_Class source) in
  let id := trim_space (rs_ID source) in
  r ← match rs_Class source with
      | ClassLoopback =>
          Ok (resource kind LoopbackScope (unbound NamespaceNetwork) "" LoopbackProtocol 0)
      | ClassNetwork =>
          match rs_Network source with
          | Some target =>
              refuse ((tg_Scheme target == "") || (tg_Host target == ""))
                (ErrText "operation network target is invalid");;
              Ok (resource kind (Target_Key target) (unbound NamespaceNetwork) "" (tg_Scheme target)
                    (tg_Port target))
          | None => Err (ErrText "operation network target is invalid")
          end
      | ClassProcess => Ok (resource kind id (unbound NamespaceProcess) "" "" 0)
      | ClassAgent | ClassPlan | ClassSession => Ok (resource kind id (unbound NamespaceRuntime) "" "" 0)
      | ClassNamed => Ok (resource (rs_Name source) id (unbound NamespaceRuntime) "" "" 0)
      | ClassPath =>
          if blank (rs_Path source) then Ok (resource kind id (unbound NamespaceRuntime) "" "" 0)
          else
            '(binding, canonical) ←
              bind_path workspaceRoot workspaceID generation hostReadRoots (rs_Path source);
            Ok (resource kind id binding (fileIdentity canonical) "" 0)
      | ClassOther _ => Err (ErrText "operation resource class is invalid")
      end;
  validate_op_resource r;;
  Ok r.

(** What the resources say of the intents: targets, whether local ports are reached, files. *)
Definition intent_targets (resources : list OpResource) : list string :=
  or_ID <$> filter (λ r, (or_Namespace r == NamespaceNetwork)
                         && (or_Kind r != class_string ClassLoopback) = true) resources.
Definition intent_loopback (resources : list OpResource) : bool :=
  existsb (λ r, (or_Namespace r == NamespaceNetwork) && (or_Kind r == class_string ClassLoopback))
    resources.
Definition intent_files (resources : list OpResource) : list string :=
  resourceDigest <$> filter (λ r, bindsFilesystem r = true) resources.

Definition buildExecutionOperation (input : OperationInput) (sources : list Resource)
    : res error ExecutionOperation :=
  let i := oi_Invocation input in
  root ← match abs_path (oi_WorkspaceRoot input) with
         | Ok root => Ok (match eval_symlinks root with Ok resolved => resolved | Err _ => root end)
         | Err e => Err (ErrWrap "resolve operation workspace: %w" [] e)
         end;
  let id := if blank (oi_WorkspaceID input) then DigestString (clean root) else oi_WorkspaceID input in
  let generation :=
    if oi_WorkspaceGeneration input =? 0 then 1 else oi_WorkspaceGeneration input in
  normalized ← mapM (normalizeResource root id generation (oi_HostReadRoots input)) sources;
  let resources := normalizeResources normalized in
  let e := oi_Effect input in
  arguments ← match canonicalJSONDigest (pp_Arguments i) with
              | Ok digest => Ok digest
              | Err e => Err (ErrWrap "digest operation arguments: %w" [] e)
              end;
  let targets := intent_targets resources in
  let loopback := intent_loopback resources in
  let files := intent_files resources in
  let capability := bd_Capability (Binding (pp_Assessment i)) in
  finalize (mkExecutionOperation OperationSchemaVersion (pp_CallID i) (pp_Tool i) id generation
    (pp_Subject i)
    (mkEffectContract (ef_Kind e) (ef_Reversibility e) (ef_Risk e)
       (if oi_Journaled input then WorkspaceTransactionBeforeImage else WorkspaceTransactionNone)
       (oi_RequireReadBeforeWrite input))
    (oi_Required input) (Some resources)
    (if contains [CapabilityProcess; CapabilityExternal] capability
     then Some (mkProcessIntent "" "tool" (pp_Tool i) arguments) else None)
    (if negb (empty targets) || loopback then Some (mkNetworkIntent (uniqueSorted targets) loopback)
     else None)
    (if empty files then None
     else Some (mkFileIntent (uniqueSorted files) (oi_FileMutationDigest input)))
    (oi_Artifact input) "").
End operation.

(** ** Authorities ([compile.go]) *)

(** [au_hostPaths]: by key of a resource, where it was found; [au_hostRoots]: where the roots of the
    ceiling were found. *)
Record Authority := mkAuthority {
  au_Profile : EffectivePermissionProfile;
  au_Required : Controls;
  au_Operation : ExecutionOperation;
  au_hostPaths : gmap string string;
  au_hostRoots : gmap string string;
}.

Record Evidence := mkEvidence {
  ev_ProcessCommandDigest : string;
  ev_Artifact : option ArtifactIntent;
  ev_FileMutationDigest : string;
}.

Definition profileHostRoots (p : EffectivePermissionProfile) : list string :=
  fs_ReadRoots (pr_Filesystem p) ++ fs_WritePaths (pr_Filesystem p).

(** The prepared call is the decided one. *)
Definition prepared_matches (input : CompileInput) : bool :=
  let p := ci_Prepared input in
  let i := ci_Invocation input in
  (pp_Tool p == in_Tool i) && (pp_CallID p == in_CallID i) && (pp_Arguments p == in_Arguments i)
  && Same (pp_Assessment p) (in_Assessment i).

(** What an execution on the host requires. *)
Definition host_execution_guard (runtime : Runtime) (input : CompileInput) : res error unit :=
  let i := ci_Invocation input in
  let d := ci_Decision input in
  refuse (rt_DisableHostExecution runtime || (rt_Permission runtime == PermissionNever)
          || (sj_Kind (pp_Subject (ci_Prepared input)) != SubjectBuiltin)
          || (in_Capability i != CapabilityProcess) || (ci_Enforcement input != EnforcementNone)
          || fc_FullAccess (in_Facets i))
    (ErrText "host execution requires an authorized unsandboxed builtin process within the runtime permission ceiling");;
  refuse ((rt_Permission runtime != PermissionBypass)
          && ((de_Action d != ActionAsk) || (de_Approval d != ApprovalFreshOnce)))
    (ErrText "host execution requires a fresh command approval or Full Access").

(** The guards of [Compile], with the runtime they admit. *)
Definition compile_guards (input : CompileInput) : res error Runtime :=
  let i := ci_Invocation input in
  let d := ci_Decision input in
  match ci_Runtime input with
  | None => Err (ErrText "authorized validated policy input is required")
  | Some runtime =>
      require (in_Validated i && ci_Authorized input)
        (ErrText "authorized validated policy input is required");;
      refuse ((de_Action d == ActionDeny) || (de_Action d == ActionHold))
        (ErrText "denied invocation has no effective authority");;
      refuse ((ci_Revision input =? 0) || negb (Enforcement_Valid (ci_Enforcement input)))
        (ErrText "authority revision and enforcement are required");;
      require (prepared_matches input)
        (ErrText "prepared invocation does not match the policy invocation");;
      (if fc_HostExecution (in_Facets i) then host_execution_guard runtime input else Ok tt);;
      refuse (fc_FullAccess (in_Facets i)
              && ((rt_Permission runtime != PermissionBypass)
                  || (sj_Kind (pp_Subject (ci_Prepared input)) != SubjectBuiltin)
                  || (in_Capability i != CapabilityProcess)))
        (ErrText "full access requires a builtin process and Full Access permission");;
      Ok runtime
  end.

(** The controls the operation is to be enforced with. *)
Definition compiled_requirements (input : CompileInput) (p : EffectivePermissionProfile)
    (reach : NetworkReach) : Controls :=
  let f := in_Facets (ci_Invocation input) in
  let required := requiredControls (pp_Required (ci_Prepared input)) f reach in
  let required := if fc_HostExecution f then host_required else required in
  let c := pr_Controls p in
  if fc_FullAccess f then
    mkControls (ct_FilesystemRead c) (ct_FilesystemWrite c)
      (if bool_decide (reach = ReachNone) then ct_Network c else ct_Network required)
      (ct_ProcessTree required) (ct_CrossProcess required) (ct_Syscall required) (ct_IPC required)
      (ct_PathIdentity required) (ct_ArtifactOrigin required) (ct_DurableRecovery required)
  else required.

Definition with_op_parts (resources : option (list OpResource)) (required : Controls)
    (process : option ProcessIntent) (file : option FileIntent) (artifact : option ArtifactIntent)
    (o : ExecutionOperation) : ExecutionOperation :=
  mkExecutionOperation (op_SchemaVersion o) (op_ID o) (op_Tool o) (op_WorkspaceID o)
    (op_WorkspaceGeneration o) (op_Subject o) (op_Effect o) required resources process
    (op_Network o) file artifact (op_Digest o).

(** [append([]Resource(nil), l...)] of an empty slice is nil. *)
Definition copied {A} (l : option (list A)) : option (list A) :=
  match l with Some [] => None | l => l end.

(** Values are immutable here: what is left of [clone] is that an empty list of resources becomes
    nil. *)
Definition clone (o : ExecutionOperation) : ExecutionOperation :=
  with_op_parts (copied (op_Resources o)) (op_Required o) (op_Process o) (op_File o) (op_Artifact o) o.

Definition finalize_authority (a : Authority) : res error Authority :=
  o ← finalize (au_Operation a);
  Ok (mkAuthority (au_Profile a) (au_Required a) o (au_hostPaths a) (au_hostRoots a)).

Definition set_ct_ArtifactOrigin (origin : string) (c : Controls) : Controls :=
  mkControls (ct_FilesystemRead c) (ct_FilesystemWrite c) (ct_Network c) (ct_ProcessTree c)
    (ct_CrossProcess c) (ct_Syscall c) (ct_IPC c) (ct_PathIdentity c) origin (ct_DurableRecovery c).

Section authority.
Context `{Disk, NilRules, UrlSyntax, Unicode, BashSyntax}.

(** Where the resources outside the workspace are, by the first root with their digest. *)
Definition freeze_host (roots : gmap string string) (candidates : list string)
    (hosts : gmap string string) (item : OpResource) : res error (gmap string string) :=
  if or_Namespace item != NamespaceHostToolchain then Ok hosts else
  let key := resourceKey item in
  let hosts :=
    match list_find (λ c, (DigestString (roots !!! c) == or_RootID item) = true) candidates with
    | Some (_, c) => <[key := path_join (roots !!! c) (or_RelativePath item)]> hosts
    | None => hosts
    end in
  refuse (hosts !!! key == "") (ErrText "compiled host resource has no frozen root");;
  Ok hosts.

Definition freeze_roots (candidates : list string) : gmap string string :=
  foldl (λ roots c, <[c := Compile.canonicalRoot c]> roots) ∅ candidates.

Definition Compile (input : CompileInput) : res error Authority :=
  runtime ← compile_guards input;
  let i := ci_Invocation input in
  let policy := ci_SandboxPolicy input in
  let resources := in_Resources i in
  let reach := assessedNetworkReach (in_Facets i) in
  profile ← compileProfile runtime input resources reach;
  let required := compiled_requirements input profile reach in
  let candidates := profileHostRoots profile in
  let roots := freeze_roots candidates in
  operation ← buildExecutionOperation
    (mkOperationInput (sp_WorkspaceRoot policy) (ci_WorkspaceID input) (ci_WorkspaceGeneration input)
       (ci_Prepared input) (in_Effect i) (in_Journaled i) (in_Journaled i) required None "" candidates)
    resources;
  hosts ← foldM (freeze_host roots candidates) (resources_of operation) ∅;
  Ok (mkAuthority profile required operation hosts roots).

Definition Bind (a : Authority) (e : Evidence) : res error Authority :=
  validate_operation (au_Operation a);;
  let o := clone (au_Operation a) in
  process ←
    (if ev_ProcessCommandDigest e == "" then Ok (op_Process o)
     else match op_Process o with
          | Some p =>
              require (validDigest (ev_ProcessCommandDigest e))
                (ErrText "prepared command requires a process operation and a valid digest");;
              Ok (Some (mkProcessIntent (ev_ProcessCommandDigest e) (pi_Kind p) (pi_Tool p)
                          (pi_ArgumentsDigest p)))
          | None =>
              Err (ErrText "prepared command requires a process operation and a valid digest")
          end);
  file ←
    match op_File o with
    | Some f => Ok (Some (mkFileIntent (fi_ResourceDigests f) (ev_FileMutationDigest e)))
    | None =>
        refuse (ev_FileMutationDigest e != "") (ErrText "file evidence requires a file intent");;
        Ok None
    end;
  let required :=
    match ev_Artifact e with
    | Some _ => set_ct_ArtifactOrigin "broker_snapshot" (au_Required a)
    | None => au_Required a
    end in
  finalize_authority
    (mkAuthority (au_Profile a) required
       (with_op_parts (op_Resources o) required process file (ev_Artifact e) o)
       (au_hostPaths a) (au_hostRoots a)).

(** The longest absolute root of an amended ceiling that holds a path. *)
Definition amended_root_step (known : gmap string string) (path root candidate : string) : string :=
  let candidate := default candidate (known !! candidate) in
  if negb (is_abs candidate) || (clean candidate != candidate) then root
  else if inside candidate path && (String.length root <? String.length candidate)%nat
  then candidate else root.

(** One turn of the loop over the resources. *)
Definition rebind (a : Authority) (candidates : list string)
    (acc : list OpResource * gmap string string) (item : OpResource)
    : res error (list OpResource * gmap string string) :=
  let '(resources, hosts) := acc in
  if or_Namespace item != NamespaceHostToolchain then Ok (resources ++ [item], hosts) else
  match au_hostPaths a !! resourceKey item with
  | None => Err (ErrText "host resource has no frozen path")
  | Some path =>
      let root := foldl (amended_root_step (au_hostRoots a) path) "" candidates in
      refuse (root == "") (ErrText "frozen resource is outside amended host roots");;
      let item :=
        mkOpResource (or_Namespace item) (DigestString root) (default "" (rel_inside root path))
          (or_RootGeneration item) (or_FileIdentity item) (or_Kind item) (or_ID item)
          (or_Access item) (or_Tree item) (or_Protocol item) (or_Port item) (or_Methods item)
          (or_AllowPrivate item) in
      Ok (resources ++ [item], <[resourceKey item := path]> hosts)
  end.

(** Unlike [intent_files] it keeps credentials, which no compiled operation has. *)
Definition rebound_files (resources : list OpResource) : list string :=
  resourceDigest <$> filter (λ r,
    negb (contains [NamespaceNetwork; NamespaceProcess; NamespaceRuntime] (or_Namespace r)
          || ((or_Namespace r == NamespaceHostConfig) && (or_Kind r == "env"))) = true) resources.

Definition WithProfile (a : Authority) (p : EffectivePermissionProfile) : res error Authority :=
  validate_profile p;;
  require (pr_Tool p == pr_Tool (au_Profile a)) (ErrText "amended profile belongs to another tool");;
  validate_operation (au_Operation a);;
  let o := clone (au_Operation a) in
  '(items, hosts) ← foldM (rebind a (profileHostRoots p)) (resources_of o) ([], ∅);
  let resources := normalizeResources items in
  let file :=
    match op_File o with
    | Some f => Some (mkFileIntent (uniqueSorted (rebound_files resources)) (fi_MutationDigest f))
    | None => None
    end in
  finalize_authority
    (mkAuthority p (au_Required a)
       (with_op_parts (copied (Some resources)) (op_Required o) (op_Process o) file (op_Artifact o) o)
       hosts (au_hostRoots a)).
End authority.
