(* ===== verification/AuthorityLaws.v ===== *)
(** What a compiled authority grants: who it is compiled for, that its ceiling holds what the
    assessed resources declare, and that later evidence and amendments keep the call it
    was compiled for. *)
From stdpp Require Import gmap.
From S2P Require Import Prelude.
From S2P Require Import GoStrings.
From S2P Require Import Sha256.
From S2P Require Import Json.
From S2P Require Import Paths.
From S2P Require Import PathPattern.
From S2P Require Import Netpolicy.
From S2P Require Import SecurityModel.
From S2P Require Import Controls.
From S2P Require Import Commands.
From S2P Require Import Grants.
From S2P Require Import Policy.
From S2P Require Import ExecAuthority.
From S2P Require Import Operation.
From S2P Require Import Profile.
From S2P Require Import ProfileLaws.
From S2P Require Import Compile.
From S2P Require Import CompiledAuthority.

(** ** Guards *)

(** The call is decided, and the prepared call is the decided one. *)
Definition authorized (input : CompileInput) : Prop :=
  let i := ci_Invocation input in
  let p := ci_Prepared input in
  in_Validated i = true ∧ ci_Authorized input = true ∧
  de_Action (ci_Decision input) ≠ ActionDeny ∧ de_Action (ci_Decision input) ≠ ActionHold ∧
  pp_Tool p = in_Tool i ∧ pp_CallID p = in_CallID i ∧ pp_Arguments p = in_Arguments i ∧
  as_identity (pp_Assessment p) = as_identity (in_Assessment i).

(** A builtin process. *)
Definition builtin_process (input : CompileInput) : Prop :=
  sj_Kind (pp_Subject (ci_Prepared input)) = SubjectBuiltin ∧
  in_Capability (ci_Invocation input) = CapabilityProcess.

Definition host_execution_allowed (runtime : Runtime) (input : CompileInput) : Prop :=
  builtin_process input ∧ ci_Enforcement input = EnforcementNone ∧
  rt_DisableHostExecution runtime = false ∧ rt_Permission runtime ≠ PermissionNever ∧
  fc_FullAccess (in_Facets (ci_Invocation input)) = false ∧
  (rt_Permission runtime = PermissionBypass ∨
   de_Action (ci_Decision input) = ActionAsk ∧
   de_Approval (ci_Decision input) = ApprovalFreshOnce).

Ltac bools :=
  repeat match goal with
         | H : (_ || _) = false |- _ => apply orb_false_iff in H as [? ?]
         | H : (_ && _) = true |- _ => apply andb_true_iff in H as [? ?]
         | H : negb _ = false |- _ => apply negb_false_iff in H
         | H : negb _ = true |- _ => apply negb_true_iff in H
         | H : (_ == _) = true |- _ => apply String.eqb_eq in H
         | H : (_ == _) = false |- _ => apply String.eqb_neq in H
         end.

Lemma host_guard_allows runtime input u :
  host_execution_guard runtime input = Ok u → host_execution_allowed runtime input.
Proof.
  unfold host_execution_guard. intros ([] & H1%refuse_Ok & H2%refuse_Ok)%bind_Ok. bools.
  unfold host_execution_allowed, builtin_process. repeat (split; [done|]).
  apply andb_false_iff in H2 as [H2|H2]; [left; by bools|right]. by bools.
Qed.

Lemma guards_admit input runtime :
  compile_guards input = Ok runtime →
  ci_Runtime input = Some runtime ∧ authorized input ∧
  (fc_HostExecution (in_Facets (ci_Invocation input)) = true → host_execution_allowed runtime input) ∧
  (fc_FullAccess (in_Facets (ci_Invocation input)) = true →
   builtin_process input ∧ rt_Permission runtime = PermissionBypass) ∧
  Enforcement_Valid (ci_Enforcement input) = true.
Proof.
  unfold compile_guards. destruct (ci_Runtime input) as [r|]; [|done].
  intros ([] & H1%require_Ok & ([] & H2%refuse_Ok & ([] & H3%refuse_Ok & ([] & H4%require_Ok
    & ([] & H5 & ([] & H6%refuse_Ok & [= <-])%bind_Ok)%bind_Ok)%bind_Ok)%bind_Ok)%bind_Ok)%bind_Ok.
  unfold prepared_matches, Same in H4. bools. split; [done|]. split.
  { unfold authorized. by repeat (split; [done|]). }
  split; [|split; [|done]].
  - intros Hh. rewrite Hh in H5. by apply host_guard_allows in H5.
  - intros Hf. rewrite Hf in H6. cbn in H6. bools. done.
Qed.

Lemma full_access_is_sandboxed p :
  validate_profile p = Ok tt → pa_FullAccess (pr_Process p) = true →
  pa_Enforcement (pr_Process p) = EnforcementStrong.
Proof.
  unfold validate_profile. intros (_ & _ & (_ & _ & (_ & _ & ([] & Hw & _)%bind_Ok)%bind_Ok)%bind_Ok)%bind_Ok Hf.
  rewrite Hf in Hw. cbn [orb] in Hw. unfold wrapped in Hw.
  destruct (validate_authority _) as [[]|] eqn:Hv; [|done]. unfold validate_authority in Hv.
  apply bind_Ok in Hv as (_ & _ & (_ & _ & (_ & _ & ([] & Hc & _)%bind_Ok)%bind_Ok)%bind_Ok).
  cbn in Hc. rewrite Hf in Hc. apply bind_Ok in Hc as ([] & Hc%refuse_Ok & _). by bools.
Qed.

(** ** What the resources declare *)

Section declared.
Context `{Disk, NilRules, UrlSyntax, Unicode, BashSyntax}.

Definition is_path (r : Resource) : bool := bool_decide (rs_Class r = ClassPath).

(** A write that opens the workspace: to the workspace itself as a tree, or to one file the
    journal records. *)
Definition opens_workspace (root : string) (journaled : bool) (r : Resource) : bool :=
  is_path r && Writes r
  && (if rs_Tree r then (root != "") && (Compile.canonicalRoot (rs_Path r) == root) else journaled).

(** Any other write, which is a path of its own. *)
Definition exact_write (root : string) (journaled : bool) (r : Resource) : bool :=
  is_path r && Writes r && negb (opens_workspace root journaled r).

Definition network_key (r : Resource) : option string :=
  if bool_decide (rs_Class r = ClassNetwork) then Target_Key <$> rs_Network r else None.

Definition is_loopback (r : Resource) : bool := bool_decide (rs_Class r = ClassLoopback).
Definition is_process (r : Resource) : bool := bool_decide (rs_Class r = ClassProcess).

(** The ceiling widened by some resources, in one step. *)
Definition widened_by (root : string) (journaled : bool) (resources : list Resource) (c : Ceiling)
    : Ceiling :=
  let f := ce_Filesystem c in
  let n := ce_Network c in
  let p := ce_Process c in
  mkCeiling (ce_Access c)
    (mkFilesystemAuthority (fs_WorkspaceRoot f)
       (fs_ReadRoots f ++ (rs_Path <$> filter (λ r, is_path r && negb (Writes r) = true) resources))
       (fs_WritePaths f ++ (rs_Path <$> filter (λ r, exact_write root journaled r = true) resources))
       (fs_DeniedWriteRoots f)
       (fs_WorkspaceBaseWrite f || existsb (opens_workspace root journaled) resources))
    (mkNetworkAuthority (na_Targets n ++ omap network_key resources) (na_ProxyPort n)
       (na_Loopback n || existsb is_loopback resources))
    (mkProcessAuthority (pa_HostExecution p) (pa_FullAccess p)
       (pa_Allowed p || existsb is_process resources) (pa_Enforcement p) (pa_Backend p))
    (ce_Controls c).

Lemma widened_by_app root j l1 l2 c :
  widened_by root j (l1 ++ l2) c = widened_by root j l2 (widened_by root j l1 c).
Proof.
  unfold widened_by. cbn. by rewrite !filter_app, !fmap_app, omap_app, !existsb_app, !app_assoc, !orb_assoc.
Qed.

Lemma compile_resource_widens root j c r :
  compile_resource root j c r = widened_by root j [r] c.
Proof.
  destruct c as [acc [wr rd ww dn bw] [tg pp lb] [he fa al en bk] k].
  unfold compile_resource, widened_by.
  cbn [existsb omap list_omap ce_Access ce_Filesystem ce_Network ce_Process ce_Controls fs_WorkspaceRoot
       fs_ReadRoots fs_WritePaths fs_DeniedWriteRoots fs_WorkspaceBaseWrite na_Targets na_ProxyPort
       na_Loopback pa_HostExecution pa_FullAccess pa_Allowed pa_Enforcement pa_Backend].
  rewrite !filter_cons, !filter_nil.
  unfold exact_write, opens_workspace, network_key, is_path, is_loopback, is_process.
  destruct (rs_Class r); cbn; rewrite ?app_nil_r, ?orb_false_r, ?orb_true_r; try done.
  - destruct (Writes r), (rs_Tree r), (root == ""), (_ == root), j; cbn;
      by rewrite ?app_nil_r, ?orb_false_r, ?orb_true_r.
  - destruct (rs_Network r); cbn; by rewrite ?app_nil_r.
Qed.

Lemma widened_by_nil root j c : widened_by root j [] c = c.
Proof.
  destruct c as [acc [] [] [] k]. unfold widened_by. cbn. by rewrite !app_nil_r, !orb_false_r.
Qed.

Lemma compile_loop root j resources c :
  foldl (compile_resource root j) c resources = widened_by root j resources c.
Proof.
  revert c. induction resources as [|r resources IH]; intros c; cbn [foldl].
  { by rewrite widened_by_nil. }
  by rewrite IH, compile_resource_widens, <-widened_by_app.
Qed.

(** The capability alone runs a process. *)
Definition runs (i : Invocation) : bool :=
  (in_Capability i == CapabilityProcess) || (in_Capability i == CapabilityExternal)
  || fc_StrongSandbox (in_Facets i).

Definition direct (f : Facets) : bool :=
  fc_HostExecution f || (fc_FullAccess f && bool_decide (assessedNetworkReach f = ReachNone)).

Definition base_ceiling (input : CompileInput) : Ceiling :=
  mkCeiling (bd_Access (Binding (in_Assessment (ci_Invocation input))))
    (mkFilesystemAuthority (sp_WorkspaceRoot (ci_SandboxPolicy input)) [] [] [] false)
    (mkNetworkAuthority [] 0 false)
    (mkProcessAuthority false false false (ci_Enforcement input) (cp_Backend (ci_Capability input)))
    (EffectiveControls (ci_Capability input) (ci_SandboxPolicy input)).

Lemma compileResources_widens c i resources :
  compileResources c i resources =
  let c' := widened_by (Compile.canonicalRoot (fs_WorkspaceRoot (ce_Filesystem c))) (in_Journaled i)
              resources c in
  if runs i then mkCeiling (ce_Access c') (ce_Filesystem c') (ce_Network c')
                   (allow_process (ce_Process c')) (ce_Controls c')
  else c'.
Proof. unfold compileResources, runs. by rewrite compile_loop. Qed.

(** What the assessed resources of a call declare. *)
Definition declared_writes (input : CompileInput) : list string :=
  rs_Path <$> filter (λ r, exact_write
    (Compile.canonicalRoot (sp_WorkspaceRoot (ci_SandboxPolicy input)))
    (in_Journaled (ci_Invocation input)) r = true) (in_Resources (ci_Invocation input)).
Definition declares_workspace (input : CompileInput) : bool :=
  existsb (opens_workspace (Compile.canonicalRoot (sp_WorkspaceRoot (ci_SandboxPolicy input)))
             (in_Journaled (ci_Invocation input))) (in_Resources (ci_Invocation input)).
Definition declared_targets (input : CompileInput) : list string :=
  omap network_key (in_Resources (ci_Invocation input)).
Definition declares_loopback (input : CompileInput) : bool :=
  existsb is_loopback (in_Resources (ci_Invocation input)).
Definition declares_process (input : CompileInput) : bool :=
  runs (ci_Invocation input) || existsb is_process (in_Resources (ci_Invocation input)).
Definition protected_roots (input : CompileInput) : list string :=
  path_join (sp_WorkspaceRoot (ci_SandboxPolicy input)) <$> controlPlaneNames.

(** A ceiling against the call it was compiled from. Direct network access, of an execution on the
    host or one with Full Access and no declared reach, lists no targets. *)
Record declared_by (input : CompileInput) (p : EffectivePermissionProfile) : Prop := {
  db_call : pr_Tool p = in_Tool (ci_Invocation input)
            ∧ pr_Capability p = in_Capability (ci_Invocation input)
            ∧ pr_Revision p = ci_Revision input ∧ pa_Enforcement (pr_Process p) = ci_Enforcement input;
  db_host : pa_HostExecution (pr_Process p) = fc_HostExecution (in_Facets (ci_Invocation input));
  db_full : pa_FullAccess (pr_Process p) = fc_FullAccess (in_Facets (ci_Invocation input));
  db_allowed : pa_Allowed (pr_Process p)
    = fc_HostExecution (in_Facets (ci_Invocation input)) || declares_process input;
  db_writes : fs_WritePaths (pr_Filesystem p) = uniqueSorted (declared_writes input);
  db_base : fs_WorkspaceBaseWrite (pr_Filesystem p)
    = if fc_FullAccess (in_Facets (ci_Invocation input)) then empty (declared_writes input)
      else fc_HostExecution (in_Facets (ci_Invocation input)) || declares_workspace input;
  db_denied : fs_DeniedWriteRoots (pr_Filesystem p)
    = if fc_HostExecution (in_Facets (ci_Invocation input)) || (ci_Enforcement input == EnforcementNone)
      then [] else uniqueSorted (protected_roots input);
  db_targets : na_Targets (pr_Network p)
    = if direct (in_Facets (ci_Invocation input)) then [] else uniqueSorted (declared_targets input);
  db_loopback : na_Loopback (pr_Network p)
    = negb (direct (in_Facets (ci_Invocation input))) && declares_loopback input;
}.

(** The ceiling before the widenings of the host and of Full Access. *)
Definition sandbox_ceiling (input : CompileInput) : Ceiling :=
  let i := ci_Invocation input in
  compileSandboxCeiling (compileResources (base_ceiling input) i (in_Resources i)) input
    (assessedNetworkReach (in_Facets i)).

(** The part of a ceiling that is compared with what is declared. *)
Definition granted (c : Ceiling) :=
  (pa_HostExecution (ce_Process c), pa_FullAccess (ce_Process c), pa_Enforcement (ce_Process c),
   pa_Allowed (ce_Process c),
   fs_WritePaths (ce_Filesystem c), fs_WorkspaceBaseWrite (ce_Filesystem c),
   fs_DeniedWriteRoots (ce_Filesystem c), (na_Targets (ce_Network c), na_Loopback (ce_Network c))).

Lemma sandbox_ceiling_grants input :
  granted (sandbox_ceiling input) =
  (false, false, ci_Enforcement input, declares_process input, declared_writes input,
   declares_workspace input,
   (if ci_Enforcement input == EnforcementNone then [] else protected_roots input),
   (declared_targets input, declares_loopback input)).
Proof.
  unfold sandbox_ceiling. rewrite compileResources_widens. unfold compileSandboxCeiling.
  unfold declares_process.
  destruct (ci_Enforcement input == EnforcementNone), (runs (ci_Invocation input)); done.
Qed.

Lemma host_ceiling_grants c reach c' :
  host_ceiling c reach = Ok c' →
  reach = ReachNone ∧ fs_WritePaths (ce_Filesystem c) = [] ∧
  granted c' = (true, pa_FullAccess (ce_Process c), pa_Enforcement (ce_Process c), true, [], true, [],
                ([], false)).
Proof.
  unfold host_ceiling. intros ([] & Hr%refuse_Ok & [= <-])%bind_Ok. bools.
  case_bool_decide; [|done]. destruct (fs_WritePaths (ce_Filesystem c)) eqn:E; [|done].
  split; [done|]. done.
Qed.

Lemma full_ceiling_grants c reach :
  granted (full_ceiling c reach) =
  (pa_HostExecution (ce_Process c), true, pa_Enforcement (ce_Process c), pa_Allowed (ce_Process c),
   fs_WritePaths (ce_Filesystem c), empty (fs_WritePaths (ce_Filesystem c)),
   fs_DeniedWriteRoots (ce_Filesystem c),
   if bool_decide (reach = ReachNone) then ([], false)
   else (na_Targets (ce_Network c), na_Loopback (ce_Network c))).
Proof. unfold granted, full_ceiling. by case_bool_decide. Qed.

Lemma compiled_from runtime input p :
  compileProfile runtime input (in_Resources (ci_Invocation input))
    (assessedNetworkReach (in_Facets (ci_Invocation input))) = Ok p →
  validate_profile p = Ok tt ∧
  let i := ci_Invocation input in
  let reach := assessedNetworkReach (in_Facets i) in
  ∃ c sources digest,
    (if fc_HostExecution (in_Facets i) then host_ceiling (sandbox_ceiling input) reach
     else Ok (sandbox_ceiling input)) = Ok c ∧
    let c := if fc_FullAccess (in_Facets i) then full_ceiling c reach else c in
    p = with_profile_digest digest (normalize
      (mkProfile SchemaVersion (ci_Revision input) (in_Tool i) (in_Capability i) (ce_Access c)
         (ce_Filesystem c) (ce_Network c) (ce_Process c) (ce_Controls c) sources "")).
Proof.
  unfold compileProfile. fold (base_ceiling input). fold (sandbox_ceiling input).
  intros (c & Hc & (Hv & ->)%seal_Ok)%bind_Ok. split; [done|].
  exists c, (provenance runtime input). by eexists.
Qed.

Lemma compiled_ceiling_declared runtime input p :
  compileProfile runtime input (in_Resources (ci_Invocation input))
    (assessedNetworkReach (in_Facets (ci_Invocation input))) = Ok p →
  validate_profile p = Ok tt ∧ declared_by input p.
Proof.
  intros (Hv & c & sources & digest & Hc & ->)%compiled_from. split; [done|]. clear Hv.
  set (i := ci_Invocation input) in *. set (f := in_Facets i) in *.
  assert (granted (if fc_FullAccess f then full_ceiling c (assessedNetworkReach f) else c) =
    (fc_HostExecution f, fc_FullAccess f, ci_Enforcement input,
     fc_HostExecution f || declares_process input, declared_writes input,
     (if fc_FullAccess f then empty (declared_writes input)
      else fc_HostExecution f || declares_workspace input),
     (if fc_HostExecution f || (ci_Enforcement input == EnforcementNone) then []
      else protected_roots input),
     if direct f then ([], false) else (declared_targets input, declares_loopback input))) as Hg.
  { pose proof (sandbox_ceiling_grants input) as Hs. unfold direct.
    destruct (fc_HostExecution f); [apply host_ceiling_grants in Hc as (Hr & Hw & Hc)|injection Hc as <-].
    - rewrite Hr. unfold granted in Hs. injection Hs as Hh Hf He Ha Hw' _ _ _ _.
      rewrite Hw' in Hw. rewrite Hw. rewrite Hf, He in Hc.
      destruct (fc_FullAccess f); [|done]. rewrite full_ceiling_grants.
      unfold granted in Hc. injection Hc as -> _ -> -> -> _ -> _ _. done.
    - cbn [orb]. destruct (fc_FullAccess f); cbn [andb]; [|done]. rewrite full_ceiling_grants.
      unfold granted in Hs. injection Hs as -> _ -> -> -> _ -> -> ->. done. }
  revert Hg. generalize (if fc_FullAccess f then full_ceiling c (assessedNetworkReach f) else c).
  clear c Hc. intros c Hg. unfold granted in Hg. injection Hg as Hh Hf He Ha Hw Hb Hd Hn.
  constructor; fold i; fold f;
    cbn [with_profile_digest normalize pr_Tool pr_Capability pr_Revision pr_Process pr_Filesystem
         pr_Network fs_WritePaths fs_WorkspaceBaseWrite fs_DeniedWriteRoots na_Targets na_Loopback];
    rewrite ?Hh, ?Hf, ?Ha, ?Hw, ?Hb, ?Hd; try done.
  - destruct (fc_HostExecution f), (ci_Enforcement input == EnforcementNone); cbn [orb]; reflexivity.
  - destruct (direct f); injection Hn as Hn1 Hn2; by rewrite Hn1.
  - destruct (direct f); injection Hn as Hn1 Hn2; by rewrite Hn2.
Qed.

(** The controls of a sandboxed ceiling, and its port of the proxy. *)
Definition sandbox_controls (input : CompileInput) : Controls :=
  set_ct_Network (NetworkControl (ci_Capability input) (ci_SandboxPolicy input)
                    (assessedNetworkReach (in_Facets (ci_Invocation input))))
    (cp_Effective (ci_Capability input)).

Lemma sandbox_ceiling_controls input :
  ci_Enforcement input = EnforcementStrong →
  let c := sandbox_ceiling input in
  ce_Controls c = sandbox_controls input ∧
  fs_WorkspaceRoot (ce_Filesystem c) = sp_WorkspaceRoot (ci_SandboxPolicy input) ∧
  na_ProxyPort (ce_Network c) =
    if ct_Network (sandbox_controls input) == NetworkProxyTargets
    then sp_ManagedProxyPort (ci_SandboxPolicy input) else 0.
Proof.
  intros He. unfold sandbox_ceiling. rewrite compileResources_widens. unfold compileSandboxCeiling.
  rewrite He. change (EnforcementStrong == EnforcementNone) with false. cbv iota zeta.
  by destruct (runs (ci_Invocation input)).
Qed.

(** With Full Access the controls are widened, and the network is direct without a reach. *)
Definition full_controls (reach : NetworkReach) (base : bool) (k : Controls) : Controls :=
  mkControls "unrestricted" (if base then "unrestricted" else "exact_paths")
    (if bool_decide (reach = ReachNone) then NetworkDirect else ct_Network k) (ct_ProcessTree k)
    (ct_CrossProcess k) "unrestricted" PlatformFiltered (ct_PathIdentity k) (ct_ArtifactOrigin k)
    (ct_DurableRecovery k).

Lemma compiled_controls runtime input p :
  compileProfile runtime input (in_Resources (ci_Invocation input))
    (assessedNetworkReach (in_Facets (ci_Invocation input))) = Ok p →
  ci_Enforcement input = EnforcementStrong → fc_HostExecution (in_Facets (ci_Invocation input)) = false →
  let f := in_Facets (ci_Invocation input) in
  let k := sandbox_controls input in
  pr_Controls p = (if fc_FullAccess f
                   then full_controls (assessedNetworkReach f) (empty (declared_writes input)) k else k) ∧
  na_ProxyPort (pr_Network p) =
    (if direct f then 0
     else if ct_Network k == NetworkProxyTargets then sp_ManagedProxyPort (ci_SandboxPolicy input) else 0).
Proof.
  intros (_ & c & sources & digest & Hc & ->)%compiled_from He Hh. rewrite Hh in Hc. injection Hc as <-.
  pose proof (sandbox_ceiling_controls input He) as (Hk & _ & Hp).
  pose proof (sandbox_ceiling_grants input) as Hg. unfold granted in Hg.
  injection Hg as _ _ _ _ Hw _ _ _ _. unfold direct. rewrite Hh.
  cbn [with_profile_digest normalize pr_Controls pr_Network na_ProxyPort orb].
  destruct (fc_FullAccess _); cbn [andb]; [|done]. unfold full_ceiling, full_controls. rewrite <-Hw, Hk.
  cbn [ce_Controls ce_Network]. split; [done|]. by case_bool_decide.
Qed.

(** ** Compilations *)

Lemma Compile_Ok input a :
  Compile input = Ok a →
  ∃ runtime,
    compile_guards input = Ok runtime ∧
    compileProfile runtime input (in_Resources (ci_Invocation input))
      (assessedNetworkReach (in_Facets (ci_Invocation input))) = Ok (au_Profile a) ∧
    let i := ci_Invocation input in
    let candidates := profileHostRoots (au_Profile a) in
    buildExecutionOperation
      (mkOperationInput (sp_WorkspaceRoot (ci_SandboxPolicy input)) (ci_WorkspaceID input)
         (ci_WorkspaceGeneration input) (ci_Prepared input) (in_Effect i) (in_Journaled i)
         (in_Journaled i) (au_Required a) None "" candidates) (in_Resources i)
      = Ok (au_Operation a) ∧
    foldM (freeze_host (au_hostRoots a) candidates) (resources_of (au_Operation a)) ∅
      = Ok (au_hostPaths a).
Proof.
  unfold Compile. intros (runtime & Hg & (p & Hp & (o & Ho & (hosts & Hh & Ha)%bind_Ok)%bind_Ok)%bind_Ok)%bind_Ok.
  apply Ok_inj in Ha as <-. by exists runtime.
Qed.

(** C33: Compiling an authority succeeds only for a validated call that was authorised and not
    denied or held, with the tool, call, arguments and assessment that were decided. It runs
    on the host, or with Full Access, only if the assessment says so: on the host a builtin
    process without a sandbox, where the runtime does not exclude it and grants it for good or a
    fresh approval of this command does; with Full Access a builtin process in a sandbox, under
    the permission of that name. *)
Theorem authority_needs_authorization input a :
  Compile input = Ok a →
  ∃ runtime, ci_Runtime input = Some runtime ∧ authorized input ∧
    let p := pr_Process (au_Profile a) in
    pa_Enforcement p = ci_Enforcement input ∧
    (pa_HostExecution p = true → host_execution_allowed runtime input) ∧
    (pa_FullAccess p = true →
     builtin_process input ∧ rt_Permission runtime = PermissionBypass ∧
     ci_Enforcement input = EnforcementStrong ∧ pa_HostExecution p = false).
Proof.
  intros (runtime & (Hr & Ha & Hh & Hf & _)%guards_admit & (Hv & Hd)%compiled_ceiling_declared & _)%Compile_Ok.
  exists runtime. split; [done|]. split; [done|]. cbn.
  destruct (db_call _ _ Hd) as (_ & _ & _ & He). rewrite (db_host _ _ Hd), (db_full _ _ Hd).
  split; [done|]. split; [done|]. intros Hfull. destruct (Hf Hfull) as [Hb Hp].
  split; [done|]. split; [done|].
  assert (ci_Enforcement input = EnforcementStrong) as Hs.
  { rewrite <-He. apply full_access_is_sandboxed; [done|]. by rewrite (db_full _ _ Hd). }
  split; [done|]. apply not_true_iff_false. intros (_ & Hn & _)%Hh. by rewrite Hs in Hn.
Qed.

(** C34: The ceiling of a compiled authority holds what the assessed resources declare, no more and
    no less: the write paths are those of the declared writes that do not open the workspace,
    the workspace is open only if a declared write opens it, processes run and local ports and
    targets are reached only if declared, and in a sandbox the control directories of the
    workspace are denied. The exceptions are an execution on the host and Full Access, whose
    network is direct unless a reach is declared. *)
Theorem ceiling_is_declared input a :
  Compile input = Ok a →
  validate_profile (au_Profile a) = Ok tt ∧ declared_by input (au_Profile a) ∧
  (direct (in_Facets (ci_Invocation input)) = false →
   ∀ target, target ∈ na_Targets (pr_Network (au_Profile a)) ↔
     target ≠ "" ∧ ∃ r n, r ∈ in_Resources (ci_Invocation input) ∧ rs_Class r = ClassNetwork ∧
       rs_Network r = Some n ∧ target = trim_space (Target_Key n)).
Proof.
  intros (runtime & _ & (Hv & Hd)%compiled_ceiling_declared & _)%Compile_Ok.
  split; [done|]. split; [done|]. intros Hn target. rewrite (db_targets _ _ Hd), Hn.
  rewrite elem_of_uniqueSorted. apply and_iff_compat_l. unfold declared_targets, network_key.
  setoid_rewrite list_elem_of_omap. split.
  - intros (y & (r & Hr & Hk) & ->). case_bool_decide; [|done].
    destruct (rs_Network r) as [n|] eqn:En; [|done]. injection Hk as <-. eauto 10.
  - intros (r & n & Hr & Hc & En & ->). exists (Target_Key n). split; [|done].
    exists r. split; [done|]. rewrite bool_decide_true by done. by rewrite En.
Qed.
End declared.

(** ** What is bound later *)

Lemma finalize_Ok o o' :
  finalize o = Ok o' → validate_operation o' = Ok tt ∧ o' = with_digest (operationDigest o) o.
Proof. unfold finalize. intros ([] & Hv & [= <-])%bind_Ok. done. Qed.

Lemma elem_of_keep_first last l r : r ∈ keep_first last l → r ∈ l.
Proof.
  revert last. induction l as [|x l IH]; intros last; [done|]. cbn. case_bool_decide; set_solver.
Qed.

Lemma elem_of_normalizeResources l r : r ∈ normalizeResources l → r ∈ l.
Proof. intros Hr%elem_of_keep_first. by rewrite merge_sort_Permutation in Hr. Qed.

Definition present {A} (o : option A) : bool := match o with Some _ => true | None => false end.

(** The call an operation is for: everything but the places of its resources, its required controls
    and the evidence. *)
Definition call_of (o : ExecutionOperation) :=
  (op_ID o, op_Tool o, (op_WorkspaceID o, op_WorkspaceGeneration o), op_Subject o, op_Effect o,
   op_Network o, (λ p, (pi_Kind p, pi_Tool p, pi_ArgumentsDigest p)) <$> op_Process o,
   present (op_File o)).

(** A resource but for its root and its path below it. *)
Definition unplaced (r : OpResource) : OpResource :=
  mkOpResource (or_Namespace r) "" "" (or_RootGeneration r) (or_FileIdentity r) (or_Kind r) (or_ID r)
    (or_Access r) (or_Tree r) (or_Protocol r) (or_Port r) (or_Methods r) (or_AllowPrivate r).

Definition on_host (r : OpResource) : Prop := or_Namespace r = NamespaceHostToolchain.

(** Each resource is one of the first operation, moved at most to another root of the host. *)
Definition same_resources (o o' : ExecutionOperation) : Prop :=
  ∀ r, r ∈ resources_of o' → ∃ r', r' ∈ resources_of o ∧ unplaced r = unplaced r' ∧
    (¬ on_host r → r = r').

Record well_bound (a : Authority) : Prop := {
  wb_operation : validate_operation (au_Operation a) = Ok tt;
  wb_profile : validate_profile (au_Profile a) = Ok tt;
  wb_required : op_Required (au_Operation a) = au_Required a;
  wb_tool : pr_Tool (au_Profile a) = op_Tool (au_Operation a);
  wb_hosts : ∀ r, r ∈ resources_of (au_Operation a) → on_host r →
    is_Some (au_hostPaths a !! resourceKey r);
}.

Section evolution.
Context `{Disk, NilRules, UrlSyntax, Unicode, BashSyntax}.

(** An authority that was given evidence and amended ceilings. *)
Inductive evolved (a : Authority) : Authority → Prop :=
  | evolved_none : evolved a a
  | evolved_bind b e c : evolved a b → Bind b e = Ok c → evolved a c
  | evolved_profile b p c : evolved a b → WithProfile b p = Ok c → evolved a c.

Lemma build_Ok input sources o :
  buildExecutionOperation input sources = Ok o →
  validate_operation o = Ok tt ∧ op_ID o = pp_CallID (oi_Invocation input) ∧
  op_Tool o = pp_Tool (oi_Invocation input) ∧ op_Subject o = pp_Subject (oi_Invocation input) ∧
  op_Required o = oi_Required input.
Proof.
  unfold buildExecutionOperation.
  intros (root & _ & (l & _ & (d & _ & (Hv & ->)%finalize_Ok)%bind_Ok)%bind_Ok)%bind_Ok. done.
Qed.

Lemma frozen_hosts roots candidates l hosts hosts' :
  foldM (freeze_host roots candidates) l hosts = Ok hosts' →
  (∀ key, is_Some (hosts !! key) → is_Some (hosts' !! key)) ∧
  ∀ r, r ∈ l → on_host r → is_Some (hosts' !! resourceKey r).
Proof.
  revert hosts. induction l as [|r l IH]; intros hosts; cbn [foldM].
  { intros [= <-]. split; [done|]. by intros r ?%elem_of_nil. }
  intros (h & Hh & [Hk Hr]%IH)%bind_Ok.
  assert ((∀ key, is_Some (hosts !! key) → is_Some (h !! key)) ∧ (on_host r → is_Some (h !! resourceKey r)))
    as [Hk' Hr'].
  { unfold freeze_host in Hh. destruct (or_Namespace r == NamespaceHostToolchain) eqn:E; cbn [negb] in Hh.
    - apply bind_Ok in Hh as ([] & He%refuse_Ok & [= <-]). apply String.eqb_neq in He. split.
      + intros key Hs. destruct (list_find _ _) as [[? c]|]; [|done].
        rewrite lookup_insert_is_Some'. by right.
      + intros _. match goal with |- is_Some (?m !! ?k) => destruct (m !! k) eqn:El; [done|] end.
        by rewrite lookup_total_alt, El in He.
    - injection Hh as <-. split; [done|]. apply String.eqb_neq in E. by intros Hn%E. }
  split; [eauto|]. intros r' [-> |Hin]%elem_of_cons Hon; eauto.
Qed.

Lemma Compile_well_bound input a : Compile input = Ok a → well_bound a.
Proof.
  intros (runtime & (_ & Ha & _)%guards_admit & (Hv & Hd)%compiled_ceiling_declared & Ho & Hh)%Compile_Ok.
  apply build_Ok in Ho as (Ho & _ & Ht & _ & Hr). apply frozen_hosts in Hh as [_ Hh].
  constructor; try done. rewrite Ht. cbn. destruct (db_call _ _ Hd) as [-> _].
  symmetry. by apply Ha.
Qed.

(** Controls but for the origin of artifacts. *)
Definition but_origin (c : Controls) : Controls := set_ct_ArtifactOrigin "" c.

Lemma resources_of_clone o : resources_of (clone o) = resources_of o.
Proof. unfold resources_of, clone. cbn. by destruct (op_Resources o) as [[]|]. Qed.

Lemma Bind_Ok a e c :
  Bind a e = Ok c →
  validate_operation (au_Operation c) = Ok tt ∧ au_Profile c = au_Profile a ∧
  au_hostPaths c = au_hostPaths a ∧ resources_of (au_Operation c) = resources_of (au_Operation a) ∧
  op_Required (au_Operation c) = au_Required c ∧
  but_origin (au_Required c) = but_origin (au_Required a) ∧
  call_of (au_Operation c) = call_of (au_Operation a).
Proof.
  unfold Bind, finalize_authority.
  intros ([] & _ & (process & Hp & (file & Hf & (o & (Hv & ->)%finalize_Ok & <-%Ok_inj)%bind_Ok)%bind_Ok)%bind_Ok)%bind_Ok.
  cbn [au_Operation au_Profile au_hostPaths au_Required]. split; [done|].
  do 2 (split; [done|]). split; [exact (resources_of_clone _)|]. split; [done|].
  split; [by destruct (ev_Artifact e)|]. unfold call_of. cbn in *. f_equal; [f_equal|].
  - destruct (ev_ProcessCommandDigest e == ""); [by injection Hp as <-|].
    destruct (op_Process _) as [[]|]; [|done]. by apply bind_Ok in Hp as (_ & _ & [= <-]).
  - destruct (op_File _); [by injection Hf as <-|]. by apply bind_Ok in Hf as (_ & _ & [= <-]).
Qed.

(** A resource that may have been moved on the host. *)
Definition moved (r' r : OpResource) : Prop := unplaced r = unplaced r' ∧ (¬ on_host r → r = r').

Lemma rebind_once a candidates rs hosts r rs' hosts' :
  rebind a candidates (rs, hosts) r = Ok (rs', hosts') →
  ∃ r', rs' = rs ++ [r'] ∧ moved r r' ∧ (on_host r' → is_Some (hosts' !! resourceKey r')) ∧
    ∀ key, is_Some (hosts !! key) → is_Some (hosts' !! key).
Proof.
  unfold rebind. destruct (or_Namespace r == NamespaceHostToolchain) eqn:E; cbn [negb].
  - destruct (au_hostPaths a !! resourceKey r) as [path|]; [|done].
    intros ([] & _ & [= <- <-])%bind_Ok. apply String.eqb_eq in E. eexists. split; [done|].
    split; [split; [done|]; by intros []|]. split.
    + intros _. rewrite lookup_insert_is_Some'. by left.
    + intros key Hk. rewrite lookup_insert_is_Some'. by right.
  - intros [= <- <-]. apply String.eqb_neq in E. exists r. by repeat (split; [done|]).
Qed.

Lemma rebind_all a candidates l rs hosts rs' hosts' :
  foldM (rebind a candidates) l (rs, hosts) = Ok (rs', hosts') →
  (∀ r, r ∈ rs → on_host r → is_Some (hosts !! resourceKey r)) →
  ∀ r, r ∈ rs' → (r ∈ rs ∨ ∃ r', r' ∈ l ∧ moved r' r) ∧
    (on_host r → is_Some (hosts' !! resourceKey r)).
Proof.
  revert rs hosts. induction l as [|x l IH]; intros rs hosts; cbn [foldM].
  { intros [= <- <-] Hi r Hr. split; [by left|eauto]. }
  intros ([rs1 hosts1] & (x' & -> & Hm & Hx & Hk)%rebind_once & Hf)%bind_Ok Hi r Hr.
  destruct (IH _ _ Hf) with r as [Hin Hon]; [|done|].
  { intros y [Hy| ->%list_elem_of_singleton]%elem_of_app; eauto. }
  split; [|done]. destruct Hin as [[?| ->%list_elem_of_singleton]%elem_of_app|(r' & ? & ?)];
    [by left|right; exists x; by rewrite elem_of_cons; split; [left|]|right; exists r'].
  rewrite elem_of_cons. by split; [right|].
Qed.

Lemma WithProfile_Ok a p c :
  WithProfile a p = Ok c →
  well_bound a → well_bound c ∧ au_Profile c = p ∧ au_Required c = au_Required a ∧
  call_of (au_Operation c) = call_of (au_Operation a) ∧
  same_resources (au_Operation a) (au_Operation c).
Proof.
  unfold WithProfile, finalize_authority. intros ([] & Hp & ([] & Ht%require_Ok & ([] & _ &
    ([items hosts] & Hr & (o & (Hv & ->)%finalize_Ok & <-%Ok_inj)%bind_Ok)%bind_Ok)%bind_Ok)%bind_Ok)%bind_Ok Hb.
  apply String.eqb_eq in Ht. rewrite resources_of_clone in Hr.
  pose proof (λ H, rebind_all _ _ _ _ _ _ _ Hr H) as Hall.
  specialize (Hall ltac:(by intros ? ?%elem_of_nil)).
  assert (∀ r, r ∈ default [] (copied (Some (normalizeResources items))) → r ∈ items) as Hin.
  { intros r. destruct (normalizeResources items) as [|x l] eqn:En; cbn.
    - by intros ?%elem_of_nil.
    - rewrite <-En. apply elem_of_normalizeResources. }
  split; [|split; [done|split; [done|split]]].
  - constructor; cbn [au_Operation au_Profile au_hostPaths au_Required]; try done.
    + exact (wb_required _ Hb).
    + rewrite Ht. exact (wb_tool _ Hb).
    + intros r Hr'%Hin. by apply Hall.
  - unfold call_of. cbn. by destruct (op_File (au_Operation a)).
  - intros r Hr'%Hin. destruct (Hall _ Hr') as [[?%elem_of_nil|(r' & ? & [? ?])] _]; [done|]. eauto.
Qed.
End evolution.

Section keeping.
Context `{Disk, NilRules, UrlSyntax, Unicode, BashSyntax}.

Lemma moved_on_host r r' : unplaced r = unplaced r' → on_host r' → on_host r.
Proof. unfold on_host. destruct r, r'. cbn. by intros [= -> _ _ _ _ _ _ _ _ _ _]. Qed.

Lemma same_resources_trans o1 o2 o3 :
  same_resources o1 o2 → same_resources o2 o3 → same_resources o1 o3.
Proof.
  intros H12 H23 r (r2 & (r1 & Hr1 & Hu1 & He1)%H12 & Hu2 & He2)%H23. exists r1.
  split; [done|]. split; [congruence|]. intros Hn. rewrite (He2 Hn). apply He1. intros Hn2.
  apply Hn. by apply (moved_on_host r r2).
Qed.

(** C35: Whatever evidence is bound to a compiled authority and however often its ceiling is amended,
    it stays the authority for the call that was decided: the operation has its call, tool and
    subject, its effect, targets and arguments never change, its resources are those that
    were assessed, moved at most to another root of the host, and its required controls change in
    the origin of artifacts alone. The operation and the ceiling stay valid, belong to the
    same tool, and every resource outside the workspace keeps a frozen path. *)
Theorem authority_keeps_its_call input a b :
  Compile input = Ok a → evolved a b →
  let i := ci_Invocation input in
  (op_ID (au_Operation b) = in_CallID i ∧ op_Tool (au_Operation b) = in_Tool i ∧
   op_Subject (au_Operation b) = pp_Subject (ci_Prepared input)) ∧
  well_bound b ∧ call_of (au_Operation b) = call_of (au_Operation a) ∧
  same_resources (au_Operation a) (au_Operation b) ∧
  but_origin (au_Required b) = but_origin (au_Required a).
Proof.
  intros Hc He i.
  assert (well_bound b ∧ call_of (au_Operation b) = call_of (au_Operation a) ∧
    same_resources (au_Operation a) (au_Operation b) ∧
    but_origin (au_Required b) = but_origin (au_Required a)) as (Hw & Hcall & Hs & Ho).
  { induction He as [|b e c He (Hw & Hcall & Hs & Ho) Hb|b p c He (Hw & Hcall & Hs & Ho) Hb].
    - split; [by apply (Compile_well_bound input)|]. repeat (split; [done|]).
      split; [|done]. intros r Hr. by exists r.
    - apply Bind_Ok in Hb as (Hv & Hp & Hh & Hr & Hq & Ho' & Hc').
      split; [|split; [congruence|split; [|congruence]]].
      + constructor; [done|rewrite Hp; exact (wb_profile _ Hw)|done| |].
        * rewrite Hp, (wb_tool _ Hw). unfold call_of in Hc'. by injection Hc'.
        * rewrite Hr, Hh. exact (wb_hosts _ Hw).
      + intros r. rewrite Hr. apply Hs.
    - apply WithProfile_Ok in Hb as (Hw' & _ & Hr & Hc' & Hs'); [|done].
      split; [done|]. split; [congruence|]. split; [by eapply same_resources_trans|congruence]. }
  split; [|done]. pose proof Hcall as Hid. unfold call_of in Hid. injection Hid as Hi Ht _ _ Hsub _ _ _ _.
  rewrite Hi, Ht, Hsub.
  apply Compile_Ok in Hc as (runtime & (_ & Ha & _)%guards_admit & _ & (_ & -> & -> & -> & _)%build_Ok & _).
  cbn. by destruct Ha as (_ & _ & _ & _ & -> & -> & _).
Qed.
End keeping.

(** ** A concrete compilation *)

Module Bench.
#[export] Instance urls : UrlSyntax := λ s, has_prefix s "https://".
#[export] Instance case : Unicode := ascii_case.
#[export] Instance shell : BashSyntax := λ s, Some [CallExpr [[Lit s]]].
#[export] Instance rules : NilRules := λ _, true.
(** A disk without links, on which nothing can be read. *)
#[export] Instance disk : Disk := {|
  working_directory := Ok "/"; eval_symlinks := λ p, Ok p; regular_file := λ _, false;
  read_file := λ _, None |}.

Definition input_of (host : bool) (l : list Resource) : AssessmentInput :=
  mkInput (mkBinding CapabilityProcess Write true (negb host) false None false)
    (mkDeclared host false false) l.
Definition assess (input : AssessmentInput) : Assessment :=
  default (mkAssessment input (facetsOf input) no_effect "" "") (Assess input).

Definition path (access : Access) (p : string) : Resource :=
  mkResource ClassPath access p (access == Tree) "" None None false "" "".
Definition site : Resource :=
  mkResource ClassNetwork Write "" false "" (Some (mkTarget "https" "example.com" 443)) None false "" "".
Definition process : Resource := mkResource ClassProcess Write "" false "" None None false "make" "".

(** A build: it writes one directory, reads a toolchain and reaches a site. *)
Definition build : Assessment :=
  Eval vm_compute in assess (input_of false [path Tree "/ws/out"; path Read "/usr/include"; site; process]).
(** The same on the host, where neither writes nor targets can be scoped. *)
Definition install : Assessment := Eval vm_compute in assess (input_of true [process]).

Definition runtime (permission : Permission) : Runtime :=
  mkRuntime None 0 1 ModeAct permission false PlanningOff false false false [] [] [] []
    (mkGranular "" "" "" "").
Definition controls : Controls :=
  mkControls "declared_roots" "exact_paths" NetworkDenied ProcessTreeGroupKill "unrestricted"
    PlatformFiltered PlatformFiltered "descriptor_relative" "unverified_path" "memory_only".

Definition input (a : Assessment) (e : Enforcement) (approval : ApprovalRequirement) : CompileInput :=
  let subject := mkSubject SubjectBuiltin "shell" TrustBuiltin (DigestString "shell") 1 in
  mkCompileInput (Some (runtime PermissionAuto))
    (mkInvocation "call-1" "shell" SourceBuiltin "{}" a ApprovalDefault true "/ws" StageCall false None)
    (mkPrepared "call-1" "shell" "{}" a subject zero_controls)
    (mkDecision false ActionAsk "" (ErrText "") LayerPosture approval "") true 1 e
    (mkBackend "seatbelt" true controls true)
    (mkSandboxPolicy false "p" "/ws" ["/usr"] [] [] false 8080 "secret") "" 0.

Definition build_input : CompileInput := input build EnforcementStrong "".
Definition install_input (approval : ApprovalRequirement) : CompileInput :=
  input install EnforcementNone approval.
End Bench.
Import Bench.

(** What the build is granted. *)
Example build_is_granted :
  (a ← Compile build_input;
   let p := au_Profile a in
   Ok (fs_WritePaths (pr_Filesystem p), fs_WorkspaceBaseWrite (pr_Filesystem p),
       na_Targets (pr_Network p), pa_Allowed (pr_Process p), ct_Network (au_Required a),
       or_RelativePath <$> resources_of (au_Operation a)))
  = Ok (["/ws/out"], false, ["https://example.com:443"], true, NetworkProxyTargets,
        ["."; ""; ""; "out"]).
Proof. vm_compute. reflexivity. Qed.

(** An execution on the host needs a fresh approval of the command. *)
Lemma install_compiles : is_ok (Compile (install_input ApprovalFreshOnce)) = true.
Proof. vm_compute. reflexivity. Qed.
Example install_is_guarded : is_ok (Compile (install_input "")) = false.
Proof. vm_compute. reflexivity. Qed.

Theorem authority_needs_authorization_witness :
  ∃ a, Compile (install_input ApprovalFreshOnce) = Ok a ∧ authorized (install_input ApprovalFreshOnce)
       ∧ pa_Enforcement (pr_Process (au_Profile a)) = EnforcementNone.
Proof.
  destruct (is_ok_Ok _ install_compiles) as [a Ha]. exists a. split; [exact Ha|].
  destruct (authority_needs_authorization _ a Ha) as (runtime & _ & Hau & He & _).
  split; [exact Hau|exact He].
Defined.

Lemma build_compiles : is_ok (Compile build_input) = true.
Proof. vm_compute. reflexivity. Qed.

Theorem ceiling_is_declared_witness :
  ∃ a, Compile build_input = Ok a ∧ fs_WritePaths (pr_Filesystem (au_Profile a)) = ["/ws/out"]
       ∧ na_Targets (pr_Network (au_Profile a)) = ["https://example.com:443"].
Proof.
  destruct (is_ok_Ok _ build_compiles) as [a Ha]. exists a. split; [exact Ha|].
  destruct (ceiling_is_declared _ a Ha) as (_ & Hd & _).
  rewrite (db_writes _ _ Hd), (db_targets _ _ Hd). split; vm_compute; reflexivity.
Defined.

(** The build with the digest of its command and a ceiling amended by another read. *)
Definition evolve : res error (Authority * Authority * Authority) :=
  a ← Compile build_input;
  b ← Bind a (mkEvidence (DigestString "make") None "");
  p ← amend_for (au_Profile b)
        (mkDenial "seatbelt" "read" "/usr" "path_read_not_authorized" "" 0);
  c ← WithProfile b p;
  Ok (a, b, c).

Lemma build_evolves : is_ok evolve = true.
Proof. vm_compute. reflexivity. Qed.

Theorem authority_keeps_its_call_witness :
  ∃ a b, Compile build_input = Ok a ∧ evolved a b ∧ well_bound b ∧ op_ID (au_Operation b) = "call-1"
         ∧ call_of (au_Operation b) = call_of (au_Operation a).
Proof.
  destruct (is_ok_Ok _ build_evolves) as [[[a b] c] He].
  apply bind_Ok in He as (a' & Ha & (b' & Hb & (p & Hp & (c' & Hc & [= -> -> ->])%bind_Ok)%bind_Ok)%bind_Ok).
  exists a, c. split; [exact Ha|].
  assert (evolved a c) as Hev.
  { exact (evolved_profile _ b p c (evolved_bind _ a _ b (evolved_none a) Hb) Hc). }
  destruct (authority_keeps_its_call _ a c Ha Hev) as ((Hid & _) & Hw & Hcall & _).
  split; [exact Hev|]. split; [exact Hw|]. split; [exact Hid|exact Hcall].
Defined.
