(* ===== verification/Prepared.v ===== *)
(** Preparing a process ([platform/process/process.go], [security/sandbox/policy.go], [backend.go]): what
    is asked of a sandbox backend under an execution authority, what a backend that is bound to a
    policy answers, and what of the answer is checked before the process is started.

    The environment of the process, the search for its executable and the backend itself are
    parameters. *)
From S2P Require Import Prelude.
From S2P Require Import GoStrings.
From S2P Require Import Paths.
From S2P Require Import PathPattern.
From S2P Require Import Netpolicy.
From S2P Require Import SecurityModel.
From S2P Require Import Controls.
From S2P Require Import ExecAuthority.
From S2P Require Import Operation.
From S2P Require Import Profile.
From S2P Require Import Compile.

(** ** Refusals ([security/sandbox/denial.go]) *)

(** An error: a text, an unavailable backend with the reason, a denial or an invalid denial, with
    the cause. *)
Inductive refusal :=
  | Plain (e : error)
  | Unavailable (capability : Backend) (reason : option error)
  | DeniedBy (denial : Denial) (cause : option refusal)
  | JoinedWith (e : error) (cause : option refusal).

Definition DenialRead : string := "read".
Definition DenialWrite : string := "write".
Definition DenialNetwork : string := "network".
Definition DenialProcess : string := "process".

Definition ReasonPathReadNotAuthorized : string := "path_read_not_authorized".
Definition ReasonPathWriteNotAuthorized : string := "path_write_not_authorized".
Definition ReasonNetworkNotAuthorized : string := "network_target_not_authorized".
Definition ReasonProcessNotAuthorized : string := "process_capability_not_authorized".
Definition ReasonWorkspaceTreeDenied : string := "workspace_tree_write_denied".
Definition ReasonEnforcementMismatch : string := "enforcement_mismatch".
Definition ReasonBackendUnavailable : string := "backend_unavailable".
Definition ReasonAuthorityUnverified : string := "authority_unverified".
Definition ReasonRestrictionUnenforced : string := "restriction_unenforced".

Definition validate_denial (d : Denial) : res error unit :=
  refuse ((dn_Operation d == "") || blank (dn_Resource d) || blank (dn_ReasonCode d))
    (ErrText "sandbox denial requires operation, resource, and reason");;
  require (contains [DenialRead; DenialWrite; DenialNetwork; DenialProcess] (dn_Operation d))
    (ErrText "sandbox denial operation is invalid").

Definition Denied (d : Denial) (cause : option refusal) : refusal :=
  match validate_denial d with
  | Ok _ => DeniedBy d cause
  | Err e => JoinedWith e cause
  end.

(** [errors.As] finds the outermost denial. *)
Fixpoint typed_denial (r : refusal) : option (Denial * option refusal) :=
  match r with
  | DeniedBy d cause => Some (d, cause)
  | JoinedWith _ (Some cause) => typed_denial cause
  | _ => None
  end.

Definition DenialFromError (r : refusal) : option Denial :=
  '(d, _) ← typed_denial r;
  if is_ok (validate_denial d) then Some d else None.

Definition WithDenialBackend (r : refusal) (backend : string) : refusal :=
  match DenialFromError r, typed_denial r with
  | Some d, Some (_, cause) =>
      DeniedBy (if dn_Backend d == "" then
                  mkDenial (trim_space backend) (dn_Operation d) (dn_Resource d) (dn_ReasonCode d)
                    (dn_Protocol d) (dn_Port d)
                else d) cause
  | _, _ => r
  end.

(** ** Commands ([security/sandbox/backend.go]) *)

Record Command := mkCommand {
  cm_FullAccess : bool;
  cm_Path : string;
  cm_Args : list string;
  cm_Dir : string;
  cm_Env : list string;
  cm_DirectoryFD : Z;
  cm_WorkspaceReadOnly : bool;
  cm_AdditionalReadPaths : list string;
  cm_WorkspaceWritePaths : list string;
  cm_WorkspaceHiddenPaths : list string;
  cm_DenyNetwork : bool;
  cm_AllowLoopback : bool;
  cm_LoopbackOnly : bool;
  cm_AuthorityDigest : string;
  cm_CompiledNetwork : string;
  cm_PreparedPolicyID : string;
  cm_PreparedAuthorityDigest : string;
  cm_PreparedControls : Controls;
  cm_PreparedReadOnly : bool;
  cm_PreparedReadPaths : list string;
  cm_PreparedWritePaths : list string;
  cm_PreparedHiddenPaths : list string;
  cm_PreparedNetworkDenied : bool;
  cm_PreparedLoopbackAllowed : bool;
  cm_PreparedProxyPort : Z;
  cm_SessionProxyPort : Z;
  cm_SessionProxyCredential : string;
}.

(** A backend with its policy, which is the zero value, without an identity, for one that has
    none. *)
Record SandboxBackend := mkSandboxBackend {
  bk_Capability : Backend;
  bk_Policy : SandboxPolicy;
  bk_Prepare : Command → res refusal Command;
}.

Definition BackendPolicy (b : option SandboxBackend) : option SandboxPolicy :=
  b ← b; if sp_ID (bk_Policy b) == "" then None else Some (bk_Policy b).

Definition backendName (b : option SandboxBackend) : string :=
  match b with Some b => cp_Backend (bk_Capability b) | None => "none" end.

Definition eta_cm (c : Command) : Command :=
  mkCommand (cm_FullAccess c) (cm_Path c) (cm_Args c) (cm_Dir c) (cm_Env c) (cm_DirectoryFD c)
    (cm_WorkspaceReadOnly c) (cm_AdditionalReadPaths c) (cm_WorkspaceWritePaths c)
    (cm_WorkspaceHiddenPaths c) (cm_DenyNetwork c) (cm_AllowLoopback c) (cm_LoopbackOnly c)
    (cm_AuthorityDigest c) (cm_CompiledNetwork c) (cm_PreparedPolicyID c)
    (cm_PreparedAuthorityDigest c) (cm_PreparedControls c) (cm_PreparedReadOnly c)
    (cm_PreparedReadPaths c) (cm_PreparedWritePaths c) (cm_PreparedHiddenPaths c)
    (cm_PreparedNetworkDenied c) (cm_PreparedLoopbackAllowed c) (cm_PreparedProxyPort c)
    (cm_SessionProxyPort c) (cm_SessionProxyCredential c).

Definition set_cm_Path : string → Command → Command := ltac:(field_setter eta_cm cm_Path).
Definition set_cm_Args : list string → Command → Command := ltac:(field_setter eta_cm cm_Args).
Definition set_cm_Env : list string → Command → Command := ltac:(field_setter eta_cm cm_Env).
Definition set_cm_PreparedPolicyID : string → Command → Command :=
  ltac:(field_setter eta_cm cm_PreparedPolicyID).
Definition set_cm_PreparedAuthorityDigest : string → Command → Command :=
  ltac:(field_setter eta_cm cm_PreparedAuthorityDigest).
Definition set_cm_PreparedControls : Controls → Command → Command :=
  ltac:(field_setter eta_cm cm_PreparedControls).

(** ** The network of a command ([security/sandbox/policy.go]) *)

Definition with_network (allow : bool) (port : Z) (credential : string) (p : SandboxPolicy)
    : SandboxPolicy :=
  mkSandboxPolicy (sp_FullAccess p) (sp_ID p) (sp_WorkspaceRoot p) (sp_RuntimeReadRoots p)
    (sp_HostReadRoots p) (sp_HostReadFiles p) allow port credential.

Definition CommandNetworkPolicy (p : SandboxPolicy) (c : Command) : SandboxPolicy :=
  let p :=
    if cm_FullAccess c then
      let proxied := cm_CompiledNetwork c == NetworkProxyTargets in
      mkSandboxPolicy true (sp_ID p) (sp_WorkspaceRoot p) (sp_RuntimeReadRoots p)
        (sp_HostReadRoots p) (sp_HostReadFiles p) (cm_CompiledNetwork c == NetworkDirect)
        (if proxied then sp_ManagedProxyPort p else 0)
        (if proxied then sp_ManagedProxyCredential p else "")
    else p in
  if cm_DenyNetwork c || cm_LoopbackOnly c then with_network false 0 "" p else p.

Definition ApplySessionProxyPort (p : SandboxPolicy) (c : Command) : SandboxPolicy :=
  let p := CommandNetworkPolicy p c in
  if negb (cm_SessionProxyPort c =? 0) && negb (sp_ManagedProxyPort p =? 0)
  then with_network (sp_AllowNetwork p) (cm_SessionProxyPort c) (cm_SessionProxyCredential c) p
  else p.

(** The flags a backend emits. *)
Definition requested_network (p : SandboxPolicy) (c : Command) : string :=
  if cm_DenyNetwork c then NetworkDenied
  else if negb (sp_ManagedProxyPort p =? 0) then NetworkProxyTargets
  else if cm_AllowLoopback c then NetworkLoopbackAny
  else if sp_AllowNetwork p then NetworkDirect
  else NetworkDenied.

Definition only_network (network : string) : Controls :=
  mkControls "" "" network "" "" "" "" "" "" "".

Definition command_network (capability : Backend) (requested : string) (c : Command)
    (controls : Controls) : res error Controls :=
  if cm_AuthorityDigest c != "" then
    refuse (cm_CompiledNetwork c == "") (ErrText "command has no compiled network control");;
    refuse (negb (backend_enforces capability requested)
            && negb (cm_FullAccess c && (requested == NetworkDirect)))
      (ErrText "backend cannot enforce the command network control");;
    let controls := set_ct_Network requested controls in
    match SatisfiedBy (only_network (cm_CompiledNetwork c)) controls with
    | Ok _ => Ok controls
    | Err e => Err (ErrWrap "command network exceeds compiled control: %w" [] e)
    end
  else Ok (if backend_enforces capability requested then set_ct_Network requested controls else controls).

Definition set_ct_FilesystemWrite (write : string) (c : Controls) : Controls :=
  mkControls (ct_FilesystemRead c) write (ct_Network c) (ct_ProcessTree c) (ct_CrossProcess c)
    (ct_Syscall c) (ct_IPC c) (ct_PathIdentity c) (ct_ArtifactOrigin c) (ct_DurableRecovery c).

Definition desired_write (c : Command) : string :=
  if cm_WorkspaceReadOnly c then
    if empty (cm_WorkspaceWritePaths c) then "denied" else "exact_paths"
  else "workspace_tree".

Definition command_write (c : Command) (controls : Controls) : Controls :=
  if cm_FullAccess c then
    set_ct_FilesystemWrite (if cm_WorkspaceReadOnly c then desired_write c else "unrestricted") controls
  else if CanEnforceFilesystemWrite (ct_FilesystemWrite controls) (desired_write c)
  then set_ct_FilesystemWrite (desired_write c) controls
  else controls.

Definition CommandControls (capability : Backend) (p : SandboxPolicy) (c : Command)
    : res error Controls :=
  let p := CommandNetworkPolicy p c in
  let k := cp_Effective capability in
  controls ←
    (if cm_FullAccess c then
       refuse (negb (cp_Available capability) || (cp_Backend capability != "seatbelt")
               || (cm_AuthorityDigest c == ""))
         (ErrText "full access requires an authorized Seatbelt execution");;
       Ok (mkControls "unrestricted" (ct_FilesystemWrite k) (ct_Network k) (ct_ProcessTree k)
             (ct_CrossProcess k) "unrestricted" PlatformFiltered (ct_PathIdentity k)
             (ct_ArtifactOrigin k) (ct_DurableRecovery k))
     else Ok k);
  controls ← command_network capability (requested_network p c) c controls;
  Ok (command_write c controls).

(** The backend [BindPolicy] makes of one without a policy. *)
Definition policyBinding (b : SandboxBackend) (p : SandboxPolicy) : SandboxBackend :=
  mkSandboxBackend (bk_Capability b) p (λ c,
    prepared ← bk_Prepare b c;
    match CommandControls (bk_Capability b) p c with
    | Err e => Err (Plain e)
    | Ok controls =>
        Ok (prepared |> set_cm_PreparedPolicyID (sp_ID p)
                     |> set_cm_PreparedAuthorityDigest (cm_AuthorityDigest c)
                     |> set_cm_PreparedControls controls)
    end).

(** ** Requirements of a backend *)

Definition DefaultProcessRequirements : Controls :=
  mkControls "declared_roots" "exact_paths" NetworkDenied ProcessTreeGroupKill "" "" ""
    "descriptor_relative" "" "".

(** The platform in the report of a missing backend is left out. *)
Definition no_backend : Backend := mkBackend "none" false zero_controls false.

Definition RequireControls (b : option SandboxBackend) (required : Controls) : res refusal unit :=
  let capability := from_option bk_Capability no_backend b in
  if negb (cp_Available capability) then Err (Unavailable capability None)
  else match SatisfiedBy required (cp_Effective capability) with
       | Ok _ => Ok tt
       | Err e => Err (Unavailable capability (Some e))
       end.

(** ** Starting a process ([platform/process/process.go]) *)

Definition POSIXShellPath : string := "/bin/sh".

(** [process.Options], as far as a command depends on it; [os_DirFile]: a pinned directory is given. *)
Record Options := mkOptions {
  os_Command : string;
  os_Path : string;
  os_Args : list string;
  os_Dir : string;
  os_DirFile : bool;
  os_Sandbox : option SandboxBackend;
  os_RequireSandbox : bool;
  os_WorkspaceReadOnly : bool;
  os_AdditionalReadPaths : list string;
  os_WorkspaceWritePaths : list string;
  os_WorkspaceHiddenPaths : list string;
  os_DenyNetwork : bool;
  os_NetworkHost : string;
  os_NetworkProtocol : string;
  os_NetworkPort : Z;
  os_SessionProxyPort : Z;
  os_SessionProxyCredential : string;
}.

Definition eta_os (o : Options) : Options :=
  mkOptions (os_Command o) (os_Path o) (os_Args o) (os_Dir o) (os_DirFile o) (os_Sandbox o)
    (os_RequireSandbox o) (os_WorkspaceReadOnly o) (os_AdditionalReadPaths o)
    (os_WorkspaceWritePaths o) (os_WorkspaceHiddenPaths o) (os_DenyNetwork o) (os_NetworkHost o)
    (os_NetworkProtocol o) (os_NetworkPort o) (os_SessionProxyPort o) (os_SessionProxyCredential o).
Definition set_os_AdditionalReadPaths : list string → Options → Options :=
  ltac:(field_setter eta_os os_AdditionalReadPaths).
Definition set_os_DenyNetwork : bool → Options → Options := ltac:(field_setter eta_os os_DenyNetwork).

(** The environment of a process before the proxy is put in, [sandbox.ResolveExecutable], and the
    text of a proxy's URL. *)
Class ProcessHost : Type := {
  process_environment : Options → option ExecutionAuthority → res refusal (list string);
  ResolveExecutable : string → list string → res refusal string;
  ManagedProxyURL : Z → string → string;
}.

Definition denial (operation resource reason : string) : Denial :=
  mkDenial "" operation resource reason "" 0.

Section process.
Context `{Disk, Unicode, ProcessHost}.

Definition target_of (o : Options) : string :=
  to_lower (os_NetworkProtocol o) +:+ "://"
  +:+ join_host_port (to_lower (os_NetworkHost o)) (itoa (os_NetworkPort o)).

(** Whether an authority fits the enforcement that is asked for. *)
Definition enforcement_fits (o : Options) (a : ExecutionAuthority) : res refusal unit :=
  if ea_Enforcement a == EnforcementStrong then
    refuse (negb (os_RequireSandbox o) || negb (bool_decide (is_Some (os_Sandbox o))))
      (Denied (denial DenialProcess "strong_sandbox" ReasonEnforcementMismatch)
         (Some (Plain (ErrText "strong execution authority requires strong sandbox enforcement"))))
  else if ea_Enforcement a == EnforcementNone then
    refuse (os_RequireSandbox o)
      (Denied (denial DenialProcess "unsandboxed" ReasonEnforcementMismatch)
         (Some (Plain (ErrText "unsandboxed execution authority cannot request a strong sandbox"))))
  else Ok tt.

Definition lift_error {A} (r : res error A) : res refusal A :=
  match r with Ok a => Ok a | Err e => Err (Plain e) end.

Definition validateExecutionAuthority (o : Options) (a : ExecutionAuthority) : res refusal unit :=
  lift_error (validate_authority a);;
  enforcement_fits o a;;
  require (ea_AllowProcess a)
    (Denied (denial DenialProcess "process" ReasonProcessNotAuthorized) None);;
  refuse (negb (ea_WorkspaceBaseWrite a) && negb (os_WorkspaceReadOnly o))
    (Denied (denial DenialWrite (ea_WorkspaceRoot a) ReasonWorkspaceTreeDenied) None);;
  (match DeniedReadPath a (os_AdditionalReadPaths o) with
   | Some path => Err (Denied (denial DenialRead path ReasonPathReadNotAuthorized) None)
   | None => Ok tt
   end);;
  (match DeniedWritePath a (os_WorkspaceWritePaths o) with
   | Some path => Err (Denied (denial DenialWrite path ReasonPathWriteNotAuthorized) None)
   | None => Ok tt
   end);;
  refuse ((os_NetworkHost o != "") && negb (contains (ea_NetworkTargets a) (target_of o)))
    (Denied (mkDenial "" DenialNetwork (os_NetworkHost o) ReasonNetworkNotAuthorized
               (os_NetworkProtocol o) (os_NetworkPort o)) None);;
  refuse (negb (ea_AllowNetwork a) && negb (os_DenyNetwork o)
          && from_option sp_AllowNetwork true (BackendPolicy (os_Sandbox o)))
    (Plain (ErrText "process network access exceeds the effective permission profile"));;
  (match BackendPolicy (os_Sandbox o) with
   | Some policy =>
       refuse (negb (os_DenyNetwork o)
               && negb (ea_ManagedProxyPort a =? sp_ManagedProxyPort policy)
               && negb (LoopbackOnly a)
               && negb (ea_FullAccess a && (ct_Network (ea_EffectiveControls a) == NetworkDirect)))
         (Denied (denial DenialNetwork "managed_proxy" ReasonAuthorityUnverified)
            (Some (Plain (ErrText "managed proxy does not match the effective permission profile"))))
   | None => Ok tt
   end).

Definition plain_lookup (r : res LookupError string) : res error string :=
  match r with Ok path => Ok path | Err e => Err (le_error e) end.

Definition canonicalReadPaths (paths : list string) : res error (list string) :=
  resolved ← mapM (λ path, r ← plain_lookup (eval_symlinks path); a ← abs_path r; Ok (clean a)) paths;
  Ok (compact (sort_strings resolved)).

(** [strings.Cut(entry, "=")]. *)
Fixpoint entry_name (entry : string) : string :=
  match entry with
  | String a entry => if Ascii.eqb a "="%char then "" else String a (entry_name entry)
  | "" => ""
  end.

Definition proxyEnvironmentEntry (entry : string) : bool :=
  contains ["HTTP_PROXY"; "HTTPS_PROXY"; "ALL_PROXY"; "NO_PROXY"] (to_upper (entry_name entry)).

Definition applyManagedProxyEnvironment (environment : list string) (p : SandboxPolicy)
    (denyNetwork : bool) : list string :=
  filter (λ entry, negb (proxyEnvironmentEntry entry) = true) environment
  ++ (if negb (sp_ManagedProxyPort p =? 0) && negb denyNetwork then
        let url := ManagedProxyURL (sp_ManagedProxyPort p) (sp_ManagedProxyCredential p) in
        ["HTTP_PROXY=" +:+ url; "HTTPS_PROXY=" +:+ url; "http_proxy=" +:+ url; "https_proxy=" +:+ url;
         "NO_PROXY="; "no_proxy="]
      else []).

Definition unenforcedRestriction (b : SandboxBackend) (resource : string) : refusal :=
  Denied (mkDenial (backendName (Some b)) DenialProcess resource ReasonRestrictionUnenforced "" 0) None.

(** The flags of a command, from the options and the bound authority. *)
Definition command_spec (o : Options) (authority : option ExecutionAuthority)
    (environment : list string) : Command :=
  {| cm_FullAccess := from_option ea_FullAccess false authority;
     cm_Path := if os_Path o != "" then os_Path o else POSIXShellPath;
     cm_Args := if os_Path o != "" then os_Path o :: os_Args o
                else [POSIXShellPath; "-c"; os_Command o];
     cm_Dir := os_Dir o; cm_Env := environment;
     cm_DirectoryFD := if os_DirFile o then 3 else 0;
     cm_WorkspaceReadOnly := os_WorkspaceReadOnly o;
     cm_AdditionalReadPaths := os_AdditionalReadPaths o;
     cm_WorkspaceWritePaths := os_WorkspaceWritePaths o;
     cm_WorkspaceHiddenPaths := os_WorkspaceHiddenPaths o;
     cm_DenyNetwork := os_DenyNetwork o;
     cm_AllowLoopback := from_option ea_AllowLoopback false authority && negb (os_DenyNetwork o);
     cm_LoopbackOnly := from_option LoopbackOnly false authority;
     cm_AuthorityDigest := from_option ea_Digest "" authority;
     cm_CompiledNetwork := from_option (λ a, ct_Network (ea_EffectiveControls a)) "" authority;
     cm_PreparedPolicyID := ""; cm_PreparedAuthorityDigest := ""; cm_PreparedControls := zero_controls;
     cm_PreparedReadOnly := false; cm_PreparedReadPaths := []; cm_PreparedWritePaths := [];
     cm_PreparedHiddenPaths := []; cm_PreparedNetworkDenied := false;
     cm_PreparedLoopbackAllowed := false; cm_PreparedProxyPort := 0;
     cm_SessionProxyPort := os_SessionProxyPort o;
     cm_SessionProxyCredential := os_SessionProxyCredential o |}.

(** What an authority must find in a prepared command, which it completes. *)
Definition verify_authority (b : SandboxBackend) (a : ExecutionAuthority) (c : Command)
    : res refusal Command :=
  let '(controls, verdict) := VerifyPrepared a (cm_PreparedControls c) in
  (match verdict with
   | Ok _ => Ok tt
   | Err e =>
       Err (Denied (mkDenial (cp_Backend (bk_Capability b)) DenialProcess "required_controls"
                      ReasonBackendUnavailable "" 0) (Some (Plain e)))
   end);;
  require (cm_PreparedAuthorityDigest c == ea_Digest a)
    (Denied (mkDenial (cp_Backend (bk_Capability b)) DenialProcess (ea_Digest a)
               ReasonAuthorityUnverified "" 0)
       (Some (Plain (ErrText "sandbox backend returned an unverified execution authority"))));;
  require (Bool.eqb (cm_FullAccess c) (ea_FullAccess a)) (unenforcedRestriction b "execution_access");;
  Ok (set_cm_PreparedControls controls c).

(** The port a command is expected to reach the proxy on. *)
Definition expected_proxy_port (o : Options) (authority : option ExecutionAuthority)
    (p : SandboxPolicy) (c : Command) : Z :=
  if negb (cm_SessionProxyPort c =? 0) then cm_SessionProxyPort c
  else if os_DenyNetwork o || from_option (λ a, ea_ManagedProxyPort a =? 0) false authority then 0
  else sp_ManagedProxyPort p.

(** What was asked of the backend must be reported as enforced. *)
Definition check_restrictions (b : SandboxBackend) (o : Options)
    (authority : option ExecutionAuthority) (p : SandboxPolicy) (c : Command) : res refusal unit :=
  refuse (os_WorkspaceReadOnly o && negb (cm_PreparedReadOnly c))
    (unenforcedRestriction b "workspace_read_only");;
  require (bool_decide (os_AdditionalReadPaths o = cm_PreparedReadPaths c))
    (unenforcedRestriction b "additional_read_paths");;
  require (bool_decide (os_WorkspaceWritePaths o = cm_PreparedWritePaths c))
    (Plain (ErrText "sandbox backend did not enforce exact workspace write paths"));;
  require (bool_decide (os_WorkspaceHiddenPaths o = cm_PreparedHiddenPaths c))
    (Plain (ErrText "sandbox backend did not enforce hidden workspace paths"));;
  refuse (os_DenyNetwork o && negb (cm_PreparedNetworkDenied c))
    (Plain (ErrText "sandbox backend did not enforce network isolation"));;
  require (Bool.eqb (cm_PreparedLoopbackAllowed c)
             (from_option ea_AllowLoopback false authority && negb (os_DenyNetwork o)))
    (unenforcedRestriction b "loopback_network");;
  require (cm_PreparedProxyPort c =? expected_proxy_port o authority p c)
    (unenforcedRestriction b "managed_network_proxy").

(** The command a backend prepared, checked. *)
Definition sandboxed (b : SandboxBackend) (o : Options) (authority : option ExecutionAuthority)
    (environment : list string) (c : Command) : res refusal Command :=
  resolved ← ResolveExecutable (cm_Path c) environment;
  let c := c |> set_cm_Path resolved |> set_cm_Args (resolved :: tail (cm_Args c)) in
  refuse (os_RequireSandbox o && negb (bool_decide (is_Some (BackendPolicy (Some b)))))
    (Plain (ErrText "strong sandbox backend has no prepared policy identity"));;
  let p := ApplySessionProxyPort (bk_Policy b) c in
  let c := set_cm_Env (applyManagedProxyEnvironment environment p (os_DenyNetwork o)) c in
  prepared ← match bk_Prepare b c with
             | Ok prepared => Ok prepared
             | Err e => Err (WithDenialBackend e (cp_Backend (bk_Capability b)))
             end;
  refuse (os_RequireSandbox o
          && ((cm_PreparedPolicyID prepared == "") || (cm_PreparedPolicyID prepared != sp_ID p)))
    (Plain (ErrText "sandbox backend returned an unverified prepared policy"));;
  verified ← match authority with
             | Some a => verify_authority b a prepared
             | None => Ok prepared
             end;
  check_restrictions b o authority p verified;;
  Ok verified.

(** The guards between the authority and the backend. *)
Definition command_guards (o : Options) (authority : option ExecutionAuthority) : res refusal unit :=
  (if os_RequireSandbox o then
     let required :=
       match authority with
       | Some a =>
           if bool_decide (ea_RequiredControls a = zero_controls) then DefaultProcessRequirements
           else ea_RequiredControls a
       | None => DefaultProcessRequirements
       end in
     (match RequireControls (os_Sandbox o) required with
      | Ok _ => Ok tt
      | Err e =>
          Err (Denied (mkDenial (backendName (os_Sandbox o)) DenialProcess "required_controls"
                         ReasonBackendUnavailable "" 0) (Some e))
      end);;
     require (os_DirFile o)
       (Plain (ErrText "strong sandbox execution requires a pinned workspace cwd descriptor"))
   else Ok tt);;
  refuse (negb (empty (os_WorkspaceWritePaths o)) && negb (os_WorkspaceReadOnly o))
    (Plain (ErrText "workspace write paths require a read-only workspace base"));;
  refuse ((os_WorkspaceReadOnly o || os_DenyNetwork o || negb (empty (os_WorkspaceWritePaths o)))
          && negb (bool_decide (is_Some (os_Sandbox o))))
    (Plain (ErrText "process restrictions require a sandbox backend")).

(** [NewCommand], up to the operating system's command for the result. *)
Definition NewCommand (o : Options) (authority : option ExecutionAuthority) : res refusal Command :=
  reads ← lift_error (canonicalReadPaths (os_AdditionalReadPaths o));
  let o := set_os_AdditionalReadPaths reads o in
  let o := match authority with
           | Some a => if negb (ea_AllowNetwork a) then set_os_DenyNetwork true o else o
           | None => o
           end in
  (match authority with Some a => validateExecutionAuthority o a | None => Ok tt end);;
  environment ← process_environment o authority;
  refuse (blank (os_Dir o)) (Plain (ErrText "child process directory is required"));;
  refuse (Bool.eqb (os_Command o == "") (os_Path o == ""))
    (Plain (ErrText "exactly one of shell command or executable path is required"));;
  refuse ((os_Path o != "") && has_byte (os_Path o) (ascii_of_N 0))
    (Plain (ErrText "executable path contains NUL"));;
  let c := command_spec o authority environment in
  command_guards o authority;;
  c ← match os_Sandbox o with
      | Some b => sandboxed b o authority environment c
      | None => Ok c
      end;
  refuse ((cm_Path c == "") || empty (cm_Args c))
    (Plain (ErrText "sandbox returned an invalid command"));;
  Ok c.
End process.
