(* ===== verification/PreparedLaws.v ===== *)
(** What a prepared process is confined to: whatever the backend answers, a command is only started
    as its authority permits; and a backend bound to the policy an authority was compiled for
    answers with the network the authority was compiled with. *)
From S2P Require Import Prelude.
From S2P Require Import GoStrings.
From S2P Require Import Paths.
From S2P Require Import PathPattern.
From S2P Require Import Netpolicy.
From S2P Require Import SecurityModel.
From S2P Require Import Controls.
From S2P Require Import Commands.
From S2P Require Import Grants.
From S2P Require Import Policy.
From S2P Require Import ExecAuthority.
From S2P Require Import Operation.
From S2P Require Import Profile.
From S2P Require Import ProfileLaws.
From S2P Require Import Compile.
From S2P Require Import CompiledAuthority.
From S2P Require Import AuthorityLaws.
From S2P Require Import Prepared.

(** ** Controls *)

Lemma satisfied_dimension r k spec :
  SatisfiedBy r k = Ok tt → spec ∈ dimensionSpecs → dim_value spec r ≠ "" →
  dim_satisfies spec (dim_value spec r) (dim_value spec k) = true.
Proof.
  unfold SatisfiedBy. intros (_ & _ & (_ & _ & Hs)%bind_Ok)%bind_Ok Hin Hn.
  apply iterM_Ok in Hs. rewrite Forall_forall in Hs. specialize (Hs _ Hin). cbn in Hs.
  destruct (dim_value spec r == "") eqn:E; [by apply String.eqb_eq in E|].
  by destruct (dim_satisfies _ _ _).
Qed.

Lemma satisfied_network r k :
  SatisfiedBy r k = Ok tt → ct_Network r ≠ "" →
  satisfiesNetwork (ct_Network r) (ct_Network k) = true.
Proof.
  intros Hs Hn. refine (satisfied_dimension _ _ (mkDimension "network" "network" _ _ _) Hs _ Hn).
  unfold dimensionSpecs. do 2 right. left.
Qed.

(** A verified command has the controls its authority requires, and no wider network than the
    compiled one. *)
Lemma verified_controls a reported controls :
  VerifyPrepared a reported = (controls, Ok tt) →
  SatisfiedBy (ea_RequiredControls a) controls = Ok tt ∧
  (ea_Enforcement a = EnforcementStrong → ct_Network (ea_EffectiveControls a) ≠ "" →
   satisfiesNetwork (ct_Network (ea_EffectiveControls a)) (ct_Network controls) = true) ∧
  (ea_FullAccess a = true →
   ct_FilesystemWrite controls = ct_FilesystemWrite (ea_EffectiveControls a) ∧
   ct_Network controls = ct_Network (ea_EffectiveControls a)).
Proof.
  unfold VerifyPrepared. set (k := if bool_decide _ then reported else _). clearbody k.
  intros [= <- Hv]. apply bind_Ok in Hv as ([] & H1 & ([] & H2 & H3%refuse_Ok)%bind_Ok).
  split; [done|]. split.
  - intros He Hn. rewrite He in H2. apply String.eqb_neq in Hn. rewrite Hn in H2. cbn in H2.
    destruct (SatisfiedBy _ k) as [[]|] eqn:Es in H2; [|done].
    apply satisfied_network in Es; [done|]. cbn. by apply String.eqb_neq.
  - intros Hf. rewrite Hf in H3. cbn in H3. bools. done.
Qed.









Section confined.
Context `{Disk, Unicode, ProcessHost}.

Lemma lift_error_Ok {A} (r : res error A) x : lift_error r = Ok x ↔ r = Ok x.
Proof. destruct r; cbn; naive_solver. Qed.

(** What the options are checked for against an authority. *)
Record within_authority (o : Options) (a : ExecutionAuthority) : Prop := {
  wa_valid : validate_authority a = Ok tt;
  wa_strong : ea_Enforcement a = EnforcementStrong → os_RequireSandbox o = true ∧ is_Some (os_Sandbox o);
  wa_none : ea_Enforcement a = EnforcementNone → os_RequireSandbox o = false;
  wa_process : ea_AllowProcess a = true;
  wa_base : ea_WorkspaceBaseWrite a = false → os_WorkspaceReadOnly o = true;
  wa_reads : DeniedReadPath a (os_AdditionalReadPaths o) = None;
  wa_writes : DeniedWritePath a (os_WorkspaceWritePaths o) = None;
  wa_target : os_NetworkHost o ≠ "" → contains (ea_NetworkTargets a) (target_of o) = true;
}.

Lemma options_within o a : validateExecutionAuthority o a = Ok tt → within_authority o a.
Proof.
  unfold validateExecutionAuthority. intros ([] & Hv%lift_error_Ok & ([] & He & ([] & Hp%require_Ok &
    ([] & Hb%refuse_Ok & ([] & Hr & ([] & Hw & ([] & Hn%refuse_Ok & _)%bind_Ok)%bind_Ok)%bind_Ok)%bind_Ok)%bind_Ok)%bind_Ok)%bind_Ok.
  unfold enforcement_fits in He. constructor; [done| | |done| |by destruct (DeniedReadPath _ _)|by destruct (DeniedWritePath _ _)|].
  - intros Hs. rewrite Hs in He. cbn in He. apply refuse_Ok in He. bools. split; [done|].
    by apply bool_decide_eq_true in H3.
  - intros Hs. rewrite Hs in He. cbn in He. by apply refuse_Ok in He.
  - intros Hf. rewrite Hf in Hb. cbn in Hb. by apply negb_false_iff in Hb.
  - intros Hh%String.eqb_neq. rewrite Hh in Hn. cbn in Hn. by apply negb_false_iff in Hn.
Qed.

(** The options the command is built from. *)
Definition effective_options (o : Options) (a : ExecutionAuthority) (reads : list string) : Options :=
  let o := set_os_AdditionalReadPaths reads o in
  if negb (ea_AllowNetwork a) then set_os_DenyNetwork true o else o.

(** What the backend reported of a command that is started. *)
Record enforced (b : SandboxBackend) (o : Options) (a : ExecutionAuthority) (c : Command) : Prop := {
  en_policy : os_RequireSandbox o = true →
    sp_ID (bk_Policy b) ≠ "" ∧ cm_PreparedPolicyID c = sp_ID (bk_Policy b);
  en_controls : ∃ reported, VerifyPrepared a reported = (cm_PreparedControls c, Ok tt);
  en_digest : cm_PreparedAuthorityDigest c = ea_Digest a;
  en_access : cm_FullAccess c = ea_FullAccess a;
  en_read_only : os_WorkspaceReadOnly o = true → cm_PreparedReadOnly c = true;
  en_reads : cm_PreparedReadPaths c = os_AdditionalReadPaths o;
  en_writes : cm_PreparedWritePaths c = os_WorkspaceWritePaths o;
  en_hidden : cm_PreparedHiddenPaths c = os_WorkspaceHiddenPaths o;
  en_denied : os_DenyNetwork o = true → cm_PreparedNetworkDenied c = true;
  en_loopback : cm_PreparedLoopbackAllowed c = ea_AllowLoopback a && negb (os_DenyNetwork o);
  en_proxy : cm_SessionProxyPort c = 0 → os_DenyNetwork o = true ∨ ea_ManagedProxyPort a = 0 →
    cm_PreparedProxyPort c = 0;
}.

Lemma policy_of_session p c : sp_ID (ApplySessionProxyPort p c) = sp_ID p.
Proof.
  unfold ApplySessionProxyPort, CommandNetworkPolicy.
  by destruct (cm_FullAccess c), (cm_DenyNetwork c), (cm_LoopbackOnly c); cbn; case_match.
Qed.

Lemma sandboxed_enforces b o a environment c c' :
  sandboxed b o (Some a) environment c = Ok c' → enforced b o a c'.
Proof.
  unfold sandboxed. intros (path & _ & ([] & Hid%refuse_Ok & (prepared & _ & ([] & Hp%refuse_Ok &
    (verified & Hv & ([] & Hc & [= <-])%bind_Ok)%bind_Ok)%bind_Ok)%bind_Ok)%bind_Ok)%bind_Ok.
  rewrite policy_of_session in Hp. cbn in Hid.
  unfold verify_authority in Hv. destruct (VerifyPrepared a (cm_PreparedControls prepared)) as [k verdict] eqn:Ek.
  apply bind_Ok in Hv as ([] & Hk & ([] & Hd%require_Ok & ([] & Hf%require_Ok & [= <-])%bind_Ok)%bind_Ok).
  destruct verdict as [[]|]; [|done]. clear Hk.
  unfold check_restrictions in Hc. apply bind_Ok in Hc as ([] & Q1%refuse_Ok & ([] & Q2%require_Ok &
    ([] & Q3%require_Ok & ([] & Q4%require_Ok & ([] & Q5%refuse_Ok & ([] & Q6%require_Ok & Q7%require_Ok)%bind_Ok)%bind_Ok)%bind_Ok)%bind_Ok)%bind_Ok).
  apply String.eqb_eq in Hd. apply Bool.eqb_prop in Hf, Q6. apply bool_decide_eq_true in Q2, Q3, Q4.
  constructor; try done; cbn.
  - intros Hr. rewrite Hr in Hid, Hp. cbn in Hid, Hp. apply negb_false_iff, bool_decide_eq_true in Hid as [p Hp'].
    bools. cbn in Hp'. split; [|congruence]. intros Hn. by rewrite Hn in Hp'.
  - by exists (cm_PreparedControls prepared).
  - intros Hr. rewrite Hr in Q1. by apply negb_false_iff in Q1.
  - intros Hr. rewrite Hr in Q5. by apply negb_false_iff in Q5.
  - intros Hs Ho. apply Z.eqb_eq in Q7. unfold expected_proxy_port in Q7. cbn in Q7, Hs. rewrite Q7, Hs. cbn.
    destruct Ho as [-> | ->]; [done|]. cbn. by rewrite orb_true_r.
Qed.

(** Whatever backend is used and whatever it answers, a command is only started under an authority
    that is consistent and permits processes, with the enforcement that authority demands, and for
    reads, writes and a target it permits; in a sandbox only if the backend reports, for
    this very authority and its own policy, the controls the authority requires, a network no
    wider than the compiled one, and every restriction that was asked of it: the read-only
    workspace, the exact paths, isolation from the network, local ports and the port of the
    proxy. Without a sandbox there is no restriction left to enforce. *)
Theorem started_command_is_confined o a c :
  NewCommand o (Some a) = Ok c →
  ∃ reads, canonicalReadPaths (os_AdditionalReadPaths o) = Ok reads ∧
    let o' := effective_options o a reads in
    within_authority o' a ∧
    match os_Sandbox o with
    | Some b =>
        enforced b o' a c ∧ SatisfiedBy (ea_RequiredControls a) (cm_PreparedControls c) = Ok tt ∧
        (ea_Enforcement a = EnforcementStrong → ct_Network (ea_EffectiveControls a) ≠ "" →
         satisfiesNetwork (ct_Network (ea_EffectiveControls a)) (ct_Network (cm_PreparedControls c)) = true)
    | None =>
        ea_Enforcement a ≠ EnforcementStrong ∧ ea_AllowNetwork a = true ∧
        os_WorkspaceReadOnly o = false ∧ os_WorkspaceWritePaths o = [] ∧ os_DenyNetwork o = false
    end.
Proof.
  unfold NewCommand. intros (reads & Hr%lift_error_Ok & ([] & Hv & (env & _ & ([] & _ & ([] & _ & ([] & _ &
    ([] & Hg & (c' & Hs & ([] & _ & [= <-])%bind_Ok)%bind_Ok)%bind_Ok)%bind_Ok)%bind_Ok)%bind_Ok)%bind_Ok)%bind_Ok)%bind_Ok.
  exists reads. split; [done|]. fold (effective_options o a reads) in *.
  apply options_within in Hv. split; [done|].
  assert (os_Sandbox (effective_options o a reads) = os_Sandbox o) as Hb.
  { unfold effective_options. by destruct (ea_AllowNetwork a). }
  rewrite Hb in Hs. destruct (os_Sandbox o) as [b|] eqn:Eb.
  - apply sandboxed_enforces in Hs. split; [done|]. destruct (en_controls _ _ _ _ Hs) as [k Hk].
    apply verified_controls in Hk as (? & ? & _). done.
  - unfold command_guards in Hg. apply bind_Ok in Hg as ([] & _ & ([] & _ & Hn%refuse_Ok)%bind_Ok).
    rewrite Hb in Hn. cbn in Hn. rewrite andb_true_r in Hn. bools.
    split. { intros [_ [? ?]]%(wa_strong _ _ Hv). congruence. }
    unfold effective_options in *. destruct (ea_AllowNetwork a); cbn in *; [|done].
    split; [done|]. split; [done|]. split; [|done]. by destruct (os_WorkspaceWritePaths o).
Qed.
End confined.

(** ** The network a ceiling was compiled with *)

Section agreement.
Context `{Disk, NilRules, UrlSyntax, Unicode, BashSyntax, ProcessHost}.




















End agreement.

(** ** A concrete command *)

Import Bench.



